(** * Matiks monitor: ingestion engine

    A shallow embedding of the parts of the scraper that decide its
    rate limiting, relevance filtering, deduplication, cursor handling,
    run orchestration and sentiment scoring, with the properties proved
    about them.

    Conventions of the model.
    - A JavaScript number is a rational ([Q]) with exact arithmetic,
      except where rounding decides the outcome: the token bucket of
      core/rateLimit.ts is kept in IEEE doubles ([PrimFloat.float]).
    - A JavaScript string is a [string] whose characters are the code
      units 0..255.
    - A [Date] is its time value in milliseconds ([Z]); an invalid
      [Date] (time value NaN) is [None].
    - [Date.now()] and timer durations are inputs of the operation that
      reads them.
    - The file is in two parts: the program first, the properties after. *)

From Stdlib Require Import ZArith QArith Qminmax Qround Qabs Lqa Lia.
From Stdlib Require Import String Ascii List Bool Sorted Permutation.
From Stdlib Require PrimFloat.
From stdpp Require Import gmap strings list.

Open Scope string_scope.
Open Scope list_scope.

(* ================================================================== *)
(** * Part I: the program                                              *)
(* ================================================================== *)

(** ** JavaScript string primitives *)

Module JsString.

(** WhiteSpace and LineTerminator code units below 256: TAB, LF, VT,
    FF, CR, SPACE and NBSP. *)
Definition isWhiteSpace (c : ascii) : bool :=
  let n := N_of_ascii c in
  ((9 <=? n) && (n <=? 13) || (n =? 32) || (n =? 160))%N.

Fixpoint trimStart (s : string) : string :=
  match s with
  | EmptyString => EmptyString
  | String c s' => if isWhiteSpace c then trimStart s' else s
  end.

Fixpoint trimEnd (s : string) : string :=
  match s with
  | EmptyString => EmptyString
  | String c s' =>
      match trimEnd s' with
      | EmptyString => if isWhiteSpace c then EmptyString else String c EmptyString
      | t => String c t
      end
  end.

(** [String.prototype.trim] *)
Definition trim (s : string) : string := trimEnd (trimStart s).

(** Lower-casing of one code unit: A-Z and the Latin-1 capitals. *)
Definition lowerChar (c : ascii) : ascii :=
  let n := N_of_ascii c in
  if ((65 <=? n) && (n <=? 90)
      || (192 <=? n) && (n <=? 222) && negb (n =? 215))%N
  then ascii_of_N (n + 32) else c.

(** [String.prototype.toLowerCase] *)
Fixpoint toLowerCase (s : string) : string :=
  match s with
  | EmptyString => EmptyString
  | String c s' => String (lowerChar c) (toLowerCase s')
  end.

(** [String.prototype.startsWith] *)
Fixpoint startsWith (s p : string) : bool :=
  match p, s with
  | EmptyString, _ => true
  | String _ _, EmptyString => false
  | String a p', String b s' => Ascii.eqb a b && startsWith s' p'
  end.

(** [String.prototype.includes] *)
Fixpoint includes (s needle : string) : bool :=
  startsWith s needle
  || match s with
     | EmptyString => false
     | String _ s' => includes s' needle
     end.

(** [s.substring(0, n)] *)
Fixpoint substring0 (n : nat) (s : string) : string :=
  match n, s with
  | S n', String c s' => String c (substring0 n' s')
  | _, _ => EmptyString
  end.

(** JavaScript truthiness of a string: non-empty. *)
Definition truthy (s : string) : bool :=
  match s with EmptyString => false | _ => true end.

(** [a || b] on strings. *)
Definition orElse (a b : string) : string := if truthy a then a else b.

(** Every character of [s] is white space. *)
Fixpoint allWhiteSpace (s : string) : bool :=
  match s with
  | EmptyString => true
  | String c s' => isWhiteSpace c && allWhiteSpace s'
  end.

(** Splitting on white space, dropping empty pieces. *)
Fixpoint words_aux (cur : string) (s : string) : list string :=
  match s with
  | EmptyString => if truthy cur then [cur] else []
  | String c s' =>
      if isWhiteSpace c
      then (if truthy cur then [cur] else []) ++ words_aux EmptyString s'
      else words_aux (cur +:+ String c EmptyString) s'
  end.

Definition words (s : string) : list string := words_aux EmptyString s.

End JsString.

(** ** pipeline/sentiment.ts and pipeline/lexicon.ts *)

Module Sentiment.

Inductive Label := positive | neutral | negative.

Record SentimentResult := mkSentiment {
  score : Q;
  label : Label;
  confidence : Q
}.

(** What [analyzer.analyze] of the external [sentiment] package hands
    back, as far as [analyzeSentiment] reads it. *)
Record Analysis := mkAnalysis {
  a_score : Q;
  a_comparative : Q;
  a_tokens : list string
}.

(** [Number(x.toFixed(3))]: the nearest multiple of 1/1000, a tie
    going away from zero. *)
Definition toFixed3 (x : Q) : Q :=
  let r := (inject_Z (Qfloor (Qabs x * 1000 + (1 # 2))) / 1000)%Q in
  if Qle_bool 0 x then r else (- r)%Q.

Definition neutral0 : SentimentResult := mkSentiment 0%Q neutral 0%Q.

Section WithAnalyzer.
(** The analyzer, already closed over [{ extras: socialLexicon }]. *)
Variable analyze : string -> Analysis.

(** [analyzeSentiment], with the list of texts handed to the
    analyzer threaded through, so that an invocation is visible. *)
Definition analyzeSentimentM (text : option string) (calls : list string)
  : SentimentResult * list string :=
  match text with
  | None => (neutral0, calls)
  | Some t =>
      if negb (JsString.truthy t) || (String.length (JsString.trim t) =? 0)%nat
      then (neutral0, calls)
      else
        let result := analyze t in
        let normalized :=
          (if Qlt_le_dec 5 (a_score result) then 1
           else if Qlt_le_dec (a_score result) (-5) then -1
           else a_comparative result)%Q in
        let lbl :=
          if Qle_bool (1 # 10) normalized then positive
          else if Qle_bool normalized (- (1 # 10)) then negative
          else neutral in
        (mkSentiment (toFixed3 normalized) lbl
           (Qmin 1 (Qabs normalized
                    + inject_Z (Z.of_nat (length (a_tokens result))) * (5 # 100)))%Q,
         calls ++ [t])
  end.

Definition analyzeSentiment (text : option string) : SentimentResult :=
  fst (analyzeSentimentM text []).
End WithAnalyzer.

(** A text that is [null] or [undefined], empty, or white space
    only. *)
Definition blank (text : option string) : bool :=
  match text with
  | None => true
  | Some t => JsString.allWhiteSpace t
  end.

(** pipeline/lexicon.ts: the ASCII entries of [socialLexicon]. *)
Definition socialLexicon : list (string * Z) :=
  [ ("fire", 3); ("lit", 3); ("based", 2); ("goat", 4); ("trash", -3);
    ("mid", -1); ("cringe", -2); ("scam", -4); ("rug", -4) ]%Z.

Fixpoint lexiconWeight (lex : list (string * Z)) (w : string) : Z :=
  match lex with
  | [] => 0
  | (k, v) :: lex' => if String.eqb k w then v else lexiconWeight lex' w
  end.

(** A stand-in for the external analyzer on plain lower-case words:
    the tokens are the words of the text, the score is the sum of the
    lexicon weights of the tokens, and the comparative is the score
    per token (0 without tokens).  Only entries of [lex] weigh. *)
Definition lexiconAnalyzer (lex : list (string * Z)) (text : string) : Analysis :=
  let toks := JsString.words (JsString.toLowerCase text) in
  let sc := inject_Z (fold_right (fun w acc => (lexiconWeight lex w + acc)%Z) 0%Z toks) in
  mkAnalysis sc
    (match toks with
     | [] => 0%Q
     | _ => (sc / inject_Z (Z.of_nat (length toks)))%Q
     end)
    toks.

End Sentiment.

(** ** IEEE doubles *)

(** The numbers of core/rateLimit.ts whose rounding shows: binary64
    values, each operation rounded as the hardware rounds it. *)
Module JsNumber.
Import PrimFloat.

(** An integer as a double; exact below 2^53 in magnitude. *)
Fixpoint ofPositive (p : positive) : float :=
  match p with
  | xH => 1%float
  | xO q => (2 * ofPositive q)%float
  | xI q => (2 * ofPositive q + 1)%float
  end.

Definition ofZ (z : Z) : float :=
  match z with
  | Z0 => 0%float
  | Zpos p => ofPositive p
  | Zneg p => (- ofPositive p)%float
  end.

(** The double nearest to a rational whose numerator and denominator
    are below 2^53. *)
Definition ofQ (q : Q) : float := (ofZ (Qnum q) / ofZ (Zpos (Qden q)))%float.

(** [Math.min] of two numbers. *)
Definition min (a b : float) : float :=
  if is_nan a || is_nan b then nan
  else if (a <? b)%float then a
  else if (b <? a)%float then b
  else if get_sign a then a else b.

(** [Math.floor] of a finite number from -2^53 up to, not including,
    2^53, as an integer: the bisection keeps [ofZ lo <= x < ofZ hi]. *)
Fixpoint floorBetween (fuel : nat) (lo hi : Z) (x : float) : Z :=
  match fuel with
  | O => lo
  | S fuel' =>
      if (hi - lo <=? 1)%Z then lo
      else
        let mid := ((lo + hi) / 2)%Z in
        if (ofZ mid <=? x)%float then floorBetween fuel' mid hi x
        else floorBetween fuel' lo mid x
  end.

Definition floor (x : float) : Z := floorBetween 64 (- 2 ^ 53) (2 ^ 53) x.

End JsNumber.

(** ** core/rateLimit.ts: the shared per-platform token bucket *)

Module RateLimit.
Import PrimFloat.

(** [tokens] is compared with 1 and decremented without a floor, so
    the bucket is kept in doubles.  [backoffMultiplier], which is only
    ever doubled, multiplied by 0.9 and clamped to [1,10], is the
    rational it stands for; [waitTime] reads it as the nearest
    double. *)
Record RateLimitState := mkState {
  tokens : float;
  lastRefill : Z;
  maxTokens : float;
  refillRate : float;      (* tokens per second *)
  backoffMultiplier : Q;
  lastRequest : Z
}.

(** [config.rateLimits[platform] || 5], with the defaults of config.ts
    (the raw configuration passes an empty object for [rateLimits]). *)
Definition rpmOf (platform : string) : Z :=
  if String.eqb platform "reddit" then 4
  else if String.eqb platform "playstore" then 12
  else if String.eqb platform "appstore" then 12
  else 5.

Definition newLimiter (platform : string) (now : Z) : RateLimitState :=
  mkState 5 now 10 (JsNumber.ofZ (rpmOf platform) / 60) 1 0.

(** [getOrCreateLimiter]: the state of [platform], created on first
    use. *)
Definition getOrCreateLimiter (platform : string) (now : Z)
    (limiters : gmap string RateLimitState) : RateLimitState :=
  match limiters !! platform with
  | Some st => st
  | None => newLimiter platform now
  end.

Definition refillTokens (now : Z) (st : RateLimitState) : RateLimitState :=
  let elapsed := (JsNumber.ofZ (now - lastRefill st) / 1000)%float in
  let tokensToAdd := (elapsed * refillRate st)%float in
  mkState (JsNumber.min (maxTokens st) (tokens st + tokensToAdd)) now
          (maxTokens st) (refillRate st) (backoffMultiplier st) (lastRequest st).

(** The delay, in milliseconds, that [rateLimit] asks of the timer. *)
Definition waitTime (st : RateLimitState) : float :=
  let tokensNeeded := (1 - tokens st)%float in
  (tokensNeeded / refillRate st * 1000 * JsNumber.ofQ (backoffMultiplier st))%float.

(** [state.tokens -= 1; state.lastRequest = Date.now()]. *)
Definition consume (at_ : Z) (st : RateLimitState) : RateLimitState :=
  mkState (tokens st - 1) (lastRefill st) (maxTokens st) (refillRate st)
          (backoffMultiplier st) at_.

(** [rateLimit] on one state.  [now] is the clock on entry, [woke] the
    clock when the timer of the wait fires (read only if the bucket
    was short).  The jitter pause at the end touches no state. *)
Definition rateLimitOn (now woke : Z) (st : RateLimitState) : RateLimitState :=
  let st1 := refillTokens now st in
  if (tokens st1 <? 1)%float
  then consume woke (refillTokens woke st1)
  else consume now st1.

Definition reportSuccessOn (st : RateLimitState) : RateLimitState :=
  mkState (tokens st) (lastRefill st) (maxTokens st) (refillRate st)
          (Qmax 1 (backoffMultiplier st * (9 # 10))) (lastRequest st).

Definition reportFailureOn (st : RateLimitState) : RateLimitState :=
  mkState 0 (lastRefill st) (maxTokens st) (refillRate st)
          (Qmin 10 (backoffMultiplier st * 2)) (lastRequest st).

(** The exported operations, on the module-level [limiters] map. *)
Definition rateLimit (platform : string) (now woke : Z)
    (limiters : gmap string RateLimitState) : gmap string RateLimitState :=
  <[platform := rateLimitOn now woke (getOrCreateLimiter platform now limiters)]> limiters.

Definition reportSuccess (platform : string) (now : Z)
    (limiters : gmap string RateLimitState) : gmap string RateLimitState :=
  <[platform := reportSuccessOn (getOrCreateLimiter platform now limiters)]> limiters.

Definition reportFailure (platform : string) (now : Z)
    (limiters : gmap string RateLimitState) : gmap string RateLimitState :=
  <[platform := reportFailureOn (getOrCreateLimiter platform now limiters)]> limiters.

(** [getRateLimitState]: refills an existing limiter and reports it;
    the report itself is [tokensAvailable] and [backoff]. *)
Definition getRateLimitState (platform : string) (now : Z)
    (limiters : gmap string RateLimitState)
    : option (Z * Q) * gmap string RateLimitState :=
  match limiters !! platform with
  | None => (None, limiters)
  | Some st =>
      let st' := refillTokens now st in
      (Some (JsNumber.floor (tokens st'), backoffMultiplier st'),
       <[platform := st']> limiters)
  end.

(** One call into the module. *)
Inductive Op :=
| OpRateLimit (platform : string) (now woke : Z)
| OpReportSuccess (platform : string) (now : Z)
| OpReportFailure (platform : string) (now : Z)
| OpRefill (platform : string) (now : Z).

Definition step (limiters : gmap string RateLimitState) (op : Op)
    : gmap string RateLimitState :=
  match op with
  | OpRateLimit p now woke => rateLimit p now woke limiters
  | OpReportSuccess p now => reportSuccess p now limiters
  | OpReportFailure p now => reportFailure p now limiters
  | OpRefill p now => snd (getRateLimitState p now limiters)
  end.

(** The registry after each call of a sequence, the initial one
    included. *)
Fixpoint history (ops : list Op) (limiters : gmap string RateLimitState)
    : list (gmap string RateLimitState) :=
  limiters ::
  match ops with
  | [] => []
  | op :: ops' => history ops' (step limiters op)
  end.

Definition run (ops : list Op) (limiters : gmap string RateLimitState)
    : gmap string RateLimitState :=
  fold_left step ops limiters.

(** What the environment owes a call: the clock does not run
    backwards, and a timer does not fire before its delay, which the
    runtime cuts to whole milliseconds. *)
Definition clockOk (now : Z) (st : RateLimitState) : bool :=
  (lastRefill st <=? now)%Z.

Definition opOk (limiters : gmap string RateLimitState) (op : Op) : bool :=
  match op with
  | OpRateLimit p now woke =>
      let st := getOrCreateLimiter p now limiters in
      clockOk now st && (now <=? woke)%Z
      && (let st1 := refillTokens now st in
          if (tokens st1 <? 1)%float
          then (JsNumber.floor (waitTime st1) <=? woke - now)%Z
          else true)
  | OpReportSuccess p now | OpReportFailure p now => true
  | OpRefill p now =>
      match limiters !! p with
      | Some st => clockOk now st
      | None => true
      end
  end.

Fixpoint traceOk (ops : list Op) (limiters : gmap string RateLimitState) : bool :=
  match ops with
  | [] => true
  | op :: ops' => opOk limiters op && traceOk ops' (step limiters op)
  end.

(** What the data model asks of [backoffMultiplier]. *)
Definition backoffWf (st : RateLimitState) : Prop :=
  (1 <= backoffMultiplier st /\ backoffMultiplier st <= 10)%Q.

Definition regBackoffWf (limiters : gmap string RateLimitState) : Prop :=
  map_Forall (fun _ st => backoffWf st) limiters.

End RateLimit.

(** ** scrapers/reddit.ts: ProductionRateLimiter *)

Module ProductionRateLimiter.

Record Limiter := mkLimiter {
  tokens : Q;
  maxTokens : Q;
  refillRate : Q;          (* tokens per second *)
  lastRefill : Z;
  backoffMultiplier : Q;
  consecutiveErrors : nat
}.

(** [constructor(requestsPerMinute)]; the scraper builds it with 25. *)
Definition create (requestsPerMinute : Q) (now : Z) : Limiter :=
  let maxT := inject_Z (Qceiling (requestsPerMinute / 2)) in
  mkLimiter maxT maxT (requestsPerMinute / 60) now 1 0.

Definition refillTokens (now : Z) (l : Limiter) : Limiter :=
  let elapsed := (inject_Z (now - lastRefill l) / 1000)%Q in
  mkLimiter (Qmin (maxTokens l) (tokens l + elapsed * refillRate l))
            (maxTokens l) (refillRate l) now (backoffMultiplier l)
            (consecutiveErrors l).

Definition waitTime (l : Limiter) : Z :=
  Qceiling (1 / refillRate l * 1000 * backoffMultiplier l).

Definition take (l : Limiter) : Limiter :=
  mkLimiter (Qmax 0 (tokens l - 1)) (maxTokens l) (refillRate l)
            (lastRefill l) (backoffMultiplier l) (consecutiveErrors l).

(** [acquire]: [now] is the clock on entry, [woke] the clock after the
    sleep (read only if the bucket was short). *)
Definition acquire (now woke : Z) (l : Limiter) : Limiter :=
  let l1 := refillTokens now l in
  if Qlt_le_dec (tokens l1) 1
  then take (refillTokens woke l1)
  else take l1.

Definition onSuccess (l : Limiter) : Limiter :=
  mkLimiter (tokens l) (maxTokens l) (refillRate l) (lastRefill l)
            (Qmax 1 (backoffMultiplier l * (9 # 10))) 0.

Definition onRateLimit (l : Limiter) : Limiter :=
  mkLimiter 0 (maxTokens l) (refillRate l) (lastRefill l)
            (Qmin 10 (backoffMultiplier l * 2)) (S (consecutiveErrors l)).

Definition getBackoffTime (l : Limiter) : Z :=
  Z.min 30000 (2000 * 2 ^ Z.of_nat (consecutiveErrors l)).

Inductive Op :=
| OpAcquire (now woke : Z)
| OpOnSuccess
| OpOnRateLimit
| OpRefill (now : Z).

Definition step (l : Limiter) (op : Op) : Limiter :=
  match op with
  | OpAcquire now woke => acquire now woke l
  | OpOnSuccess => onSuccess l
  | OpOnRateLimit => onRateLimit l
  | OpRefill now => refillTokens now l
  end.

Fixpoint history (ops : list Op) (l : Limiter) : list Limiter :=
  l ::
  match ops with
  | [] => []
  | op :: ops' => history ops' (step l op)
  end.

Definition run (ops : list Op) (l : Limiter) : Limiter := fold_left step ops l.

(** The clock does not run backwards. *)
Definition opOk (l : Limiter) (op : Op) : bool :=
  match op with
  | OpAcquire now woke => (lastRefill l <=? now)%Z && (now <=? woke)%Z
  | OpOnSuccess | OpOnRateLimit => true
  | OpRefill now => (lastRefill l <=? now)%Z
  end.

Fixpoint traceOk (ops : list Op) (l : Limiter) : bool :=
  match ops with
  | [] => true
  | op :: ops' => opOk l op && traceOk ops' (step l op)
  end.

Definition wf (l : Limiter) : Prop :=
  (0 <= tokens l /\ tokens l <= maxTokens l /\ 1 <= maxTokens l
   /\ 0 < refillRate l
   /\ 1 <= backoffMultiplier l /\ backoffMultiplier l <= 10)%Q.


(** What the data model asks of [backoffMultiplier]. *)
Definition backoffWf (l : Limiter) : Prop :=
  (1 <= backoffMultiplier l /\ backoffMultiplier l <= 10)%Q.
End ProductionRateLimiter.

(** ** config.ts: the fields the filter reads *)

Module Config.

Record t := mk {
  searchTerms : list string;
  brandRequiredTerms : list string;
  brandStrict : bool;
  brandBalanced : bool;
  brandSubreddits : list string;
  playstoreAppId : string;
  appstoreAppId : string
}.

(** The configuration with [brandStrict] set to [b]. *)
Definition withStrict (b : bool) (cfg : t) : t :=
  mk (searchTerms cfg) (brandRequiredTerms cfg) b (brandBalanced cfg)
     (brandSubreddits cfg) (playstoreAppId cfg) (appstoreAppId cfg).

(** The defaults of the schema. *)
Definition default : t :=
  mk ["matiks"] ["matiks.in"] false true ["matiks"] "com.matiks.app" "123456789".

End Config.

(** ** core/brandFilter.ts *)

Module BrandFilter.
Import JsString.

Definition normalize (text : string) : string := toLowerCase text.

(** [Array.from(new Set(l))]: first occurrences, in order. *)
Fixpoint uniqFrom (seen : list string) (l : list string) : list string :=
  match l with
  | [] => []
  | x :: l' =>
      if existsb (String.eqb x) seen then uniqFrom seen l'
      else x :: uniqFrom (x :: seen) l'
  end.

Definition uniq (l : list string) : list string := uniqFrom [] l.

Definition getBrandAnchors (cfg : Config.t) : list string :=
  uniq
    (List.filter (fun x => truthy x) (map trim (Config.brandRequiredTerms cfg))
     ++ (if truthy (Config.playstoreAppId cfg)
         then [ Config.playstoreAppId cfg;
                "play.google.com/store/apps/details?id=" +:+ Config.playstoreAppId cfg ]
         else [])
     ++ (if truthy (Config.appstoreAppId cfg)
         then [ "id" +:+ Config.appstoreAppId cfg;
                "apps.apple.com/app/id" +:+ Config.appstoreAppId cfg ]
         else [])).

Definition isStrong (term : string) : bool :=
  let normalized := toLowerCase term in
  includes normalized "." || includes normalized "/"
  || startsWith normalized "id"
  || includes normalized "play.google.com"
  || includes normalized "apps.apple.com".

Definition getStrongBrandAnchors (cfg : Config.t) : list string :=
  List.filter (fun x => isStrong x) (getBrandAnchors cfg).

(** [l.map(term => normalize(term)).filter(Boolean)] *)
Definition normalized (l : list string) : list string :=
  List.filter (fun x => truthy x) (map normalize l).

(** [l.some(term => haystack.includes(term))] *)
Definition someIn (haystack : string) (l : list string) : bool :=
  existsb (fun term => includes haystack term) l.

Definition nonEmpty (l : list string) : bool :=
  match l with [] => false | _ => true end.

(** [matchesBrand]; [None] is [null] or [undefined]. *)
Definition matchesBrand (cfg : Config.t) (text : option string) : bool :=
  match text with
  | None => false
  | Some t =>
      if negb (truthy t) then false
      else
        let haystack := normalize t in
        let search := normalized (Config.searchTerms cfg) in
        let bySearch := if nonEmpty search then someIn haystack search else false in
        if Config.brandStrict cfg then
          let strong := normalized (getStrongBrandAnchors cfg) in
          if nonEmpty strong then someIn haystack strong
          else
            let requiredFallback := normalized (getBrandAnchors cfg) in
            if nonEmpty requiredFallback then someIn haystack requiredFallback
            else bySearch
        else
          let required := normalized (getBrandAnchors cfg) in
          if nonEmpty required then someIn haystack required
          else bySearch
  end.

Definition matchesBrandBalanced (cfg : Config.t) (text : option string)
    (contextKeywords : list string) : bool :=
  match text with
  | None => false
  | Some t =>
      if negb (truthy t) then false
      else
        let haystack := normalize t in
        if matchesBrand cfg (Some haystack) then true
        else if negb (includes haystack "matiks") then false
        else existsb (fun keyword => includes haystack (normalize keyword)) contextKeywords
  end.

End BrandFilter.

(** ** Regular expressions: the fragment the exclusion patterns use *)

Module Regex.
Import JsString.

Inductive CharClass :=
| Space            (* \s *)
| DashOrSpace.     (* [\-\s] *)

Inductive re :=
| Lit (s : string)        (* literal characters *)
| Seq (a b : re)
| Alt (a b : re)
| Star (c : CharClass)    (* c* *)
| Opt (c : CharClass)     (* c? *)
| WordB.                  (* \b *)

Definition inClass (c : CharClass) (a : ascii) : bool :=
  match c with
  | Space => isWhiteSpace a
  | DashOrSpace => Ascii.eqb a "-" || isWhiteSpace a
  end.

(** \w: letters, digits and the underscore. *)
Definition isWordChar (a : ascii) : bool :=
  let n := N_of_ascii a in
  ((48 <=? n) && (n <=? 57) || (65 <=? n) && (n <=? 90)
   || (97 <=? n) && (n <=? 122) || (n =? 95))%N.

Definition isWordAt (o : option ascii) : bool :=
  match o with Some a => isWordChar a | None => false end.

Definition headOf (s : string) : option ascii :=
  match s with String a _ => Some a | EmptyString => None end.

(** Literal match under the [i] flag; the patterns are written in
    lower case. *)
Fixpoint matchLit (lit : string) (prev : option ascii) (s : string)
    : option (option ascii * string) :=
  match lit with
  | EmptyString => Some (prev, s)
  | String c lit' =>
      match s with
      | String a s' =>
          if Ascii.eqb (lowerChar a) c then matchLit lit' (Some a) s' else None
      | EmptyString => None
      end
  end.

Fixpoint matchStar (c : CharClass) (prev : option ascii) (s : string)
    (k : option ascii -> string -> bool) : bool :=
  match s with
  | String a s' =>
      (if inClass c a then matchStar c (Some a) s' k else false) || k prev s
  | EmptyString => k prev s
  end.

(** Backtracking match of [r] at the start of [s], [prev] being the
    character before it; [k] decides on the rest. *)
Fixpoint matchRe (r : re) (prev : option ascii) (s : string)
    (k : option ascii -> string -> bool) : bool :=
  match r with
  | Lit lit =>
      match matchLit lit prev s with
      | Some (prev', s') => k prev' s'
      | None => false
      end
  | Seq a b => matchRe a prev s (fun prev' s' => matchRe b prev' s' k)
  | Alt a b => matchRe a prev s k || matchRe b prev s k
  | Star c => matchStar c prev s k
  | Opt c =>
      match s with
      | String a s' => (if inClass c a then k (Some a) s' else false) || k prev s
      | EmptyString => k prev s
      end
  | WordB => if xorb (isWordAt prev) (isWordAt (headOf s)) then k prev s else false
  end.

Fixpoint searchFrom (r : re) (prev : option ascii) (s : string) : bool :=
  matchRe r prev s (fun _ _ => true)
  || match s with
     | String a s' => searchFrom r (Some a) s'
     | EmptyString => false
     end.

(** [pattern.test(s)] for a pattern without the [g] flag. *)
Definition test (r : re) (s : string) : bool := searchFrom r None s.

(** [(w1|w2|...)] *)
Definition anyOf (r : re) (rs : list re) : re := fold_left Alt rs r.
Definition anyWord (w : string) (ws : list string) : re := anyOf (Lit w) (map Lit ws).
Definition seqs (r : re) (rs : list re) : re := fold_left Seq rs r.

End Regex.

(** ** db/queries.ts *)

Module Queries.

Definition PLATFORMS (platform : string) : option Z :=
  if String.eqb platform "reddit" then Some 1%Z
  else if String.eqb platform "playstore" then Some 4%Z
  else if String.eqb platform "appstore" then Some 5%Z
  else None.

Record Mention := mkMention {
  m_platform_id : Z;
  m_external_id : string;
  m_author : option string;
  m_author_url : option string;
  m_content : option string;
  m_url : option string;
  m_engagement_likes : Z;
  m_engagement_comments : Z;
  m_engagement_shares : Z;
  m_sentiment_score : option Q;
  m_sentiment_label : option Sentiment.Label;
  m_created_at : Z
}.

Record Review := mkReview {
  r_platform_id : Z;
  r_external_id : string;
  r_author : option string;
  r_rating : Z;
  r_title : option string;
  r_content : option string;
  r_app_version : option string;
  r_helpful_count : Z;
  r_developer_reply : option string;
  r_sentiment_score : option Q;
  r_sentiment_label : option Sentiment.Label;
  r_review_date : Z
}.

Inductive LogStatus := running | success | failed.

Record ScrapeLog := mkLog {
  l_platform : string;
  l_status : LogStatus;
  l_items_found : Z;
  l_items_new : Z;
  l_error : option string;
  l_started_at : Z;
  l_completed_at : option Z
}.

(** A row of [scrape_cursors]; the platform is its key. *)
Record ScrapeCursor := mkCursor {
  last_scraped_at : Z;
  last_item_date : option Z;
  last_item_ids : option (list string)
}.

(** The tables.  [mentions] and [reviews] are keyed by their UNIQUE
    pair (platform_id, external_id); a log's id is its position,
    from 1. *)
Record Db := mkDb {
  mentions : gmap (Z * string) Mention;
  reviews : gmap (Z * string) Review;
  scrape_logs : list ScrapeLog;
  scrape_cursors : gmap string ScrapeCursor
}.

Definition emptyDb : Db := mkDb ∅ ∅ [] ∅.

(** [insertMentionStmt]: on conflict every column but [created_at] is
    overwritten. *)
Definition upsertMention (m : Mention) (tbl : gmap (Z * string) Mention)
    : gmap (Z * string) Mention :=
  let key := (m_platform_id m, m_external_id m) in
  match tbl !! key with
  | Some old =>
      <[key := mkMention (m_platform_id m) (m_external_id m) (m_author m)
                 (m_author_url m) (m_content m) (m_url m) (m_engagement_likes m)
                 (m_engagement_comments m) (m_engagement_shares m)
                 (m_sentiment_score m) (m_sentiment_label m) (m_created_at old)]> tbl
  | None => <[key := m]> tbl
  end.

(** [insertMentions]: the count of rows that were not there before,
    and the table. *)
Fixpoint insertMentionsInto (items : list Mention) (newCount : Z)
    (tbl : gmap (Z * string) Mention) : Z * gmap (Z * string) Mention :=
  match items with
  | [] => (newCount, tbl)
  | m :: items' =>
      let existing := tbl !! (m_platform_id m, m_external_id m) in
      insertMentionsInto items'
        (match existing with None => (newCount + 1)%Z | Some _ => newCount end)
        (upsertMention m tbl)
  end.

Definition insertMentions (items : list Mention) (db : Db) : Z * Db :=
  let '(n, tbl) := insertMentionsInto items 0%Z (mentions db) in
  (n, mkDb tbl (reviews db) (scrape_logs db) (scrape_cursors db)).

Definition upsertReview (r : Review) (tbl : gmap (Z * string) Review)
    : gmap (Z * string) Review :=
  let key := (r_platform_id r, r_external_id r) in
  match tbl !! key with
  | Some old =>
      <[key := mkReview (r_platform_id r) (r_external_id r) (r_author r)
                 (r_rating r) (r_title r) (r_content r) (r_app_version r)
                 (r_helpful_count r) (r_developer_reply r)
                 (r_sentiment_score r) (r_sentiment_label r) (r_review_date old)]> tbl
  | None => <[key := r]> tbl
  end.

Fixpoint insertReviewsInto (items : list Review) (newCount : Z)
    (tbl : gmap (Z * string) Review) : Z * gmap (Z * string) Review :=
  match items with
  | [] => (newCount, tbl)
  | r :: items' =>
      let existing := tbl !! (r_platform_id r, r_external_id r) in
      insertReviewsInto items'
        (match existing with None => (newCount + 1)%Z | Some _ => newCount end)
        (upsertReview r tbl)
  end.

Definition insertReviews (items : list Review) (db : Db) : Z * Db :=
  let '(n, tbl) := insertReviewsInto items 0%Z (reviews db) in
  (n, mkDb (mentions db) tbl (scrape_logs db) (scrape_cursors db)).

(** [logScrapeStart]: the id of the new row. *)
Definition logScrapeStart (platform : string) (now : Z) (db : Db) : nat * Db :=
  (S (length (scrape_logs db)),
   mkDb (mentions db) (reviews db)
        (scrape_logs db ++ [mkLog platform running 0 0 None now None])
        (scrape_cursors db)).

(** [error || null] *)
Definition errorOrNull (error : option string) : option string :=
  match error with
  | Some e => if JsString.truthy e then Some e else None
  | None => None
  end.

Definition logScrapeEnd (id : nat) (status : LogStatus) (itemsFound itemsNew : Z)
    (error : option string) (now : Z) (db : Db) : Db :=
  mkDb (mentions db) (reviews db)
       (match id with
        | O => scrape_logs db
        | S i =>
            match scrape_logs db !! i with
            | Some l =>
                <[i := mkLog (l_platform l) status itemsFound itemsNew
                         (errorOrNull error) (l_started_at l) (Some now)]>
                  (scrape_logs db)
            | None => scrape_logs db
            end
        end)
       (scrape_cursors db).

Definition getScrapeCursor (platform : string) (db : Db) : option ScrapeCursor :=
  scrape_cursors db !! platform.

(** [updateScrapeCursor(platform, lastItemDate?, lastItemIds?)]: the
    upsert writes all three columns; [now] is [datetime('now')]. *)
Definition updateScrapeCursor (platform : string) (lastItemDate : option Z)
    (lastItemIds : option (list string)) (now : Z) (db : Db) : Db :=
  mkDb (mentions db) (reviews db) (scrape_logs db)
       (<[platform := mkCursor now lastItemDate lastItemIds]> (scrape_cursors db)).

(** [Array.prototype.sort(cmp)], which is stable: [x] goes before the
    first [y] that it does not have to follow. *)
Fixpoint insertBy {A} (cmp : A -> A -> Z) (x : A) (l : list A) : list A :=
  match l with
  | [] => [x]
  | y :: l' => if (cmp x y <=? 0)%Z then x :: y :: l' else y :: insertBy cmp x l'
  end.

Definition sortBy {A} (cmp : A -> A -> Z) (l : list A) : list A :=
  fold_right (insertBy cmp) [] l.

(** [getRecentExternalIds]: the ids of the newest [limit] rows of the
    platform's table (rows of one date come in the order the table
    yields them). *)
Definition getRecentExternalIds (platform : string) (limit : nat) (db : Db)
    : list string :=
  match PLATFORMS platform with
  | None => []
  | Some platformId =>
      if String.eqb platform "appstore" || String.eqb platform "playstore"
      then
        let rows := List.filter (fun r => (r_platform_id r =? platformId)%Z)
                           (map snd (map_to_list (reviews db))) in
        map r_external_id
            (firstn limit (sortBy (fun a b => (r_review_date b - r_review_date a)%Z) rows))
      else
        let rows := List.filter (fun m => (m_platform_id m =? platformId)%Z)
                           (map snd (map_to_list (mentions db))) in
        map m_external_id
            (firstn limit (sortBy (fun a b => (m_created_at b - m_created_at a)%Z) rows))
  end.

(** Reviews in the order newest first. *)
Definition newestFirst (a b : Review) : Prop :=
  (r_review_date b <= r_review_date a)%Z.

(** No watermark is stored, or [newest] is later than it. *)
Definition beyond (cursor : option ScrapeCursor) (newest : Z) : bool :=
  match cursor with
  | Some c =>
      match last_item_date c with
      | Some d => (d <? newest)%Z
      | None => true
      end
  | None => true
  end.

End Queries.

(** ** scrapers/reddit.ts: the scraper *)

Module Reddit.
Import JsString Queries.

Record RedditPost := mkPost {
  p_id : string;
  p_name : string;
  p_title : string;
  p_author : string;
  p_subreddit : string;
  p_permalink : string;
  p_selftext : string;
  p_score : Z;
  p_num_comments : Z;
  p_created_utc : Q;
  p_url : option string;
  p_preview : option string     (* preview.images[0].source.url *)
}.

Record RedditComment := mkComment {
  c_id : string;
  c_name : string;
  c_author : string;
  c_body : string;
  c_score : Z;
  c_created_utc : Q;
  c_permalink : string;
  c_subreddit : string
}.

Record ScrapeStats := mkStats {
  apiCalls : Z;
  rateLimitHits : Z;
  postsFound : Z;
  commentsFound : Z;
  duplicatesSkipped : Z;
  filteredOut : Z;
  saved : Z
}.

Definition zeroStats : ScrapeStats := mkStats 0 0 0 0 0 0 0.

(** An element of [data.data.children]; [null] is [None] one level
    up.  [kind === 't3'] carries a post, [kind === 't1'] a comment;
    their [data] may be [null]. *)
Inductive Child :=
| T3 (data : option RedditPost)
| T1 (data : option RedditComment)
| OtherKind.

Record Listing := mkListing {
  children : list (option Child);
  after : option string
}.

(** What the scraper asks of the outside. *)
Inductive Request :=
| ReqSearch (query sort time : string) (after : option string)
| ReqSubredditSearch (subreddit : string) (after : option string)
| ReqCommentSearch (query : string) (after : option string)
| ReqListing (subreddit sort : string) (after : option string)
| ReqSubredditComments (subreddit : string) (after : option string)
| ReqArchive (kind q : string) (size : nat)
| ReqBrowse (query : string).

(** What [fetch] and [response.json()] come to for the JSON
    endpoints.  [OkJson None] is a body without a non-empty
    [data.children]. *)
Inductive HttpResult :=
| NetError                      (* fetch rejects *)
| Status429
| NotOk
| OkBadJson                     (* response.json() rejects *)
| OkJson (body : option Listing).

(** An item of the archive, after [archiveToPost] or
    [archiveToComment]: [item.title] makes it a post, else
    [item.body] makes it a comment; [None] is a [null] item. *)
Inductive ArchiveItem :=
| AsPost (p : RedditPost)
| AsComment (c : RedditComment)
| Neither.

Inductive ArchiveResult :=
| ArchiveFailed                 (* fetch or json() rejects *)
| ArchiveNotOk
| ArchiveItems (items : list (option ArchiveItem)).

(** The mutable state a run works on: the fields of the scraper
    object, the buffer of [run], the database, the clock, and the
    requests issued so far. *)
Record World := mkWorld {
  seenIds : gset string;
  seenContent : gset string;
  stats : ScrapeStats;
  rateLimiter : ProductionRateLimiter.Limiter;
  startTime : Z;
  maxDuration : Z;
  buffer : list Mention;
  db : Db;
  clock : Z;
  requests : list Request
}.

Definition setSeen (ids content : gset string) (w : World) : World :=
  mkWorld ids content (stats w) (rateLimiter w) (startTime w) (maxDuration w)
          (buffer w) (db w) (clock w) (requests w).
Definition setStats (st : ScrapeStats) (w : World) : World :=
  mkWorld (seenIds w) (seenContent w) st (rateLimiter w) (startTime w)
          (maxDuration w) (buffer w) (db w) (clock w) (requests w).
Definition setLimiter (l : ProductionRateLimiter.Limiter) (w : World) : World :=
  mkWorld (seenIds w) (seenContent w) (stats w) l (startTime w)
          (maxDuration w) (buffer w) (db w) (clock w) (requests w).
Definition setBudget (start maxD : Z) (w : World) : World :=
  mkWorld (seenIds w) (seenContent w) (stats w) (rateLimiter w) start maxD
          (buffer w) (db w) (clock w) (requests w).
Definition setBuffer (b : list Mention) (w : World) : World :=
  mkWorld (seenIds w) (seenContent w) (stats w) (rateLimiter w) (startTime w)
          (maxDuration w) b (db w) (clock w) (requests w).
Definition setDb (d : Db) (w : World) : World :=
  mkWorld (seenIds w) (seenContent w) (stats w) (rateLimiter w) (startTime w)
          (maxDuration w) (buffer w) d (clock w) (requests w).
Definition setClock (t : Z) (w : World) : World :=
  mkWorld (seenIds w) (seenContent w) (stats w) (rateLimiter w) (startTime w)
          (maxDuration w) (buffer w) (db w) t (requests w).
Definition addRequest (r : Request) (w : World) : World :=
  mkWorld (seenIds w) (seenContent w) (stats w) (rateLimiter w) (startTime w)
          (maxDuration w) (buffer w) (db w) (clock w) (requests w ++ [r]).

(** A computation on the world that returns or throws. *)
Inductive Outcome (A : Type) :=
| Returned (a : A) (w : World)
| Thrown (e : string) (w : World).
Arguments Returned {A} a w.
Arguments Thrown {A} e w.

Definition M (A : Type) : Type := World -> Outcome A.

Definition ret {A} (a : A) : M A := fun w => Returned a w.
Definition throw {A} (e : string) : M A := fun w => Thrown e w.
Definition bind {A B} (c : M A) (k : A -> M B) : M B :=
  fun w => match c w with
           | Returned a w' => k a w'
           | Thrown e w' => Thrown e w'
           end.
Definition modify (f : World -> World) : M unit := fun w => Returned tt (f w).
Definition get : M World := fun w => Returned w w.

(** [try { c } catch (e) { h e }] *)
Definition tryCatch {A} (c : M A) (h : string -> M A) : M A :=
  fun w => match c w with
           | Returned a w' => Returned a w'
           | Thrown e w' => h e w'
           end.

Notation "x <- c ;; k" := (bind c (fun x => k))
  (at level 100, c at next level, right associativity).
Notation "c ;;; k" := (bind c (fun _ => k))
  (at level 100, right associativity).

Fixpoint forEach {A} (l : list A) (body : A -> M unit) : M unit :=
  match l with
  | [] => ret tt
  | x :: l' => body x ;;; forEach l' body
  end.

(** The fixed tables of the class. *)
Definition excludeSubreddits : list string :=
  [ "philippines"; "phr4r"; "casualph"; "alasjuicy"; "phinvest"; "phcareers";
    "phgonewild"; "phclassifieds"; "offmychestph"; "phremix"; "phmoneysaving" ].

Definition excludePatterns : list Regex.re :=
  let b := Regex.WordB in
  let sp := Regex.Star Regex.Space in
  let L := Regex.Lit in
  [ Regex.seqs b
      [ Regex.anyWord "pinoy" ["pinay"; "tagalog"; "pilipinas"; "philippines";
                               "filipino"; "filipina"]; b ];
    Regex.seqs b
      [ Regex.anyWord "kuya" ["ate"; "bata"; "galing"; "sarap"; "talaga"; "kasi";
                              "parang"; "yung"; "naman"; "lang"; "dito"; "tayo";
                              "siya"; "basta"; "orens"; "pogi"]; b ];
    Regex.seqs b
      [ Regex.anyOf (L "pupcet")
          [ L "pupc"; L "pup"; L "ust"; L "dlsu"; L "admu"; L "ateneo";
            Regex.seqs (L "la") [sp; L "salle"] ]; b ];
    Regex.seqs b
      [ L "matik"; sp;
        Regex.anyWord "dribble" ["shoot"; "shot"; "pass"; "ball"; "basketball";
                                 "hoop"; "three"; "score"]; b ];
    Regex.seqs b
      [ Regex.anyOf (L "tattoo")
          [ L "tattooist"; L "inked"; L "ink";
            Regex.seqs (L "ritual") [sp; L "tattoo"];
            Regex.seqs (L "matt") [sp; L "matik"] ]; b ];
    Regex.seqs b
      [ Regex.anyOf (Regex.seqs (L "counter") [Regex.Opt Regex.DashOrSpace; L "strike"])
          [ L "csgo"; L "cs2";
            Regex.seqs (L "hunger") [sp; L "games"; sp; L "server"];
            L "thorius" ]; b ];
    Regex.anyOf
      (Regex.seqs b [ L "matika"; Regex.anyWord "ne" ["ru"; "ko"; "mi"] ])
      [ L "fukuki"; Regex.seqs (L "lunaticmons") [b] ];
    Regex.seqs b
      [ Regex.anyOf (Regex.seqs (L "dream") [sp; L "school"])
          [ L "horoscope"; L "zodiac"; L "astrology"; L "superstition" ]; b ] ].

Definition contextKeywords : list string :=
  [ "app"; "game"; "math"; "mental"; "brain"; "puzzle"; "duel"; "streak";
    "android"; "ios"; "download"; "play store"; "app store"; "mobile";
    "arithmetic"; "calculation"; "speed"; "training"; "challenge"; "leaderboard";
    "score"; "level"; "addicted"; "playing"; "installed"; "tried"; "recommended" ].

Definition has (x : string) (l : list string) : bool := existsb (String.eqb x) l.

(** Some pattern of [excludePatterns] matches. *)
Definition excluded (combined : string) : bool :=
  existsb (fun pattern => Regex.test pattern combined) excludePatterns.

Definition nl : string := String (ascii_of_nat 10) EmptyString.

(** A term between double quotes. *)
Definition quoted (term : string) : string :=
  String (ascii_of_nat 34) term +:+ String (ascii_of_nat 34) EmptyString.

(** The camera glyph that marks a preview image, as its UTF-8 bytes. *)
Definition cameraGlyph : string :=
  String (ascii_of_nat 240) (String (ascii_of_nat 159)
    (String (ascii_of_nat 147) (String (ascii_of_nat 183) EmptyString))).

(** [s.replace(/&amp;/g, '&')] *)
Fixpoint unescapeAmpFrom (skip : nat) (s : string) : string :=
  match s with
  | EmptyString => EmptyString
  | String c s' =>
      match skip with
      | S k => unescapeAmpFrom k s'
      | O => if startsWith s "&amp;" then String "&" (unescapeAmpFrom 4 s')
             else String c (unescapeAmpFrom 0 s')
      end
  end.

Definition unescapeAmp (s : string) : string := unescapeAmpFrom 0 s.

(** The time value of [new Date(x)] for a finite number [x]: [x]
    without its fraction. *)
Definition timeClip (x : Q) : Z :=
  if Qle_bool 0 x then Qfloor x else Qceiling x.

(** [new Date((created_utc || Date.now() / 1000) * 1000)] *)
Definition createdAt (created_utc : Q) (now : Z) : Z :=
  if Qeq_bool created_utc 0 then timeClip (inject_Z now / 1000 * 1000)
  else timeClip (created_utc * 1000).

Definition authorUrl (author : string) : option string :=
  if truthy author && negb (String.eqb author "[deleted]")
  then Some ("https://reddit.com/u/" +:+ author) else None.

Definition absoluteUrl (permalink : string) : string :=
  if startsWith permalink "http" then permalink
  else "https://reddit.com" +:+ permalink.

Definition transformPost (post : RedditPost) (now : Z) : Mention :=
  let content0 := p_title post in
  let content1 :=
    if truthy (p_selftext post)
       && negb (has (p_selftext post) ["[removed]"; "[deleted]"])
    then content0 +:+ nl +:+ nl +:+ p_selftext post else content0 in
  let content2 :=
    match p_preview post with
    | Some u => if truthy u
                then content1 +:+ nl +:+ nl +:+ cameraGlyph +:+ " " +:+ unescapeAmp u
                else content1
    | None => content1
    end in
  mkMention 1 (p_name post) (Some (orElse (p_author post) "[deleted]"))
    (authorUrl (p_author post)) (Some (trim content2))
    (Some (absoluteUrl (p_permalink post)))
    (p_score post) (p_num_comments post) 0 None None
    (createdAt (p_created_utc post) now).

Definition transformComment (comment : RedditComment) (now : Z) : Mention :=
  mkMention 1 (c_name comment) (Some (orElse (c_author comment) "[deleted]"))
    (authorUrl (c_author comment)) (Some (trim (c_body comment)))
    (Some (absoluteUrl (c_permalink comment)))
    (c_score comment) 0 0 None None
    (createdAt (c_created_utc comment) now).

Section Scraper.
Variable cfg : Config.t.
(** The analyzer behind [analyzeSentiment]. *)
Variable analyze : string -> Sentiment.Analysis.
(** The outside: the answer to the [n]-th request and the time it
    takes, in milliseconds. *)
Variable http : nat -> Request -> HttpResult * nat.
Variable archive : nat -> Request -> ArchiveResult * nat.
(** The browser: whether it launches, and what a visited search
    page yields ([None] when the visit fails). *)
Variable browserLaunches : bool.
Variable browse : nat -> Request -> option (list RedditPost) * nat.

Definition brandSubreddits : list string :=
  BrandFilter.uniq
    (List.filter (fun x => truthy x) (map toLowerCase (Config.brandSubreddits cfg))).

Definition isRelevant (text1 text2 subreddit : string) (url : option string) : bool :=
  let sub := toLowerCase subreddit in
  if has sub brandSubreddits then true
  else if has sub excludeSubreddits then false
  else
    let combined :=
      toLowerCase (text1 +:+ " " +:+ text2 +:+ " "
                   +:+ match url with Some u => u | None => EmptyString end) in
    if Config.brandStrict cfg then BrandFilter.matchesBrand cfg (Some combined)
    else if negb (if Config.brandBalanced cfg
                  then BrandFilter.matchesBrandBalanced cfg (Some combined) contextKeywords
                  else BrandFilter.matchesBrand cfg (Some combined))
    then false
    else negb (excluded combined).

Definition bumpDuplicates (w : World) : World :=
  let s := stats w in
  setStats (mkStats (apiCalls s) (rateLimitHits s) (postsFound s) (commentsFound s)
                    (duplicatesSkipped s + 1) (filteredOut s) (saved s)) w.

Definition bumpFiltered (w : World) : World :=
  let s := stats w in
  setStats (mkStats (apiCalls s) (rateLimitHits s) (postsFound s) (commentsFound s)
                    (duplicatesSkipped s) (filteredOut s + 1) (saved s)) w.

Definition postContentKey (post : RedditPost) : string :=
  toLowerCase (p_title post +:+ "|" +:+ p_author post).

Definition commentContentKey (comment : RedditComment) : string :=
  toLowerCase ("comment|" +:+ substring0 100 (c_body comment) +:+ "|"
               +:+ c_author comment).

Definition addPost (post : option RedditPost) (w : World) : bool * World :=
  match post with
  | None => (false, w)
  | Some post =>
      if negb (truthy (p_name post)) then (false, w)
      else if bool_decide (p_name post ∈ seenIds w) then (false, bumpDuplicates w)
      else
        let contentKey := postContentKey post in
        if bool_decide (contentKey ∈ seenContent w) then (false, bumpDuplicates w)
        else
          let urlHint :=
            match p_url post with
            | Some u => if truthy u then u else p_permalink post
            | None => p_permalink post
            end in
          if negb (isRelevant (p_title post) (p_selftext post) (p_subreddit post)
                              (Some urlHint))
          then (false, bumpFiltered w)
          else
            let s := stats w in
            (true,
             setBuffer (buffer w ++ [transformPost post (clock w)])
               (setStats (mkStats (apiCalls s) (rateLimitHits s) (postsFound s + 1)
                                  (commentsFound s) (duplicatesSkipped s)
                                  (filteredOut s) (saved s))
                  (setSeen ({[p_name post]} ∪ seenIds w)
                           ({[contentKey]} ∪ seenContent w) w)))
  end.

Definition addComment (comment : option RedditComment) (w : World) : bool * World :=
  match comment with
  | None => (false, w)
  | Some comment =>
      if negb (truthy (c_name comment)) then (false, w)
      else if bool_decide (c_name comment ∈ seenIds w) then (false, bumpDuplicates w)
      else
        let contentKey := commentContentKey comment in
        if bool_decide (contentKey ∈ seenContent w) then (false, bumpDuplicates w)
        else
          if negb (isRelevant (c_body comment) EmptyString (c_subreddit comment)
                              (Some (c_permalink comment)))
          then (false, bumpFiltered w)
          else
            let s := stats w in
            (true,
             setBuffer (buffer w ++ [transformComment comment (clock w)])
               (setStats (mkStats (apiCalls s) (rateLimitHits s) (postsFound s)
                                  (commentsFound s + 1) (duplicatesSkipped s)
                                  (filteredOut s) (saved s))
                  (setSeen ({[c_name comment]} ∪ seenIds w)
                           ({[contentKey]} ∪ seenContent w) w)))
  end.

(** The loop of [flushBuffer] that scores each mention. *)
Definition withSentiment (m : Mention) : Mention :=
  let sentiment := Sentiment.analyzeSentiment analyze (m_content m) in
  mkMention (m_platform_id m) (m_external_id m) (m_author m) (m_author_url m)
            (m_content m) (m_url m) (m_engagement_likes m) (m_engagement_comments m)
            (m_engagement_shares m) (Some (Sentiment.score sentiment))
            (Some (Sentiment.label sentiment)) (m_created_at m).

Definition flushBuffer (w : World) : World :=
  match buffer w with
  | [] => w
  | _ =>
      let '(n, db') := insertMentions (map withSentiment (buffer w)) (db w) in
      let s := stats w in
      setBuffer []
        (setDb db'
           (setStats (mkStats (apiCalls s) (rateLimitHits s) (postsFound s)
                              (commentsFound s) (duplicatesSkipped s)
                              (filteredOut s) (saved s + n)) w))
  end.

Definition isTimeUp (w : World) : bool :=
  (maxDuration w <? clock w - startTime w)%Z.

(** [await this.sleep(ms)]: the timer is taken to be exact. *)
Definition sleep (ms : Z) : M unit :=
  modify (fun w => setClock (clock w + ms) w).

(** [await this.rateLimiter.acquire()] *)
Definition acquire : M unit :=
  modify (fun w =>
    let l1 := ProductionRateLimiter.refillTokens (clock w) (rateLimiter w) in
    if Qlt_le_dec (ProductionRateLimiter.tokens l1) 1
    then
      let woke := (clock w + ProductionRateLimiter.waitTime l1)%Z in
      setClock woke
        (setLimiter (ProductionRateLimiter.acquire (clock w) woke (rateLimiter w)) w)
    else
      setLimiter (ProductionRateLimiter.acquire (clock w) (clock w) (rateLimiter w)) w).

Definition bumpApiCalls (w : World) : World :=
  let s := stats w in
  setStats (mkStats (apiCalls s + 1) (rateLimitHits s) (postsFound s)
                    (commentsFound s) (duplicatesSkipped s) (filteredOut s)
                    (saved s)) w.

Definition bumpRateLimitHits (w : World) : World :=
  let s := stats w in
  setStats (mkStats (apiCalls s) (rateLimitHits s + 1) (postsFound s)
                    (commentsFound s) (duplicatesSkipped s) (filteredOut s)
                    (saved s)) w.

(** One request to the outside: it is recorded, and the clock moves
    by the time it takes. *)
Definition ask {R} (oracle : nat -> Request -> R * nat) (req : Request) : M R :=
  fun w =>
    let '(r, ms) := oracle (length (requests w)) req in
    Returned r (setClock (clock w + Z.of_nat ms) (addRequest req w)).

(** [fetchWithRetry] with [left] attempts to go. *)
Fixpoint fetchAttempts (left : nat) (req : Request) : M (option Listing) :=
  match left with
  | O => ret None
  | S left' =>
      acquire ;;;
      modify bumpApiCalls ;;;
      r <- ask http req ;;
      match r with
      | Status429 =>
          modify bumpRateLimitHits ;;;
          modify (fun w => setLimiter (ProductionRateLimiter.onRateLimit (rateLimiter w)) w) ;;;
          w <- get ;;
          sleep (ProductionRateLimiter.getBackoffTime (rateLimiter w)) ;;;
          fetchAttempts left' req
      | NotOk => sleep 1000 ;;; fetchAttempts left' req
      | OkJson body =>
          modify (fun w => setLimiter (ProductionRateLimiter.onSuccess (rateLimiter w)) w) ;;;
          ret body
      | OkBadJson =>
          modify (fun w => setLimiter (ProductionRateLimiter.onSuccess (rateLimiter w)) w) ;;;
          match left' with
          | O => ret None
          | S _ => sleep 2000 ;;; fetchAttempts left' req
          end
      | NetError =>
          match left' with
          | O => ret None
          | S _ => sleep 2000 ;;; fetchAttempts left' req
          end
      end
  end.

Definition fetchWithRetry (req : Request) : M (option Listing) :=
  fetchAttempts 3 req.

Definition addPostM (post : option RedditPost) : M bool :=
  fun w => let '(b, w') := addPost post w in Returned b w'.

Definition addCommentM (comment : option RedditComment) : M bool :=
  fun w => let '(b, w') := addComment comment w in Returned b w'.

Definition nullChild : string := "Cannot read properties of null (reading 'kind')".
Definition nullItem : string := "Cannot read properties of null (reading 'title')".

(** [if (child.kind === 't3') this.addPost(child.data, buffer)];
    reading [kind] of a [null] child throws. *)
Definition onPost (child : option Child) : M unit :=
  match child with
  | None => throw nullChild
  | Some (T3 data) => addPostM data ;;; ret tt
  | Some _ => ret tt
  end.

Definition onComment (child : option Child) : M unit :=
  match child with
  | None => throw nullChild
  | Some (T1 data) => addCommentM data ;;; ret tt
  | Some _ => ret tt
  end.

(** The paging loop the five fetchers share:
    [while (pageNum < maxPages && !this.isTimeUp())]. *)
Fixpoint paginate (left : nat) (mkReq : option string -> Request)
    (onChild : option Child -> M unit) (after_ : option string) : M unit :=
  match left with
  | O => ret tt
  | S left' =>
      w <- get ;;
      if isTimeUp w then ret tt
      else
        data <- fetchWithRetry (mkReq after_) ;;
        match data with
        | None => ret tt
        | Some listing =>
            match children listing with
            | [] => ret tt
            | cs =>
                forEach cs onChild ;;;
                match after listing with
                | Some a => if truthy a then paginate left' mkReq onChild (Some a)
                            else ret tt
                | None => ret tt
                end
            end
        end
  end.

Definition fetchAllPagesForSearch (query sort time : string) : M unit :=
  paginate 10 (ReqSearch query sort time) onPost None.
Definition searchSubreddit (subreddit : string) : M unit :=
  paginate 5 (ReqSubredditSearch subreddit) onPost None.
Definition searchComments (query : string) : M unit :=
  paginate 5 (ReqCommentSearch query) onComment None.
Definition fetchSubredditListings (subreddit sort : string) : M unit :=
  paginate 10 (ReqListing subreddit sort) onPost None.
Definition fetchSubredditComments (subreddit : string) : M unit :=
  paginate 5 (ReqSubredditComments subreddit) onComment None.

(** [for (x of l) { if (this.isTimeUp()) break; body }] *)
Fixpoint untilTimeUp {A} (l : list A) (body : A -> M unit) : M unit :=
  match l with
  | [] => ret tt
  | x :: l' =>
      w <- get ;;
      if isTimeUp w then ret tt else body x ;;; untilTimeUp l' body
  end.

(** [if (buffer.length >= 25) this.flushBuffer(buffer)] *)
Definition flushIfFull : M unit :=
  modify (fun w => if (25 <=? length (buffer w))%nat then flushBuffer w else w).

Definition phase0_BrandSubredditListings : M unit :=
  w <- get ;;
  if isTimeUp w then ret tt
  else
    match brandSubreddits with
    | [] => ret tt
    | subs =>
        untilTimeUp subs (fun sub =>
          fetchSubredditListings sub "new" ;;;
          fetchSubredditListings sub "hot" ;;;
          fetchSubredditComments sub ;;;
          flushIfFull)
    end.

Definition searchTerms : list string :=
  BrandFilter.uniq
    (List.filter (fun x => truthy x)
       ((match Config.searchTerms cfg with [] => ["matiks"] | ts => ts end)
        ++ BrandFilter.getBrandAnchors cfg
        ++ [ quoted "matiks"; quoted "matiks app"; quoted "matiks game"; quoted "matiks.in";
             "matiks"; "matiks app"; "matiks game"; "matiks.in"; "matiks math";
             "matiks mental math"; "matiks brain"; "matiks brain training";
             "matiks puzzle"; "matiks duel"; "matiks duels"; "matiks streak";
             "matiks challenge"; "matiks leaderboard"; "matiks android";
             "matiks ios"; "matiks iphone"; "matiks download";
             "matiks play store"; "matiks app store"; "matiks mobile";
             "matik app"; "matik game"; "matics app" ])).

Definition phase1_ExhaustiveApiSearch (isIncremental : bool) : M unit :=
  w <- get ;;
  if isTimeUp w then ret tt
  else
    let sortOptions :=
      if isIncremental then ["new"; "relevance"]
      else ["relevance"; "new"; "top"; "comments"] in
    let timeFilters :=
      if isIncremental then ["day"; "week"]
      else ["all"; "year"; "month"; "week"; "day"] in
    untilTimeUp searchTerms (fun term =>
      forEach sortOptions (fun sort =>
        untilTimeUp timeFilters (fun time =>
          fetchAllPagesForSearch term sort time)) ;;;
      flushIfFull).

Definition subreddits : list string :=
  [ "androidapps"; "iosapps"; "AppHookup"; "apps"; "apphookup";
    "androidgaming"; "iosgaming"; "MobileGaming"; "IndieGaming";
    "incremental_games"; "gamedev"; "playmygame"; "gaming";
    "math"; "learnmath"; "matheducation"; "mathematics"; "askmath";
    "education"; "edtech"; "homeschool"; "teachers";
    "braingames"; "puzzles"; "braintraining"; "mentalmath";
    "cognitivescience"; "Nootropics";
    "productivity"; "selfimprovement"; "getdisciplined"; "DecidingToBeBetter";
    "india"; "indiasocial"; "IndianGaming"; "developersIndia";
    "bangalore"; "mumbai"; "delhi"; "hyderabad"; "chennai";
    "Android"; "iphone"; "apple"; "google" ].

Definition phase2_SubredditSearches : M unit :=
  w <- get ;;
  if isTimeUp w then ret tt
  else untilTimeUp subreddits (fun sub => searchSubreddit sub ;;; flushIfFull).

Definition commentTerms : list string :=
  BrandFilter.uniq
    (List.filter (fun x => truthy x)
       (BrandFilter.getBrandAnchors cfg
        ++ [ "matiks"; quoted "matiks"; "matiks app"; "matiks.in"; "matiks game";
             "matiks math" ])).

Definition phase3_CommentSearch : M unit :=
  w <- get ;;
  if isTimeUp w then ret tt
  else
    untilTimeUp commentTerms searchComments ;;;
    modify flushBuffer.

Definition archiveEndpoints : list Request :=
  [ ReqArchive "submission" "matiks" 500;
    ReqArchive "submission" (quoted "matiks app") 200;
    ReqArchive "submission" "matiks.in" 200;
    ReqArchive "submission" (quoted "matiks game") 200;
    ReqArchive "comment" "matiks" 500;
    ReqArchive "comment" (quoted "matiks app") 200 ]
  ++ map (fun anchor => ReqArchive "submission" anchor 200) (BrandFilter.getBrandAnchors cfg)
  ++ map (fun anchor => ReqArchive "comment" anchor 200) (BrandFilter.getBrandAnchors cfg).

Definition archiveFailed : string := "fetch failed".

Definition onArchiveItem (item : option ArchiveItem) : M unit :=
  match item with
  | None => throw nullItem
  | Some (AsPost p) => addPostM (Some p) ;;; ret tt
  | Some (AsComment c) => addCommentM (Some c) ;;; ret tt
  | Some Neither => ret tt
  end.

Definition phase4_HistoricalArchives (isIncremental : bool) : M unit :=
  w <- get ;;
  if isTimeUp w then ret tt
  else if isIncremental then ret tt
  else
    untilTimeUp archiveEndpoints (fun req =>
      tryCatch
        (r <- ask archive req ;;
         match r with
         | ArchiveFailed => throw archiveFailed
         | ArchiveNotOk => ret tt
         | ArchiveItems items => forEach items onArchiveItem
         end)
        (fun _ => ret tt) ;;;
      sleep 1000) ;;;
    modify flushBuffer.

Definition browserUrls : list Request :=
  [ ReqBrowse "q=matiks&sort=new";
    ReqBrowse "q=matiks&sort=relevance&t=all";
    ReqBrowse "q=matiks&type=comment&sort=new" ]
  ++ map (fun anchor => ReqBrowse ("q=" +:+ anchor +:+ "&sort=new"))
         (BrandFilter.getBrandAnchors cfg).

Definition browserFailed : string := "browser failed".

Definition phase5_BrowserVerification : M unit :=
  w <- get ;;
  if isTimeUp w then ret tt
  else
    tryCatch
      (if browserLaunches
       then
         untilTimeUp browserUrls (fun req =>
           tryCatch
             (r <- ask browse req ;;
              match r with
              | None => throw browserFailed
              | Some posts => forEach posts (fun post => addPostM (Some post) ;;; ret tt)
              end)
             (fun _ => ret tt))
       else throw browserFailed)
      (fun _ => ret tt).

Record RunResult := mkResult {
  items : list Mention;
  newItems : Z;
  errors : list string
}.

Definition found (w : World) : Z :=
  (postsFound (stats w) + commentsFound (stats w))%Z.

(** The six phases in order: the first statements of the [try]
    block of [run]. *)
Definition phases (isIncremental : bool) : M unit :=
  phase0_BrandSubredditListings ;;;
  phase1_ExhaustiveApiSearch isIncremental ;;;
  phase2_SubredditSearches ;;;
  phase3_CommentSearch ;;;
  phase4_HistoricalArchives isIncremental ;;;
  phase5_BrowserVerification.

(** The [try] block of [run]. *)
Definition tryBlock (cursor : option ScrapeCursor) (logId : nat) : M RunResult :=
  phases (match cursor with Some _ => true | None => false end) ;;;
  modify flushBuffer ;;;
  modify (fun w =>
    if (0 <? saved (stats w))%Z
       || match cursor with None => true | Some _ => false end
    then setDb (updateScrapeCursor "reddit" (Some (clock w)) None (clock w) (db w)) w
    else w) ;;;
  modify (fun w =>
    setDb (logScrapeEnd logId success (found w) (saved (stats w)) None
                        (clock w) (db w)) w) ;;;
  w <- get ;;
  ret (mkResult [] (saved (stats w)) []).

(** The [catch] block of [run]. *)
Definition catchBlock (logId : nat) (msg : string) : M RunResult :=
  modify flushBuffer ;;;
  modify (fun w =>
    setDb (logScrapeEnd logId failed (found w) (saved (stats w)) (Some msg)
                        (clock w) (db w)) w) ;;;
  w <- get ;;
  ret (mkResult [] (saved (stats w)) [msg]).

(** The statements of [run] before its [try]. *)
Definition start (w : World) : option ScrapeCursor * nat * World :=
  let cursor := getScrapeCursor "reddit" (db w) in
  let maxD := match cursor with
              | Some _ => (5 * 60 * 1000)%Z
              | None => (10 * 60 * 1000)%Z
              end in
  let '(logId, db') := logScrapeStart "reddit" (clock w) (db w) in
  (cursor, logId,
   mkWorld ∅ ∅ zeroStats (rateLimiter w) (clock w) maxD [] db' (clock w)
           (requests w)).

Definition run : M RunResult :=
  fun w =>
    let '(cursor, logId, w0) := start w in
    tryCatch (tryBlock cursor logId) (catchBlock logId) w0.

End Scraper.

Definition worldOf {A} (o : Outcome A) : World :=
  match o with
  | Returned _ w => w
  | Thrown _ w => w
  end.

(** The message of the exception a computation ended with. *)
Definition thrown {A} (o : Outcome A) : option string :=
  match o with
  | Returned _ _ => None
  | Thrown e _ => Some e
  end.

Definition returned {A} (o : Outcome A) : option A :=
  match o with
  | Returned a _ => Some a
  | Thrown _ _ => None
  end.

(** A computation that leaves the [scrape_logs] table as it is. *)
Definition keepsLogs {A} (c : M A) : Prop :=
  forall w, scrape_logs (db (worldOf (c w))) = scrape_logs (db w).

(** A computation that does not throw. *)
Definition returns {A} (c : M A) : Prop :=
  forall w, exists a w', c w = Returned a w'.

(** A scraper object on a database, before its first run. *)
Definition newScraper (now : Z) (d : Db) : World :=
  mkWorld ∅ ∅ zeroStats (ProductionRateLimiter.create 25 now) 0
          (10 * 60 * 1000) [] d now [].

End Reddit.

(** ** The elementary changes of a Reddit run *)

Module RedditSteps.
Import Queries Reddit.

Section Steps.
Variable cfg : Config.t.
Variable analyze : string -> Sentiment.Analysis.

(** What the phases do to the world, one change at a time: a
    candidate goes through [addPost] or [addComment], the buffer is
    flushed, the limiter or the clock is set, a counter of the
    statistics goes up, a request is sent. *)
Inductive step : World -> World -> Prop :=
| step_addPost post w : step w (snd (addPost cfg post w))
| step_addComment comment w : step w (snd (addComment cfg comment w))
| step_flush w : step w (flushBuffer analyze w)
| step_limiter l w : step w (setLimiter l w)
| step_clock t w : step w (setClock t w)
| step_apiCall w : step w (bumpApiCalls w)
| step_rateLimitHit w : step w (bumpRateLimitHits w)
| step_request r w : step w (addRequest r w).

Inductive reaches : World -> World -> Prop :=
| reaches_refl w : reaches w w
| reaches_step w1 w2 w3 : reaches w1 w2 -> step w2 w3 -> reaches w1 w3.

(** A computation that changes the world by such steps only,
    whether it returns or throws. *)
Definition steps {A} (c : M A) : Prop :=
  forall w, reaches w (worldOf (c w)).

(** The buffered mentions have distinct ids, each recorded as seen. *)
Definition pending (w : World) : Prop :=
  NoDup (map m_external_id (buffer w))
  /\ forall m, In m (buffer w) -> m_external_id m ∈ seenIds w.

(** Every id the run has seen is the id of a buffered mention or of
    a row of the table. *)
Definition kept (w : World) : Prop :=
  forall id, id ∈ seenIds w ->
    (exists m, In m (buffer w) /\ m_platform_id m = 1%Z /\ m_external_id m = id)
    \/ is_Some (mentions (db w) !! (1%Z, id)).

(** The books of a run that began on the tables of [d0]: the table of
    mentions has grown by [saved] rows and lost none, what was saved
    or waits in the buffer was counted as found, and the table of
    reviews is as it was. *)
Definition accounted (d0 : Db) (w : World) : Prop :=
  (Z.of_nat (size (mentions (db w)))
   = Z.of_nat (size (mentions d0)) + saved (stats w))%Z
  /\ (0 <= saved (stats w))%Z
  /\ (saved (stats w) + Z.of_nat (length (buffer w)) <= found w)%Z
  /\ (forall k, is_Some (mentions d0 !! k) -> is_Some (mentions (db w) !! k))
  /\ reviews (db w) = reviews d0.

End Steps.
End RedditSteps.

(** ** JavaScript [Map] with string keys: entries in insertion order *)

Module JsMap.

Definition t (V : Type) : Type := list (string * V).

Definition has {V} (k : string) (m : t V) : bool :=
  existsb (fun kv => String.eqb (fst kv) k) m.

(** [m.set(k, v)]: a present key keeps its place. *)
Definition set {V} (k : string) (v : V) (m : t V) : t V :=
  if has k m
  then map (fun kv => if String.eqb (fst kv) k then (k, v) else kv) m
  else m ++ [(k, v)].

Definition values {V} (m : t V) : list V := map snd m.
Definition size {V} (m : t V) : nat := length m.

End JsMap.

(** ** Dates as the scrapers read them *)

Module JsDate.

(** The time value of [new Date(text)]; [None] is an invalid date. *)
Definition DateText : Type := option Z.

(** [new Date(text) <= cutoff]: false on an invalid date. *)
Definition notAfter (d : DateText) (cutoff : Z) : bool :=
  match d with
  | Some t => (t <=? cutoff)%Z
  | None => false
  end.

(** The loop [if (!newest || d > newest) newest = d]. *)
Definition newer (newest : option Z) (d : Z) : option Z :=
  match newest with
  | None => Some d
  | Some n => if (n <? d)%Z then Some d else Some n
  end.

Definition newestOf (dates : list Z) : option Z := fold_left newer dates None.

(** [o] is the greatest of [dates]; none when there are none. *)
Definition isNewest (o : option Z) (dates : list Z) : Prop :=
  match o with
  | None => dates = []
  | Some m => In m dates /\ Forall (fun d => (d <= m)%Z) dates
  end.

End JsDate.

(** ** scrapers/appstore.ts *)

Module AppStore.
Import Queries JsDate.

Record AppStoreReview := mkReviewData {
  id : string;
  author : string;
  rating : Z;
  title : string;
  content : string;
  version : string;
  updated : DateText;
  country : string
}.

(** An element of [data.feed.entry].  [e_isApp] is a truthy
    [im:name] (the entry that describes the app); a missing label is
    an empty string, a missing [updated] label is [None]. *)
Record Entry := mkEntry {
  e_isApp : bool;
  e_id : string;
  e_author : string;
  e_rating : Z;
  e_title : string;
  e_content : string;
  e_version : string;
  e_updated : option DateText
}.

(** What [withRetry] and [response.json()] come to for one page. *)
Inductive PageResult :=
| PageThrows                    (* retries exhausted, or json() rejects *)
| PageNotOk
| PageNoFeed                    (* no data.feed or no data.feed.entry *)
| PageEntries (entries : list Entry).

Definition countries : list string :=
  [ "in"; "us"; "gb"; "ca"; "au"; "nz";
    "sg"; "my"; "ph"; "id"; "th"; "vn"; "pk"; "bd"; "lk"; "np";
    "ae"; "sa"; "za"; "eg"; "ng"; "ke";
    "de"; "fr"; "it"; "es"; "nl"; "be"; "pt"; "pl"; "ru"; "tr"; "se"; "no";
    "dk"; "fi"; "at"; "ch"; "ie";
    "mx"; "br"; "ar"; "cl"; "co"; "pe";
    "jp"; "kr"; "tw"; "hk"; "cn" ].

Definition keyCountries : list string := ["in"; "us"; "gb"].

(** [country.toUpperCase()] on the two-letter codes. *)
Definition upperChar (c : ascii) : ascii :=
  let n := N_of_ascii c in
  if ((97 <=? n) && (n <=? 122))%N then ascii_of_N (n - 32) else c.

Fixpoint toUpperCase (s : string) : string :=
  match s with
  | EmptyString => EmptyString
  | String c s' => String (upperChar c) (toUpperCase s')
  end.

Definition entryDate (e : Entry) (now : Z) : DateText :=
  match e_updated e with
  | Some d => d
  | None => Some now
  end.

(** The loop over the entries of one page: the reviews pushed, with
    [pageReviewCount] and [skipCount].  [fresh] stands for the
    generated id of an entry without one. *)
Fixpoint scanEntries (country : string) (cutoffDate : option Z) (now : Z)
    (fresh : string) (entries : list Entry) : list AppStoreReview * nat * nat :=
  match entries with
  | [] => ([], O, O)
  | e :: rest =>
      let '(rs, cnt, skip) := scanEntries country cutoffDate now fresh rest in
      if e_isApp e then (rs, cnt, skip)
      else
        let upd := entryDate e now in
        match cutoffDate with
        | Some c =>
            if notAfter upd c then (rs, cnt, S skip)
            else (mkReviewData (JsString.orElse (e_id e) fresh)
                    (JsString.orElse (e_author e) "Anonymous") (e_rating e)
                    (e_title e) (e_content e) (e_version e) upd
                    (toUpperCase country) :: rs, S cnt, skip)
        | None =>
            (mkReviewData (JsString.orElse (e_id e) fresh)
               (JsString.orElse (e_author e) "Anonymous") (e_rating e)
               (e_title e) (e_content e) (e_version e) upd
               (toUpperCase country) :: rs, S cnt, skip)
        end
  end.

(** A review entry newer than the watermark. *)
Definition isNewer (cutoff now : Z) (e : Entry) : bool :=
  negb (e_isApp e) && negb (notAfter (entryDate e now) cutoff).

(** A page that was served and on which no review entry is newer
    than the watermark. *)
Definition allKnown (cutoff now : Z) (p : PageResult) : bool :=
  match p with
  | PageEntries entries => forallb (fun e => negb (isNewer cutoff now e)) entries
  | _ => false
  end.

(** A page that was served with a review entry newer than the
    watermark. *)
Definition someNewer (cutoff now : Z) (p : PageResult) : bool :=
  match p with
  | PageEntries entries => existsb (isNewer cutoff now) entries
  | _ => false
  end.

Section Fetch.
(** The feed: the answer to the request for a page of a country. *)
Variable feed : string -> nat -> PageResult.
Variable now : Z.
Variable fresh : string.

(** [fetchAllPagesForCountry] from page [page] on, with [left]
    pages to go up to [maxPages]: the reviews collected, and the
    pages requested. *)
Fixpoint fetchPagesFrom (country : string) (cutoffDate : option Z)
    (left : nat) (page : nat) : list AppStoreReview * list nat :=
  match left with
  | O => ([], [])
  | S left' =>
      match feed country page with
      | PageThrows | PageNotOk | PageNoFeed => ([], [page])
      | PageEntries entries =>
          let '(rs, cnt, skip) := scanEntries country cutoffDate now fresh entries in
          match cnt with
          | O => (rs, [page])
          | S _ =>
              let '(more, pages) :=
                fetchPagesFrom country cutoffDate left' (S page) in
              (rs ++ more, page :: pages)
          end
      end
  end.

Definition maxPages : nat := 10.

Definition fetchAllPagesForCountry (country : string) (cutoffDate : option Z)
    : list AppStoreReview * list nat :=
  fetchPagesFrom country cutoffDate maxPages 1.

(** [fetchFromRSSFeeds]: the first review of each id, over all
    countries. *)
Definition addIfAbsent (m : JsMap.t AppStoreReview) (r : AppStoreReview)
    : JsMap.t AppStoreReview :=
  if JsMap.has (id r) m then m else JsMap.set (id r) r m.

Definition fetchFromRSSFeeds (cutoffDate : option Z) : JsMap.t AppStoreReview :=
  fold_left
    (fun allReviews country =>
       fold_left addIfAbsent (fst (fetchAllPagesForCountry country cutoffDate))
                 allReviews)
    countries [].
End Fetch.

(** What the browser yields for one country: the visit fails, or the
    page shows its reviews; with a See All link, [scrolls i] is what
    is extracted before the [i]-th scroll ([None]: the scroll
    throws). *)
Record Visit := mkVisit {
  v_seeAll : option (nat -> option (list AppStoreReview));
  v_mainPage : list AppStoreReview
}.

(** The scroll loop of [fetchViaBrowser]. *)
Fixpoint scrollLoop (scrolls : nat -> option (list AppStoreReview))
    (cutoffDate : option Z) (left i : nat) (noNewCount : nat)
    (previousCount : nat) (allReviews : JsMap.t AppStoreReview)
    : JsMap.t AppStoreReview :=
  match left with
  | O => allReviews
  | S left' =>
      match scrolls i with
      | None => allReviews
      | Some reviews =>
          let step := fun (acc : JsMap.t AppStoreReview * nat) (review : AppStoreReview) =>
            let '(m, newInBatch) := acc in
            match cutoffDate with
            | Some c =>
                if notAfter (updated review) c then (m, newInBatch)
                else if JsMap.has (id review) m then (m, newInBatch)
                else (JsMap.set (id review) review m, S newInBatch)
            | None =>
                if JsMap.has (id review) m then (m, newInBatch)
                else (JsMap.set (id review) review m, S newInBatch)
            end in
          let '(m, newInBatch) := fold_left step reviews (allReviews, O) in
          if (newInBatch =? 0)%nat || (JsMap.size m =? previousCount)%nat
          then
            if (3 <=? S noNewCount)%nat then m
            else scrollLoop scrolls cutoffDate left' (S i) (S noNewCount)
                            (JsMap.size m) m
          else scrollLoop scrolls cutoffDate left' (S i) O (JsMap.size m) m
      end
  end.

Definition visitCountry (cutoffDate : option Z) (v : option Visit)
    (allReviews : JsMap.t AppStoreReview) : JsMap.t AppStoreReview :=
  match v with
  | None => allReviews
  | Some v =>
      let afterScroll :=
        match v_seeAll v with
        | Some scrolls =>
            scrollLoop scrolls cutoffDate
                       (match cutoffDate with Some _ => 25 | None => 50 end)
                       0 0 0 allReviews
        | None => allReviews
        end in
      fold_left
        (fun m review => if JsMap.has (id review) m then m
                         else JsMap.set (id review) review m)
        (v_mainPage v) afterScroll
  end.

(** [fetchViaBrowser]; [None] for the whole browser is a context
    that cannot be created. *)
Definition fetchViaBrowser (browser : option (string -> option Visit))
    (cutoffDate : option Z) : JsMap.t AppStoreReview :=
  match browser with
  | None => []
  | Some visit =>
      fold_left (fun m country => visitCountry cutoffDate (visit country) m)
                keyCountries []
  end.

Definition normalizeDate (input : DateText) (now : Z) : Z :=
  match input with
  | Some t => t
  | None => now
  end.

Record RunResult := mkResult {
  items : list Review;
  newItems : Z;
  errors : list string
}.

Definition dayMs : Z := 24 * 60 * 60 * 1000.

Section Run.
Variable analyze : string -> Sentiment.Analysis.
(** [process.env.APPSTORE_APP_ID] and [config.appstoreAppId] are
    set. *)
Variable configured : bool.
Variable feed : string -> nat -> PageResult.
Variable browser : option (string -> option Visit).
Variable fresh : string.
(** The clock when the run starts, while it fetches, and in its
    closing synchronous stretch. *)
Variable started fetched now : Z.

Definition toReview (review : AppStoreReview) : Review :=
  let sentiment :=
    Sentiment.analyzeSentiment analyze
      (Some (JsString.orElse (content review) (title review))) in
  mkReview 5 (id review) (Some (author review)) (rating review)
           (Some (title review)) (Some (content review))
           (if JsString.truthy (version review) then Some (version review) else None)
           0 None (Some (Sentiment.score sentiment))
           (Some (Sentiment.label sentiment))
           (normalizeDate (updated review) now).

Definition byDateDesc (a b : Review) : Z :=
  (r_review_date b - r_review_date a)%Z.

(** The run from the merged map on: conversion, insert, cursor,
    log. *)
Definition finish (logId : nat) (cursor : option ScrapeCursor)
    (cutoffDate : option Z) (allReviews : JsMap.t AppStoreReview) (db : Db)
    : RunResult * Db :=
  let reviews := map toReview (JsMap.values allReviews) in
  let newestDateFound := newestOf (map r_review_date reviews) in
  let '(n, db1) := insertReviews reviews db in
  let sorted := sortBy byDateDesc reviews in
  let '(reviews', db2) :=
    match newestDateFound with
    | Some newest =>
        if match cutoffDate with
           | None => true
           | Some c => (c <? newest)%Z
           end
        then (sorted,
              updateScrapeCursor "appstore" (Some newest)
                (Some (map r_external_id (firstn 100 sorted))) now db1)
        else (reviews, db1)
    | None =>
        match cursor, reviews with
        | None, _ :: _ => (reviews, updateScrapeCursor "appstore" (Some now) None now db1)
        | _, _ => (reviews, db1)
        end
    end in
  (mkResult reviews' n [],
   logScrapeEnd logId success (Z.of_nat (length reviews')) n None now db2).

Definition cutoffOf (cursor : option ScrapeCursor) : option Z :=
  match cursor with
  | Some c => last_item_date c
  | None => None
  end.

(** The two fetch phases of [run]: the map [allReviews]. *)
Definition gather (cursor : option ScrapeCursor) : JsMap.t AppStoreReview :=
  let cutoffDate := cutoffOf cursor in
  let isIncremental := match cutoffDate with Some _ => true | None => false end in
  let rssReviews := fetchFromRSSFeeds feed fetched fresh cutoffDate in
  let shouldRunBrowser :=
    negb isIncremental || (0 <? JsMap.size rssReviews)%nat
    || match cursor with
       | None => true
       | Some c => (dayMs <? fetched - last_scraped_at c)%Z
       end in
  if shouldRunBrowser
  then fold_left (fun m kv => if JsMap.has (fst kv) m then m
                              else JsMap.set (fst kv) (snd kv) m)
                 (fetchViaBrowser browser cutoffDate) rssReviews
  else rssReviews.

Definition notConfigured : string :=
  "App Store app ID not configured. Set APPSTORE_APP_ID in .env".

Definition run (db : Db) : RunResult * Db :=
  let cursor := getScrapeCursor "appstore" db in
  let '(logId, db0) := logScrapeStart "appstore" started db in
  if negb configured
  then
    (mkResult [] 0 [notConfigured],
     logScrapeEnd logId failed 0 0 (Some notConfigured) now db0)
  else finish logId cursor (cutoffOf cursor) (gather cursor) db0.
End Run.

End AppStore.

(** ** scrapers/playstore.ts *)

Module PlayStore.
Import Queries JsDate.

(** [review.date] as the run reads it: falsy (absent or empty), or
    a text with its parse. *)
Inductive DateField :=
| NoDate
| DateOf (d : DateText).

Record PlayStoreReviewData := mkReviewData {
  id : string;
  userName : string;
  userImage : option string;
  date : DateField;
  score : Z;
  text : string;
  thumbsUp : Z;
  version : option string;
  replyText : option string;
  replyDate : option string
}.

Inductive Sort := NEWEST | RATING | HELPFULNESS.

Definition isNewest (s : Sort) : bool :=
  match s with NEWEST => true | _ => false end.

(** What [withRetry] around [gplay.reviews] comes to for one page:
    it throws, or yields the reviews and the next token. *)
Inductive ApiResult :=
| ApiThrows
| ApiPage (reviewsData : list PlayStoreReviewData) (nextPaginationToken : option string).

(** The [for (const review of reviewsData)] loop of [fetchViaAPI] on
    one review: the collected map, [newInBatch] and
    [consecutiveKnownIds]. *)
Definition collect (knownIds : gset string)
    (st : JsMap.t PlayStoreReviewData * nat * nat) (review : PlayStoreReviewData)
    : JsMap.t PlayStoreReviewData * nat * nat :=
  let '(allReviews, newInBatch, consecutiveKnownIds) := st in
  if negb (JsString.truthy (id review)) then st
  else if bool_decide (id review ∈ knownIds)
  then (allReviews, newInBatch, S consecutiveKnownIds)
  else if negb (JsMap.has (id review) allReviews)
  then (JsMap.set (id review)
          (mkReviewData (id review) (JsString.orElse (userName review) "Anonymous")
             (userImage review) (date review) (score review) (text review)
             (thumbsUp review) (version review) (replyText review) (replyDate review))
          allReviews,
        S newInBatch, O)
  else st.

Section Api.
Variable api : Sort -> option string -> ApiResult.
Variable knownIds : gset string.

(** The [while (pageCount < maxPages)] loop for one sort order. *)
Fixpoint fetchSort (sort : Sort) (left : nat) (token : option string)
    (consecutiveKnownIds : nat) (allReviews : JsMap.t PlayStoreReviewData)
    : JsMap.t PlayStoreReviewData :=
  match left with
  | O => allReviews
  | S left' =>
      match api sort token with
      | ApiThrows => allReviews
      | ApiPage [] _ => allReviews
      | ApiPage reviewsData next =>
          let '(m, _, known) :=
            fold_left (collect knownIds) reviewsData
                      (allReviews, O, consecutiveKnownIds) in
          if isNewest sort && (20 <? known)%nat then m
          else
            match next with
            | Some tok =>
                if JsString.truthy tok then fetchSort sort left' (Some tok) known m
                else m
            | None => m
            end
      end
  end.

Definition fetchViaAPI : JsMap.t PlayStoreReviewData :=
  fold_left (fun m sort => fetchSort sort 50 None 0 m)
            [NEWEST; RATING; HELPFULNESS] [].
End Api.

(** The scroll loop of [fetchViaBrowser]: [scrolls i] is what the
    page shows before the [i]-th scroll ([None]: the step throws). *)
Fixpoint scrollLoop (knownIds : gset string)
    (scrolls : nat -> option (list PlayStoreReviewData))
    (left i noNewReviewsCount : nat) (allReviews : JsMap.t PlayStoreReviewData)
    : JsMap.t PlayStoreReviewData :=
  match left with
  | O => allReviews
  | S left' =>
      match scrolls i with
      | None => allReviews
      | Some reviews =>
          let '(m, newInBatch) :=
            fold_left
              (fun (acc : JsMap.t PlayStoreReviewData * nat) review =>
                 let '(m, n) := acc in
                 if JsString.truthy (id review)
                    && negb (bool_decide (id review ∈ knownIds))
                    && negb (JsMap.has (id review) m)
                 then (JsMap.set (id review) review m, S n)
                 else (m, n))
              reviews (allReviews, O) in
          if (newInBatch =? 0)%nat
          then if (3 <=? S noNewReviewsCount)%nat then m
               else scrollLoop knownIds scrolls left' (S i) (S noNewReviewsCount) m
          else scrollLoop knownIds scrolls left' (S i) O m
      end
  end.

(** [fetchViaBrowser]; [None]: no context, no page, or no "See all
    reviews" button. *)
Definition fetchViaBrowser (browser : option (nat -> option (list PlayStoreReviewData)))
    (knownIds : gset string) (isIncremental : bool)
    : JsMap.t PlayStoreReviewData :=
  match browser with
  | None => []
  | Some scrolls =>
      scrollLoop knownIds scrolls (if isIncremental then 15 else 100) 0 0 []
  end.

Record RunResult := mkResult {
  items : list Review;
  newItems : Z;
  errors : list string
}.

Definition dayMs : Z := 24 * 60 * 60 * 1000.

Definition undefinedOr (o : option string) : option string :=
  match o with
  | Some v => if JsString.truthy v then Some v else None
  | None => None
  end.

Section Run.
Variable analyze : string -> Sentiment.Analysis.
(** [process.env.PLAYSTORE_APP_ID] and [config.playstoreAppId] are
    set. *)
Variable configured : bool.
Variable api : Sort -> option string -> ApiResult.
Variable browser : option (nat -> option (list PlayStoreReviewData)).
(** The clock when the run starts, while it fetches, and in its
    closing synchronous stretch. *)
Variable started fetched now : Z.

(** One turn of the conversion loop; [None]: [toISOString] throws
    on a date text that does not parse. *)
Definition toReview (review : PlayStoreReviewData) : option Review :=
  let sentiment := Sentiment.analyzeSentiment analyze (Some (text review)) in
  let mk := fun reviewDate =>
    mkReview 4 (id review) (Some (JsString.orElse (userName review) "Anonymous"))
             (score review) None (Some (text review)) (undefinedOr (version review))
             (thumbsUp review) (undefinedOr (replyText review))
             (Some (Sentiment.score sentiment)) (Some (Sentiment.label sentiment))
             reviewDate in
  match date review with
  | NoDate => Some (mk now)
  | DateOf (Some t) => Some (mk t)
  | DateOf None => None
  end.

(** The date a review adds to the search for the newest one. *)
Definition trackedDate (review : PlayStoreReviewData) : list Z :=
  match date review with
  | DateOf (Some t) => [t]
  | _ => []
  end.

Fixpoint convert (l : list PlayStoreReviewData) : option (list Review) :=
  match l with
  | [] => Some []
  | review :: l' =>
      match toReview review with
      | None => None
      | Some r =>
          match convert l' with
          | None => None
          | Some rs => Some (r :: rs)
          end
      end
  end.

Definition byDateDesc (a b : Review) : Z :=
  (r_review_date b - r_review_date a)%Z.

Definition invalidTime : string := "Invalid time value".

(** The run from the merged map on. *)
Definition finish (logId : nat) (cursor : option ScrapeCursor)
    (allReviews : JsMap.t PlayStoreReviewData) (db : Db) : RunResult * Db :=
  match convert (JsMap.values allReviews) with
  | None =>
      (mkResult [] 0 [invalidTime],
       logScrapeEnd logId failed 0 0 (Some invalidTime) now db)
  | Some reviews =>
      let newestDateFound :=
        newestOf (concat (map trackedDate (JsMap.values allReviews))) in
      match reviews with
      | _ :: _ =>
          let '(n, db1) := insertReviews reviews db in
          let sorted := sortBy byDateDesc reviews in
          let db2 :=
            updateScrapeCursor "playstore" newestDateFound
              (Some (map r_external_id (firstn 50 sorted))) now db1 in
          (mkResult sorted n [],
           logScrapeEnd logId success (Z.of_nat (length sorted)) n None now db2)
      | [] =>
          let db2 :=
            match cursor with
            | None => updateScrapeCursor "playstore" (Some now) None now db
            | Some _ => db
            end in
          (mkResult [] 0 [], logScrapeEnd logId success 0 0 None now db2)
      end
  end.

(** The two fetch phases of [run] and their merge: the map
    [allReviews]. *)
Definition gather (cursor : option ScrapeCursor) (knownIds : gset string)
    : JsMap.t PlayStoreReviewData :=
  let isIncremental := match cursor with Some _ => true | None => false end in
  let apiReviews := fetchViaAPI api knownIds in
  let shouldRunBrowser :=
    negb isIncremental || (0 <? JsMap.size apiReviews)%nat
    || match cursor with
       | None => true
       | Some c => (dayMs <? fetched - last_scraped_at c)%Z
       end in
  let browserReviews :=
    if shouldRunBrowser then fetchViaBrowser browser knownIds isIncremental
    else [] in
  fold_left (fun m kv => JsMap.set (fst kv) (snd kv) m) apiReviews
    (fold_left (fun m kv => JsMap.set (fst kv) (snd kv) m) browserReviews []).

Definition notConfigured : string :=
  "Play Store app ID not configured. Set PLAYSTORE_APP_ID in .env".

Definition run (db : Db) : RunResult * Db :=
  let cursor := getScrapeCursor "playstore" db in
  let knownIds : gset string :=
    list_to_set (getRecentExternalIds "playstore" 1000 db) in
  let '(logId, db0) := logScrapeStart "playstore" started db in
  if negb configured
  then
    (mkResult [] 0 [notConfigured],
     logScrapeEnd logId failed 0 0 (Some notConfigured) now db0)
  else finish logId cursor (gather cursor knownIds) db0.
End Run.

End PlayStore.

(** ** scheduler/jobs.ts *)

Module Scheduler.

Section Tick.
(** What a job's runner works on, and what running it comes to. *)
Variable W : Type.

Inductive Ran :=
| Resolved (w : W)
| Rejected (error : string) (w : W).

(** The callback that [cron.schedule] is given for a job: a run is
    skipped while the previous one is active; a rejection of the
    runner is caught and logged; [closeBrowser] (which catches its
    own errors) and the removal from [runningJobs] come last. *)
Definition tick (name : string) (runner : W -> Ran)
    (st : gset string * W) : gset string * W :=
  let '(runningJobs, w) := st in
  if bool_decide (name ∈ runningJobs) then st
  else
    let runningJobs1 := {[name]} ∪ runningJobs in
    match runner w with
    | Resolved w' => (runningJobs1 ∖ {[name]}, w')
    | Rejected _ w' => (runningJobs1 ∖ {[name]}, w')
    end.
End Tick.

(** The runner of the job "Reddit Scraper": a new scraper object,
    and its [run]. *)
Definition redditRunner (cfg : Config.t) (analyze : string -> Sentiment.Analysis)
    (http : nat -> Reddit.Request -> Reddit.HttpResult * nat)
    (archive : nat -> Reddit.Request -> Reddit.ArchiveResult * nat)
    (browserLaunches : bool)
    (browse : nat -> Reddit.Request -> option (list Reddit.RedditPost) * nat)
    (w : Z * Queries.Db) : Ran (Z * Queries.Db) :=
  match Reddit.run cfg analyze http archive browserLaunches browse
                   (Reddit.newScraper (fst w) (snd w)) with
  | Reddit.Returned _ w' => Resolved _ (Reddit.clock w', Reddit.db w')
  | Reddit.Thrown e w' => Rejected _ e (Reddit.clock w', Reddit.db w')
  end.

End Scheduler.

(** ** Sample inputs *)

Module Sample.

Definition analyze : string -> Sentiment.Analysis :=
  Sentiment.lexiconAnalyzer Sentiment.socialLexicon.

(** A post of the brand's own subreddit. *)
Definition post : Reddit.RedditPost :=
  Reddit.mkPost "abc" "t3_abc" "Daily duel thread" "alice" "matiks"
                "/r/matiks/comments/abc" "who is in" 12 3 1700000000 None None.

(** The first answer is a listing whose second child is [null]; every
    later request finds nothing. *)
Definition http (n : nat) (req : Reddit.Request) : Reddit.HttpResult * nat :=
  match n with
  | O => (Reddit.OkJson
            (Some (Reddit.mkListing [Some (Reddit.T3 (Some post)); None] None)), 120%nat)
  | S _ => (Reddit.OkJson None, 120%nat)
  end.

Definition archive (n : nat) (req : Reddit.Request) : Reddit.ArchiveResult * nat :=
  (Reddit.ArchiveNotOk, 100%nat).

Definition browse (n : nat) (req : Reddit.Request)
    : option (list Reddit.RedditPost) * nat :=
  (None, 0%nat).

Definition world : Reddit.World := Reddit.newScraper 1000 Queries.emptyDb.

Definition run : Reddit.Outcome Reddit.RunResult :=
  Reddit.run Config.default analyze http archive false browse world.

Definition entry (ident : string) (at_ : Z) : AppStore.Entry :=
  AppStore.mkEntry false ident "carol" 5 "Nice" "fun app" "1.2" (Some (Some at_)).

(** A feed for one country: the app's own entry and two reviews on
    page 1, two older reviews on page 2, more on page 3. *)
Definition feed (country : string) (page : nat) : AppStore.PageResult :=
  if String.eqb country "us" then
    match page with
    | 1%nat => AppStore.PageEntries
                 [ AppStore.mkEntry true "app" EmptyString 0 "Matiks" EmptyString EmptyString None;
                   entry "r1" 200; entry "r2" 150 ]
    | 2%nat => AppStore.PageEntries [ entry "r3" 90; entry "r4" 80 ]
    | 3%nat => AppStore.PageEntries [ entry "r5" 70 ]
    | _ => AppStore.PageNoFeed
    end
  else AppStore.PageNoFeed.

(** A feed and an API that have nothing. *)
Definition quietFeed (country : string) (page : nat) : AppStore.PageResult :=
  AppStore.PageNoFeed.

Definition quietApi (sort : PlayStore.Sort) (token : option string)
    : PlayStore.ApiResult :=
  PlayStore.ApiPage [] None.

(** A database whose cursors were written at time 1000. *)
Definition scrapedDb : Queries.Db :=
  Queries.updateScrapeCursor "playstore" (Some 900%Z) (Some ["gp:1"]) 1000
    (Queries.updateScrapeCursor "appstore" (Some 100%Z) (Some ["r0"]) 1000
       Queries.emptyDb).

(** A Play Store API whose NEWEST order comes in two pages of one
    review each, both older than the watermark 900 of [scrapedDb]. *)
Definition oldReview (ident : string) (at_ : Z) : PlayStore.PlayStoreReviewData :=
  PlayStore.mkReviewData ident "dave" None (PlayStore.DateOf (Some at_)) 4 "fine" 0
                         None None None.

Definition pagedApi (sort : PlayStore.Sort) (token : option string)
    : PlayStore.ApiResult :=
  match sort, token with
  | PlayStore.NEWEST, None => PlayStore.ApiPage [oldReview "gp:8" 800] (Some "page2")
  | PlayStore.NEWEST, Some _ => PlayStore.ApiPage [oldReview "gp:7" 700] None
  | _, _ => PlayStore.ApiPage [] None
  end.

(** A database with a Reddit cursor whose watermark is 900, and a
    subreddit listing whose first page holds one post from before it
    (half a second into the epoch) and a continuation token. *)
Definition redditDb : Queries.Db :=
  Queries.updateScrapeCursor "reddit" (Some 900%Z) None 1000 Queries.emptyDb.

Definition oldPost : Reddit.RedditPost :=
  Reddit.mkPost "old" "t3_old" "Weekly duel thread" "bob" "matiks"
                "/r/matiks/comments/old" "join in" 2 0 (1 # 2) None None.

Definition pagedHttp (n : nat) (req : Reddit.Request) : Reddit.HttpResult * nat :=
  match n with
  | O => (Reddit.OkJson
            (Some (Reddit.mkListing [Some (Reddit.T3 (Some oldPost))] (Some "t3_old"))),
          120%nat)
  | S _ => (Reddit.OkJson None, 120%nat)
  end.

End Sample.

(** ** core/rateLimit.ts: withRetry *)

Module Retry.

(** What a call of [withRetry] works on: the [limiters] map of the
    module and the clock, with two observations of the call itself:
    how often [fn] was invoked, and the delays handed to [setTimeout],
    oldest first. *)
Record World := mkWorld {
  limiters : gmap string RateLimit.RateLimitState;
  clock : Z;
  calls : nat;
  timers : list Q
}.

(** [if (platform) report(platform)] *)
Definition report
    (f : string -> Z -> gmap string RateLimit.RateLimitState
         -> gmap string RateLimit.RateLimitState)
    (platform : option string) (w : World) : World :=
  match platform with
  | Some p =>
      if JsString.truthy p
      then mkWorld (f p (clock w) (limiters w)) (clock w) (calls w) (timers w)
      else w
  | None => w
  end.

Section WithRetry.
Variable T : Type.
(** [fn]: what its [n]-th invocation comes to (a result, or the
    message of the error it rejects with), and what it does to the
    limiters and the clock on the way. *)
Variable outcome : nat -> T + string.
Variable effect : nat -> gmap string RateLimit.RateLimitState -> Z
                  -> gmap string RateLimit.RateLimitState * Z.
(** [Math.random()] after the [n]-th failure, and the time the timer
    set there takes. *)
Variable random : nat -> Q.
Variable elapsed : nat -> Z.
(** The options. *)
Variable maxRetries : nat.
Variable baseDelay maxDelay : Q.
Variable platform : option string.

Definition invoke (attempt : nat) (w : World) : World :=
  let '(l, t) := effect attempt (limiters w) (clock w) in
  mkWorld l t (S (calls w)) (timers w).

Definition delayOf (attempt : nat) : Q :=
  Qmin (baseDelay * inject_Z (2 ^ Z.of_nat attempt)) maxDelay.

Definition jitterOf (attempt : nat) : Q :=
  (delayOf attempt * ((1 # 2) + random attempt * (1 # 2)))%Q.

(** The loop [for (attempt = 0; attempt <= maxRetries; attempt++)]
    with [left] turns to go; the result is the value returned, or
    [lastError] thrown after the loop. *)
Fixpoint attempts (left attempt : nat) (lastError : option string) (w : World)
    : (T + option string) * World :=
  match left with
  | O => (inr lastError, w)
  | S left' =>
      let w1 := invoke attempt w in
      match outcome attempt with
      | inl result => (inl result, report RateLimit.reportSuccess platform w1)
      | inr error =>
          if (attempt <? maxRetries)%nat
          then
            let w2 := report RateLimit.reportFailure platform w1 in
            attempts left' (S attempt) (Some error)
              (mkWorld (limiters w2) (clock w2 + elapsed attempt) (calls w2)
                       (timers w2 ++ [jitterOf attempt]))
          else attempts left' (S attempt) (Some error) w1
      end
  end.

Definition withRetry (w : World) : (T + option string) * World :=
  attempts (S maxRetries) 0 None w.

End WithRetry.

(** The backoff multiplier of a platform's limiter: the one stored,
    or the 1 that [getOrCreateLimiter] would create it with. *)
Definition backoffOf (p : string) (l : gmap string RateLimit.RateLimitState) : Q :=
  match l !! p with
  | Some st => RateLimit.backoffMultiplier st
  | None => 1
  end.

(** What a reported failure does to a backoff multiplier:
    [Math.min(10, b * 2)]. *)
Definition doubled (b : Q) : Q := Qmin 10 (b * 2).

End Retry.

(** ** db/queries.ts: keys and upserts *)

Module Rows.
Import Queries.

(** The key of a row under the UNIQUE constraint of its table. *)
Definition mentionKey (m : Mention) : Z * string := (m_platform_id m, m_external_id m).
Definition reviewKey (r : Review) : Z * string := (r_platform_id r, r_external_id r).

(** A row with the date column of another: what the upsert leaves on
    a conflict, where every column but the date is overwritten. *)
Definition mentionAt (m : Mention) (created_at : Z) : Mention :=
  mkMention (m_platform_id m) (m_external_id m) (m_author m) (m_author_url m)
            (m_content m) (m_url m) (m_engagement_likes m) (m_engagement_comments m)
            (m_engagement_shares m) (m_sentiment_score m) (m_sentiment_label m)
            created_at.

Definition reviewAt (r : Review) (review_date : Z) : Review :=
  mkReview (r_platform_id r) (r_external_id r) (r_author r) (r_rating r) (r_title r)
           (r_content r) (r_app_version r) (r_helpful_count r) (r_developer_reply r)
           (r_sentiment_score r) (r_sentiment_label r) review_date.

Section Upsert.
(** Rows with a key and a date column that an upsert keeps. *)
Variable R : Type.
Variable key : R -> Z * string.
Variable date : R -> Z.
Variable at_ : R -> Z -> R.

(** What one upsert does to the row under [k]. *)
Definition upsertAt (k : Z * string) (o : option R) (r : R) : option R :=
  if decide (k = key r)
  then Some (match o with Some old => at_ r (date old) | None => r end)
  else o.
End Upsert.

End Rows.

(** ** db/queries.ts: the statements of [getMentions] and [getReviews] *)

Module Statements.
Import JsString.

(** A value bound to a placeholder. *)
Inductive Param :=
| PText (s : string)
| PNumber (n : Z).

(** An optional filter: [None] is [undefined]; a number that is
    [NaN] counts as [None]. *)
Definition given (o : option string) : bool :=
  match o with Some s => truthy s | None => false end.

Definition givenNumber (o : option Z) : bool :=
  match o with Some n => negb (n =? 0)%Z | None => false end.

Definition textOf (o : option string) : string :=
  match o with Some s => s | None => EmptyString end.

Definition numberOf (o : option Z) : Z :=
  match o with Some n => n | None => 0%Z end.

Record MentionFilters := mkMentionFilters {
  mf_platform : option string;
  mf_sentiment : option string;
  mf_search : option string;
  mf_startDate : option string;
  mf_endDate : option string;
  mf_limit : option Z;
  mf_offset : option Z
}.

Record ReviewFilters := mkReviewFilters {
  rf_platform : option string;
  rf_rating : option Z;
  rf_sentiment : option string;
  rf_search : option string;
  rf_startDate : option string;
  rf_endDate : option string;
  rf_limit : option Z;
  rf_offset : option Z
}.

(** [if (cond) { query += sql; params.push(...ps) }] *)
Definition clause (cond : bool) (sql : string) (ps : list Param)
    (st : string * list Param) : string * list Param :=
  if cond then (fst st +:+ sql, snd st ++ ps) else st.

(** [`%${search}%`] *)
Definition like (search : string) : Param := PText ("%" +:+ search +:+ "%").

(** [filters.endDate || filters.startDate] *)
Definition effectiveEndDate (startDate endDate : option string) : option string :=
  if given endDate then endDate else startDate.

(** [e.length === 10 ? e + 'T23:59:59' : e] *)
Definition endOfDay (e : string) : string :=
  if (String.length e =? 10)%nat then e +:+ "T23:59:59" else e.

(** The tail both builders share: [LIMIT], and [OFFSET] inside it. *)
Definition paging (limit offset : option Z) (st : string * list Param)
    : string * list Param :=
  if givenNumber limit
  then clause (givenNumber offset) " OFFSET ?" [PNumber (numberOf offset)]
         (clause true " LIMIT ?" [PNumber (numberOf limit)] st)
  else st.

(** [getMentions]: the statement text and the values bound to it. *)
Definition getMentions (f : MentionFilters) : string * list Param :=
  let e := effectiveEndDate (mf_startDate f) (mf_endDate f) in
  paging (mf_limit f) (mf_offset f)
    (clause true " ORDER BY m.created_at DESC" []
    (clause (given e) " AND m.created_at <= ?" [PText (endOfDay (textOf e))]
    (clause (given (mf_startDate f)) " AND m.created_at >= ?"
            [PText (textOf (mf_startDate f))]
    (clause (given (mf_search f))
            " AND (m.content LIKE ? OR m.author LIKE ? OR m.url LIKE ?)"
            [like (textOf (mf_search f)); like (textOf (mf_search f));
             like (textOf (mf_search f))]
    (clause (given (mf_sentiment f)) " AND m.sentiment_label = ?"
            [PText (textOf (mf_sentiment f))]
    (clause (given (mf_platform f)) " AND p.name = ?" [PText (textOf (mf_platform f))]
       ("SELECT m.*, p.name as platform_name FROM mentions m JOIN platforms p ON m.platform_id = p.id WHERE 1=1",
        []))))))).

(** [getReviews] *)
Definition getReviews (f : ReviewFilters) : string * list Param :=
  let e := effectiveEndDate (rf_startDate f) (rf_endDate f) in
  paging (rf_limit f) (rf_offset f)
    (clause true " ORDER BY r.review_date DESC" []
    (clause (given e) " AND r.review_date <= ?" [PText (endOfDay (textOf e))]
    (clause (given (rf_startDate f)) " AND r.review_date >= ?"
            [PText (textOf (rf_startDate f))]
    (clause (given (rf_search f))
            " AND (r.content LIKE ? OR r.title LIKE ? OR r.author LIKE ?)"
            [like (textOf (rf_search f)); like (textOf (rf_search f));
             like (textOf (rf_search f))]
    (clause (given (rf_sentiment f)) " AND r.sentiment_label = ?"
            [PText (textOf (rf_sentiment f))]
    (clause (givenNumber (rf_rating f)) " AND r.rating = ?"
            [PNumber (numberOf (rf_rating f))]
    (clause (given (rf_platform f)) " AND p.name = ?" [PText (textOf (rf_platform f))]
       ("SELECT r.*, p.name as platform_name FROM reviews r JOIN platforms p ON r.platform_id = p.id WHERE 1=1",
        [])))))))).

(** The placeholders of a statement text. *)
Fixpoint placeholders (sql : string) : nat :=
  match sql with
  | EmptyString => 0
  | String c sql' => (if Ascii.eqb c "?" then 1 else 0) + placeholders sql'
  end.

(** A statement whose placeholders are all bound. *)
Definition bound (st : string * list Param) : Prop :=
  placeholders (fst st) = length (snd st).

(** Which filters a request gives, without their values. *)
Definition mentionShape (f : MentionFilters) : list bool :=
  [ given (mf_platform f); given (mf_sentiment f); given (mf_search f);
    given (mf_startDate f); given (mf_endDate f);
    givenNumber (mf_limit f); givenNumber (mf_offset f) ].

Definition reviewShape (f : ReviewFilters) : list bool :=
  [ given (rf_platform f); givenNumber (rf_rating f); given (rf_sentiment f);
    given (rf_search f); given (rf_startDate f); given (rf_endDate f);
    givenNumber (rf_limit f); givenNumber (rf_offset f) ].

End Statements.

(** ** pipeline/sentiment.ts: the normalized score *)

Module SentimentScore.
Import Sentiment.

(** The local [normalized] of [analyzeSentiment]: the raw score
    clamped to 1 or -1 beyond 5, the per-token average otherwise. *)
Definition normalizedOf (a : Analysis) : Q :=
  if Qlt_le_dec 5 (a_score a) then 1
  else if Qlt_le_dec (a_score a) (-5) then -1
  else a_comparative a.

End SentimentScore.

(** ** scrapers/reddit.ts: the attempts of [fetchWithRetry] *)

Module RedditAttempts.
Import Queries Reddit.

Definition is429 (r : HttpResult) : bool :=
  match r with Status429 => true | _ => false end.

Definition isOk (r : HttpResult) : bool :=
  match r with OkJson _ => true | _ => false end.

Section Attempts.
Variable http : nat -> Request -> HttpResult * nat.
Variable req : Request.

(** The answer to the [i]-th request sent from the world [w] on. *)
Definition answer (w : World) (i : nat) : HttpResult :=
  fst (http (length (requests w) + i) req).

(** From [w], [n] sendings of [req] lead to [w'] with the result
    [r]: the requests and the statistics record them, only the last
    was answered OK, [r] is its body, and the run's data is as it
    was. *)
Definition attempted (w : World) (n : nat) (r : option Listing) (w' : World) : Prop :=
  requests w' = requests w ++ repeat req n
  /\ apiCalls (stats w') = (apiCalls (stats w) + Z.of_nat n)%Z
  /\ rateLimitHits (stats w')
     = (rateLimitHits (stats w)
        + Z.of_nat (length (List.filter (fun i => is429 (answer w i)) (seq 0 n))))%Z
  /\ (forall i, (S i < n)%nat -> isOk (answer w i) = false)
  /\ (forall body, (0 < n)%nat -> answer w (n - 1) = OkJson body -> r = body)
  /\ (isOk (answer w (n - 1)) = false -> r = None)
  /\ buffer w' = buffer w /\ db w' = db w
  /\ seenIds w' = seenIds w /\ seenContent w' = seenContent w.

(** [w1] is [w] after the call was counted and the request sent,
    with a rate-limit hit counted or not. *)
Definition sent (w w1 : World) (hit : bool) : Prop :=
  requests w1 = requests w ++ [req]
  /\ apiCalls (stats w1) = (apiCalls (stats w) + 1)%Z
  /\ rateLimitHits (stats w1) = (rateLimitHits (stats w) + if hit then 1 else 0)%Z
  /\ buffer w1 = buffer w /\ db w1 = db w
  /\ seenIds w1 = seenIds w /\ seenContent w1 = seenContent w.

End Attempts.
End RedditAttempts.

(** ** Maps keyed by the id of their values *)

Module Keyed.

(** A map whose keys are pairwise different (as in a JavaScript
    [Map]) and whose values carry their key as their id. *)
Definition keyed {V} (idOf : V -> string) (m : JsMap.t V) : Prop :=
  NoDup (map fst m) /\ Forall (fun kv => idOf (snd kv) = fst kv) m.

End Keyed.

(** ** scrapers/playstore.ts: maps without known ids *)

Module Unknown.

(** No key of the map is among the known ids. *)
Definition unknown {V} (knownIds : gset string) (m : JsMap.t V) : Prop :=
  forall k, In k (map fst m) -> k ∉ knownIds.

(** The maps the Play Store fetchers build. *)
Definition clean (knownIds : gset string) (m : JsMap.t PlayStore.PlayStoreReviewData)
    : Prop :=
  Keyed.keyed PlayStore.id m /\ unknown knownIds m.

End Unknown.

(** ** db/queries.ts: the reviews table *)

Module Tables.
Import Queries.

(** Every row of the reviews table sits under the key its own
    columns give, as the UNIQUE constraint has it. *)
Definition reviewsKeyed (tbl : gmap (Z * string) Review) : Prop :=
  forall k r, tbl !! k = Some r -> k = (r_platform_id r, r_external_id r).

(** The rows of a platform in the reviews table. *)
Definition reviewsOf (platformId : Z) (db : Db) : list Review :=
  List.filter (fun r => (r_platform_id r =? platformId)%Z)
              (map snd (map_to_list (reviews db))).

End Tables.

(** ** scrapers/appstore.ts: the pages of a feed *)

Module FeedPages.
Import AppStore.

(** What the loop of [fetchAllPagesForCountry] makes of page [p]: the
    reviews it pushes, [pageReviewCount] and [skipCount]; a page that
    is not served gives nothing. *)
Definition scan (feed : string -> nat -> PageResult) (now : Z) (fresh : string)
    (country : string) (cutoffDate : option Z) (p : nat)
    : list AppStoreReview * nat * nat :=
  match feed country p with
  | PageEntries entries => scanEntries country cutoffDate now fresh entries
  | _ => ([], O, O)
  end.

End FeedPages.

(** ** core/googleSheets.ts: [replaceRows] *)

Module GoogleSheets.

Section Sheet.
(** A row object handed to [addRows]. *)
Variable Row : Type.

(** A worksheet: its header row, its rows, and the batches that
    [addRows] was called with so far. *)
Record Sheet := mkSheet {
  headerRow : list string;
  sheetRows : list Row;
  addRowsCalls : list (list Row)
}.

Definition clear (s : Sheet) : Sheet := mkSheet [] [] (addRowsCalls s).

Definition setHeaderRow (headers : list string) (s : Sheet) : Sheet :=
  mkSheet headers (sheetRows s) (addRowsCalls s).

Definition addRows (batch : list Row) (s : Sheet) : Sheet :=
  mkSheet (headerRow s) (sheetRows s ++ batch) (addRowsCalls s ++ [batch]).

(** [rows.slice(i, j)] for [i <= j]. *)
Definition slice (i j : nat) (rows : list Row) : list Row :=
  firstn (j - i) (skipn i rows).

Definition batchSize : nat := 500.

(** [for (let i = 0; i < rows.length; i += batchSize)] from [i] on;
    [fuel] bounds the number of turns. *)
Fixpoint addBatches (fuel i : nat) (rows : list Row) (s : Sheet) : Sheet :=
  match fuel with
  | O => s
  | S fuel' =>
      if (i <? length rows)%nat
      then addBatches fuel' (i + batchSize) rows
             (addRows (slice i (i + batchSize) rows) s)
      else s
  end.

Definition replaceRows (headers : list string) (rows : list Row) (s : Sheet) : Sheet :=
  let s1 := setHeaderRow headers (clear s) in
  match rows with
  | [] => s1
  | _ => addBatches (length rows) 0 rows s1
  end.

End Sheet.

Arguments mkSheet {Row} _ _ _.
Arguments headerRow {Row} _.
Arguments sheetRows {Row} _.
Arguments addRowsCalls {Row} _.
Arguments replaceRows {Row} _ _ _.
Arguments addBatches {Row} _ _ _ _.
Arguments addRows {Row} _ _.
Arguments slice {Row} _ _ _.

End GoogleSheets.

(** ** config.ts: the helper for comma-separated lists *)

Module ConfigCsv.
Import JsString.

Definition comma : ascii := ","%char.

(** [val.split(',')] *)
Fixpoint split (s : string) : list string :=
  match s with
  | EmptyString => [EmptyString]
  | String c s' =>
      if Ascii.eqb c comma then EmptyString :: split s'
      else match split s' with
           | piece :: pieces => String c piece :: pieces
           | [] => [String c EmptyString]
           end
  end.

(** [l.join(',')] *)
Fixpoint join (l : list string) : string :=
  match l with
  | [] => EmptyString
  | [x] => x
  | x :: l' => x +:+ String comma (join l')
  end.

(** [csv(defaultValue)] on the value of the environment variable;
    [None] is a variable that is not set. *)
Definition csv (defaultValue : string) (env : option string) : list string :=
  let val := match env with Some v => v | None => defaultValue end in
  if truthy val then List.filter (fun s => truthy s) (map trim (split val)) else [].

(** The character occurs in the string. *)
Fixpoint occurs (c : ascii) (s : string) : bool :=
  match s with
  | EmptyString => false
  | String d s' => Ascii.eqb d c || occurs c s'
  end.

(** A string that does not begin with white space. *)
Definition headed (s : string) : Prop :=
  match s with
  | EmptyString => True
  | String c _ => isWhiteSpace c = false
  end.

(** A term as the helper yields it: not empty, no white space at
    either end, no comma. *)
Definition term (s : string) : Prop :=
  truthy s = true /\ trim s = s /\ occurs comma s = false.

End ConfigCsv.

(** ** core/humanize.ts: the mouse path *)

Module Humanize.
Local Open Scope Q_scope.

(** [10 + Math.floor(Math.random() * 15)] *)
Definition steps (r : Q) : Z := 10 + Qfloor (r * 15).

(** The control point of one coordinate: the pointer starts from 0. *)
Definition control (target r : Q) : Q :=
  0 + (target - 0) * ((3 # 10) + r * (4 # 10)).

(** One coordinate of the quadratic curve at [t]. *)
Definition bezier (cp target t : Q) : Q :=
  let t2 := t * t in
  let mt := 1 - t in
  let mt2 := mt * mt in
  mt2 * 0 + 2 * mt * t * cp + t2 * target.

(** [humanMouseMove(page, x, y)]: the positions handed to
    [page.mouse.move], in order.  [r0], [r1] and [r2] are what
    [Math.random()] yields for the number of steps and for the two
    coordinates of the control point. *)
Definition humanMouseMove (r0 r1 r2 x y : Q) : list (Q * Q) :=
  let n := steps r0 in
  let cpX := control x r1 in
  let cpY := control y r2 in
  map (fun i =>
         let t := inject_Z (Z.of_nat i) / inject_Z n in
         (bezier cpX x t, bezier cpY y t))
      (seq 0 (S (Z.to_nat n))).

(** [v] lies between 0 and [target], on whichever side [target]
    is. *)
Definition between (target v : Q) : Prop :=
  (0 <= v /\ v <= target) \/ (target <= v /\ v <= 0).

End Humanize.

(* ================================================================== *)
(** * Part II: the properties                                          *)
(* ================================================================== *)

Lemma trimStart_allWhiteSpace s :
  JsString.allWhiteSpace s = true -> JsString.trimStart s = EmptyString.
Proof.
  induction s as [|c s IH]; simpl; [reflexivity|].
  intros [Hc Hs]%andb_true_iff. rewrite Hc. auto.
Qed.

(** ** Token bucket of core/rateLimit.ts *)

Section RateLimitFacts.
Import RateLimit.

Lemma inject_Z_pos z : (0 < z)%Z -> (0 < inject_Z z)%Q.
Proof. intros H. change 0%Q with (inject_Z 0). rewrite <- Zlt_Qlt. exact H. Qed.

Lemma elapsed_nonneg now last :
  (last <= now)%Z -> (0 <= inject_Z (now - last) / 1000)%Q.
Proof.
  intros H. unfold Qdiv. apply Qmult_le_0_compat; [| discriminate].
  change 0%Q with (inject_Z 0). rewrite <- Zle_Qle. lia.
Qed.

Lemma newLimiter_backoffWf p now : backoffWf (newLimiter p now).
Proof. unfold backoffWf, newLimiter; simpl. split; [apply Qle_refl | discriminate]. Qed.

Lemma refillTokens_backoff now st :
  backoffMultiplier (refillTokens now st) = backoffMultiplier st.
Proof. reflexivity. Qed.

Lemma rateLimitOn_backoff now woke st :
  backoffMultiplier (rateLimitOn now woke st) = backoffMultiplier st.
Proof.
  unfold rateLimitOn.
  destruct (PrimFloat.ltb _ _); reflexivity.
Qed.

Lemma reportSuccessOn_backoffWf st : backoffWf st -> backoffWf (reportSuccessOn st).
Proof.
  unfold backoffWf. intros [H1 H10]. simpl. split.
  - apply Q.le_max_l.
  - apply Q.max_lub; lra.
Qed.

Lemma reportFailureOn_backoffWf st : backoffWf st -> backoffWf (reportFailureOn st).
Proof.
  unfold backoffWf. intros [H1 H10]. simpl. split.
  - apply Q.min_glb; lra.
  - apply Q.le_min_l.
Qed.

Lemma getOrCreateLimiter_backoffWf p now limiters :
  regBackoffWf limiters -> backoffWf (getOrCreateLimiter p now limiters).
Proof.
  intros Hreg. unfold getOrCreateLimiter.
  destruct (limiters !! p) as [st |] eqn:E.
  - exact (Hreg p st E).
  - apply newLimiter_backoffWf.
Qed.

(** Every call keeps the multiplier of every limiter within [1,10],
    whatever the clock and the timers do. *)
Lemma step_backoffWf limiters op :
  regBackoffWf limiters -> regBackoffWf (step limiters op).
Proof.
  intros Hreg. destruct op as [p now woke | p now | p now | p now]; simpl.
  - apply map_Forall_insert_2; [| assumption].
    unfold backoffWf. rewrite rateLimitOn_backoff.
    apply getOrCreateLimiter_backoffWf. assumption.
  - apply map_Forall_insert_2; [| assumption].
    apply reportSuccessOn_backoffWf, getOrCreateLimiter_backoffWf. assumption.
  - apply map_Forall_insert_2; [| assumption].
    apply reportFailureOn_backoffWf, getOrCreateLimiter_backoffWf. assumption.
  - unfold getRateLimitState. destruct (limiters !! p) as [st |] eqn:E; simpl.
    + apply map_Forall_insert_2; [| assumption]. exact (Hreg p st E).
    + assumption.
Qed.

Lemma history_backoffWf ops : forall limiters,
  regBackoffWf limiters -> Forall regBackoffWf (history ops limiters).
Proof.
  induction ops as [| op ops IH]; intros limiters Hreg; simpl.
  - constructor; [assumption | constructor].
  - constructor; [assumption |]. apply IH, step_backoffWf. assumption.
Qed.

Lemma run_in_history ops : forall limiters,
  In (run ops limiters) (history ops limiters).
Proof.
  induction ops as [| op ops IH]; intros limiters; simpl.
  - left; reflexivity.
  - right. apply IH.
Qed.

End RateLimitFacts.

(** ** Token bucket of the Reddit scraper *)

Section ProductionRateLimiterFacts.
Import ProductionRateLimiter.

Lemma Qceiling_pos q : (0 < q)%Q -> (1 <= Qceiling q)%Z.
Proof.
  intros H. pose proof (Qle_ceiling q) as Hc.
  assert (0 < inject_Z (Qceiling q))%Q as Hp by lra.
  change 0%Q with (inject_Z 0) in Hp. rewrite <- Zlt_Qlt in Hp. lia.
Qed.

Lemma create_wf rpm now : (0 < rpm)%Q -> wf (create rpm now).
Proof.
  intros Hr. unfold wf, create; simpl.
  assert (0 < rpm / 2)%Q as H2 by (unfold Qdiv; apply Qmult_lt_0_compat; [assumption | reflexivity]).
  pose proof (Qceiling_pos _ H2) as Hc.
  assert (1 <= inject_Z (Qceiling (rpm / 2)))%Q as Hq
    by (change 1%Q with (inject_Z 1); rewrite <- Zle_Qle; assumption).
  repeat split; try lra.
  unfold Qdiv. apply Qmult_lt_0_compat; [assumption | reflexivity].
Qed.

Lemma prod_refillTokens_wf now l :
  (lastRefill l <= now)%Z -> wf l -> wf (refillTokens now l).
Proof.
  unfold wf. intros Hc (H0 & H1 & H2 & H3 & H4 & H5). simpl.
  pose proof (elapsed_nonneg _ _ Hc) as He.
  assert (0 <= inject_Z (now - lastRefill l) / 1000 * refillRate l)%Q as Hadd
    by (apply Qmult_le_0_compat; lra).
  repeat split; try assumption.
  - apply Q.min_glb; lra.
  - apply Q.le_min_l.
Qed.

Lemma take_wf l : wf l -> wf (take l).
Proof.
  unfold wf. intros (H0 & H1 & H2 & H3 & H4 & H5). simpl.
  repeat split; try assumption.
  - apply Q.le_max_l.
  - apply Q.max_lub; lra.
Qed.

Lemma prod_step_wf l op : wf l -> opOk l op = true -> wf (step l op).
Proof.
  intros Hwf Hok. destruct op as [now woke | | | now]; simpl in *.
  - apply andb_true_iff in Hok as [Hc%Z.leb_le Hle%Z.leb_le].
    unfold acquire.
    pose proof (prod_refillTokens_wf _ _ Hc Hwf) as Hwf1.
    destruct (Qlt_le_dec _ 1).
    + apply take_wf, prod_refillTokens_wf; [simpl |]; assumption.
    + apply take_wf; assumption.
  - unfold wf in *. destruct Hwf as (H0 & H1 & H2 & H3 & H4 & H5). simpl.
    repeat split; try assumption.
    + apply Q.le_max_l.
    + apply Q.max_lub; lra.
  - unfold wf in *. destruct Hwf as (H0 & H1 & H2 & H3 & H4 & H5). simpl.
    repeat split; try assumption; try lra.
    + apply Q.min_glb; lra.
    + apply Q.le_min_l.
  - apply prod_refillTokens_wf; [apply Z.leb_le |]; assumption.
Qed.

Lemma prod_history_wf ops : forall l,
  wf l -> traceOk ops l = true -> Forall wf (history ops l).
Proof.
  induction ops as [| op ops IH]; intros l Hwf Hok; simpl.
  - constructor; [assumption | constructor].
  - simpl in Hok. apply andb_true_iff in Hok as [Hop Hrest].
    constructor; [assumption |].
    apply IH; [apply prod_step_wf |]; assumption.
Qed.

Lemma prod_run_in_history ops : forall l,
  In (run ops l) (history ops l).
Proof.
  induction ops as [| op ops IH]; intros l; simpl.
  - left; reflexivity.
  - right. apply IH.
Qed.

Lemma prod_refill_saturates now l :
  wf l ->
  (maxTokens l / refillRate l <= inject_Z (now - lastRefill l) / 1000)%Q ->
  (tokens (refillTokens now l) == maxTokens l)%Q.
Proof.
  unfold wf. intros (H0 & H1 & H2 & H3 & H4 & H5) Hidle. simpl.
  apply Q.min_l.
  set (e := (inject_Z (now - lastRefill l) / 1000)%Q) in *.
  apply (Qmult_le_compat_r _ _ (refillRate l)) in Hidle; [| lra].
  assert (maxTokens l / refillRate l * refillRate l == maxTokens l)%Q as E
    by (field; lra).
  rewrite E in Hidle. lra.
Qed.


(** Every call keeps the multiplier within [1,10], whatever the clock
    does. *)
Lemma prod_step_backoffWf l op : backoffWf l -> backoffWf (step l op).
Proof.
  unfold backoffWf. intros [H1 H10].
  destruct op as [now woke | | | now]; simpl.
  - unfold acquire. destruct (Qlt_le_dec _ 1); simpl; split; assumption.
  - split; [apply Q.le_max_l | apply Q.max_lub; lra].
  - split; [apply Q.min_glb; lra | apply Q.le_min_l].
  - split; assumption.
Qed.

Lemma prod_history_backoffWf ops : forall l,
  backoffWf l -> Forall backoffWf (history ops l).
Proof.
  induction ops as [| op ops IH]; intros l Hwf; simpl.
  - constructor; [assumption | constructor].
  - constructor; [assumption |]. apply IH, prod_step_backoffWf. assumption.
Qed.
End ProductionRateLimiterFacts.

(** C2.  The token count of core/rateLimit.ts does go below zero.  A
    Play Store run (12 requests a minute) calls [rateLimit] seven
    times within ten seconds, each call more than a second after the
    one before, on a clock that never runs backwards.  The seventh
    call finds the bucket short, asks the timer for exactly 2127 ms and
    wakes exactly then; the refill after the wait comes to
    0.99999999999999989 in binary64, and [state.tokens -= 1], which
    has no floor, leaves -2^-53.  The status report then shows -1
    tokens available. *)
Theorem token_count_goes_negative :
  let p := "playstore" in
  let ops := [ RateLimit.OpRateLimit p 0 0;
               RateLimit.OpRateLimit p 1330 1330;
               RateLimit.OpRateLimit p 2630 2630;
               RateLimit.OpRateLimit p 3883 3883;
               RateLimit.OpRateLimit p 5250 5250;
               RateLimit.OpRateLimit p 6608 6608;
               RateLimit.OpRateLimit p 7873 10000 ]%Z in
  let before := RateLimit.run (firstn 6 ops) ∅ in
  let short := RateLimit.refillTokens 7873 (RateLimit.getOrCreateLimiter p 7873 before) in
  let after := RateLimit.run ops ∅ in
  RateLimit.traceOk ops ∅ = true
  /\ PrimFloat.ltb (RateLimit.tokens short) PrimFloat.one = true
  /\ RateLimit.waitTime short = JsNumber.ofZ (10000 - 7873)
  /\ (exists st, after !! p = Some st
        /\ PrimFloat.ltb (RateLimit.tokens st) PrimFloat.zero = true
        /\ RateLimit.tokens st = JsNumber.ofQ (-1 # 9007199254740992))
  /\ fst (RateLimit.getRateLimitState p 10000 after) = Some ((-1)%Z, 1%Q).
Proof.
  intros p ops before short after.
  split; [vm_compute; reflexivity |].
  split; [vm_compute; reflexivity |].
  split; [vm_compute; reflexivity |].
  split.
  - exists (RateLimit.getOrCreateLimiter p 10000 after).
    split; [vm_compute; reflexivity |].
    split; vm_compute; reflexivity.
  - vm_compute. reflexivity.
Qed.

(** ** Backoff multiplier *)

Lemma backoff_after_failure (b : Q) :
  (1 <= b)%Q -> (b <= 10)%Q -> (b <= Qmin 10 (b * 2))%Q.
Proof. intros H1 H2. apply Q.min_glb; lra. Qed.

Lemma backoff_after_success (b : Q) :
  (1 <= b)%Q ->
  (Qmax 1 (b * (9 # 10)) <= b)%Q /\ ((1 < b)%Q -> (Qmax 1 (b * (9 # 10)) < b)%Q).
Proof.
  intros H1. split.
  - apply Q.max_lub; lra.
  - intros Hlt. apply Q.max_lub_lt; lra.
Qed.

(** C3, as stated, fails on a limiter at rest: with the multiplier at
    its floor 1 (every new limiter), a success leaves it at 1, so two
    successes in a row do not decrease it.  Both limiters. *)
Lemma backoff_not_strictly_decreasing :
  let st0 := RateLimit.newLimiter "reddit" 0 in
  let st1 := RateLimit.reportSuccessOn st0 in
  let st2 := RateLimit.reportSuccessOn st1 in
  let l0 := ProductionRateLimiter.create 25 0 in
  let l1 := ProductionRateLimiter.onSuccess l0 in
  let l2 := ProductionRateLimiter.onSuccess l1 in
  ~ (RateLimit.backoffMultiplier st2 < RateLimit.backoffMultiplier st1)%Q
  /\ ~ (ProductionRateLimiter.backoffMultiplier l2
        < ProductionRateLimiter.backoffMultiplier l1)%Q.
Proof. split; vm_compute; discriminate. Qed.

(** C3, amended.  Along every sequence of calls of [rateLimit],
    [reportSuccess], [reportFailure] and refills on the shared limiters
    of core/rateLimit.ts (started from the empty registry), and of
    [acquire], [onSuccess], [onRateLimit] and refills on a
    [ProductionRateLimiter], whatever the clock and the timers do, the
    backoff multiplier of every limiter stays within [1,10]; a failure
    report sets it to [min(10, 2b)], which is at least [b], and drains
    the tokens to 0; a success report sets it to [max(1, 0.9 b)], which
    is at most [b], and strictly below [b] exactly while [b] is above
    1. *)
Theorem backoff_multiplier_bounded
    (ops : list RateLimit.Op) (rpm : Q) (t0 : Z)
    (pops : list ProductionRateLimiter.Op) :
  (forall limiters platform now,
      In limiters (RateLimit.history ops ∅) ->
      let st := RateLimit.getOrCreateLimiter platform now limiters in
      let b := RateLimit.backoffMultiplier st in
      (1 <= b)%Q /\ (b <= 10)%Q
      /\ (exists st', RateLimit.reportFailure platform now limiters !! platform = Some st'
            /\ RateLimit.backoffMultiplier st' = Qmin 10 (b * 2)
            /\ RateLimit.tokens st' = PrimFloat.zero
            /\ (b <= RateLimit.backoffMultiplier st')%Q)
      /\ (exists st', RateLimit.reportSuccess platform now limiters !! platform = Some st'
            /\ RateLimit.backoffMultiplier st' = Qmax 1 (b * (9 # 10))
            /\ (RateLimit.backoffMultiplier st' <= b)%Q
            /\ ((RateLimit.backoffMultiplier st' < b)%Q <-> (1 < b)%Q)))
  /\ (forall l,
      In l (ProductionRateLimiter.history pops (ProductionRateLimiter.create rpm t0)) ->
      let b := ProductionRateLimiter.backoffMultiplier l in
      let lf := ProductionRateLimiter.onRateLimit l in
      let ls := ProductionRateLimiter.onSuccess l in
      (1 <= b)%Q /\ (b <= 10)%Q
      /\ ProductionRateLimiter.backoffMultiplier lf = Qmin 10 (b * 2)
      /\ ProductionRateLimiter.tokens lf = 0%Q
      /\ (b <= ProductionRateLimiter.backoffMultiplier lf)%Q
      /\ ProductionRateLimiter.backoffMultiplier ls = Qmax 1 (b * (9 # 10))
      /\ (ProductionRateLimiter.backoffMultiplier ls <= b)%Q
      /\ ((ProductionRateLimiter.backoffMultiplier ls < b)%Q <-> (1 < b)%Q)).
Proof.
  split.
  - intros limiters platform now Hin st b.
    assert (RateLimit.regBackoffWf ∅) as H0 by apply map_Forall_empty.
    pose proof (history_backoffWf ops ∅ H0) as Hall.
    rewrite Forall_forall in Hall. apply list_elem_of_In in Hin.
    pose proof (getOrCreateLimiter_backoffWf platform now limiters (Hall limiters Hin))
      as Hwf.
    fold st in Hwf. destruct Hwf as (Hb1 & Hb10).
    fold b in Hb1, Hb10.
    destruct (backoff_after_success b Hb1) as [Hs1 Hs2].
    split; [assumption |]. split; [assumption |]. split.
    + exists (RateLimit.reportFailureOn st). unfold RateLimit.reportFailure.
      rewrite lookup_insert_eq. simpl.
      repeat split. apply backoff_after_failure; assumption.
    + exists (RateLimit.reportSuccessOn st). unfold RateLimit.reportSuccess.
      rewrite lookup_insert_eq. simpl.
      repeat split; try assumption.
      intros Hlt. destruct (Qlt_le_dec 1 b) as [|Hle]; [assumption |].
      exfalso. assert (b == 1)%Q as E by lra.
      pose proof (Q.le_max_l 1 (b * (9 # 10))) as Hm. fold b in Hlt. lra.
  - intros l Hin b lf ls.
    assert (ProductionRateLimiter.backoffWf (ProductionRateLimiter.create rpm t0)) as H0
      by (unfold ProductionRateLimiter.backoffWf; simpl; split;
          [apply Qle_refl | discriminate]).
    pose proof (prod_history_backoffWf pops _ H0) as Hall.
    rewrite Forall_forall in Hall. apply list_elem_of_In in Hin.
    destruct (Hall l Hin) as (Hb1 & Hb10). fold b in Hb1, Hb10.
    destruct (backoff_after_success b Hb1) as [Hs1 Hs2].
    subst lf ls. simpl.
    repeat split; try assumption.
    + apply backoff_after_failure; assumption.
    + intros Hlt. destruct (Qlt_le_dec 1 b) as [|Hle]; [assumption |].
      exfalso. pose proof (Q.le_max_l 1 (b * (9 # 10))) as Hm. fold b in Hlt. lra.
Qed.

(** ** Relevance filter *)

Section RelevanceFacts.
Import JsString BrandFilter.

Lemma lowerChar_idem c : lowerChar (lowerChar c) = lowerChar c.
Proof. destruct c as [[] [] [] [] [] [] [] []]; reflexivity. Qed.

Lemma toLowerCase_idem s : toLowerCase (toLowerCase s) = toLowerCase s.
Proof.
  induction s as [| c s IH]; simpl; [reflexivity |].
  rewrite lowerChar_idem, IH. reflexivity.
Qed.

Lemma truthy_toLowerCase s : truthy (toLowerCase s) = truthy s.
Proof. destruct s; reflexivity. Qed.

Lemma normalized_strong_incl l x :
  In x (normalized (List.filter (fun t => isStrong t) l)) -> In x (normalized l).
Proof.
  unfold normalized. rewrite !filter_In, !in_map_iff.
  intros [(y & Hy & Hin) Ht]. split; [| assumption].
  exists y. split; [assumption |]. apply filter_In in Hin. tauto.
Qed.

Lemma someIn_strong h l :
  someIn h (normalized (List.filter (fun t => isStrong t) l)) = true ->
  someIn h (normalized l) = true /\ nonEmpty (normalized l) = true.
Proof.
  unfold someIn. rewrite !existsb_exists. intros (x & Hin & Hx).
  apply normalized_strong_incl in Hin. split.
  - exists x. split; assumption.
  - destruct (normalized l); [destruct Hin | reflexivity].
Qed.

(** What strict matching accepts, plain matching accepts. *)
Lemma matchesBrand_strict_plain cfg text :
  matchesBrand (Config.withStrict true cfg) text = true ->
  matchesBrand (Config.withStrict false cfg) text = true.
Proof.
  destruct text as [t |]; [| discriminate]. unfold matchesBrand. simpl.
  destruct (truthy t); simpl; [| discriminate].
  change (getStrongBrandAnchors (Config.withStrict true cfg))
    with (List.filter (fun x => isStrong x) (getBrandAnchors cfg)).
  change (getBrandAnchors (Config.withStrict true cfg)) with (getBrandAnchors cfg).
  change (getBrandAnchors (Config.withStrict false cfg)) with (getBrandAnchors cfg).
  destruct (nonEmpty (normalized (List.filter _ (getBrandAnchors cfg)))) eqn:E.
  - intros H. apply someIn_strong in H as [H1 H2]. rewrite H2. exact H1.
  - auto.
Qed.

Lemma withStrict_same cfg : Config.withStrict (Config.brandStrict cfg) cfg = cfg.
Proof. destruct cfg; reflexivity. Qed.

End RelevanceFacts.

Lemma truthy_app_space a b : JsString.truthy (a +:+ " " +:+ b) = true.
Proof. destruct a; reflexivity. Qed.

(** C6, as stated, fails under the default configuration (balanced
    mode): the text contains the strong anchor matiks.in, so strict
    matching accepts it, yet the tattoo exclusion pattern matches and
    [isRelevant] rejects it. *)
Lemma strict_match_vetoed_by_exclusion :
  let cfg := Config.default in
  let combined := "check matiks.in tattoo  " in
  Config.brandStrict cfg = false /\ Config.brandBalanced cfg = true
  /\ combined = JsString.toLowerCase ("check matiks.in tattoo" +:+ " " +:+ EmptyString +:+ " " +:+ EmptyString)
  /\ BrandFilter.someIn combined (BrandFilter.getStrongBrandAnchors cfg) = true
  /\ BrandFilter.matchesBrand (Config.withStrict true cfg) (Some combined) = true
  /\ BrandFilter.matchesBrandBalanced cfg (Some combined) Reddit.contextKeywords = true
  /\ Reddit.excluded combined = true
  /\ Reddit.isRelevant cfg "check matiks.in tattoo" EmptyString "askreddit" None = false.
Proof. vm_compute. repeat split; reflexivity. Qed.

(** C6, amended.  Under balanced mode ([brandStrict] off,
    [brandBalanced] on) and outside the always-included and the
    excluded subreddits, a text is relevant exactly when balanced
    matching accepts it and no exclusion pattern matches it.  Balanced
    matching accepts what strict matching accepts, and otherwise what
    plain anchor matching accepts or what contains both the keyword
    matiks and a context keyword.  The exclusion patterns veto every
    such text, anchor-matched or not; they are left out only when
    [brandStrict] is on, where relevance is strict matching alone. *)
Theorem relevance_balanced_mode
    (cfg : Config.t) (text1 text2 subreddit : string) (url : option string) :
  Config.brandStrict cfg = false ->
  Config.brandBalanced cfg = true ->
  let sub := JsString.toLowerCase subreddit in
  let combined :=
    JsString.toLowerCase (text1 +:+ " " +:+ text2 +:+ " "
                          +:+ match url with Some u => u | None => EmptyString end) in
  let balanced :=
    BrandFilter.matchesBrandBalanced cfg (Some combined) Reddit.contextKeywords in
  (BrandFilter.matchesBrand (Config.withStrict true cfg) (Some combined) = true ->
   balanced = true)
  /\ balanced
     = (BrandFilter.matchesBrand cfg (Some combined)
        || (JsString.includes combined "matiks"
            && existsb (fun k => JsString.includes combined (JsString.toLowerCase k))
                       Reddit.contextKeywords))
  /\ Reddit.isRelevant cfg text1 text2 subreddit url
     = (if Reddit.has sub (Reddit.brandSubreddits cfg) then true
        else if Reddit.has sub Reddit.excludeSubreddits then false
        else balanced && negb (Reddit.excluded combined))
  /\ Reddit.isRelevant (Config.withStrict true cfg) text1 text2 subreddit url
     = (if Reddit.has sub (Reddit.brandSubreddits cfg) then true
        else if Reddit.has sub Reddit.excludeSubreddits then false
        else BrandFilter.matchesBrand (Config.withStrict true cfg) (Some combined)).
Proof.
  intros Hstrict Hbal sub combined balanced.
  assert (JsString.truthy combined = true) as Htr.
  { unfold combined. rewrite truthy_toLowerCase. apply truthy_app_space. }
  assert (BrandFilter.normalize combined = combined) as Hnorm
    by apply toLowerCase_idem.
  assert (balanced
          = (BrandFilter.matchesBrand cfg (Some combined)
             || (JsString.includes combined "matiks"
                 && existsb (fun k => JsString.includes combined (JsString.toLowerCase k))
                            Reddit.contextKeywords))) as Hb.
  { unfold balanced, BrandFilter.matchesBrandBalanced.
    rewrite Htr, Hnorm. simpl negb. cbv iota.
    destruct (BrandFilter.matchesBrand cfg (Some combined)); [reflexivity |].
    destruct (JsString.includes combined "matiks"); reflexivity. }
  split; [| split; [exact Hb | split]].
  - intros Hs. apply matchesBrand_strict_plain in Hs.
    rewrite <- Hstrict, withStrict_same in Hs. rewrite Hb, Hs. reflexivity.
  - unfold Reddit.isRelevant. fold sub. fold combined.
    rewrite Hstrict, Hbal. fold balanced.
    destruct (Reddit.has sub (Reddit.brandSubreddits cfg)); [reflexivity |].
    destruct (Reddit.has sub Reddit.excludeSubreddits); [reflexivity |].
    destruct balanced; reflexivity.
  - unfold Reddit.isRelevant. fold sub. fold combined. reflexivity.
Qed.

Lemma relevance_balanced_mode_witness :
  Config.brandStrict Config.default = false
  /\ Config.brandBalanced Config.default = true
  /\ Reddit.isRelevant Config.default "the matiks app is great" EmptyString "askreddit" None
     = (BrandFilter.matchesBrandBalanced Config.default
          (Some "the matiks app is great  ") Reddit.contextKeywords
        && negb (Reddit.excluded "the matiks app is great  ")).
Proof.
  split; [reflexivity |]. split; [reflexivity |].
  destruct (relevance_balanced_mode Config.default "the matiks app is great" EmptyString
              "askreddit" None eq_refl eq_refl) as (_ & _ & H & _).
  rewrite H. reflexivity.
Defined.

(** ** Inserts *)

Section InsertFacts.
Import Queries.

Lemma upsertMention_size m tbl :
  size (upsertMention m tbl)
  = match tbl !! (m_platform_id m, m_external_id m) with
    | Some _ => size tbl
    | None => S (size tbl)
    end.
Proof.
  unfold upsertMention.
  destruct (tbl !! (m_platform_id m, m_external_id m)) as [old |] eqn:E.
  - apply map_size_insert_Some. eauto.
  - apply map_size_insert_None, E.
Qed.

Lemma upsertMention_lookup_ne m tbl k :
  k <> (m_platform_id m, m_external_id m) -> upsertMention m tbl !! k = tbl !! k.
Proof.
  intros Hne. unfold upsertMention.
  destruct (tbl !! (m_platform_id m, m_external_id m));
    apply lookup_insert_ne; congruence.
Qed.

Lemma upsertMention_is_Some m tbl k :
  is_Some (tbl !! k) -> is_Some (upsertMention m tbl !! k).
Proof.
  intros H. destruct (decide (k = (m_platform_id m, m_external_id m))) as [-> | Hne].
  - unfold upsertMention.
    destruct (tbl !! (m_platform_id m, m_external_id m)); rewrite lookup_insert_eq; eauto.
  - rewrite upsertMention_lookup_ne by exact Hne. exact H.
Qed.

Lemma insertMentionsInto_count items : forall n tbl,
  let r := insertMentionsInto items n tbl in
  (Z.of_nat (size (snd r)) = Z.of_nat (size tbl) + (fst r - n))%Z
  /\ (n <= fst r <= n + Z.of_nat (length items))%Z
  /\ forall k, is_Some (tbl !! k) -> is_Some (snd r !! k).
Proof.
  induction items as [| m items IH]; intros n tbl; cbn [insertMentionsInto].
  - simpl. repeat split; try lia. auto.
  - cbv zeta.
    match goal with
    | |- context [insertMentionsInto items ?n' ?tbl'] =>
        destruct (IH n' tbl') as (Hs & Hn & Hk)
    end.
    rewrite upsertMention_size in Hs.
    destruct (tbl !! (m_platform_id m, m_external_id m)) eqn:E.
    + split; [lia |]. split; [simpl length; lia |].
      intros k Hk'. apply Hk, upsertMention_is_Some, Hk'.
    + split; [lia |]. split; [simpl length; lia |].
      intros k Hk'. apply Hk, upsertMention_is_Some, Hk'.
Qed.

Lemma upsertReview_size r tbl :
  size (upsertReview r tbl)
  = match tbl !! (r_platform_id r, r_external_id r) with
    | Some _ => size tbl
    | None => S (size tbl)
    end.
Proof.
  unfold upsertReview.
  destruct (tbl !! (r_platform_id r, r_external_id r)) as [old |] eqn:E.
  - apply map_size_insert_Some. eauto.
  - apply map_size_insert_None, E.
Qed.

Lemma upsertReview_lookup_ne r tbl k :
  k <> (r_platform_id r, r_external_id r) -> upsertReview r tbl !! k = tbl !! k.
Proof.
  intros Hne. unfold upsertReview.
  destruct (tbl !! (r_platform_id r, r_external_id r));
    apply lookup_insert_ne; congruence.
Qed.

Lemma upsertReview_is_Some r tbl k :
  is_Some (tbl !! k) -> is_Some (upsertReview r tbl !! k).
Proof.
  intros H. destruct (decide (k = (r_platform_id r, r_external_id r))) as [-> | Hne].
  - unfold upsertReview.
    destruct (tbl !! (r_platform_id r, r_external_id r)); rewrite lookup_insert_eq; eauto.
  - rewrite upsertReview_lookup_ne by exact Hne. exact H.
Qed.

Lemma insertReviewsInto_count items : forall n tbl,
  let r := insertReviewsInto items n tbl in
  (Z.of_nat (size (snd r)) = Z.of_nat (size tbl) + (fst r - n))%Z
  /\ (n <= fst r <= n + Z.of_nat (length items))%Z
  /\ forall k, is_Some (tbl !! k) -> is_Some (snd r !! k).
Proof.
  induction items as [| m items IH]; intros n tbl; cbn [insertReviewsInto].
  - simpl. repeat split; try lia. auto.
  - cbv zeta.
    match goal with
    | |- context [insertReviewsInto items ?n' ?tbl'] =>
        destruct (IH n' tbl') as (Hs & Hn & Hk)
    end.
    rewrite upsertReview_size in Hs.
    destruct (tbl !! (r_platform_id m, r_external_id m)) eqn:E.
    + split; [lia |]. split; [simpl length; lia |].
      intros k Hk'. apply Hk, upsertReview_is_Some, Hk'.
    + split; [lia |]. split; [simpl length; lia |].
      intros k Hk'. apply Hk, upsertReview_is_Some, Hk'.
Qed.

Lemma insertMentionsInto_other items : forall n tbl k,
  (forall m, In m items -> (m_platform_id m, m_external_id m) <> k) ->
  snd (insertMentionsInto items n tbl) !! k = tbl !! k.
Proof.
  induction items as [| a items IH]; intros n tbl k Hk; cbn [insertMentionsInto];
    [reflexivity |].
  rewrite IH by (intros m Hm; apply Hk; right; exact Hm).
  apply upsertMention_lookup_ne. intros E. apply (Hk a); [left; reflexivity | auto].
Qed.

(** The row a batch of mentions with distinct ids leaves under the
    key of one of them: the columns of that mention, with the date of
    the row that was there, if any. *)
Lemma insertMentionsInto_row items : forall n tbl m,
  NoDup (map m_external_id items) -> In m items ->
  snd (insertMentionsInto items n tbl) !! (m_platform_id m, m_external_id m)
  = Some (mkMention (m_platform_id m) (m_external_id m) (m_author m) (m_author_url m)
            (m_content m) (m_url m) (m_engagement_likes m) (m_engagement_comments m)
            (m_engagement_shares m) (m_sentiment_score m) (m_sentiment_label m)
            (match tbl !! (m_platform_id m, m_external_id m) with
             | Some old => m_created_at old
             | None => m_created_at m
             end)).
Proof.
  induction items as [| a items IH]; intros n tbl m Hnd Hin; [destruct Hin |].
  cbn [map] in Hnd. apply NoDup_cons in Hnd as [Ha Hnd].
  assert (forall x, In x items -> m_external_id x <> m_external_id a) as Hfresh.
  { intros x Hx E. apply Ha. rewrite <- E. apply list_elem_of_In, in_map, Hx. }
  cbn [insertMentionsInto]. destruct Hin as [-> | Hin].
  - rewrite insertMentionsInto_other
      by (intros x Hx E; apply (Hfresh x Hx); congruence).
    unfold upsertMention.
    destruct (tbl !! (m_platform_id m, m_external_id m)) as [old |];
      rewrite lookup_insert_eq; [reflexivity |].
    destruct m; reflexivity.
  - rewrite (IH _ _ m Hnd Hin).
    rewrite upsertMention_lookup_ne
      by (intros E; apply (Hfresh m Hin); congruence).
    reflexivity.
Qed.

End InsertFacts.

(** ** The Reddit run *)

Create HintDb logs discriminated.

Section RedditFacts.
Import Queries Reddit.

Variable cfg : Config.t.
Variable analyze : string -> Sentiment.Analysis.
Variable http : nat -> Request -> HttpResult * nat.
Variable archive : nat -> Request -> ArchiveResult * nat.
Variable browserLaunches : bool.
Variable browse : nat -> Request -> option (list RedditPost) * nat.

(** *** Computations that keep the log table *)

Lemma keepsLogs_ret A (a : A) : keepsLogs (ret a).
Proof. intros w. reflexivity. Qed.

Lemma keepsLogs_throw A e : keepsLogs (@throw A e).
Proof. intros w. reflexivity. Qed.

Lemma keepsLogs_get : keepsLogs get.
Proof. intros w. reflexivity. Qed.

Lemma keepsLogs_bind A B (c : M A) (k : A -> M B) :
  keepsLogs c -> (forall a, keepsLogs (k a)) -> keepsLogs (bind c k).
Proof.
  intros Hc Hk w. unfold bind. specialize (Hc w).
  destruct (c w) as [a w' | e w']; simpl in *.
  - rewrite Hk. exact Hc.
  - exact Hc.
Qed.

Lemma keepsLogs_tryCatch A (c : M A) (h : string -> M A) :
  keepsLogs c -> (forall e, keepsLogs (h e)) -> keepsLogs (tryCatch c h).
Proof.
  intros Hc Hh w. unfold tryCatch. specialize (Hc w).
  destruct (c w) as [a w' | e w']; simpl in *.
  - exact Hc.
  - rewrite Hh. exact Hc.
Qed.

Lemma keepsLogs_modify (f : World -> World) :
  (forall w, scrape_logs (db (f w)) = scrape_logs (db w)) -> keepsLogs (modify f).
Proof. intros Hf w. simpl. apply Hf. Qed.

Lemma keepsLogs_forEach A (l : list A) (body : A -> M unit) :
  (forall x, keepsLogs (body x)) -> keepsLogs (forEach l body).
Proof.
  intros Hb. induction l as [| x l IH]; simpl.
  - apply keepsLogs_ret.
  - apply keepsLogs_bind; [apply Hb | intros _; exact IH].
Qed.

Lemma keepsLogs_untilTimeUp A (l : list A) (body : A -> M unit) :
  (forall x, keepsLogs (body x)) -> keepsLogs (untilTimeUp l body).
Proof.
  intros Hb. induction l as [| x l IH]; simpl.
  - apply keepsLogs_ret.
  - apply keepsLogs_bind; [apply keepsLogs_get |].
    intros w. destruct (isTimeUp w); [apply keepsLogs_ret |].
    apply keepsLogs_bind; [apply Hb | intros _; exact IH].
Qed.

Lemma keepsLogs_ask R (oracle : nat -> Request -> R * nat) req :
  keepsLogs (ask oracle req).
Proof. intros w. unfold ask. destruct (oracle _ req). reflexivity. Qed.

Lemma insertMentions_logs items d :
  scrape_logs (snd (insertMentions items d)) = scrape_logs d.
Proof.
  unfold insertMentions. destruct (insertMentionsInto _ _ _). reflexivity.
Qed.

Lemma flushBuffer_logs w :
  scrape_logs (db (flushBuffer analyze w)) = scrape_logs (db w).
Proof.
  unfold flushBuffer. destruct (buffer w); [reflexivity |].
  pose proof (insertMentions_logs (map (withSentiment analyze) (m :: l)) (db w)) as H.
  destruct (insertMentions _ _). exact H.
Qed.

Lemma addPost_logs post w :
  scrape_logs (db (snd (addPost cfg post w))) = scrape_logs (db w).
Proof.
  unfold addPost. destruct post as [post |]; [| reflexivity].
  repeat match goal with
         | |- context [if ?b then _ else _] => destruct b
         end; reflexivity.
Qed.

Lemma addComment_logs comment w :
  scrape_logs (db (snd (addComment cfg comment w))) = scrape_logs (db w).
Proof.
  unfold addComment. destruct comment as [comment |]; [| reflexivity].
  repeat match goal with
         | |- context [if ?b then _ else _] => destruct b
         end; reflexivity.
Qed.

Lemma keepsLogs_addPostM post : keepsLogs (addPostM cfg post).
Proof.
  intros w. unfold addPostM. pose proof (addPost_logs post w) as H.
  destruct (addPost cfg post w). exact H.
Qed.

Lemma keepsLogs_addCommentM comment : keepsLogs (addCommentM cfg comment).
Proof.
  intros w. unfold addCommentM. pose proof (addComment_logs comment w) as H.
  destruct (addComment cfg comment w). exact H.
Qed.

Lemma keepsLogs_sleep ms : keepsLogs (sleep ms).
Proof. apply keepsLogs_modify. reflexivity. Qed.

Lemma keepsLogs_acquire : keepsLogs acquire.
Proof.
  apply keepsLogs_modify. intros w. cbv beta zeta.
  match goal with |- context [Qlt_le_dec ?a ?b] => destruct (Qlt_le_dec a b) end;
    reflexivity.
Qed.

Lemma keepsLogs_flush : keepsLogs (modify (flushBuffer analyze)).
Proof. apply keepsLogs_modify, flushBuffer_logs. Qed.

Lemma keepsLogs_flushIfFull : keepsLogs (flushIfFull analyze).
Proof.
  apply keepsLogs_modify. intros w.
  destruct (25 <=? length (buffer w))%nat; [apply flushBuffer_logs | reflexivity].
Qed.

Hint Resolve keepsLogs_ret keepsLogs_throw keepsLogs_get keepsLogs_ask
  keepsLogs_addPostM keepsLogs_addCommentM keepsLogs_sleep keepsLogs_acquire
  keepsLogs_flush keepsLogs_flushIfFull : logs.

(** Splits a sequence of steps into its steps. *)
Ltac logs_step :=
  first [ apply keepsLogs_bind; [| intros ?]
        | apply keepsLogs_tryCatch; [| intros ?]
        | apply keepsLogs_forEach; intros ?
        | apply keepsLogs_untilTimeUp; intros ?
        | apply keepsLogs_modify; reflexivity
        | solve [auto with logs] ].

Lemma keepsLogs_fetchAttempts left req : keepsLogs (fetchAttempts http left req).
Proof.
  induction left as [| left' IH]; [apply keepsLogs_ret |].
  cbn [fetchAttempts].
  apply keepsLogs_bind; [auto with logs | intros _].
  apply keepsLogs_bind; [apply keepsLogs_modify; reflexivity | intros _].
  apply keepsLogs_bind; [auto with logs | intros r].
  destruct r as [| | | | body].
  - destruct left'; [auto with logs |].
    apply keepsLogs_bind; [auto with logs | intros _; exact IH].
  - apply keepsLogs_bind; [apply keepsLogs_modify; reflexivity | intros _].
    apply keepsLogs_bind; [apply keepsLogs_modify; reflexivity | intros _].
    apply keepsLogs_bind; [auto with logs | intros w].
    apply keepsLogs_bind; [auto with logs | intros _; exact IH].
  - apply keepsLogs_bind; [auto with logs | intros _; exact IH].
  - apply keepsLogs_bind; [apply keepsLogs_modify; reflexivity | intros _].
    destruct left'; [auto with logs |].
    apply keepsLogs_bind; [auto with logs | intros _; exact IH].
  - apply keepsLogs_bind; [apply keepsLogs_modify; reflexivity | intros _].
    auto with logs.
Qed.

Lemma keepsLogs_onPost child : keepsLogs (onPost cfg child).
Proof. destruct child as [[| |] |]; simpl; repeat logs_step. Qed.

Lemma keepsLogs_onComment child : keepsLogs (onComment cfg child).
Proof. destruct child as [[| |] |]; simpl; repeat logs_step. Qed.

Lemma keepsLogs_paginate left mkReq onChild :
  (forall c, keepsLogs (onChild c)) ->
  forall after_, keepsLogs (paginate http left mkReq onChild after_).
Proof.
  intros Hc. induction left as [| left IH]; intros after_; cbn [paginate];
    [auto with logs |].
  apply keepsLogs_bind; [auto with logs | intros w].
  destruct (isTimeUp w); [auto with logs |].
  apply keepsLogs_bind; [apply keepsLogs_fetchAttempts | intros data].
  destruct data as [listing |]; [| auto with logs].
  destruct (children listing) as [| c cs]; [auto with logs |].
  apply keepsLogs_bind; [apply keepsLogs_forEach, Hc | intros _].
  destruct (after listing) as [a |]; [| auto with logs].
  destruct (JsString.truthy a); [apply IH | auto with logs].
Qed.

Hint Resolve keepsLogs_onPost keepsLogs_onComment : logs.

Lemma keepsLogs_phases isIncremental :
  keepsLogs (phases cfg analyze http archive browserLaunches browse isIncremental).
Proof.
  unfold phases. repeat (apply keepsLogs_bind; [| intros _]).
  - unfold phase0_BrandSubredditListings.
    apply keepsLogs_bind; [auto with logs | intros w].
    destruct (isTimeUp w); [auto with logs |].
    destruct (brandSubreddits cfg); [auto with logs |].
    apply keepsLogs_untilTimeUp. intros sub.
    repeat (apply keepsLogs_bind; [| intros _]);
      try apply keepsLogs_paginate; auto with logs.
  - unfold phase1_ExhaustiveApiSearch.
    apply keepsLogs_bind; [auto with logs | intros w].
    destruct (isTimeUp w); [auto with logs |].
    apply keepsLogs_untilTimeUp. intros term.
    apply keepsLogs_bind; [| intros _; auto with logs].
    apply keepsLogs_forEach. intros sort.
    apply keepsLogs_untilTimeUp. intros time.
    apply keepsLogs_paginate; auto with logs.
  - unfold phase2_SubredditSearches.
    apply keepsLogs_bind; [auto with logs | intros w].
    destruct (isTimeUp w); [auto with logs |].
    apply keepsLogs_untilTimeUp. intros sub.
    apply keepsLogs_bind; [| intros _; auto with logs].
    apply keepsLogs_paginate; auto with logs.
  - unfold phase3_CommentSearch.
    apply keepsLogs_bind; [auto with logs | intros w].
    destruct (isTimeUp w); [auto with logs |].
    apply keepsLogs_bind; [| intros _; auto with logs].
    apply keepsLogs_untilTimeUp. intros term.
    apply keepsLogs_paginate; auto with logs.
  - unfold phase4_HistoricalArchives.
    apply keepsLogs_bind; [auto with logs | intros w].
    destruct (isTimeUp w); [auto with logs |].
    destruct isIncremental; [auto with logs |].
    apply keepsLogs_bind; [| intros _; auto with logs].
    apply keepsLogs_untilTimeUp. intros req.
    apply keepsLogs_bind; [| intros _; auto with logs].
    apply keepsLogs_tryCatch; [| intros _; auto with logs].
    apply keepsLogs_bind; [auto with logs | intros r].
    destruct r as [| | items]; auto with logs.
    apply keepsLogs_forEach. intros [[p | c |] |]; simpl; repeat logs_step.
  - unfold phase5_BrowserVerification.
    apply keepsLogs_bind; [auto with logs | intros w].
    destruct (isTimeUp w); [auto with logs |].
    apply keepsLogs_tryCatch; [| intros _; auto with logs].
    destruct browserLaunches; [| auto with logs].
    apply keepsLogs_untilTimeUp. intros req.
    apply keepsLogs_tryCatch; [| intros _; auto with logs].
    apply keepsLogs_bind; [auto with logs | intros r].
    destruct r as [posts |]; [| auto with logs].
    apply keepsLogs_forEach. intros post. repeat logs_step.
Qed.

(** *** Computations that do not throw *)

Lemma returns_ret A (a : A) : returns (ret a).
Proof. intros w. eauto. Qed.

Lemma returns_get : returns get.
Proof. intros w. unfold get. eauto. Qed.

Lemma returns_modify f : returns (modify f).
Proof. intros w. unfold modify. eauto. Qed.

Lemma returns_bind A B (c : M A) (k : A -> M B) :
  returns c -> (forall a, returns (k a)) -> returns (bind c k).
Proof.
  intros Hc Hk w. unfold bind. destruct (Hc w) as (a & w' & ->). apply Hk.
Qed.

Lemma returns_tryCatch A (c : M A) (h : string -> M A) :
  (forall e, returns (h e)) -> returns (tryCatch c h).
Proof.
  intros Hh w. unfold tryCatch. destruct (c w) as [a w' | e w']; [eauto | apply Hh].
Qed.

Lemma returns_ask R (oracle : nat -> Request -> R * nat) req : returns (ask oracle req).
Proof. intros w. unfold ask. destruct (oracle _ req). eauto. Qed.

Lemma returns_untilTimeUp A (l : list A) (body : A -> M unit) :
  (forall x, returns (body x)) -> returns (untilTimeUp l body).
Proof.
  intros Hb. induction l as [| x l IH]; cbn [untilTimeUp].
  - apply returns_ret.
  - apply returns_bind; [apply returns_get | intros w].
    destruct (isTimeUp w); [apply returns_ret |].
    apply returns_bind; [apply Hb | intros _; exact IH].
Qed.

Lemma returns_sleep ms : returns (sleep ms).
Proof. apply returns_modify. Qed.

(** Failed requests are absorbed by [fetchWithRetry]. *)
Lemma returns_fetchAttempts left req : returns (fetchAttempts http left req).
Proof.
  induction left as [| left' IH]; [apply returns_ret |].
  cbn [fetchAttempts].
  apply returns_bind; [apply returns_modify | intros _].
  apply returns_bind; [apply returns_modify | intros _].
  apply returns_bind; [apply returns_ask | intros r].
  destruct r as [| | | | body].
  - destruct left'; [apply returns_ret |].
    apply returns_bind; [apply returns_sleep | intros _; exact IH].
  - apply returns_bind; [apply returns_modify | intros _].
    apply returns_bind; [apply returns_modify | intros _].
    apply returns_bind; [apply returns_get | intros w].
    apply returns_bind; [apply returns_sleep | intros _; exact IH].
  - apply returns_bind; [apply returns_sleep | intros _; exact IH].
  - apply returns_bind; [apply returns_modify | intros _].
    destruct left'; [apply returns_ret |].
    apply returns_bind; [apply returns_sleep | intros _; exact IH].
  - apply returns_bind; [apply returns_modify | intros _]. apply returns_ret.
Qed.

Lemma returns_phase4 isIncremental :
  returns (phase4_HistoricalArchives cfg analyze archive isIncremental).
Proof.
  unfold phase4_HistoricalArchives.
  apply returns_bind; [apply returns_get | intros w].
  destruct (isTimeUp w); [apply returns_ret |].
  destruct isIncremental; [apply returns_ret |].
  apply returns_bind; [| intros _; apply returns_modify].
  apply returns_untilTimeUp. intros req.
  apply returns_bind; [| intros _; apply returns_sleep].
  apply returns_tryCatch. intros _. apply returns_ret.
Qed.

Lemma returns_phase5 :
  returns (phase5_BrowserVerification cfg browserLaunches browse).
Proof.
  unfold phase5_BrowserVerification.
  apply returns_bind; [apply returns_get | intros w].
  destruct (isTimeUp w); [apply returns_ret |].
  apply returns_tryCatch. intros _. apply returns_ret.
Qed.

(** *** A phase that begins after the deadline does nothing *)

Lemma phases_skipped_when_time_is_up isIncremental w :
  isTimeUp w = true ->
  phase0_BrandSubredditListings cfg analyze http w = Returned tt w
  /\ phase1_ExhaustiveApiSearch cfg analyze http isIncremental w = Returned tt w
  /\ phase2_SubredditSearches cfg analyze http w = Returned tt w
  /\ phase3_CommentSearch cfg analyze http w = Returned tt w
  /\ phase4_HistoricalArchives cfg analyze archive isIncremental w = Returned tt w
  /\ phase5_BrowserVerification cfg browserLaunches browse w = Returned tt w.
Proof.
  intros H.
  unfold phase0_BrandSubredditListings, phase1_ExhaustiveApiSearch,
    phase2_SubredditSearches, phase3_CommentSearch, phase4_HistoricalArchives,
    phase5_BrowserVerification, bind, get.
  rewrite H. repeat split; reflexivity.
Qed.

End RedditFacts.

(** ** The elementary changes of a run *)

Section RedditStepFacts.
Import Queries Reddit RedditSteps.

Variable cfg : Config.t.
Variable analyze : string -> Sentiment.Analysis.
Variable http : nat -> Request -> HttpResult * nat.
Variable archive : nat -> Request -> ArchiveResult * nat.
Variable browserLaunches : bool.
Variable browse : nat -> Request -> option (list RedditPost) * nat.

Local Abbreviation reaches := (RedditSteps.reaches cfg analyze).
Local Abbreviation steps := (RedditSteps.steps cfg analyze).
Local Abbreviation step := (RedditSteps.step cfg analyze).

Lemma reaches_one w w' : step w w' -> reaches w w'.
Proof. intros H. eapply reaches_step; [apply reaches_refl | exact H]. Qed.

Lemma reaches_trans w1 w2 w3 : reaches w1 w2 -> reaches w2 w3 -> reaches w1 w3.
Proof.
  intros H12 H23. induction H23 as [| w2 w3 w4 _ IH Hs]; [exact H12 |].
  eapply reaches_step; [apply IH, H12 | exact Hs].
Qed.

Lemma reaches_inv (P : World -> Prop) :
  (forall w w', step w w' -> P w -> P w') ->
  forall w w', reaches w w' -> P w -> P w'.
Proof.
  intros Hstep w w' H. induction H as [| w1 w2 w3 _ IH Hs]; [auto |].
  intros HP. eapply Hstep; [exact Hs | apply IH, HP].
Qed.

Lemma steps_ret A (a : A) : steps (ret a).
Proof. intros w. apply reaches_refl. Qed.

Lemma steps_throw A e : steps (@throw A e).
Proof. intros w. apply reaches_refl. Qed.

Lemma steps_get : steps get.
Proof. intros w. apply reaches_refl. Qed.

Lemma steps_bind A B (c : M A) (k : A -> M B) :
  steps c -> (forall a, steps (k a)) -> steps (bind c k).
Proof.
  intros Hc Hk w. unfold bind. specialize (Hc w).
  destruct (c w) as [a w' | e w']; simpl in *.
  - eapply reaches_trans; [exact Hc | apply Hk].
  - exact Hc.
Qed.

Lemma steps_tryCatch A (c : M A) (h : string -> M A) :
  steps c -> (forall e, steps (h e)) -> steps (tryCatch c h).
Proof.
  intros Hc Hh w. unfold tryCatch. specialize (Hc w).
  destruct (c w) as [a w' | e w']; simpl in *.
  - exact Hc.
  - eapply reaches_trans; [exact Hc | apply Hh].
Qed.

Lemma steps_modify (f : World -> World) :
  (forall w, reaches w (f w)) -> steps (modify f).
Proof. intros Hf w. simpl. apply Hf. Qed.

Lemma steps_forEach A (l : list A) (body : A -> M unit) :
  (forall x, steps (body x)) -> steps (forEach l body).
Proof.
  intros Hb. induction l as [| x l IH]; simpl.
  - apply steps_ret.
  - apply steps_bind; [apply Hb | intros _; exact IH].
Qed.

Lemma steps_untilTimeUp A (l : list A) (body : A -> M unit) :
  (forall x, steps (body x)) -> steps (untilTimeUp l body).
Proof.
  intros Hb. induction l as [| x l IH]; simpl.
  - apply steps_ret.
  - apply steps_bind; [apply steps_get |].
    intros w. destruct (isTimeUp w); [apply steps_ret |].
    apply steps_bind; [apply Hb | intros _; exact IH].
Qed.

Lemma steps_ask R (oracle : nat -> Request -> R * nat) req : steps (ask oracle req).
Proof.
  intros w. unfold ask. destruct (oracle _ req) as [r ms]. simpl.
  eapply reaches_step; [apply reaches_one, (step_request _ _ req) | apply step_clock].
Qed.

Lemma steps_addPostM post : steps (addPostM cfg post).
Proof.
  intros w. unfold addPostM. pose proof (step_addPost cfg analyze post w) as H.
  destruct (addPost cfg post w). apply reaches_one, H.
Qed.

Lemma steps_addCommentM comment : steps (addCommentM cfg comment).
Proof.
  intros w. unfold addCommentM. pose proof (step_addComment cfg analyze comment w) as H.
  destruct (addComment cfg comment w). apply reaches_one, H.
Qed.

Lemma steps_sleep ms : steps (sleep ms).
Proof. apply steps_modify. intros w. apply reaches_one, step_clock. Qed.

Lemma steps_acquire : steps acquire.
Proof.
  apply steps_modify. intros w. cbv beta zeta.
  match goal with |- context [Qlt_le_dec ?a ?b] => destruct (Qlt_le_dec a b) end.
  - eapply reaches_step; [apply reaches_one, step_limiter | apply step_clock].
  - apply reaches_one, step_limiter.
Qed.

Lemma steps_flush : steps (modify (flushBuffer analyze)).
Proof. apply steps_modify. intros w. apply reaches_one, step_flush. Qed.

Lemma steps_flushIfFull : steps (flushIfFull analyze).
Proof.
  apply steps_modify. intros w.
  destruct (25 <=? length (buffer w))%nat;
    [apply reaches_one, step_flush | apply reaches_refl].
Qed.

Lemma steps_apiCall : steps (modify bumpApiCalls).
Proof. apply steps_modify. intros w. apply reaches_one, step_apiCall. Qed.

Lemma steps_rateLimitHit : steps (modify bumpRateLimitHits).
Proof. apply steps_modify. intros w. apply reaches_one, step_rateLimitHit. Qed.

Lemma steps_limiter (f : World -> ProductionRateLimiter.Limiter) :
  steps (modify (fun w => setLimiter (f w) w)).
Proof. apply steps_modify. intros w. apply reaches_one, step_limiter. Qed.

Create HintDb steps.

Hint Resolve steps_ret steps_throw steps_get steps_ask steps_addPostM
  steps_addCommentM steps_sleep steps_acquire steps_flush steps_flushIfFull
  steps_apiCall steps_rateLimitHit steps_limiter : steps.

Lemma steps_fetchAttempts left req : steps (fetchAttempts http left req).
Proof.
  induction left as [| left' IH]; [apply steps_ret |].
  cbn [fetchAttempts].
  apply steps_bind; [auto with steps | intros _].
  apply steps_bind; [auto with steps | intros _].
  apply steps_bind; [auto with steps | intros r].
  destruct r as [| | | | body].
  - destruct left'; [auto with steps |].
    apply steps_bind; [auto with steps | intros _; exact IH].
  - apply steps_bind; [auto with steps | intros _].
    apply steps_bind; [apply steps_limiter | intros _].
    apply steps_bind; [auto with steps | intros w].
    apply steps_bind; [auto with steps | intros _; exact IH].
  - apply steps_bind; [auto with steps | intros _; exact IH].
  - apply steps_bind; [apply steps_limiter | intros _].
    destruct left'; [auto with steps |].
    apply steps_bind; [auto with steps | intros _; exact IH].
  - apply steps_bind; [apply steps_limiter | intros _].
    auto with steps.
Qed.

Lemma steps_onPost child : steps (onPost cfg child).
Proof.
  destruct child as [[| |] |]; simpl; auto with steps.
  apply steps_bind; [auto with steps | intros _; auto with steps].
Qed.

Lemma steps_onComment child : steps (onComment cfg child).
Proof.
  destruct child as [[| |] |]; simpl; auto with steps.
  apply steps_bind; [auto with steps | intros _; auto with steps].
Qed.

Lemma steps_onArchiveItem item : steps (onArchiveItem cfg item).
Proof.
  destruct item as [[p | c |] |]; simpl; auto with steps;
    (apply steps_bind; [auto with steps | intros _; auto with steps]).
Qed.

Lemma steps_paginate left mkReq onChild :
  (forall c, steps (onChild c)) ->
  forall after_, steps (paginate http left mkReq onChild after_).
Proof.
  intros Hc. induction left as [| left IH]; intros after_; cbn [paginate];
    [auto with steps |].
  apply steps_bind; [auto with steps | intros w].
  destruct (isTimeUp w); [auto with steps |].
  apply steps_bind; [apply steps_fetchAttempts | intros data].
  destruct data as [listing |]; [| auto with steps].
  destruct (children listing) as [| c cs]; [auto with steps |].
  apply steps_bind; [apply steps_forEach, Hc | intros _].
  destruct (after listing) as [a |]; [| auto with steps].
  destruct (JsString.truthy a); [apply IH | auto with steps].
Qed.

Hint Resolve steps_onPost steps_onComment steps_onArchiveItem : steps.

Lemma steps_phases isIncremental :
  steps (phases cfg analyze http archive browserLaunches browse isIncremental).
Proof.
  unfold phases. repeat (apply steps_bind; [| intros _]).
  - unfold phase0_BrandSubredditListings.
    apply steps_bind; [auto with steps | intros w].
    destruct (isTimeUp w); [auto with steps |].
    destruct (brandSubreddits cfg); [auto with steps |].
    apply steps_untilTimeUp. intros sub.
    repeat (apply steps_bind; [| intros _]);
      try apply steps_paginate; auto with steps.
  - unfold phase1_ExhaustiveApiSearch.
    apply steps_bind; [auto with steps | intros w].
    destruct (isTimeUp w); [auto with steps |].
    apply steps_untilTimeUp. intros term.
    apply steps_bind; [| intros _; auto with steps].
    apply steps_forEach. intros sort.
    apply steps_untilTimeUp. intros time.
    apply steps_paginate; auto with steps.
  - unfold phase2_SubredditSearches.
    apply steps_bind; [auto with steps | intros w].
    destruct (isTimeUp w); [auto with steps |].
    apply steps_untilTimeUp. intros sub.
    apply steps_bind; [| intros _; auto with steps].
    apply steps_paginate; auto with steps.
  - unfold phase3_CommentSearch.
    apply steps_bind; [auto with steps | intros w].
    destruct (isTimeUp w); [auto with steps |].
    apply steps_bind; [| intros _; auto with steps].
    apply steps_untilTimeUp. intros term.
    apply steps_paginate; auto with steps.
  - unfold phase4_HistoricalArchives.
    apply steps_bind; [auto with steps | intros w].
    destruct (isTimeUp w); [auto with steps |].
    destruct isIncremental; [auto with steps |].
    apply steps_bind; [| intros _; auto with steps].
    apply steps_untilTimeUp. intros req.
    apply steps_bind; [| intros _; auto with steps].
    apply steps_tryCatch; [| intros _; auto with steps].
    apply steps_bind; [auto with steps | intros r].
    destruct r as [| | items]; auto with steps.
    apply steps_forEach. auto with steps.
  - unfold phase5_BrowserVerification.
    apply steps_bind; [auto with steps | intros w].
    destruct (isTimeUp w); [auto with steps |].
    apply steps_tryCatch; [| intros _; auto with steps].
    destruct browserLaunches; [| auto with steps].
    apply steps_untilTimeUp. intros req.
    apply steps_tryCatch; [| intros _; auto with steps].
    apply steps_bind; [auto with steps | intros r].
    destruct r as [posts |]; [| auto with steps].
    apply steps_forEach. intros post.
    apply steps_bind; [auto with steps | intros _; auto with steps].
Qed.

(** *** What a step keeps *)

(** [addPost] either changes the statistics only, or accepts. *)
Lemma addPost_cases post w :
  let w' := snd (addPost cfg post w) in
  (buffer w' = buffer w /\ seenIds w' = seenIds w /\ db w' = db w
   /\ saved (stats w') = saved (stats w) /\ found w' = found w)
  \/ (exists p, post = Some p
      /\ buffer w' = buffer w ++ [transformPost p (clock w)]
      /\ seenIds w' = {[p_name p]} ∪ seenIds w /\ db w' = db w
      /\ saved (stats w') = saved (stats w) /\ found w' = (found w + 1)%Z).
Proof.
  unfold addPost. destruct post as [p |]; [| left; repeat split; reflexivity].
  destruct (negb (JsString.truthy (p_name p))); [left; repeat split; reflexivity |].
  destruct (bool_decide (p_name p ∈ seenIds w)); [left; repeat split; reflexivity |].
  destruct (bool_decide (postContentKey p ∈ seenContent w));
    [left; repeat split; reflexivity |].
  destruct (negb (isRelevant cfg _ _ _ _)); [left; repeat split; reflexivity |].
  right. exists p. unfold found. simpl. repeat split; lia.
Qed.

Lemma addComment_cases comment w :
  let w' := snd (addComment cfg comment w) in
  (buffer w' = buffer w /\ seenIds w' = seenIds w /\ db w' = db w
   /\ saved (stats w') = saved (stats w) /\ found w' = found w)
  \/ (exists c, comment = Some c
      /\ buffer w' = buffer w ++ [transformComment c (clock w)]
      /\ seenIds w' = {[c_name c]} ∪ seenIds w /\ db w' = db w
      /\ saved (stats w') = saved (stats w) /\ found w' = (found w + 1)%Z).
Proof.
  unfold addComment. destruct comment as [c |]; [| left; repeat split; reflexivity].
  destruct (negb (JsString.truthy (c_name c))); [left; repeat split; reflexivity |].
  destruct (bool_decide (c_name c ∈ seenIds w)); [left; repeat split; reflexivity |].
  destruct (bool_decide (commentContentKey c ∈ seenContent w));
    [left; repeat split; reflexivity |].
  destruct (negb (isRelevant cfg _ _ _ _)); [left; repeat split; reflexivity |].
  right. exists c. unfold found. simpl. repeat split; lia.
Qed.

(** What [flushBuffer] does to the fields the books are about. *)
Lemma flushBuffer_spec w :
  let w' := flushBuffer analyze w in
  let r := insertMentionsInto (map (withSentiment analyze) (buffer w)) 0 (mentions (db w)) in
  buffer w' = [] /\ seenIds w' = seenIds w
  /\ mentions (db w') = snd r /\ reviews (db w') = reviews (db w)
  /\ saved (stats w') = (saved (stats w) + fst r)%Z /\ found w' = found w.
Proof.
  unfold flushBuffer. destruct (buffer w) as [| m0 l] eqn:E.
  - simpl. rewrite E. repeat split; try reflexivity. lia.
  - unfold insertMentions.
    destruct (insertMentionsInto _ _ _) as [n tbl]. simpl. repeat split.
Qed.

Lemma flushBuffer_clock w : clock (flushBuffer analyze w) = clock w.
Proof.
  unfold flushBuffer. destruct (buffer w); [reflexivity |].
  destruct (insertMentions _ _). reflexivity.
Qed.

(** *** The buffer holds distinct ids *)

Lemma pending_push w m content st :
  pending w -> m_external_id m ∉ seenIds w ->
  pending (setBuffer (buffer w ++ [m])
             (setStats st (setSeen ({[m_external_id m]} ∪ seenIds w) content w))).
Proof.
  intros [Hnd Hseen] Hfresh. unfold pending. simpl. split.
  - rewrite map_app. apply NoDup_app. split; [exact Hnd |]. split.
    + intros x Hx Hin. simpl in Hin. apply list_elem_of_In in Hin as [<- | []].
      apply list_elem_of_In, in_map_iff in Hx as (m' & E & Hm').
      apply Hfresh. rewrite <- E. apply Hseen, Hm'.
    + apply NoDup_singleton.
  - intros m' Hin. apply in_app_or in Hin as [Hin | [<- | []]].
    + apply elem_of_union_r, Hseen, Hin.
    + apply elem_of_union_l, elem_of_singleton. reflexivity.
Qed.

Lemma pending_stats w st : pending w -> pending (setStats st w).
Proof. intros H. exact H. Qed.

Lemma addPost_pending post w : pending w -> pending (snd (addPost cfg post w)).
Proof.
  intros H. unfold addPost. destruct post as [p |]; [| exact H].
  destruct (negb (JsString.truthy (p_name p))); [exact H |].
  destruct (bool_decide (p_name p ∈ seenIds w)) eqn:Eid; [exact H |].
  destruct (bool_decide (postContentKey p ∈ seenContent w)); [exact H |].
  destruct (negb (isRelevant cfg _ _ _ _)); [exact H |].
  apply bool_decide_eq_false in Eid.
  exact (pending_push w (transformPost p (clock w)) _ _ H Eid).
Qed.

Lemma addComment_pending comment w :
  pending w -> pending (snd (addComment cfg comment w)).
Proof.
  intros H. unfold addComment. destruct comment as [c |]; [| exact H].
  destruct (negb (JsString.truthy (c_name c))); [exact H |].
  destruct (bool_decide (c_name c ∈ seenIds w)) eqn:Eid; [exact H |].
  destruct (bool_decide (commentContentKey c ∈ seenContent w)); [exact H |].
  destruct (negb (isRelevant cfg _ _ _ _)); [exact H |].
  apply bool_decide_eq_false in Eid.
  exact (pending_push w (transformComment c (clock w)) _ _ H Eid).
Qed.

Lemma step_pending w w' : step w w' -> pending w -> pending w'.
Proof.
  intros Hs H. destruct Hs as [post w | comment w | w | l w | t w | w | w | r w];
    try exact H.
  - apply addPost_pending, H.
  - apply addComment_pending, H.
  - destruct (flushBuffer_spec w) as (Hb & Hi & _).
    unfold pending. rewrite Hb. split; [apply NoDup_nil_2 | intros m []].
Qed.

(** What the phases leave in the buffer, whether they return or
    throw, are mentions of distinct ids. *)
Lemma phases_pending isIncremental w :
  pending w ->
  pending (worldOf (phases cfg analyze http archive browserLaunches browse
                      isIncremental w)).
Proof.
  intros H. eapply reaches_inv; [exact step_pending | apply steps_phases | exact H].
Qed.

(** *** Requests are only ever added *)

Lemma addPost_requests post w : requests (snd (addPost cfg post w)) = requests w.
Proof.
  unfold addPost. destruct post as [post |]; [| reflexivity].
  repeat match goal with
         | |- context [if ?b then _ else _] => destruct b
         end; reflexivity.
Qed.

Lemma addComment_requests comment w :
  requests (snd (addComment cfg comment w)) = requests w.
Proof.
  unfold addComment. destruct comment as [comment |]; [| reflexivity].
  repeat match goal with
         | |- context [if ?b then _ else _] => destruct b
         end; reflexivity.
Qed.

Lemma flushBuffer_requests w : requests (flushBuffer analyze w) = requests w.
Proof.
  unfold flushBuffer. destruct (buffer w); [reflexivity |].
  destruct (insertMentions _ _). reflexivity.
Qed.

Lemma reaches_requests w w' :
  reaches w w' -> exists more, requests w' = requests w ++ more.
Proof.
  intros H. induction H as [w | w1 w2 w3 _ [more IH] Hs].
  - exists []. rewrite app_nil_r. reflexivity.
  - destruct Hs as [post w | comment w | w | l w | t w | w | w | r w].
    + exists more. rewrite addPost_requests. exact IH.
    + exists more. rewrite addComment_requests. exact IH.
    + exists more. rewrite flushBuffer_requests. exact IH.
    + exists more. exact IH.
    + exists more. exact IH.
    + exists more. exact IH.
    + exists more. exact IH.
    + exists (more ++ [r]). simpl. rewrite IH, app_assoc. reflexivity.
Qed.

(** A call of [fetchWithRetry] with attempts to go sends its request
    first. *)
Lemma fetchAttempts_asks left req w :
  exists more,
    requests (worldOf (fetchAttempts http (S left) req w)) = requests w ++ req :: more.
Proof.
  pose proof (steps_fetchAttempts left req) as Hrest.
  cbn [fetchAttempts].
  match goal with
  | |- context [bind (ask http req) ?k] => set (K := k)
  end.
  assert (forall r, steps (K r)) as HK.
  { intros r. subst K. cbv beta. destruct r as [| | | | body].
    - destruct left; [auto with steps |].
      apply steps_bind; [auto with steps | intros _; exact Hrest].
    - apply steps_bind; [auto with steps | intros _].
      apply steps_bind; [apply steps_limiter | intros _].
      apply steps_bind; [auto with steps | intros w0].
      apply steps_bind; [auto with steps | intros _; exact Hrest].
    - apply steps_bind; [auto with steps | intros _; exact Hrest].
    - apply steps_bind; [apply steps_limiter | intros _].
      destruct left; [auto with steps |].
      apply steps_bind; [auto with steps | intros _; exact Hrest].
    - apply steps_bind; [apply steps_limiter | intros _].
      auto with steps. }
  unfold bind at 1. unfold acquire at 1, modify at 1.
  match goal with
  | |- context [Qlt_le_dec ?a ?b] => destruct (Qlt_le_dec a b)
  end;
    unfold bind at 1; unfold modify at 1;
    unfold bind at 1; unfold ask at 1; simpl requests;
    destruct (http (length (requests w)) req) as [r ms];
    match goal with
    | |- context [K r ?w3] => destruct (reaches_requests _ _ (HK r w3)) as [more Hmore]
    end;
    exists more; rewrite Hmore; simpl; rewrite <- app_assoc; reflexivity.
Qed.

(** The paging loop after a page with children and a continuation
    token: with a page left and time left, the request for the next
    page is sent, whatever the page held. *)
Lemma paginate_asks_next left mkReq onChild after_ w listing w1 w2 a :
  (forall c, steps (onChild c)) ->
  isTimeUp w = false ->
  fetchWithRetry http (mkReq after_) w = Returned (Some listing) w1 ->
  children listing <> [] ->
  forEach (children listing) onChild w1 = Returned tt w2 ->
  after listing = Some a -> JsString.truthy a = true ->
  isTimeUp w2 = false ->
  exists more,
    requests (worldOf (paginate http (S (S left)) mkReq onChild after_ w))
    = requests w2 ++ mkReq (Some a) :: more.
Proof.
  intros Hc Hup Hfetch Hcs Heach Ha Htruthy Hup2.
  cbn [paginate]. unfold bind at 1, get at 1. rewrite Hup.
  unfold bind at 1. rewrite Hfetch.
  destruct (children listing) as [| c cs] eqn:E; [congruence |].
  unfold bind at 1. rewrite Heach. rewrite Ha, Htruthy.
  unfold bind at 1, get at 1. rewrite Hup2.
  unfold fetchWithRetry.
  destruct (fetchAttempts_asks 2 (mkReq (Some a)) w2) as [more1 H1].
  set (c1 := fetchAttempts http 3 (mkReq (Some a))) in *.
  match goal with
  | |- context [bind c1 ?k] => set (K := k)
  end.
  assert (forall d, steps (K d)) as HK.
  { intros d. subst K. cbv beta. destruct d as [l |]; [| auto with steps].
    destruct (children l); [auto with steps |].
    apply steps_bind; [apply steps_forEach, Hc | intros _].
    destruct (after l) as [a' |]; [| auto with steps].
    destruct (JsString.truthy a'); [apply steps_paginate, Hc | auto with steps]. }
  unfold bind. destruct (c1 w2) as [d w3 | e w3]; simpl in H1.
  - destruct (reaches_requests _ _ (HK d w3)) as [more2 H2].
    exists (more1 ++ more2). rewrite H2, H1, <- app_assoc. reflexivity.
  - exists more1. exact H1.
Qed.

End RedditStepFacts.

Lemma start_spec w :
  let cursor := Queries.getScrapeCursor "reddit" (Reddit.db w) in
  exists w0,
    Reddit.start w = (cursor, S (length (Queries.scrape_logs (Reddit.db w))), w0)
    /\ Queries.scrape_logs (Reddit.db w0)
       = Queries.scrape_logs (Reddit.db w)
           ++ [Queries.mkLog "reddit" Queries.running 0 0 None (Reddit.clock w) None]
    /\ Reddit.buffer w0 = [].
Proof. intros cursor. eexists. unfold Reddit.start. simpl. repeat split. Qed.

Lemma logScrapeEnd_marks id status found new error now d l :
  Queries.scrape_logs d !! id = Some l ->
  Queries.scrape_logs (Queries.logScrapeEnd (S id) status found new error now d) !! id
  = Some (Queries.mkLog (Queries.l_platform l) status found new
            (Queries.errorOrNull error) (Queries.l_started_at l) (Some now)).
Proof.
  intros H. unfold Queries.logScrapeEnd. simpl. rewrite H.
  apply list_lookup_insert_eq. apply lookup_lt_Some in H. exact H.
Qed.

Lemma gset_add_remove (name : string) (running : gset string) :
  name ∉ running -> ({[name]} ∪ running) ∖ {[name]} = running.
Proof.
  intros H. apply set_eq. intros x.
  rewrite elem_of_difference, elem_of_union, elem_of_singleton.
  split; [tauto |]. intros Hx. split; [tauto | congruence].
Qed.

(** C7.  When an exception escapes the phases of a Reddit run, the
    run returns a result to its caller, with the message as its one
    error.  Before that it flushes the buffer as it stood at the
    throw: the buffered mentions have distinct ids, and each is in the
    table afterwards as the row under its key, with its own author,
    content, url and engagement, the sentiment of its content, and the
    date of the row that was there before, if any; the buffer is
    empty and the table has grown by as many rows as the count of
    saved items.  Then it closes its log row: status failed, the items
    found, the items saved with the flush counted in, the message (a
    non-empty one) as the error, the time of completion.  The
    scheduler's callback for the job then completes and leaves the job
    free to run at the next tick. *)
Theorem fatal_error_flushes_and_returns
    (cfg : Config.t) (analyze : string -> Sentiment.Analysis)
    (http : nat -> Reddit.Request -> Reddit.HttpResult * nat)
    (archive : nat -> Reddit.Request -> Reddit.ArchiveResult * nat)
    (browserLaunches : bool)
    (browse : nat -> Reddit.Request -> option (list Reddit.RedditPost) * nat)
    (w : Reddit.World) (e : string) (w' : Reddit.World) :
  let cursor := fst (fst (Reddit.start w)) in
  let logId := snd (fst (Reddit.start w)) in
  let w0 := snd (Reddit.start w) in
  Reddit.phases cfg analyze http archive browserLaunches browse
    (match cursor with Some _ => true | None => false end) w0
  = Reddit.Thrown e w' ->
  exists wf,
    Reddit.run cfg analyze http archive browserLaunches browse w
    = Reddit.Returned (Reddit.mkResult [] (Reddit.saved (Reddit.stats wf)) [e]) wf
    /\ Reddit.buffer wf = []
    /\ NoDup (map Queries.m_external_id (Reddit.buffer w'))
    /\ (forall m, In m (Reddit.buffer w') ->
          let key := (Queries.m_platform_id m, Queries.m_external_id m) in
          let sentiment := Sentiment.analyzeSentiment analyze (Queries.m_content m) in
          Queries.mentions (Reddit.db wf) !! key
          = Some (Queries.mkMention
                    (Queries.m_platform_id m) (Queries.m_external_id m)
                    (Queries.m_author m) (Queries.m_author_url m)
                    (Queries.m_content m) (Queries.m_url m)
                    (Queries.m_engagement_likes m) (Queries.m_engagement_comments m)
                    (Queries.m_engagement_shares m)
                    (Some (Sentiment.score sentiment)) (Some (Sentiment.label sentiment))
                    (match Queries.mentions (Reddit.db w') !! key with
                     | Some old => Queries.m_created_at old
                     | None => Queries.m_created_at m
                     end)))
    /\ (Z.of_nat (size (Queries.mentions (Reddit.db wf)))
        = Z.of_nat (size (Queries.mentions (Reddit.db w')))
          + (Reddit.saved (Reddit.stats wf) - Reddit.saved (Reddit.stats w')))%Z
    /\ Queries.scrape_logs (Reddit.db wf) !! pred logId
       = Some (Queries.mkLog "reddit" Queries.failed (Reddit.found w')
                 (Reddit.saved (Reddit.stats wf))
                 (if JsString.truthy e then Some e else None)
                 (Reddit.clock w) (Some (Reddit.clock w')))
    /\ (forall now d running,
          w = Reddit.newScraper now d ->
          "Reddit Scraper" ∉ running ->
          Scheduler.tick _ "Reddit Scraper"
            (Scheduler.redditRunner cfg analyze http archive browserLaunches browse)
            (running, (now, d))
          = (running, (Reddit.clock wf, Reddit.db wf))).
Proof.
  intros cursor logId w0 Hthrow.
  destruct (start_spec w) as (w0' & Hstart & Hlogs0 & Hbuf0).
  subst cursor logId w0. rewrite Hstart in *. simpl fst in *. simpl snd in *.
  set (cursor := Queries.getScrapeCursor "reddit" (Reddit.db w)) in *.
  set (logId := S (length (Queries.scrape_logs (Reddit.db w)))) in *.
  pose proof (keepsLogs_phases cfg analyze http archive browserLaunches browse
                (match cursor with Some _ => true | None => false end) w0') as Hkeep.
  rewrite Hthrow in Hkeep. simpl in Hkeep.
  assert (RedditSteps.pending w') as [Hnd Hseen].
  { pose proof (phases_pending cfg analyze http archive browserLaunches browse
                  (match cursor with Some _ => true | None => false end) w0') as Hp.
    rewrite Hthrow in Hp. apply Hp.
    unfold RedditSteps.pending. rewrite Hbuf0. split; [apply NoDup_nil_2 | intros m []]. }
  destruct (flushBuffer_spec analyze w') as (Hempty & _ & Htbl & _ & Hsaved & Hfound).
  pose proof (flushBuffer_clock analyze w') as Hclock.
  pose proof (flushBuffer_logs analyze w') as Hflogs.
  pose proof (insertMentionsInto_count
                (map (Reddit.withSentiment analyze) (Reddit.buffer w')) 0
                (Queries.mentions (Reddit.db w'))) as (Hsize & _ & _).
  set (wfl := Reddit.flushBuffer analyze w') in *.
  set (wf := Reddit.setDb
               (Queries.logScrapeEnd logId Queries.failed (Reddit.found wfl)
                  (Reddit.saved (Reddit.stats wfl)) (Some e) (Reddit.clock wfl)
                  (Reddit.db wfl)) wfl).
  assert (Reddit.run cfg analyze http archive browserLaunches browse w
          = Reddit.Returned (Reddit.mkResult [] (Reddit.saved (Reddit.stats wf)) [e]) wf)
    as Hrun.
  { unfold Reddit.run. rewrite Hstart. unfold Reddit.tryCatch, Reddit.tryBlock.
    unfold Reddit.bind at 1. rewrite Hthrow. reflexivity. }
  assert (Queries.mentions (Reddit.db wf) = Queries.mentions (Reddit.db wfl)) as Hm
    by reflexivity.
  assert (Reddit.saved (Reddit.stats wf) = Reddit.saved (Reddit.stats wfl)) as Hs
    by reflexivity.
  exists wf. split; [exact Hrun |]. split; [exact Hempty |]. split; [exact Hnd |].
  split; [| split; [| split]].
  - intros m Hin key sentiment. rewrite Hm, Htbl.
    assert (NoDup (map Queries.m_external_id
                     (map (Reddit.withSentiment analyze) (Reddit.buffer w')))) as Hnd'
      by (rewrite map_map; exact Hnd).
    exact (insertMentionsInto_row _ 0%Z (Queries.mentions (Reddit.db w'))
             (Reddit.withSentiment analyze m) Hnd' (in_map _ _ _ Hin)).
  - rewrite Hm, Hs, Htbl, Hsaved. cbv zeta in Hsize. lia.
  - assert (Queries.scrape_logs (Reddit.db wfl) !! length (Queries.scrape_logs (Reddit.db w))
            = Some (Queries.mkLog "reddit" Queries.running 0 0 None (Reddit.clock w) None))
      as Hl.
    { rewrite Hflogs, Hkeep, Hlogs0.
      rewrite lookup_app_r by lia. rewrite Nat.sub_diag. reflexivity. }
    rewrite <- Hfound, <- Hclock.
    exact (logScrapeEnd_marks _ Queries.failed (Reddit.found wfl)
             (Reddit.saved (Reddit.stats wfl)) (Some e) (Reddit.clock wfl) _ _ Hl).
  - intros now d running -> Hnot.
    unfold Scheduler.tick. rewrite bool_decide_eq_false_2 by exact Hnot.
    unfold Scheduler.redditRunner. simpl fst. simpl snd. rewrite Hrun.
    rewrite gset_add_remove by exact Hnot. reflexivity.
Qed.

Lemma fatal_error_flushes_and_returns_witness :
  exists e w' wf,
    Reddit.phases Config.default Sample.analyze Sample.http Sample.archive false
      Sample.browse false (snd (Reddit.start Sample.world))
    = Reddit.Thrown e w'
    /\ e = Reddit.nullChild
    /\ map Queries.m_external_id (Reddit.buffer w') = ["t3_abc"]
    /\ Sample.run
       = Reddit.Returned (Reddit.mkResult [] (Reddit.saved (Reddit.stats wf)) [e]) wf
    /\ Reddit.buffer wf = []
    /\ (forall m, In m (Reddit.buffer w') ->
          exists row,
            Queries.mentions (Reddit.db wf)
              !! (Queries.m_platform_id m, Queries.m_external_id m) = Some row
            /\ Queries.m_content row = Queries.m_content m
            /\ Queries.m_created_at row = Queries.m_created_at m)
    /\ option_map Queries.l_error
         (Queries.scrape_logs (Reddit.db wf) !! 0%nat) = Some (Some e).
Proof.
  destruct (Reddit.phases Config.default Sample.analyze Sample.http Sample.archive
              false Sample.browse false (snd (Reddit.start Sample.world)))
    as [a w' | e w'] eqn:E.
  - exfalso. revert E. vm_compute. discriminate.
  - destruct (fatal_error_flushes_and_returns Config.default Sample.analyze Sample.http
                Sample.archive false Sample.browse Sample.world e w' E)
      as (wf & Hrun & Hbuf & Hnd & Hrows & Hsize & Hlog & _).
    assert (e = Reddit.nullChild
            /\ map Queries.m_external_id (Reddit.buffer w') = ["t3_abc"]
            /\ Queries.mentions (Reddit.db w') = ∅) as (He & Hids & Hdb).
    { revert E. vm_compute. intros E. injection E as <- <-. repeat split. }
    exists e, w', wf. split; [reflexivity |]. split; [exact He |].
    split; [exact Hids |]. split; [exact Hrun |]. split; [exact Hbuf |]. split.
    + intros m Hin. eexists. split; [apply (Hrows m Hin) |].
      rewrite Hdb, lookup_empty. split; reflexivity.
    + change (pred (snd (fst (Reddit.start Sample.world)))) with 0%nat in Hlog.
      rewrite Hlog, He. reflexivity.
Defined.




(** ** Deduplication *)

Lemma JsMap_has_set V (k : string) (v : V) (m : JsMap.t V) :
  JsMap.has k (JsMap.set k v m) = true.
Proof.
  unfold JsMap.set. destruct (JsMap.has k m) eqn:E.
  - unfold JsMap.has in *. rewrite existsb_exists in *.
    destruct E as ((k', v') & Hin & Hk). simpl in Hk.
    exists (k, v). split; [| simpl; apply String.eqb_refl].
    apply in_map_iff. exists (k', v'). simpl. rewrite Hk. split; [reflexivity | assumption].
  - unfold JsMap.has. rewrite existsb_app. simpl.
    rewrite String.eqb_refl. apply orb_true_r.
Qed.

(** C5, as stated, fails on the Reddit scraper: the post is stored
    from an earlier run and its id is among the recent identifiers of
    both the table and the cursor, yet after the run has started
    [addPost] accepts it again, puts it in the buffer and counts no
    duplicate.  It fails on the Play Store fetch as well, which keeps
    no content fingerprint: the same review under a second id is
    collected. *)
Lemma known_id_accepted_again :
  let d := Queries.updateScrapeCursor "reddit" (Some 1120%Z) (Some ["t3_abc"]) 1120
             (Reddit.db (Reddit.worldOf Sample.run)) in
  let w0 := snd (Reddit.start (Reddit.newScraper 5000 d)) in
  let r := Reddit.addPost Config.default (Some Sample.post) w0 in
  let review1 := PlayStore.mkReviewData "gp:1" "bob" None PlayStore.NoDate 5
                   "great app" 0 None None None in
  let review2 := PlayStore.mkReviewData "gp:2" "bob" None PlayStore.NoDate 5
                   "great app" 0 None None None in
  In "t3_abc" (Queries.getRecentExternalIds "reddit" 1000 d)
  /\ option_map Queries.last_item_ids (Queries.getScrapeCursor "reddit" d)
     = Some (Some ["t3_abc"])
  /\ fst r = true
  /\ map Queries.m_external_id (Reddit.buffer (snd r)) = ["t3_abc"]
  /\ Reddit.duplicatesSkipped (Reddit.stats (snd r)) = 0%Z
  /\ map fst (fst (fst (fold_left (PlayStore.collect ∅) [review1; review2] ([], O, O))))
     = ["gp:1"; "gp:2"].
Proof. vm_compute. repeat split; try reflexivity. left. reflexivity. Qed.

(** C5, amended.  In a Reddit run a candidate post or comment whose
    native id is in the run's seen-id set, or whose content
    fingerprint is in the run's seen-content set, is rejected, counted
    as a duplicate and not put in the buffer; an accepted one is
    appended to the buffer and both its id and its fingerprint are
    recorded.  The run starts with both sets empty: no identifier of
    an earlier run is consulted.  In the Play Store API fetch a
    candidate review is left out when its id is among the identifiers
    loaded at run start (which counts it as known) or already
    collected in this run (which counts nothing); a collected review
    has its id recorded; no content fingerprint is kept. *)
Theorem duplicates_rejected
    (cfg : Config.t) (w : Reddit.World)
    (post : Reddit.RedditPost) (comment : Reddit.RedditComment)
    (knownIds : gset string)
    (st : JsMap.t PlayStore.PlayStoreReviewData * nat * nat)
    (review : PlayStore.PlayStoreReviewData) :
  JsString.truthy (Reddit.p_name post) = true ->
  JsString.truthy (Reddit.c_name comment) = true ->
  JsString.truthy (PlayStore.id review) = true ->
  let rp := Reddit.addPost cfg (Some post) w in
  let rc := Reddit.addComment cfg (Some comment) w in
  let duplicate := fun (w' : Reddit.World) =>
    Reddit.buffer w' = Reddit.buffer w
    /\ Reddit.seenIds w' = Reddit.seenIds w
    /\ Reddit.seenContent w' = Reddit.seenContent w
    /\ Reddit.duplicatesSkipped (Reddit.stats w')
       = (Reddit.duplicatesSkipped (Reddit.stats w) + 1)%Z in
  (((Reddit.p_name post ∈ Reddit.seenIds w)
    \/ (Reddit.postContentKey post ∈ Reddit.seenContent w)) ->
   fst rp = false /\ duplicate (snd rp))
  /\ (fst rp = true ->
      (Reddit.p_name post ∉ Reddit.seenIds w)
      /\ (Reddit.postContentKey post ∉ Reddit.seenContent w)
      /\ Reddit.buffer (snd rp)
         = Reddit.buffer w ++ [Reddit.transformPost post (Reddit.clock w)]
      /\ Reddit.p_name post ∈ Reddit.seenIds (snd rp)
      /\ Reddit.postContentKey post ∈ Reddit.seenContent (snd rp))
  /\ (((Reddit.c_name comment ∈ Reddit.seenIds w)
       \/ (Reddit.commentContentKey comment ∈ Reddit.seenContent w)) ->
      fst rc = false /\ duplicate (snd rc))
  /\ (fst rc = true ->
      (Reddit.c_name comment ∉ Reddit.seenIds w)
      /\ (Reddit.commentContentKey comment ∉ Reddit.seenContent w)
      /\ Reddit.buffer (snd rc)
         = Reddit.buffer w ++ [Reddit.transformComment comment (Reddit.clock w)]
      /\ Reddit.c_name comment ∈ Reddit.seenIds (snd rc)
      /\ Reddit.commentContentKey comment ∈ Reddit.seenContent (snd rc))
  /\ (Reddit.seenIds (snd (Reddit.start w)) = ∅
      /\ Reddit.seenContent (snd (Reddit.start w)) = ∅)
  /\ (let '(allReviews, newInBatch, consecutiveKnownIds) := st in
      let '(allReviews', newInBatch', consecutiveKnownIds') :=
        PlayStore.collect knownIds st review in
      (PlayStore.id review ∈ knownIds ->
       allReviews' = allReviews /\ newInBatch' = newInBatch
       /\ consecutiveKnownIds' = S consecutiveKnownIds)
      /\ (PlayStore.id review ∉ knownIds ->
          JsMap.has (PlayStore.id review) allReviews = true ->
          allReviews' = allReviews /\ newInBatch' = newInBatch
          /\ consecutiveKnownIds' = consecutiveKnownIds)
      /\ (PlayStore.id review ∉ knownIds ->
          JsMap.has (PlayStore.id review) allReviews = false ->
          JsMap.has (PlayStore.id review) allReviews' = true
          /\ JsMap.size allReviews' = S (JsMap.size allReviews)
          /\ newInBatch' = S newInBatch /\ consecutiveKnownIds' = O)).
Proof.
  intros Hp Hc Hr rp rc duplicate.
  split; [| split; [| split; [| split; [| split]]]].
  - intros Hdup. subst rp duplicate. unfold Reddit.addPost. rewrite Hp. simpl negb. cbv iota.
    destruct (bool_decide (Reddit.p_name post ∈ Reddit.seenIds w)) eqn:E1.
    + simpl. repeat split; reflexivity.
    + destruct (bool_decide (Reddit.postContentKey post ∈ Reddit.seenContent w)) eqn:E2.
      * simpl. repeat split; reflexivity.
      * apply bool_decide_eq_false in E1. apply bool_decide_eq_false in E2. tauto.
  - subst rp. unfold Reddit.addPost. rewrite Hp. simpl negb. cbv iota.
    destruct (bool_decide (Reddit.p_name post ∈ Reddit.seenIds w)) eqn:E1;
      [simpl; discriminate |].
    destruct (bool_decide (Reddit.postContentKey post ∈ Reddit.seenContent w)) eqn:E2;
      [simpl; discriminate |].
    apply bool_decide_eq_false in E1. apply bool_decide_eq_false in E2.
    destruct (negb (Reddit.isRelevant cfg _ _ _ _)); [simpl; discriminate |].
    simpl. intros _. repeat split; try assumption; set_solver.
  - intros Hdup. subst rc duplicate. unfold Reddit.addComment. rewrite Hc. simpl negb. cbv iota.
    destruct (bool_decide (Reddit.c_name comment ∈ Reddit.seenIds w)) eqn:E1.
    + simpl. repeat split; reflexivity.
    + destruct (bool_decide (Reddit.commentContentKey comment ∈ Reddit.seenContent w)) eqn:E2.
      * simpl. repeat split; reflexivity.
      * apply bool_decide_eq_false in E1. apply bool_decide_eq_false in E2. tauto.
  - subst rc. unfold Reddit.addComment. rewrite Hc. simpl negb. cbv iota.
    destruct (bool_decide (Reddit.c_name comment ∈ Reddit.seenIds w)) eqn:E1;
      [simpl; discriminate |].
    destruct (bool_decide (Reddit.commentContentKey comment ∈ Reddit.seenContent w)) eqn:E2;
      [simpl; discriminate |].
    apply bool_decide_eq_false in E1. apply bool_decide_eq_false in E2.
    destruct (negb (Reddit.isRelevant cfg _ _ _ _)); [simpl; discriminate |].
    simpl. intros _. repeat split; try assumption; set_solver.
  - split; reflexivity.
  - destruct st as [[allReviews newInBatch] consecutiveKnownIds].
    unfold PlayStore.collect. rewrite Hr. simpl negb. cbv iota.
    destruct (bool_decide (PlayStore.id review ∈ knownIds)) eqn:E1.
    + apply bool_decide_eq_true in E1. repeat split; tauto.
    + apply bool_decide_eq_false in E1.
      destruct (JsMap.has (PlayStore.id review) allReviews) eqn:E2; simpl.
      * repeat split; try tauto; intros; discriminate.
      * split; [tauto |]. split; [intros; discriminate |].
        intros _ _. split; [apply JsMap_has_set |].
        split; [| split; reflexivity].
        unfold JsMap.set, JsMap.size. rewrite E2. rewrite length_app. simpl. lia.
Qed.

Lemma duplicates_rejected_witness :
  let w := snd (Reddit.addPost Config.default (Some Sample.post) Sample.world) in
  let comment := Reddit.mkComment "c1" "t1_c1" "bob" "matiks is fun" 2 1700000100
                   "/r/matiks/comments/abc/c1" "matiks" in
  let review := PlayStore.mkReviewData "gp:1" "bob" None PlayStore.NoDate 5
                  "great app" 0 None None None in
  JsString.truthy (Reddit.p_name Sample.post) = true
  /\ JsString.truthy (Reddit.c_name comment) = true
  /\ JsString.truthy (PlayStore.id review) = true
  /\ Reddit.p_name Sample.post ∈ Reddit.seenIds w
  /\ fst (Reddit.addPost Config.default (Some Sample.post) w) = false
  /\ Reddit.buffer (snd (Reddit.addPost Config.default (Some Sample.post) w))
     = Reddit.buffer w.
Proof.
  intros w comment review.
  assert (bool_decide (Reddit.p_name Sample.post ∈ Reddit.seenIds w) = true) as Hin
    by (vm_compute; reflexivity).
  apply bool_decide_eq_true in Hin.
  destruct (duplicates_rejected Config.default w Sample.post comment ∅ ([], O, O)
              review eq_refl eq_refl eq_refl) as (Hdup & _).
  destruct (Hdup (or_introl Hin)) as (Hfalse & Hbuf & _).
  repeat split; try reflexivity; assumption.
Defined.

(** ** Early termination of the App Store feed *)

Section AppStoreFetchFacts.
Import AppStore JsDate.

Variable feed : string -> nat -> PageResult.
Variable now : Z.
Variable fresh : string.
Variable country : string.
Variable T0 : Z.

Lemma scanEntries_emitted entries :
  Forall (fun r => notAfter (updated r) T0 = false)
         (fst (fst (scanEntries country (Some T0) now fresh entries))).
Proof.
  induction entries as [| e rest IH]; simpl; [constructor |].
  destruct (scanEntries country (Some T0) now fresh rest) as [[rs cnt] skip].
  simpl in IH.
  destruct (e_isApp e); [exact IH |].
  destruct (notAfter (entryDate e now) T0) eqn:E; [exact IH |].
  simpl. constructor; [exact E | exact IH].
Qed.

Lemma scanEntries_count_zero entries :
  forallb (fun e => negb (isNewer T0 now e)) entries = true ->
  snd (fst (scanEntries country (Some T0) now fresh entries)) = O.
Proof.
  induction entries as [| e rest IH]; simpl; [reflexivity |].
  intros [He Hrest]%andb_true_iff. specialize (IH Hrest).
  destruct (scanEntries country (Some T0) now fresh rest) as [[rs cnt] skip].
  simpl in IH. unfold isNewer in He.
  destruct (e_isApp e); [exact IH |].
  destruct (notAfter (entryDate e now) T0); [exact IH | discriminate].
Qed.

Lemma scanEntries_count_pos entries :
  existsb (isNewer T0 now) entries = true ->
  snd (fst (scanEntries country (Some T0) now fresh entries)) <> O.
Proof.
  induction entries as [| e rest IH]; simpl; [discriminate |].
  destruct (scanEntries country (Some T0) now fresh rest) as [[rs cnt] skip].
  simpl in IH. unfold isNewer at 1.
  destruct (e_isApp e); simpl; [exact IH |].
  destruct (notAfter (entryDate e now) T0); simpl; [exact IH | discriminate].
Qed.

Lemma fetchPagesFrom_emitted left : forall page,
  Forall (fun r => notAfter (updated r) T0 = false)
         (fst (fetchPagesFrom feed now fresh country (Some T0) left page)).
Proof.
  induction left as [| left IH]; intros page; simpl; [constructor |].
  destruct (feed country page) as [| | | entries]; try constructor.
  pose proof (scanEntries_emitted entries) as Hs.
  destruct (scanEntries country (Some T0) now fresh entries) as [[rs cnt] skip].
  simpl in Hs. destruct cnt; [exact Hs |].
  specialize (IH (S page)).
  destruct (fetchPagesFrom feed now fresh country (Some T0) left (S page)) as [more pages].
  simpl in *. apply Forall_app. split; assumption.
Qed.

(** No page after the first fully known one is requested. *)
Lemma fetchPagesFrom_stops left : forall page k,
  (page <= k)%nat ->
  allKnown T0 now (feed country k) = true ->
  Forall (fun p => (page <= p <= k)%nat)
         (snd (fetchPagesFrom feed now fresh country (Some T0) left page)).
Proof.
  induction left as [| left IH]; intros page k Hle Hk; simpl; [constructor |].
  destruct (feed country page) as [| | | entries] eqn:Ef;
    try (constructor; [lia | constructor]).
  destruct (scanEntries country (Some T0) now fresh entries) as [[rs cnt] skip] eqn:Es.
  destruct cnt as [| cnt]; [constructor; [lia | constructor] |].
  assert (page <> k) as Hne.
  { intros ->. rewrite Ef in Hk. simpl in Hk.
    apply scanEntries_count_zero in Hk. rewrite Es in Hk. discriminate. }
  specialize (IH (S page) k ltac:(lia) Hk).
  destruct (fetchPagesFrom feed now fresh country (Some T0) left (S page)) as [more pages].
  simpl in *. constructor; [lia |].
  eapply Forall_impl; [exact IH |]. simpl. intros p Hp. lia.
Qed.

(** The pages up to the first fully known one are requested in
    order. *)
Lemma fetchPagesFrom_exact left : forall page k,
  (page <= k)%nat -> (k - page < left)%nat ->
  (forall j, (page <= j < k)%nat -> someNewer T0 now (feed country j) = true) ->
  allKnown T0 now (feed country k) = true ->
  snd (fetchPagesFrom feed now fresh country (Some T0) left page)
  = seq page (S (k - page)).
Proof.
  induction left as [| left IH]; intros page k Hle Hlt Hbefore Hk; [lia |].
  simpl fetchPagesFrom.
  destruct (Nat.eq_dec page k) as [-> | Hne].
  - destruct (feed country k) as [| | | entries]; try discriminate.
    simpl in Hk. apply scanEntries_count_zero in Hk.
    destruct (scanEntries country (Some T0) now fresh entries) as [[rs cnt] skip].
    simpl in Hk. subst cnt. rewrite Nat.sub_diag. reflexivity.
  - pose proof (Hbefore page ltac:(lia)) as Hnew.
    destruct (feed country page) as [| | | entries]; try discriminate.
    simpl in Hnew. apply scanEntries_count_pos in Hnew.
    destruct (scanEntries country (Some T0) now fresh entries) as [[rs cnt] skip].
    simpl in Hnew. destruct cnt as [| cnt]; [congruence |].
    specialize (IH (S page) k ltac:(lia) ltac:(lia)
                   ltac:(intros j Hj; apply Hbefore; lia) Hk).
    destruct (fetchPagesFrom feed now fresh country (Some T0) left (S page)) as [more pages].
    simpl in *. rewrite IH.
    replace (k - page)%nat with (S (k - S page)) by lia. reflexivity.
Qed.

End AppStoreFetchFacts.

Lemma fetchSort_next api knownIds sort left token known m r rs tok :
  api sort token = PlayStore.ApiPage (r :: rs) (Some tok) ->
  JsString.truthy tok = true ->
  let '(m', _, known') :=
    fold_left (PlayStore.collect knownIds) (r :: rs) (m, O, known) in
  PlayStore.fetchSort api knownIds sort (S left) token known m
  = if PlayStore.isNewest sort && (20 <? known')%nat then m'
    else PlayStore.fetchSort api knownIds sort left (Some tok) known' m'.
Proof.
  intros Hapi Htok. cbn [PlayStore.fetchSort]. rewrite Hapi.
  destruct (fold_left (PlayStore.collect knownIds) (r :: rs) (m, O, known))
    as [[m' n'] known'].
  rewrite Htok. reflexivity.
Qed.




(** ** The cursor at the end of a run *)

Section CursorFacts.
Import Queries JsDate.

Lemma newer_from a l :
  exists m, fold_left newer l (Some a) = Some m
            /\ (m = a \/ In m l) /\ (a <= m)%Z /\ Forall (fun d => (d <= m)%Z) l.
Proof.
  revert a. induction l as [| x l IH]; intros a; simpl.
  - exists a. repeat split; [left; reflexivity | lia | constructor].
  - destruct (a <? x)%Z eqn:E.
    + apply Z.ltb_lt in E. destruct (IH x) as (m & Hm & Hin & Hle & Hall).
      exists m. repeat split; [exact Hm | | lia |].
      * destruct Hin as [-> | Hin]; right; [left; reflexivity | right; exact Hin].
      * constructor; [lia | exact Hall].
    + apply Z.ltb_ge in E. destruct (IH a) as (m & Hm & Hin & Hle & Hall).
      exists m. repeat split; [exact Hm | | lia |].
      * destruct Hin as [-> | Hin]; [left; reflexivity | right; right; exact Hin].
      * constructor; [lia | exact Hall].
Qed.

(** The loop that tracks the newest date finds the greatest one. *)
Lemma newestOf_isNewest l : isNewest (newestOf l) l.
Proof.
  unfold newestOf. destruct l as [| x l]; simpl; [reflexivity |].
  destruct (newer_from x l) as (m & Hm & Hin & Hle & Hall). rewrite Hm. simpl.
  split.
  - destruct Hin as [-> | Hin]; [left; reflexivity | right; exact Hin].
  - constructor; assumption.
Qed.

Variable A : Type.
Variable key : A -> Z.

Let cmp (a b : A) : Z := (key b - key a)%Z.
Let before (a b : A) : Prop := (key b <= key a)%Z.

Lemma insertBy_perm x l : Permutation (insertBy cmp x l) (x :: l).
Proof.
  induction l as [| y l IH]; simpl; [reflexivity |].
  destruct (cmp x y <=? 0)%Z; [reflexivity |].
  rewrite IH. apply perm_swap.
Qed.

Lemma sortBy_perm l : Permutation (sortBy cmp l) l.
Proof.
  induction l as [| x l IH]; simpl; [reflexivity |].
  unfold sortBy in *. simpl. rewrite insertBy_perm, IH. reflexivity.
Qed.

Lemma insertBy_sorted x l :
  StronglySorted before l -> StronglySorted before (insertBy cmp x l).
Proof.
  induction 1 as [| y l Hs IH Hall]; simpl.
  - repeat constructor.
  - destruct (cmp x y <=? 0)%Z eqn:E.
    + apply Z.leb_le in E. unfold cmp in E.
      constructor; [constructor; assumption |].
      constructor; [unfold before; lia |].
      eapply Forall_impl; [exact Hall |]. unfold before. simpl. intros z Hz. lia.
    + apply Z.leb_gt in E. unfold cmp in E.
      constructor; [exact IH |].
      rewrite (insertBy_perm x l). constructor; [unfold before; lia | exact Hall].
Qed.

(** Sorting with the comparator [b.date - a.date] puts the newest
    first. *)
Lemma sortBy_sorted l : StronglySorted before (sortBy cmp l).
Proof.
  induction l as [| x l IH]; [constructor |].
  unfold sortBy in *. simpl. apply insertBy_sorted, IH.
Qed.

End CursorFacts.

Lemma insertReviews_cursors items d :
  Queries.scrape_cursors (snd (Queries.insertReviews items d)) = Queries.scrape_cursors d.
Proof.
  unfold Queries.insertReviews. destruct (Queries.insertReviewsInto _ _ _). reflexivity.
Qed.

Lemma getScrapeCursor_update p date ids now d :
  Queries.getScrapeCursor p (Queries.updateScrapeCursor p date ids now d)
  = Some (Queries.mkCursor now date ids).
Proof. unfold Queries.getScrapeCursor. simpl. apply lookup_insert_eq. Qed.

(** The cursor of the App Store after a configured run. *)
Lemma appstore_cursor_after_run
    (analyze : string -> Sentiment.Analysis)
    (feed : string -> nat -> AppStore.PageResult)
    (browser : option (string -> option AppStore.Visit)) (fresh : string)
    (started fetched now : Z) (db : Queries.Db) :
  let prior := Queries.getScrapeCursor "appstore" db in
  let out := AppStore.run analyze true feed browser fresh started fetched now db in
  let accepted := AppStore.items (fst out) in
  let after := Queries.getScrapeCursor "appstore" (snd out) in
  AppStore.errors (fst out) = []
  /\ (accepted = [] -> after = prior)
  /\ (accepted <> [] ->
      exists newest,
        JsDate.isNewest (Some newest) (map Queries.r_review_date accepted)
        /\ (Queries.beyond prior newest = true ->
            after = Some (Queries.mkCursor now (Some newest)
                            (Some (map Queries.r_external_id (firstn 100 accepted))))
            /\ StronglySorted Queries.newestFirst accepted)
        /\ (Queries.beyond prior newest = false -> after = prior)).
Proof.
  intros prior out accepted after.
  subst out accepted after. unfold AppStore.run. simpl negb. cbv iota.
  fold prior.
  destruct (Queries.logScrapeStart "appstore" started db) as [logId db0] eqn:Estart.
  assert (Queries.scrape_cursors db0 = Queries.scrape_cursors db) as Hc0
    by (change db0 with (snd (logId, db0)); rewrite <- Estart; reflexivity).
  unfold AppStore.finish.
  set (reviews := map (AppStore.toReview analyze now)
                      (JsMap.values (AppStore.gather feed browser fresh fetched prior))).
  pose proof (insertReviews_cursors reviews db0) as Hins.
  destruct (Queries.insertReviews reviews db0) as [n db1]. simpl in Hins.
  pose proof (newestOf_isNewest (map Queries.r_review_date reviews)) as Hnew.
  assert (Queries.getScrapeCursor "appstore" db1 = prior) as Hprior
    by (unfold Queries.getScrapeCursor, prior; rewrite Hins, Hc0; reflexivity).
  destruct (JsDate.newestOf (map Queries.r_review_date reviews)) as [newest |] eqn:En.
  - assert (AppStore.cutoffOf prior = None \/
            exists c, AppStore.cutoffOf prior = Some c) as Hcut
      by (destruct (AppStore.cutoffOf prior); eauto).
    assert ((match AppStore.cutoffOf prior with
             | None => true
             | Some c => (c <? newest)%Z
             end) = Queries.beyond prior newest) as Hb.
    { unfold Queries.beyond, AppStore.cutoffOf. destruct prior as [c |]; [| reflexivity].
      destruct (Queries.last_item_date c); reflexivity. }
    rewrite Hb. destruct (Queries.beyond prior newest) eqn:Eb; simpl.
    + split; [reflexivity |]. split.
      * intros Hnil. exfalso.
        pose proof (sortBy_perm _ Queries.r_review_date reviews) as Hp. simpl in Hp.
        unfold AppStore.byDateDesc in Hnil. rewrite Hnil in Hp.
        apply Permutation_nil in Hp. rewrite Hp in Hnew. destruct Hnew as [[] _].
      * intros _. exists newest. split; [| split; [| intros Hf; congruence]].
        -- simpl in Hnew. destruct Hnew as [Hin Hall].
           pose proof (sortBy_perm _ Queries.r_review_date reviews) as Hp. simpl in Hp.
           split.
           ++ eapply Permutation_in; [| exact Hin].
              apply Permutation_map. symmetry. exact Hp.
           ++ eapply Permutation_Forall; [| exact Hall].
              apply Permutation_map. symmetry. exact Hp.
        -- intros _. split.
           ++ apply getScrapeCursor_update.
           ++ exact (sortBy_sorted _ Queries.r_review_date reviews).
    + split; [reflexivity |]. split.
      * intros _. exact Hprior.
      * intros _. exists newest. split; [exact Hnew |].
        split; [intros Hf; congruence | intros _; exact Hprior].
  - simpl in Hnew. apply map_eq_nil in Hnew.
    rewrite Hnew. destruct prior; simpl.
    + split; [reflexivity |]. split; [intros _; exact Hprior | congruence].
    + split; [reflexivity |]. split; [intros _; exact Hprior | congruence].
Qed.

(** The cursor of the Play Store after a configured run that did not
    fail. *)
Lemma playstore_cursor_after_run
    (analyze : string -> Sentiment.Analysis)
    (api : PlayStore.Sort -> option string -> PlayStore.ApiResult)
    (browser : option (nat -> option (list PlayStore.PlayStoreReviewData)))
    (started fetched now : Z) (db : Queries.Db) :
  let prior := Queries.getScrapeCursor "playstore" db in
  let knownIds : gset string :=
    list_to_set (Queries.getRecentExternalIds "playstore" 1000 db) in
  let raw := JsMap.values (PlayStore.gather api browser fetched prior knownIds) in
  let out := PlayStore.run analyze true api browser started fetched now db in
  let accepted := PlayStore.items (fst out) in
  let after := Queries.getScrapeCursor "playstore" (snd out) in
  PlayStore.errors (fst out) = [] ->
  (accepted = [] ->
     after = match prior with
             | Some c => Some c
             | None => Some (Queries.mkCursor now (Some now) None)
             end)
  /\ (accepted <> [] ->
      exists newest,
        JsDate.isNewest newest (concat (map PlayStore.trackedDate raw))
        /\ after = Some (Queries.mkCursor now newest
                           (Some (map Queries.r_external_id (firstn 50 accepted))))
        /\ StronglySorted Queries.newestFirst accepted).
Proof.
  intros prior knownIds raw out accepted after.
  subst out accepted after. unfold PlayStore.run. simpl negb. cbv iota.
  fold prior. fold knownIds.
  destruct (Queries.logScrapeStart "playstore" started db) as [logId db0] eqn:Estart.
  assert (Queries.scrape_cursors db0 = Queries.scrape_cursors db) as Hc0
    by (change db0 with (snd (logId, db0)); rewrite <- Estart; reflexivity).
  unfold PlayStore.finish. fold raw.
  destruct (PlayStore.convert analyze now raw) as [reviews |]; [| discriminate].
  destruct reviews as [| r rs].
  - intros _. simpl. split; [| congruence]. intros _.
    unfold Queries.getScrapeCursor. destruct prior as [c |] eqn:Ep; simpl.
    + rewrite Hc0. exact Ep.
    + apply lookup_insert_eq.
  - pose proof (insertReviews_cursors (r :: rs) db0) as Hins.
    destruct (Queries.insertReviews (r :: rs) db0) as [n db1]. simpl in Hins.
    intros _. cbn [fst snd PlayStore.items].
    pose proof (sortBy_perm _ Queries.r_review_date (r :: rs)) as Hp. cbv zeta in Hp.
    split.
    + intros Hnil. exfalso. unfold PlayStore.byDateDesc in Hnil. rewrite Hnil in Hp.
      apply Permutation_nil in Hp. discriminate Hp.
    + intros _. exists (JsDate.newestOf (concat (map PlayStore.trackedDate raw))).
      split; [apply newestOf_isNewest |]. split.
      * apply getScrapeCursor_update.
      * exact (sortBy_sorted _ Queries.r_review_date (r :: rs)).
Qed.




(** ** Sentiment *)

Lemma trim_allWhiteSpace s :
  JsString.allWhiteSpace s = true -> JsString.trim s = EmptyString.
Proof.
  intros H. unfold JsString.trim. rewrite (trimStart_allWhiteSpace s H). reflexivity.
Qed.

(** Between -5 and 5 the raw score is not clamped: the result carries
    the per-token average as it is. *)
Lemma score_is_comparative (analyze : string -> Sentiment.Analysis) (t : string) :
  Sentiment.blank (Some t) = false ->
  (-5 <= Sentiment.a_score (analyze t))%Q ->
  (Sentiment.a_score (analyze t) <= 5)%Q ->
  Sentiment.score (Sentiment.analyzeSentiment analyze (Some t))
  = Sentiment.toFixed3 (Sentiment.a_comparative (analyze t)).
Proof.
  intros Hb Hlo Hhi. unfold Sentiment.analyzeSentiment, Sentiment.analyzeSentimentM.
  assert (JsString.truthy t = true) as Ht
    by (destruct t; [discriminate Hb | reflexivity]).
  rewrite Ht. simpl negb. simpl orb.
  destruct (String.length (JsString.trim t) =? 0)%nat eqn:El.
  - exfalso. apply Nat.eqb_eq in El.
    assert (JsString.trim t = EmptyString) as Hz
      by (destruct (JsString.trim t); [reflexivity | discriminate El]).
    clear El. simpl in Hb. unfold JsString.trim in Hz.
    revert Hb Hz. clear. induction t as [| c t IH]; simpl; [discriminate |].
    destruct (JsString.isWhiteSpace c) eqn:Ec; simpl.
    + exact IH.
    + intros _. destruct (JsString.trimEnd t); rewrite ?Ec; discriminate.
  - simpl.
    destruct (Qlt_le_dec 5 (Sentiment.a_score (analyze t))) as [Hgt |]; [lra |].
    destruct (Qlt_le_dec (Sentiment.a_score (analyze t)) (-5)) as [Hlt |]; [lra |].
    reflexivity.
Qed.

(** C9 fails on the one-word text goat: the lexicon of the repository
    weighs it 4, the raw score 4 is not above 5, so the per-token
    average 4 is returned unclamped, outside [-1, 1]. *)
Theorem score_outside_unit_interval :
  let r := Sentiment.analyzeSentiment Sample.analyze (Some "goat") in
  Sentiment.a_score (Sample.analyze "goat") = 4%Q
  /\ Sentiment.a_tokens (Sample.analyze "goat") = ["goat"]
  /\ (Sentiment.score r == 4)%Q
  /\ ~ (Sentiment.score r <= 1)%Q
  /\ Sentiment.label r = Sentiment.positive.
Proof.
  vm_compute. repeat split; try reflexivity. intros H. apply H. reflexivity.
Qed.

(** C10.  On a text that is null or undefined, empty, or made of white
    space only, [analyzeSentiment] returns score 0, label neutral and
    confidence 0, and hands nothing to the analyzer. *)
Theorem blank_text_is_neutral
    (analyze : string -> Sentiment.Analysis) (text : option string)
    (calls : list string) :
  Sentiment.blank text = true ->
  Sentiment.analyzeSentimentM analyze text calls
  = (Sentiment.mkSentiment 0 Sentiment.neutral 0, calls)
  /\ Sentiment.analyzeSentiment analyze text
     = Sentiment.mkSentiment 0 Sentiment.neutral 0.
Proof.
  intros Hb.
  assert (forall cs, Sentiment.analyzeSentimentM analyze text cs
                     = (Sentiment.mkSentiment 0 Sentiment.neutral 0, cs)) as H.
  { intros cs. destruct text as [t |]; [| reflexivity].
    simpl in Hb. unfold Sentiment.analyzeSentimentM.
    rewrite (trim_allWhiteSpace t Hb). simpl.
    rewrite orb_true_r. reflexivity. }
  split; [apply H |].
  unfold Sentiment.analyzeSentiment. rewrite H. reflexivity.
Qed.

Lemma blank_text_is_neutral_witness :
  Sentiment.blank (Some "   ") = true
  /\ Sentiment.analyzeSentimentM Sample.analyze (Some "   ") ["earlier"]
     = (Sentiment.mkSentiment 0 Sentiment.neutral 0, ["earlier"]).
Proof.
  split; [reflexivity |].
  apply (blank_text_is_neutral Sample.analyze (Some "   ") ["earlier"]). reflexivity.
Defined.

(* ================================================================== *)
(** * Further properties                                              *)
(* ================================================================== *)

(** ** [withRetry] *)

Section RetryFacts.
Import Retry.

Variable T : Type.
Variable outcome : nat -> T + string.
Variable effect : nat -> gmap string RateLimit.RateLimitState -> Z
                  -> gmap string RateLimit.RateLimitState * Z.
Variable random : nat -> Q.
Variable elapsed : nat -> Z.
Variable maxRetries : nat.
Variable baseDelay maxDelay : Q.
Variable platform : option string.

Local Abbreviation attempts :=
  (attempts T outcome effect random elapsed maxRetries baseDelay maxDelay platform).
Local Abbreviation invoke := (invoke effect).

Lemma report_observations f w :
  calls (report f platform w) = calls w
  /\ timers (report f platform w) = timers w
  /\ clock (report f platform w) = clock w.
Proof.
  unfold report. destruct platform as [p |]; [| auto].
  destruct (JsString.truthy p); auto.
Qed.

Lemma invoke_observations n w :
  calls (invoke n w) = S (calls w) /\ timers (invoke n w) = timers w.
Proof. unfold Retry.invoke. destruct (effect n _ _). auto. Qed.

(** The loop never invokes [fn] more often than it has turns. *)
Lemma attempts_calls_le left : forall attempt lastError w,
  (calls (snd (attempts left attempt lastError w)) <= calls w + left)%nat.
Proof.
  induction left as [| left IH]; intros attempt lastError w; cbn [Retry.attempts].
  - simpl. lia.
  - destruct (invoke_observations attempt w) as [Hc _].
    destruct (outcome attempt) as [result | error].
    + cbn [snd]. destruct (report_observations RateLimit.reportSuccess (invoke attempt w))
        as (-> & _). lia.
    + destruct (attempt <? maxRetries)%nat.
      * etransitivity; [apply IH |]. cbn [calls].
        destruct (report_observations RateLimit.reportFailure (invoke attempt w))
          as (-> & _). lia.
      * etransitivity; [apply IH |]. lia.
Qed.

(** The first success ends the loop. *)
Lemma attempts_success left : forall attempt lastError w k result,
  (attempt <= k)%nat -> (k < attempt + left)%nat ->
  (attempt + left = S maxRetries)%nat ->
  outcome k = inl result ->
  (forall j, (attempt <= j < k)%nat -> exists e, outcome j = inr e) ->
  fst (attempts left attempt lastError w) = inl result
  /\ calls (snd (attempts left attempt lastError w)) = (calls w + S (k - attempt))%nat
  /\ length (timers (snd (attempts left attempt lastError w)))
     = (length (timers w) + (k - attempt))%nat.
Proof.
  induction left as [| left IH]; intros attempt lastError w k result Hle Hlt Hsum Hk Hfail;
    [lia |].
  cbn [Retry.attempts].
  destruct (invoke_observations attempt w) as [Hc Ht].
  destruct (Nat.eq_dec attempt k) as [-> | Hne].
  - rewrite Hk. cbn [fst snd].
    destruct (report_observations RateLimit.reportSuccess (invoke k w)) as (-> & -> & _).
    rewrite Hc, Ht, Nat.sub_diag. repeat split; lia.
  - destruct (Hfail attempt) as [e He]; [lia |]. rewrite He.
    assert ((attempt <? maxRetries)%nat = true) as -> by (apply Nat.ltb_lt; lia).
    destruct (report_observations RateLimit.reportFailure (invoke attempt w))
      as (Hc2 & Ht2 & _).
    edestruct (IH (S attempt) (Some e)) as (-> & -> & ->);
      [| | | exact Hk | |]; try lia.
    + intros j Hj. apply Hfail. lia.
    + cbn [calls timers]. rewrite Hc2, Ht2, Hc, Ht, length_app. simpl.
      repeat split; lia.
Qed.

(** With every attempt failing, the loop runs out and the error of
    the last attempt is thrown. *)
Lemma attempts_exhausted left : forall attempt lastError w,
  (attempt + left = S maxRetries)%nat ->
  (forall j, (attempt <= j <= maxRetries)%nat -> exists e, outcome j = inr e) ->
  fst (attempts left attempt lastError w)
  = inr (match left with
         | O => lastError
         | S _ => match outcome maxRetries with
                  | inr e => Some e
                  | inl _ => None
                  end
         end)
  /\ calls (snd (attempts left attempt lastError w)) = (calls w + left)%nat
  /\ length (timers (snd (attempts left attempt lastError w)))
     = (length (timers w) + pred left)%nat.
Proof.
  induction left as [| left IH]; intros attempt lastError w Hsum Hfail.
  - simpl. repeat split; lia.
  - cbn [Retry.attempts].
    destruct (invoke_observations attempt w) as [Hc Ht].
    destruct (Hfail attempt) as [e He]; [lia |]. rewrite He.
    destruct (attempt <? maxRetries)%nat eqn:Elt.
    + apply Nat.ltb_lt in Elt.
      destruct (report_observations RateLimit.reportFailure (invoke attempt w))
        as (Hc2 & Ht2 & _).
      edestruct (IH (S attempt) (Some e)) as (-> & -> & ->); [lia | |].
      * intros j Hj. apply Hfail. lia.
      * cbn [calls timers]. rewrite Hc2, Ht2, Hc, Ht, length_app. simpl.
        destruct left as [| left']; [lia |]. repeat split; lia.
    + apply Nat.ltb_ge in Elt.
      assert (left = O) as -> by lia. assert (attempt = maxRetries) as -> by lia.
      simpl. rewrite He, Hc, Ht. repeat split; lia.
Qed.

(** Every turn of the loop invokes [fn]. *)
Lemma attempts_calls_ge left : forall attempt lastError w,
  (calls w + (match left with O => 0 | S _ => 1 end)
   <= calls (snd (attempts left attempt lastError w)))%nat.
Proof.
  induction left as [| left IH]; intros attempt lastError w; cbn [Retry.attempts].
  - simpl. lia.
  - destruct (invoke_observations attempt w) as [Hc _].
    destruct (outcome attempt) as [result | error].
    + cbn [snd]. destruct (report_observations RateLimit.reportSuccess (invoke attempt w))
        as (-> & _). lia.
    + destruct (attempt <? maxRetries)%nat.
      * etransitivity; [| apply IH]. cbn [calls].
        destruct (report_observations RateLimit.reportFailure (invoke attempt w))
          as (-> & _). lia.
      * etransitivity; [| apply IH]. lia.
Qed.

End RetryFacts.

(** X1.  [withRetry] invokes [fn] until it succeeds, at most
    [maxRetries + 1] times.  It returns the result of the first
    attempt that succeeds, after one timer per failure before it; when
    all [maxRetries + 1] attempts fail it throws the error of the last
    one, having set [maxRetries] timers (none after the last
    failure). *)
Theorem withRetry_first_success_or_last_error
    (T : Type) (outcome : nat -> T + string)
    (effect : nat -> gmap string RateLimit.RateLimitState -> Z
              -> gmap string RateLimit.RateLimitState * Z)
    (random : nat -> Q) (elapsed : nat -> Z) (maxRetries : nat)
    (baseDelay maxDelay : Q) (platform : option string) (w : Retry.World) :
  let r := Retry.withRetry T outcome effect random elapsed maxRetries
                           baseDelay maxDelay platform w in
  (Retry.calls w < Retry.calls (snd r) <= Retry.calls w + S maxRetries)%nat
  /\ (forall k result,
        (k <= maxRetries)%nat -> outcome k = inl result ->
        (forall j, (j < k)%nat -> exists e, outcome j = inr e) ->
        fst r = inl result
        /\ Retry.calls (snd r) = (Retry.calls w + S k)%nat
        /\ length (Retry.timers (snd r)) = (length (Retry.timers w) + k)%nat)
  /\ ((forall j, (j <= maxRetries)%nat -> exists e, outcome j = inr e) ->
      (exists e, outcome maxRetries = inr e /\ fst r = inr (Some e))
      /\ Retry.calls (snd r) = (Retry.calls w + S maxRetries)%nat
      /\ length (Retry.timers (snd r)) = (length (Retry.timers w) + maxRetries)%nat).
Proof.
  intros r. subst r. unfold Retry.withRetry. split; [split |]; [| | split].
  - pose proof (attempts_calls_ge T outcome effect random elapsed maxRetries baseDelay
                  maxDelay platform (S maxRetries) 0 None w) as H.
    cbv iota in H. lia.
  - apply attempts_calls_le.
  - intros k result Hk Hres Hfail.
    destruct (attempts_success T outcome effect random elapsed maxRetries baseDelay
                maxDelay platform (S maxRetries) 0 None w k result)
      as (H1 & H2 & H3); try lia; try assumption.
    + intros j Hj. apply Hfail. lia.
    + rewrite Nat.sub_0_r in H2, H3. auto.
  - intros Hfail.
    destruct (attempts_exhausted T outcome effect random elapsed maxRetries baseDelay
                maxDelay platform (S maxRetries) 0 None w)
      as (H1 & H2 & H3); try lia.
    + intros j Hj. apply Hfail. lia.
    + destruct (Hfail maxRetries) as [e He]; [lia |].
      split; [exists e; split; [exact He |]; rewrite H1, He; reflexivity |].
      simpl in H3. auto.
Qed.

Section RetryTimers.
Import Retry.

Variable T : Type.
Variable outcome : nat -> T + string.
Variable effect : nat -> gmap string RateLimit.RateLimitState -> Z
                  -> gmap string RateLimit.RateLimitState * Z.
Variable random : nat -> Q.
Variable elapsed : nat -> Z.
Variable maxRetries : nat.
Variable baseDelay maxDelay : Q.
Variable platform : option string.

Local Abbreviation attempts :=
  (attempts T outcome effect random elapsed maxRetries baseDelay maxDelay platform).

(** The timers the loop sets: the jitter of each failed attempt that
    has a retry left, in order. *)
Lemma attempts_timers left : forall attempt lastError w,
  exists added,
    timers (snd (attempts left attempt lastError w)) = timers w ++ added
    /\ forall i d, added !! i = Some d ->
         d = jitterOf random baseDelay maxDelay (attempt + i)
         /\ (attempt + i < maxRetries)%nat.
Proof.
  induction left as [| left IH]; intros attempt lastError w; cbn [Retry.attempts].
  - exists []. split; [simpl; rewrite app_nil_r; reflexivity | intros i d H; discriminate].
  - destruct (invoke_observations effect attempt w) as [_ Ht].
    destruct (outcome attempt) as [result | error].
    + exists []. cbn [snd].
      destruct (report_observations platform RateLimit.reportSuccess
                  (Retry.invoke effect attempt w)) as (_ & -> & _).
      rewrite Ht, app_nil_r. split; [reflexivity | intros i d H; discriminate].
    + destruct (attempt <? maxRetries)%nat eqn:Elt.
      * apply Nat.ltb_lt in Elt.
        match goal with
        | |- context [Retry.attempts _ _ _ _ _ _ _ _ _ left (S attempt) ?le ?w'] =>
            destruct (IH (S attempt) le w') as (added & Hadd & Hall)
        end.
        exists (jitterOf random baseDelay maxDelay attempt :: added).
        split.
        -- rewrite Hadd. cbn [timers].
           destruct (report_observations platform RateLimit.reportFailure
                       (Retry.invoke effect attempt w)) as (_ & -> & _).
           rewrite Ht, <- app_assoc. reflexivity.
        -- intros [| i] d Hd.
           ++ injection Hd as <-. rewrite Nat.add_0_r. split; [reflexivity | exact Elt].
           ++ destruct (Hall i d Hd) as [-> Hlt].
              rewrite Nat.add_succ_r. split; [reflexivity | lia].
      * destruct (IH (S attempt) (Some error) (Retry.invoke effect attempt w))
          as (added & Hadd & Hall).
        exists added. rewrite Hadd, Ht. split; [reflexivity |].
        intros i d Hd. destruct (Hall i d Hd) as [_ Hlt].
        apply Nat.ltb_ge in Elt. lia.
Qed.

Lemma delayOf_bounds n :
  (0 <= baseDelay)%Q -> (0 <= maxDelay)%Q ->
  (0 <= delayOf baseDelay maxDelay n)%Q
  /\ (delayOf baseDelay maxDelay n <= maxDelay)%Q
  /\ (delayOf baseDelay maxDelay n <= baseDelay * inject_Z (2 ^ Z.of_nat n))%Q.
Proof.
  intros Hb Hm. unfold delayOf.
  assert (0 <= inject_Z (2 ^ Z.of_nat n))%Q as Hp.
  { change 0%Q with (inject_Z 0). rewrite <- Zle_Qle. apply Z.pow_nonneg. lia. }
  split; [| split].
  - apply Q.min_glb; [| exact Hm]. apply Qmult_le_0_compat; assumption.
  - apply Q.le_min_r.
  - apply Q.le_min_l.
Qed.

Lemma jitterOf_bounds n :
  (0 <= baseDelay)%Q -> (0 <= maxDelay)%Q ->
  (0 <= random n)%Q -> (random n < 1)%Q ->
  (delayOf baseDelay maxDelay n / 2 <= jitterOf random baseDelay maxDelay n)%Q
  /\ (jitterOf random baseDelay maxDelay n <= delayOf baseDelay maxDelay n)%Q.
Proof.
  intros Hb Hm H0 H1. unfold jitterOf.
  destruct (delayOf_bounds n Hb Hm) as (Hd & _).
  set (d := delayOf baseDelay maxDelay n) in *. set (r := random n) in *.
  split.
  - assert (0 <= d * r)%Q by (apply Qmult_le_0_compat; assumption).
    unfold Qdiv. change (/ 2)%Q with (1 # 2)%Q. lra.
  - assert (0 <= d * (1 - r))%Q by (apply Qmult_le_0_compat; lra). lra.
Qed.

End RetryTimers.



Section RetryBackoff.
Import Retry.

Lemma backoffOf_reportFailure p now l :
  backoffOf p (RateLimit.reportFailure p now l) = Qmin 10 (backoffOf p l * 2).
Proof.
  unfold backoffOf, RateLimit.reportFailure, RateLimit.getOrCreateLimiter.
  rewrite lookup_insert_eq. destruct (l !! p); reflexivity.
Qed.

Lemma backoffOf_reportSuccess p now l :
  backoffOf p (RateLimit.reportSuccess p now l) = Qmax 1 (backoffOf p l * (9 # 10)).
Proof.
  unfold backoffOf, RateLimit.reportSuccess, RateLimit.getOrCreateLimiter.
  rewrite lookup_insert_eq. destruct (l !! p); reflexivity.
Qed.

(** [rateLimit], which the scrapers call inside [fn], leaves the
    multiplier alone. *)
Lemma backoffOf_rateLimit p q now woke l :
  backoffOf p (RateLimit.rateLimit q now woke l) = backoffOf p l.
Proof.
  unfold backoffOf, RateLimit.rateLimit.
  destruct (decide (q = p)) as [-> | Hne].
  - rewrite lookup_insert_eq, rateLimitOn_backoff.
    unfold RateLimit.getOrCreateLimiter. destruct (l !! p) as [st |]; reflexivity.
  - rewrite lookup_insert_ne by exact Hne. reflexivity.
Qed.

Lemma pow2_succ k : (inject_Z (2 ^ Z.of_nat (S k)) == inject_Z (2 ^ Z.of_nat k) * 2)%Q.
Proof.
  rewrite Nat2Z.inj_succ, Z.pow_succ_r by lia.
  rewrite inject_Z_mult. ring.
Qed.

Lemma pow2_pos k : (0 < inject_Z (2 ^ Z.of_nat k))%Q.
Proof.
  change 0%Q with (inject_Z 0). rewrite <- Zlt_Qlt. apply Z.pow_pos_nonneg; lia.
Qed.

(** Doubling with a cap, [k] times over. *)
Lemma iter_doubled k (b : Q) :
  (b <= 10)%Q ->
  (Nat.iter k doubled b == Qmin 10 (b * inject_Z (2 ^ Z.of_nat k)))%Q.
Proof.
  intros Hb. induction k as [| k IH].
  - change (Nat.iter 0 doubled b) with b. set (c := inject_Z (2 ^ Z.of_nat 0)).
    assert (c == 1)%Q as Hc by reflexivity. clearbody c.
    destruct (Q.min_spec 10 (b * c)) as [[H1 ->] | [H1 ->]]; rewrite Hc in *; lra.
  - change (Nat.iter (S k) doubled b) with (doubled (Nat.iter k doubled b)).
    unfold doubled at 1.
    pose proof (pow2_succ k) as Hs. pose proof (pow2_pos k) as Hp.
    set (x := Nat.iter k Retry.doubled b) in *.
    set (c := inject_Z (2 ^ Z.of_nat k)) in *.
    set (c' := inject_Z (2 ^ Z.of_nat (S k))) in *.
    destruct (Q.min_spec 10 (x * 2)) as [[H1 ->] | [H1 ->]];
      destruct (Q.min_spec 10 (b * c')) as [[H2 ->] | [H2 ->]];
      destruct (Q.min_spec 10 (b * c)) as [[H3 E3] | [H3 E3]];
      rewrite E3 in IH; rewrite ?Hs in *; try lra.
Qed.

Variable T : Type.
Variable outcome : nat -> T + string.
Variable effect : nat -> gmap string RateLimit.RateLimitState -> Z
                  -> gmap string RateLimit.RateLimitState * Z.
Variable random : nat -> Q.
Variable elapsed : nat -> Z.
Variable maxRetries : nat.
Variable baseDelay maxDelay : Q.
Variable p : string.
Hypothesis p_truthy : JsString.truthy p = true.
Hypothesis effect_keeps :
  forall n l t, backoffOf p (fst (effect n l t)) = backoffOf p l.

Local Abbreviation attempts :=
  (attempts T outcome effect random elapsed maxRetries baseDelay maxDelay (Some p)).

Lemma invoke_backoff n w :
  backoffOf p (limiters (Retry.invoke effect n w)) = backoffOf p (limiters w).
Proof.
  unfold Retry.invoke. pose proof (effect_keeps n (limiters w) (clock w)) as H.
  destruct (effect n _ _). exact H.
Qed.

Lemma report_limiters f w :
  limiters (report f (Some p) w) = f p (clock w) (limiters w).
Proof. unfold report. rewrite p_truthy. reflexivity. Qed.

Lemma attempts_backoff_exhausted left : forall attempt lastError w,
  (attempt + left = S maxRetries)%nat ->
  (forall j, (attempt <= j <= maxRetries)%nat -> exists e, outcome j = inr e) ->
  backoffOf p (limiters (snd (attempts left attempt lastError w)))
  = Nat.iter (pred left) doubled (backoffOf p (limiters w)).
Proof.
  induction left as [| left IH]; intros attempt lastError w Hsum Hfail.
  - reflexivity.
  - cbn [Retry.attempts].
    destruct (Hfail attempt) as [e He]; [lia |]. rewrite He.
    destruct (attempt <? maxRetries)%nat eqn:Elt.
    + apply Nat.ltb_lt in Elt.
      rewrite IH; [| lia | intros j Hj; apply Hfail; lia].
      cbn [limiters]. rewrite report_limiters, backoffOf_reportFailure, invoke_backoff.
      destruct left as [| left']; [lia |].
      cbn [pred]. rewrite Nat.iter_succ_r. reflexivity.
    + apply Nat.ltb_ge in Elt. assert (left = O) as -> by lia.
      simpl. apply invoke_backoff.
Qed.

Lemma attempts_backoff_success left : forall attempt lastError w k result,
  (attempt <= k)%nat -> (k < attempt + left)%nat ->
  (attempt + left = S maxRetries)%nat ->
  outcome k = inl result ->
  (forall j, (attempt <= j < k)%nat -> exists e, outcome j = inr e) ->
  backoffOf p (limiters (snd (attempts left attempt lastError w)))
  = Qmax 1 (Nat.iter (k - attempt) doubled (backoffOf p (limiters w)) * (9 # 10)).
Proof.
  induction left as [| left IH]; intros attempt lastError w k result Hle Hlt Hsum Hk Hfail;
    [lia |].
  cbn [Retry.attempts].
  destruct (Nat.eq_dec attempt k) as [-> | Hne].
  - rewrite Hk. cbn [snd].
    rewrite report_limiters, backoffOf_reportSuccess, invoke_backoff, Nat.sub_diag.
    reflexivity.
  - destruct (Hfail attempt) as [e He]; [lia |]. rewrite He.
    assert ((attempt <? maxRetries)%nat = true) as -> by (apply Nat.ltb_lt; lia).
    rewrite (IH (S attempt) (Some e) _ k result); try lia; try assumption.
    + cbn [limiters]. rewrite report_limiters, backoffOf_reportFailure, invoke_backoff.
      replace (k - attempt)%nat with (S (k - S attempt)) by lia.
      rewrite Nat.iter_succ_r. reflexivity.
    + intros j Hj. apply Hfail. lia.
Qed.

End RetryBackoff.

(** X3.  What [withRetry] with a [platform] does to that platform's
    backoff multiplier [b] (at most 10), when [fn] itself leaves the
    multiplier alone (as [rateLimit] does): each failed attempt that
    has a retry left doubles it up to 10, the last failure is not
    reported, and a success multiplies by 0.9 down to 1.  So after
    [maxRetries + 1] failures it is [min(10, b * 2^maxRetries)], and
    after a first success at attempt [k] it is
    [max(1, 0.9 * min(10, b * 2^k))]. *)
Theorem withRetry_backoff
    (T : Type) (outcome : nat -> T + string)
    (effect : nat -> gmap string RateLimit.RateLimitState -> Z
              -> gmap string RateLimit.RateLimitState * Z)
    (random : nat -> Q) (elapsed : nat -> Z) (maxRetries : nat)
    (baseDelay maxDelay : Q) (p : string) (w : Retry.World) :
  JsString.truthy p = true ->
  (forall n l t, Retry.backoffOf p (fst (effect n l t)) = Retry.backoffOf p l) ->
  (Retry.backoffOf p (Retry.limiters w) <= 10)%Q ->
  let b := Retry.backoffOf p (Retry.limiters w) in
  let r := Retry.withRetry T outcome effect random elapsed maxRetries
                           baseDelay maxDelay (Some p) w in
  let b' := Retry.backoffOf p (Retry.limiters (snd r)) in
  (forall k result,
      (k <= maxRetries)%nat -> outcome k = inl result ->
      (forall j, (j < k)%nat -> exists e, outcome j = inr e) ->
      (b' == Qmax 1 (Qmin 10 (b * inject_Z (2 ^ Z.of_nat k)) * (9 # 10)))%Q)
  /\ ((forall j, (j <= maxRetries)%nat -> exists e, outcome j = inr e) ->
      (b' == Qmin 10 (b * inject_Z (2 ^ Z.of_nat maxRetries)))%Q).
Proof.
  intros Hp Heff Hb b r b'. subst b' r. unfold Retry.withRetry. split.
  - intros k result Hk Hres Hfail.
    rewrite (attempts_backoff_success T outcome effect random elapsed maxRetries
               baseDelay maxDelay p Hp Heff (S maxRetries) 0 None w k result);
      try lia; try assumption.
    + rewrite Nat.sub_0_r. fold b.
      pose proof (iter_doubled k b Hb) as Hi.
      set (x := Nat.iter k Retry.doubled b) in *.
      set (y := Qmin 10 (b * inject_Z (2 ^ Z.of_nat k))) in *.
      destruct (Q.max_spec 1 (x * (9 # 10))) as [[H1 ->] | [H1 ->]];
        destruct (Q.max_spec 1 (y * (9 # 10))) as [[H2 ->] | [H2 ->]]; lra.
    + intros j Hj. apply Hfail. lia.
  - intros Hfail.
    rewrite (attempts_backoff_exhausted T outcome effect random elapsed maxRetries
               baseDelay maxDelay p Hp Heff (S maxRetries) 0 None w);
      [| lia | intros j Hj; apply Hfail; lia].
    apply iter_doubled, Hb.
Qed.

Lemma withRetry_backoff_witness :
  let outcome := fun _ : nat => @inr Z string "HTTP 503" in
  let effect := fun (_ : nat) (l : gmap string RateLimit.RateLimitState) (t : Z) =>
                  (RateLimit.rateLimit "appstore" t t l, (t + 40)%Z) in
  let w := Retry.mkWorld ∅ 0 0 [] in
  let r := Retry.withRetry Z outcome effect (fun _ => 1 # 2) (fun _ => 1500%Z) 2
             1000 30000 (Some "appstore") w in
  fst r = inr (Some "HTTP 503")
  /\ (Retry.backoffOf "appstore" (Retry.limiters (snd r)) == 4)%Q.
Proof.
  split; [vm_compute; reflexivity |].
  destruct (withRetry_backoff Z (fun _ : nat => @inr Z string "HTTP 503")
              (fun _ l t => (RateLimit.rateLimit "appstore" t t l, (t + 40)%Z))
              (fun _ => 1 # 2) (fun _ => 1500%Z) 2 1000 30000 "appstore"
              (Retry.mkWorld ∅ 0 0 [])) as [_ H].
  - reflexivity.
  - intros n l t. apply backoffOf_rateLimit.
  - vm_compute. discriminate.
  - rewrite H; [vm_compute; reflexivity |]. intros j _. eexists. reflexivity.
Defined.

(** ** The bucket of the Reddit scraper *)



(** ** Inserts *)

(** X5.  The number that [insertMentions] and [insertReviews] return
    is the number of rows the batch added to the table: it lies
    between 0 and the size of the batch, the table grows by exactly
    that many rows, no row that was there is lost, and the other
    tables are left as they were. *)
Theorem insert_count_is_rows_added
    (mitems : list Queries.Mention) (ritems : list Queries.Review) (db : Queries.Db) :
  (let n := fst (Queries.insertMentions mitems db) in
   let db' := snd (Queries.insertMentions mitems db) in
   (0 <= n <= Z.of_nat (length mitems))%Z
   /\ (Z.of_nat (size (Queries.mentions db')) = Z.of_nat (size (Queries.mentions db)) + n)%Z
   /\ (forall k, is_Some (Queries.mentions db !! k) -> is_Some (Queries.mentions db' !! k))
   /\ Queries.reviews db' = Queries.reviews db
   /\ Queries.scrape_logs db' = Queries.scrape_logs db
   /\ Queries.scrape_cursors db' = Queries.scrape_cursors db)
  /\ (let n := fst (Queries.insertReviews ritems db) in
      let db' := snd (Queries.insertReviews ritems db) in
      (0 <= n <= Z.of_nat (length ritems))%Z
      /\ (Z.of_nat (size (Queries.reviews db')) = Z.of_nat (size (Queries.reviews db)) + n)%Z
      /\ (forall k, is_Some (Queries.reviews db !! k) -> is_Some (Queries.reviews db' !! k))
      /\ Queries.mentions db' = Queries.mentions db
      /\ Queries.scrape_logs db' = Queries.scrape_logs db
      /\ Queries.scrape_cursors db' = Queries.scrape_cursors db).
Proof.
  split.
  - unfold Queries.insertMentions.
    destruct (insertMentionsInto_count mitems 0%Z (Queries.mentions db)) as (Hs & Hn & Hk).
    destruct (Queries.insertMentionsInto mitems 0 (Queries.mentions db)) as [n tbl].
    simpl in *. repeat split; try lia; try reflexivity. exact Hk.
  - unfold Queries.insertReviews.
    destruct (insertReviewsInto_count ritems 0%Z (Queries.reviews db)) as (Hs & Hn & Hk).
    destruct (Queries.insertReviewsInto ritems 0 (Queries.reviews db)) as [n tbl].
    simpl in *. repeat split; try lia; try reflexivity. exact Hk.
Qed.

(** ** Upserts, key by key *)

Section KeyedFold.
Variable R : Type.
Variable key : R -> Z * string.
Variable date : R -> Z.
Variable at_ : R -> Z -> R.
Hypothesis date_at : forall r d, date (at_ r d) = d.
Hypothesis at_date : forall r, at_ r (date r) = r.

Local Abbreviation upsertAt := (Rows.upsertAt R key date at_).

Lemma fold_upsertAt_absent k items o :
  ~ In k (map key items) -> fold_left (upsertAt k) items o = o.
Proof.
  revert o. induction items as [| r items IH]; intros o Hk; [reflexivity |].
  simpl in *. unfold upsertAt at 2.
  destruct (decide (k = key r)) as [-> | _]; [exfalso; apply Hk; left; reflexivity |].
  apply IH. intros H. apply Hk. right. exact H.
Qed.

Lemma fold_upsertAt_Some k items : forall old,
  exists row, fold_left (upsertAt k) items (Some old) = Some row
              /\ date row = date old.
Proof.
  induction items as [| r items IH]; intros old; [eauto |].
  simpl. unfold upsertAt at 2. destruct (decide (k = key r)) as [_ | _].
  - destruct (IH (at_ r (date old))) as (row & -> & Hd).
    exists row. rewrite Hd, date_at. auto.
  - apply IH.
Qed.

(** From the first row of the batch under [k] on, only the date of
    what was there matters. *)
Lemma fold_upsertAt_same_date k items : forall o1 o2,
  option_map date o1 = option_map date o2 ->
  In k (map key items) ->
  fold_left (upsertAt k) items o1 = fold_left (upsertAt k) items o2.
Proof.
  induction items as [| r items IH]; intros o1 o2 Hd Hin; [destruct Hin |].
  simpl. unfold upsertAt at 2 4.
  destruct (decide (k = key r)) as [-> | Hne].
  - f_equal. f_equal. destruct o1, o2; simpl in Hd; try discriminate; [| reflexivity].
    injection Hd as ->. reflexivity.
  - apply IH; [exact Hd |]. destruct Hin as [H | H]; [congruence | exact H].
Qed.

Lemma fold_upsertAt_idem k items : forall o,
  fold_left (upsertAt k) items (fold_left (upsertAt k) items o)
  = fold_left (upsertAt k) items o.
Proof.
  induction items as [| r items IH] using rev_ind; intros o; [reflexivity |].
  rewrite !fold_left_app. simpl.
  set (o1 := fold_left (upsertAt k) items o).
  unfold upsertAt at 1 3 4. destruct (decide (k = key r)) as [Hk | Hne].
  - f_equal.
    (* the last row of the batch is under [k] *)
    set (o2 := fold_left (upsertAt k) items
                 (Some match o1 with Some old => at_ r (date old) | None => r end)).
    assert (option_map date o2 = option_map date (Some match o1 with
                                                       | Some old => at_ r (date old)
                                                       | None => r end)) as Hd.
    { subst o2. destruct (fold_upsertAt_Some k items
                            (match o1 with Some old => at_ r (date old) | None => r end))
        as (row & -> & Hrow). simpl. rewrite Hrow. reflexivity. }
    destruct o2 as [x |]; [| discriminate Hd]. simpl in Hd. injection Hd as Hd.
    rewrite Hd. destruct o1 as [old |].
    + rewrite date_at. reflexivity.
    + apply at_date.
  - (* the last row is under another key *)
    apply IH.
Qed.

End KeyedFold.

Section UpsertFacts.
Import Queries Rows.

Lemma mentionAt_date m d : m_created_at (mentionAt m d) = d.
Proof. reflexivity. Qed.
Lemma mentionAt_self m : mentionAt m (m_created_at m) = m.
Proof. destruct m. reflexivity. Qed.

Lemma reviewAt_date r d : r_review_date (reviewAt r d) = d.
Proof. reflexivity. Qed.
Lemma reviewAt_self r : reviewAt r (r_review_date r) = r.
Proof. destruct r. reflexivity. Qed.

Lemma upsertMention_lookup m tbl k :
  upsertMention m tbl !! k
  = upsertAt Mention mentionKey m_created_at mentionAt k (tbl !! k) m.
Proof.
  unfold upsertAt. destruct (decide (k = mentionKey m)) as [-> | Hne].
  - unfold upsertMention, mentionKey.
    destruct (tbl !! (m_platform_id m, m_external_id m)); rewrite lookup_insert_eq;
      reflexivity.
  - apply upsertMention_lookup_ne, Hne.
Qed.

Lemma insertMentionsInto_lookup items : forall n tbl k,
  snd (insertMentionsInto items n tbl) !! k
  = fold_left (upsertAt Mention mentionKey m_created_at mentionAt k) items (tbl !! k).
Proof.
  induction items as [| m items IH]; intros n tbl k; [reflexivity |].
  cbn [insertMentionsInto fold_left]. rewrite IH, upsertMention_lookup. reflexivity.
Qed.

Lemma upsertReview_lookup r tbl k :
  upsertReview r tbl !! k
  = upsertAt Review reviewKey r_review_date reviewAt k (tbl !! k) r.
Proof.
  unfold upsertAt. destruct (decide (k = reviewKey r)) as [-> | Hne].
  - unfold upsertReview, reviewKey.
    destruct (tbl !! (r_platform_id r, r_external_id r)); rewrite lookup_insert_eq;
      reflexivity.
  - apply upsertReview_lookup_ne, Hne.
Qed.

Lemma insertReviewsInto_lookup items : forall n tbl k,
  snd (insertReviewsInto items n tbl) !! k
  = fold_left (upsertAt Review reviewKey r_review_date reviewAt k) items (tbl !! k).
Proof.
  induction items as [| m items IH]; intros n tbl k; [reflexivity |].
  cbn [insertReviewsInto fold_left]. rewrite IH, upsertReview_lookup. reflexivity.
Qed.

(** A batch whose keys are all in the table adds no row. *)
Lemma insertMentionsInto_known items : forall n tbl,
  (forall m, In m items -> is_Some (tbl !! mentionKey m)) ->
  fst (insertMentionsInto items n tbl) = n.
Proof.
  induction items as [| m items IH]; intros n tbl Hall; [reflexivity |].
  cbn [insertMentionsInto].
  destruct (Hall m (or_introl eq_refl)) as [old Hold].
  unfold mentionKey in Hold. rewrite Hold.
  apply IH. intros m' Hin. apply upsertMention_is_Some, Hall. right. exact Hin.
Qed.

Lemma insertReviewsInto_known items : forall n tbl,
  (forall r, In r items -> is_Some (tbl !! reviewKey r)) ->
  fst (insertReviewsInto items n tbl) = n.
Proof.
  induction items as [| m items IH]; intros n tbl Hall; [reflexivity |].
  cbn [insertReviewsInto].
  destruct (Hall m (or_introl eq_refl)) as [old Hold].
  unfold reviewKey in Hold. rewrite Hold.
  apply IH. intros m' Hin. apply upsertReview_is_Some, Hall. right. exact Hin.
Qed.

Lemma insertMentionsInto_is_Some items : forall n tbl m,
  In m items -> is_Some (snd (insertMentionsInto items n tbl) !! mentionKey m).
Proof.
  induction items as [| x items IH]; intros n tbl m Hin; [destruct Hin |].
  cbn [insertMentionsInto]. destruct Hin as [-> | Hin].
  - destruct (insertMentionsInto_count items
                (match tbl !! (m_platform_id m, m_external_id m) with
                 | Some _ => n | None => (n + 1)%Z end) (upsertMention m tbl))
      as (_ & _ & Hk).
    apply Hk. unfold upsertMention, mentionKey.
    destruct (tbl !! (m_platform_id m, m_external_id m)); rewrite lookup_insert_eq; eauto.
  - apply IH, Hin.
Qed.

Lemma insertReviewsInto_is_Some items : forall n tbl r,
  In r items -> is_Some (snd (insertReviewsInto items n tbl) !! reviewKey r).
Proof.
  induction items as [| x items IH]; intros n tbl m Hin; [destruct Hin |].
  cbn [insertReviewsInto]. destruct Hin as [-> | Hin].
  - destruct (insertReviewsInto_count items
                (match tbl !! (r_platform_id m, r_external_id m) with
                 | Some _ => n | None => (n + 1)%Z end) (upsertReview m tbl))
      as (_ & _ & Hk).
    apply Hk. unfold upsertReview, reviewKey.
    destruct (tbl !! (r_platform_id m, r_external_id m)); rewrite lookup_insert_eq; eauto.
  - apply IH, Hin.
Qed.

End UpsertFacts.

(** X6.  An upsert never moves a row's date: after [insertMentions]
    (or [insertReviews]) a row that was in the table is still there
    with the [created_at] (the [review_date]) it had; it is the very
    same row when the batch does not name its key, and otherwise it
    carries the other columns of the last item of the batch under
    that key. *)
Theorem upsert_keeps_first_date
    (mitems : list Queries.Mention) (ritems : list Queries.Review) (db : Queries.Db)
    (k : Z * string) :
  (forall old,
      Queries.mentions db !! k = Some old ->
      exists row,
        Queries.mentions (snd (Queries.insertMentions mitems db)) !! k = Some row
        /\ Queries.m_created_at row = Queries.m_created_at old
        /\ (~ In k (map Rows.mentionKey mitems) -> row = old)
        /\ (forall pre m post,
              mitems = pre ++ m :: post -> Rows.mentionKey m = k ->
              ~ In k (map Rows.mentionKey post) ->
              row = Rows.mentionAt m (Queries.m_created_at old)))
  /\ (forall old,
      Queries.reviews db !! k = Some old ->
      exists row,
        Queries.reviews (snd (Queries.insertReviews ritems db)) !! k = Some row
        /\ Queries.r_review_date row = Queries.r_review_date old
        /\ (~ In k (map Rows.reviewKey ritems) -> row = old)
        /\ (forall pre r post,
              ritems = pre ++ r :: post -> Rows.reviewKey r = k ->
              ~ In k (map Rows.reviewKey post) ->
              row = Rows.reviewAt r (Queries.r_review_date old))).
Proof.
  split.
  - intros old Hold.
    assert (Queries.mentions (snd (Queries.insertMentions mitems db))
            = snd (Queries.insertMentionsInto mitems 0 (Queries.mentions db))) as ->.
    { unfold Queries.insertMentions. destruct (Queries.insertMentionsInto _ _ _).
      reflexivity. }
    rewrite insertMentionsInto_lookup, Hold.
    destruct (fold_upsertAt_Some _ Rows.mentionKey Queries.m_created_at Rows.mentionAt
                mentionAt_date k mitems old) as (row & Hrow & Hd).
    exists row. split; [exact Hrow |]. split; [exact Hd |]. split.
    + intros Hk. rewrite fold_upsertAt_absent in Hrow by exact Hk. congruence.
    + intros pre m post -> Hm Hpost.
      rewrite fold_left_app in Hrow. simpl in Hrow.
      rewrite fold_upsertAt_absent in Hrow by exact Hpost.
      destruct (fold_upsertAt_Some _ Rows.mentionKey Queries.m_created_at Rows.mentionAt
                  mentionAt_date k pre old) as (row0 & Hrow0 & Hd0).
      rewrite Hrow0 in Hrow. unfold Rows.upsertAt in Hrow.
      destruct (decide (k = Rows.mentionKey m)) as [_ | Hne]; [| congruence].
      injection Hrow as <-. rewrite Hd0. reflexivity.
  - intros old Hold.
    assert (Queries.reviews (snd (Queries.insertReviews ritems db))
            = snd (Queries.insertReviewsInto ritems 0 (Queries.reviews db))) as ->.
    { unfold Queries.insertReviews. destruct (Queries.insertReviewsInto _ _ _).
      reflexivity. }
    rewrite insertReviewsInto_lookup, Hold.
    destruct (fold_upsertAt_Some _ Rows.reviewKey Queries.r_review_date Rows.reviewAt
                reviewAt_date k ritems old) as (row & Hrow & Hd).
    exists row. split; [exact Hrow |]. split; [exact Hd |]. split.
    + intros Hk. rewrite fold_upsertAt_absent in Hrow by exact Hk. congruence.
    + intros pre m post -> Hm Hpost.
      rewrite fold_left_app in Hrow. simpl in Hrow.
      rewrite fold_upsertAt_absent in Hrow by exact Hpost.
      destruct (fold_upsertAt_Some _ Rows.reviewKey Queries.r_review_date Rows.reviewAt
                  reviewAt_date k pre old) as (row0 & Hrow0 & Hd0).
      rewrite Hrow0 in Hrow. unfold Rows.upsertAt in Hrow.
      destruct (decide (k = Rows.reviewKey m)) as [_ | Hne]; [| congruence].
      injection Hrow as <-. rewrite Hd0. reflexivity.
Qed.

(** X7.  Inserting a batch a second time changes nothing: the second
    [insertMentions] (or [insertReviews]) of the same items returns 0
    and leaves the database exactly as the first one left it, also
    when the batch names a key more than once. *)
Theorem insert_twice_is_insert_once
    (mitems : list Queries.Mention) (ritems : list Queries.Review) (db : Queries.Db) :
  Queries.insertMentions mitems (snd (Queries.insertMentions mitems db))
  = (0%Z, snd (Queries.insertMentions mitems db))
  /\ Queries.insertReviews ritems (snd (Queries.insertReviews ritems db))
     = (0%Z, snd (Queries.insertReviews ritems db)).
Proof.
  split.
  - unfold Queries.insertMentions.
    destruct (Queries.insertMentionsInto mitems 0 (Queries.mentions db))
      as [n tbl] eqn:E1. cbn [snd Queries.mentions Queries.reviews Queries.scrape_logs
                              Queries.scrape_cursors].
    assert (tbl = snd (Queries.insertMentionsInto mitems 0 (Queries.mentions db))) as Htbl
      by (rewrite E1; reflexivity).
    destruct (Queries.insertMentionsInto mitems 0 tbl) as [n2 tbl2] eqn:E2.
    assert (n2 = 0%Z) as ->.
    { change n2 with (fst (n2, tbl2)). rewrite <- E2.
      apply insertMentionsInto_known. intros m Hin. rewrite Htbl.
      apply insertMentionsInto_is_Some, Hin. }
    assert (tbl2 = tbl) as ->; [| reflexivity].
    apply map_eq. intros k.
    change tbl2 with (snd (0%Z, tbl2)). rewrite <- E2, insertMentionsInto_lookup.
    rewrite Htbl at 2. rewrite Htbl at 1. rewrite !insertMentionsInto_lookup.
    apply fold_upsertAt_idem; [apply mentionAt_date | apply mentionAt_self].
  - unfold Queries.insertReviews.
    destruct (Queries.insertReviewsInto ritems 0 (Queries.reviews db))
      as [n tbl] eqn:E1. cbn [snd Queries.mentions Queries.reviews Queries.scrape_logs
                              Queries.scrape_cursors].
    assert (tbl = snd (Queries.insertReviewsInto ritems 0 (Queries.reviews db))) as Htbl
      by (rewrite E1; reflexivity).
    destruct (Queries.insertReviewsInto ritems 0 tbl) as [n2 tbl2] eqn:E2.
    assert (n2 = 0%Z) as ->.
    { change n2 with (fst (n2, tbl2)). rewrite <- E2.
      apply insertReviewsInto_known. intros m Hin. rewrite Htbl.
      apply insertReviewsInto_is_Some, Hin. }
    assert (tbl2 = tbl) as ->; [| reflexivity].
    apply map_eq. intros k.
    change tbl2 with (snd (0%Z, tbl2)). rewrite <- E2, insertReviewsInto_lookup.
    rewrite Htbl at 2. rewrite Htbl at 1. rewrite !insertReviewsInto_lookup.
    apply fold_upsertAt_idem; [apply reviewAt_date | apply reviewAt_self].
Qed.

(** ** Log rows and recent ids *)


Section RecentFacts.
Import Queries.

Variable A : Type.
Variable key : A -> Z.

(** The first [n] of a list sorted newest first are no older than the
    rest. *)
Lemma firstn_newest n (l : list A) :
  StronglySorted (fun a b => (key b <= key a)%Z) l ->
  forall a b, In a (firstn n l) -> In b (skipn n l) -> (key b <= key a)%Z.
Proof.
  revert n. induction l as [| x l IH]; intros n Hs a b Ha Hb.
  - destruct n; destruct Ha.
  - destruct n as [| n]; [destruct Ha |].
    simpl in Ha, Hb. inversion Hs as [| ? ? Hs' Hx]; subst.
    destruct Ha as [<- | Ha].
    + rewrite Forall_forall in Hx. apply Hx, list_elem_of_In.
      rewrite <- (firstn_skipn n l). apply in_or_app. right. exact Hb.
    + eapply IH; eassumption.
Qed.

Lemma sorted_prefix (R : A -> A -> Prop) (l1 l2 : list A) :
  StronglySorted R (l1 ++ l2) -> StronglySorted R l1.
Proof.
  induction l1 as [| x l1 IH]; intros H; [constructor |].
  simpl in H. inversion H as [| ? ? Hs Hx]; subst. constructor.
  - apply IH, Hs.
  - rewrite Forall_app in Hx. apply Hx.
Qed.

End RecentFacts.


(** ** The statements of [getMentions] and [getReviews] *)

Section StatementFacts.
Import Statements.

Lemma placeholders_app a b :
  placeholders (a +:+ b) = (placeholders a + placeholders b)%nat.
Proof.
  induction a as [| c a IH]; [reflexivity |].
  simpl. rewrite IH. lia.
Qed.

Lemma bound_clause cond sql ps st :
  placeholders sql = length ps -> bound st -> bound (clause cond sql ps st).
Proof.
  unfold bound, clause. intros Hc Hst. destruct cond; [| exact Hst].
  simpl. rewrite placeholders_app, length_app. lia.
Qed.

Lemma bound_paging limit offset st : bound st -> bound (paging limit offset st).
Proof.
  intros H. unfold paging. destruct (givenNumber limit); [| exact H].
  repeat apply bound_clause; try (vm_compute; reflexivity). exact H.
Qed.

Lemma given_effective s e :
  given (effectiveEndDate s e) = given e || given s.
Proof.
  unfold effectiveEndDate. destruct (given e) eqn:E; [exact E | reflexivity].
Qed.

Lemma fst_clause cond sql ps st :
  fst (clause cond sql ps st) = if cond then fst st +:+ sql else fst st.
Proof. unfold clause. destruct cond; reflexivity. Qed.

Lemma fst_paging limit offset st :
  fst (paging limit offset st)
  = if givenNumber limit
    then (if givenNumber offset
          then (fst st +:+ " LIMIT ?") +:+ " OFFSET ?"
          else fst st +:+ " LIMIT ?")
    else fst st.
Proof.
  unfold paging. destruct (givenNumber limit); [| reflexivity].
  rewrite !fst_clause. reflexivity.
Qed.

End StatementFacts.

(** X10.  The statements that [getMentions] and [getReviews] build,
    for every combination of filters: the text has exactly as many
    placeholders as values are bound to it, and it depends only on
    which filters are given, never on their values (which reach the
    database as bound values only). *)
Theorem statements_are_parameterised
    (mf mf' : Statements.MentionFilters) (rf rf' : Statements.ReviewFilters) :
  Statements.placeholders (fst (Statements.getMentions mf))
  = length (snd (Statements.getMentions mf))
  /\ Statements.placeholders (fst (Statements.getReviews rf))
     = length (snd (Statements.getReviews rf))
  /\ (Statements.mentionShape mf = Statements.mentionShape mf' ->
      fst (Statements.getMentions mf) = fst (Statements.getMentions mf'))
  /\ (Statements.reviewShape rf = Statements.reviewShape rf' ->
      fst (Statements.getReviews rf) = fst (Statements.getReviews rf')).
Proof.
  split; [| split; [| split]].
  - unfold Statements.getMentions. cbv zeta.
    apply bound_paging. repeat apply bound_clause; vm_compute; reflexivity.
  - unfold Statements.getReviews. cbv zeta.
    apply bound_paging. repeat apply bound_clause; vm_compute; reflexivity.
  - unfold Statements.mentionShape. intros H.
    injection H as H1 H2 H3 H4 H5 H6 H7.
    unfold Statements.getMentions. cbv zeta.
    rewrite !fst_paging, !fst_clause, !given_effective, H1, H2, H3, H4, H5, H6, H7.
    reflexivity.
  - unfold Statements.reviewShape. intros H.
    injection H as H1 H2 H3 H4 H5 H6 H7 H8.
    unfold Statements.getReviews. cbv zeta.
    rewrite !fst_paging, !fst_clause, !given_effective, H1, H2, H3, H4, H5, H6, H7, H8.
    reflexivity.
Qed.

Section StatementParams.
Import Statements.

Lemma snd_clause cond sql ps st :
  snd (clause cond sql ps st) = snd st ++ (if cond then ps else []).
Proof. unfold clause. destruct cond; simpl; [reflexivity | rewrite app_nil_r; reflexivity]. Qed.

Lemma snd_paging limit offset st :
  snd (paging limit offset st)
  = snd st ++ (if givenNumber limit
               then PNumber (numberOf limit)
                    :: (if givenNumber offset then [PNumber (numberOf offset)] else [])
               else []).
Proof.
  unfold paging. destruct (givenNumber limit); [| rewrite app_nil_r; reflexivity].
  rewrite !snd_clause, <- app_assoc. reflexivity.
Qed.

End StatementParams.

(** X11.  The date window and the paging of [getMentions].  With a
    start date and no end date the statement is bounded on both
    sides, by the start date and by the end of that same date (a
    10-character date gets T23:59:59 appended): only that day is
    shown.  A given end date is the upper bound instead.  Without a
    limit nothing is paged: an offset given alone is dropped, and no
    number is bound. *)
Theorem mentions_date_window_and_paging (f : Statements.MentionFilters) :
  let d := Statements.textOf (Statements.mf_startDate f) in
  let e := Statements.textOf (Statements.mf_endDate f) in
  let st := Statements.getMentions f in
  (Statements.given (Statements.mf_startDate f) = true ->
   Statements.given (Statements.mf_endDate f) = false ->
   (exists before after,
      snd st = before ++ [Statements.PText d; Statements.PText (Statements.endOfDay d)]
                      ++ after)
   /\ JsString.includes (fst st) " AND m.created_at >= ? AND m.created_at <= ?" = true
   /\ (String.length d = 10%nat -> Statements.endOfDay d = d +:+ "T23:59:59"))
  /\ (Statements.given (Statements.mf_endDate f) = true ->
      exists before after,
        snd st = before ++ [Statements.PText (Statements.endOfDay e)] ++ after
        /\ Forall (fun p => exists n, p = Statements.PNumber n) after)
  /\ (Statements.givenNumber (Statements.mf_limit f) = false ->
      Forall (fun p => exists s, p = Statements.PText s) (snd st)
      /\ JsString.includes (fst st) "LIMIT" = false
      /\ JsString.includes (fst st) "OFFSET" = false).
Proof.
  intros d e st. subst st.
  set (p1 := if Statements.given (Statements.mf_platform f)
             then [Statements.PText (Statements.textOf (Statements.mf_platform f))]
             else []).
  set (p2 := if Statements.given (Statements.mf_sentiment f)
             then [Statements.PText (Statements.textOf (Statements.mf_sentiment f))]
             else []).
  set (p3 := if Statements.given (Statements.mf_search f)
             then [Statements.like (Statements.textOf (Statements.mf_search f));
                   Statements.like (Statements.textOf (Statements.mf_search f));
                   Statements.like (Statements.textOf (Statements.mf_search f))]
             else []).
  set (p4 := if Statements.given (Statements.mf_startDate f)
             then [Statements.PText d] else []).
  set (ee := Statements.effectiveEndDate (Statements.mf_startDate f)
                                         (Statements.mf_endDate f)).
  set (p5 := if Statements.given ee
             then [Statements.PText (Statements.endOfDay (Statements.textOf ee))]
             else []).
  set (p6 := if Statements.givenNumber (Statements.mf_limit f)
             then Statements.PNumber (Statements.numberOf (Statements.mf_limit f))
                  :: (if Statements.givenNumber (Statements.mf_offset f)
                      then [Statements.PNumber (Statements.numberOf (Statements.mf_offset f))]
                      else [])
             else []).
  assert (snd (Statements.getMentions f) = p1 ++ p2 ++ p3 ++ p4 ++ p5 ++ p6) as Hparams.
  { unfold Statements.getMentions. cbv zeta.
    rewrite snd_paging, !snd_clause. simpl. rewrite app_nil_r, <- !app_assoc.
    reflexivity. }
  assert (Forall (fun p => exists s, p = Statements.PText s) (p1 ++ p2 ++ p3)) as Htext.
  { subst p1 p2 p3. unfold Statements.like.
    destruct (Statements.given (Statements.mf_platform f));
      destruct (Statements.given (Statements.mf_sentiment f));
      destruct (Statements.given (Statements.mf_search f));
      repeat constructor; eauto. }
  assert (Forall (fun p => exists n, p = Statements.PNumber n) p6) as Hnum.
  { subst p6. destruct (Statements.givenNumber (Statements.mf_limit f)); [| constructor].
    constructor; [eauto |].
    destruct (Statements.givenNumber (Statements.mf_offset f)); repeat constructor; eauto. }
  assert (forall (b1 b2 b3 b6 b7 : bool),
            JsString.includes
              (fst (Statements.paging (if b6 then Some 1%Z else None)
                      (if b7 then Some 1%Z else None)
                   (Statements.clause true " ORDER BY m.created_at DESC" []
                   (Statements.clause true " AND m.created_at <= ?" []
                   (Statements.clause true " AND m.created_at >= ?" []
                   (Statements.clause b3
                      " AND (m.content LIKE ? OR m.author LIKE ? OR m.url LIKE ?)" []
                   (Statements.clause b2 " AND m.sentiment_label = ?" []
                   (Statements.clause b1 " AND p.name = ?" []
                      ("SELECT m.*, p.name as platform_name FROM mentions m JOIN platforms p ON m.platform_id = p.id WHERE 1=1",
                       [])))))))))
              " AND m.created_at >= ? AND m.created_at <= ?" = true) as Hwindow
    by (intros [] [] [] [] []; vm_compute; reflexivity).
  assert (forall (b1 b2 b3 b4 b5 : bool) (word : string),
            word = "LIMIT" \/ word = "OFFSET" ->
            JsString.includes
              (fst (Statements.clause true " ORDER BY m.created_at DESC" []
                   (Statements.clause b5 " AND m.created_at <= ?" []
                   (Statements.clause b4 " AND m.created_at >= ?" []
                   (Statements.clause b3
                      " AND (m.content LIKE ? OR m.author LIKE ? OR m.url LIKE ?)" []
                   (Statements.clause b2 " AND m.sentiment_label = ?" []
                   (Statements.clause b1 " AND p.name = ?" []
                      ("SELECT m.*, p.name as platform_name FROM mentions m JOIN platforms p ON m.platform_id = p.id WHERE 1=1",
                       []))))))))
              word = false) as Hplain
    by (intros [] [] [] [] [] word [-> | ->]; vm_compute; reflexivity).
  assert (forall (limit offset : option Z) c1 c2 c3 c4 c5 c6 q1 q2 q3 q4 q5 q6,
            fst (Statements.paging limit offset
                   (Statements.clause true c1 q1 (Statements.clause
                      (Statements.given ee) c2 q2 (Statements.clause
                      (Statements.given (Statements.mf_startDate f)) c3 q3
                      (Statements.clause (Statements.given (Statements.mf_search f)) c4 q4
                      (Statements.clause (Statements.given (Statements.mf_sentiment f)) c5 q5
                      (Statements.clause (Statements.given (Statements.mf_platform f)) c6 q6
                         ("SELECT m.*, p.name as platform_name FROM mentions m JOIN platforms p ON m.platform_id = p.id WHERE 1=1",
                          []))))))))
            = fst (Statements.paging
                     (if Statements.givenNumber limit then Some 1%Z else None)
                     (if Statements.givenNumber offset then Some 1%Z else None)
                   (Statements.clause true c1 [] (Statements.clause
                      (Statements.given ee) c2 [] (Statements.clause
                      (Statements.given (Statements.mf_startDate f)) c3 []
                      (Statements.clause (Statements.given (Statements.mf_search f)) c4 []
                      (Statements.clause (Statements.given (Statements.mf_sentiment f)) c5 []
                      (Statements.clause (Statements.given (Statements.mf_platform f)) c6 []
                         ("SELECT m.*, p.name as platform_name FROM mentions m JOIN platforms p ON m.platform_id = p.id WHERE 1=1",
                          []))))))))) as Htext_only.
  { intros. rewrite !fst_paging, !fst_clause.
    destruct (Statements.givenNumber limit), (Statements.givenNumber offset); reflexivity. }
  split; [| split].
  - intros Hs He. split; [| split].
    + exists (p1 ++ p2 ++ p3), p6. rewrite Hparams. subst p4 p5 ee.
      unfold Statements.effectiveEndDate. rewrite He, Hs. fold d.
      rewrite <- !app_assoc. reflexivity.
    + unfold Statements.getMentions. cbv zeta. fold ee. rewrite Htext_only.
      assert (Statements.given ee = true) as ->
        by (subst ee; rewrite given_effective, He, Hs; reflexivity).
      rewrite Hs. apply Hwindow.
    + intros Hlen. unfold Statements.endOfDay. rewrite Hlen. reflexivity.
  - intros He. exists (p1 ++ p2 ++ p3 ++ p4), p6. split; [| exact Hnum].
    rewrite Hparams. subst p5 ee. unfold Statements.effectiveEndDate. rewrite !He.
    fold e. rewrite <- !app_assoc. reflexivity.
  - intros Hl. split; [| split].
    + rewrite Hparams. subst p6. rewrite Hl, app_nil_r.
      rewrite !app_assoc. apply Forall_app. split.
      * apply Forall_app. split; [rewrite <- app_assoc; exact Htext |].
        subst p4. destruct (Statements.given (Statements.mf_startDate f));
          repeat constructor; eauto.
      * subst p5. destruct (Statements.given ee); repeat constructor; eauto.
    + unfold Statements.getMentions. cbv zeta. fold ee. rewrite Htext_only, Hl.
      unfold Statements.paging. simpl Statements.givenNumber. cbv iota.
      apply Hplain. left. reflexivity.
    + unfold Statements.getMentions. cbv zeta. fold ee. rewrite Htext_only, Hl.
      unfold Statements.paging. simpl Statements.givenNumber. cbv iota.
      apply Hplain. right. reflexivity.
Qed.

(** ** Brand matching *)

Section BrandFacts.
Import JsString BrandFilter.

Lemma has_In x l : existsb (String.eqb x) l = true <-> In x l.
Proof.
  rewrite existsb_exists. split.
  - intros (y & Hin & Heq). apply String.eqb_eq in Heq. subst. exact Hin.
  - intros Hin. exists x. split; [exact Hin | apply String.eqb_refl].
Qed.

Lemma uniqFrom_In seen l x :
  In x (uniqFrom seen l) <-> In x l /\ ~ In x seen.
Proof.
  revert seen. induction l as [| y l IH]; intros seen; simpl; [tauto |].
  destruct (existsb (String.eqb y) seen) eqn:E.
  - apply has_In in E. rewrite IH. split.
    + intros [H1 H2]. auto.
    + intros [[<- | H1] H2]; [contradiction | auto].
  - assert (~ In y seen) as Hy by (rewrite <- has_In, E; discriminate).
    simpl. rewrite IH. simpl. split.
    + intros [<- | [H1 H2]]; [auto | tauto].
    + intros [[<- | H1] H2]; [auto |].
      destruct (String.eqb_spec y x) as [-> | Hne]; [auto | right; tauto].
Qed.

Lemma uniqFrom_NoDup seen l : NoDup (uniqFrom seen l).
Proof.
  revert seen. induction l as [| y l IH]; intros seen; simpl; [constructor |].
  destruct (existsb (String.eqb y) seen); [apply IH |].
  constructor; [| apply IH].
  rewrite list_elem_of_In, uniqFrom_In. simpl. tauto.
Qed.

Lemma uniq_In l x : In x (uniq l) <-> In x l.
Proof. unfold uniq. rewrite uniqFrom_In. simpl. tauto. Qed.

Lemma uniq_NoDup l : NoDup (uniq l).
Proof. apply uniqFrom_NoDup. Qed.

Lemma someIn_term h l :
  someIn h l = true <-> exists term, In term l /\ includes h term = true.
Proof. unfold someIn. apply existsb_exists. Qed.

Lemma normalized_In l x :
  In x (normalized l) <-> truthy x = true /\ In x (map normalize l).
Proof. unfold normalized. rewrite filter_In. tauto. Qed.

Lemma nonEmpty_In (l : list string) x : In x l -> nonEmpty l = true.
Proof. destruct l; [intros [] | reflexivity]. Qed.

Lemma strong_In cfg x : In x (getStrongBrandAnchors cfg) -> In x (getBrandAnchors cfg).
Proof. unfold getStrongBrandAnchors. rewrite filter_In. tauto. Qed.

End BrandFacts.

(** X12.  What [matchesBrand] accepts names a configured term: the
    lower-cased text contains the lower-cased form of a brand anchor
    or of a search term, and that term is not empty (an empty term,
    which every text contains, is never matched against). *)
Theorem matchesBrand_names_a_configured_term
    (cfg : Config.t) (text : option string) :
  BrandFilter.matchesBrand cfg text = true ->
  exists t term,
    text = Some t
    /\ JsString.truthy term = true
    /\ (In term (map JsString.toLowerCase (BrandFilter.getBrandAnchors cfg))
        \/ In term (map JsString.toLowerCase (Config.searchTerms cfg)))
    /\ JsString.includes (JsString.toLowerCase t) term = true.
Proof.
  unfold BrandFilter.matchesBrand. destruct text as [t |]; [| discriminate].
  destruct (negb (JsString.truthy t)); [discriminate |]. cbv zeta.
  assert (forall l, BrandFilter.someIn (BrandFilter.normalize t) (BrandFilter.normalized l)
                    = true ->
                    exists term, JsString.truthy term = true
                                 /\ In term (map JsString.toLowerCase l)
                                 /\ JsString.includes (JsString.toLowerCase t) term = true)
    as Hsome.
  { intros l H. apply someIn_term in H as (term & Hin & Hinc).
    apply normalized_In in Hin as [Ht Hin]. eauto. }
  assert (forall l, (if BrandFilter.nonEmpty (BrandFilter.normalized l)
                     then BrandFilter.someIn (BrandFilter.normalize t)
                            (BrandFilter.normalized l)
                     else false) = true ->
                    exists term, JsString.truthy term = true
                                 /\ In term (map JsString.toLowerCase l)
                                 /\ JsString.includes (JsString.toLowerCase t) term = true)
    as Hsearch.
  { intros l H. destruct (BrandFilter.nonEmpty _); [apply Hsome, H | discriminate]. }
  intros H. exists t.
  destruct (Config.brandStrict cfg).
  - destruct (BrandFilter.nonEmpty
                (BrandFilter.normalized (BrandFilter.getStrongBrandAnchors cfg))).
    + destruct (Hsome _ H) as (term & Ht & Hin & Hinc). exists term.
      repeat split; try assumption. left.
      apply in_map_iff in Hin as (a & <- & Ha). apply in_map, strong_In, Ha.
    + destruct (BrandFilter.nonEmpty
                  (BrandFilter.normalized (BrandFilter.getBrandAnchors cfg))).
      * destruct (Hsome _ H) as (term & Ht & Hin & Hinc). exists term. auto.
      * destruct (Hsearch _ H) as (term & Ht & Hin & Hinc). exists term. auto.
  - destruct (BrandFilter.nonEmpty
                (BrandFilter.normalized (BrandFilter.getBrandAnchors cfg))).
    + destruct (Hsome _ H) as (term & Ht & Hin & Hinc). exists term. auto.
    + destruct (Hsearch _ H) as (term & Ht & Hin & Hinc). exists term. auto.
Qed.

Lemma matchesBrand_names_a_configured_term_witness :
  exists t term,
    Some "Try Matiks.in today" = Some t
    /\ JsString.truthy term = true
    /\ (In term (map JsString.toLowerCase (BrandFilter.getBrandAnchors Config.default))
        \/ In term (map JsString.toLowerCase (Config.searchTerms Config.default)))
    /\ JsString.includes (JsString.toLowerCase t) term = true.
Proof.
  apply (matchesBrand_names_a_configured_term Config.default (Some "Try Matiks.in today")).
  vm_compute. reflexivity.
Defined.

(** X13.  Brand matching does not see letter case: two texts with the
    same lower-casing get the same verdict from [matchesBrand] and
    from [matchesBrandBalanced]. *)
Theorem brand_matching_ignores_case
    (cfg : Config.t) (t1 t2 : string) (contextKeywords : list string) :
  JsString.toLowerCase t1 = JsString.toLowerCase t2 ->
  BrandFilter.matchesBrand cfg (Some t1) = BrandFilter.matchesBrand cfg (Some t2)
  /\ BrandFilter.matchesBrandBalanced cfg (Some t1) contextKeywords
     = BrandFilter.matchesBrandBalanced cfg (Some t2) contextKeywords.
Proof.
  intros H.
  assert (JsString.truthy t1 = JsString.truthy t2) as Ht
    by (rewrite <- (truthy_toLowerCase t1), <- (truthy_toLowerCase t2), H; reflexivity).
  unfold BrandFilter.matchesBrandBalanced, BrandFilter.matchesBrand, BrandFilter.normalize.
  rewrite Ht, H. split; reflexivity.
Qed.

Lemma brand_matching_ignores_case_witness :
  BrandFilter.matchesBrand Config.default (Some "MATIKS.IN rocks")
  = BrandFilter.matchesBrand Config.default (Some "matiks.in ROCKS")
  /\ BrandFilter.matchesBrandBalanced Config.default (Some "MATIKS.IN rocks")
       Reddit.contextKeywords
     = BrandFilter.matchesBrandBalanced Config.default (Some "matiks.in ROCKS")
         Reddit.contextKeywords.
Proof.
  apply (brand_matching_ignores_case Config.default "MATIKS.IN rocks" "matiks.in ROCKS"
           Reddit.contextKeywords).
  vm_compute. reflexivity.
Defined.

(** X14.  With an app id configured (the defaults configure both),
    [matchesBrand] never consults [config.searchTerms]: whatever the
    search terms are, the verdict is the same.  Under the defaults a
    text that says matiks and names no anchor is not matched. *)
Theorem search_terms_unused_with_app_id
    (cfg : Config.t) (terms : list string) (text : option string) :
  JsString.truthy (Config.playstoreAppId cfg) = true
  \/ JsString.truthy (Config.appstoreAppId cfg) = true ->
  BrandFilter.matchesBrand
    (Config.mk terms (Config.brandRequiredTerms cfg) (Config.brandStrict cfg)
               (Config.brandBalanced cfg) (Config.brandSubreddits cfg)
               (Config.playstoreAppId cfg) (Config.appstoreAppId cfg))
    text
  = BrandFilter.matchesBrand cfg text.
Proof.
  intros Hid.
  assert (exists a, In a (BrandFilter.getBrandAnchors cfg) /\ JsString.truthy a = true)
    as (a & Ha & Hta).
  { unfold BrandFilter.getBrandAnchors. destruct Hid as [Hp | Hs].
    - exists (Config.playstoreAppId cfg). split; [| exact Hp].
      apply uniq_In. rewrite Hp. apply in_or_app. right. apply in_or_app. left.
      left. reflexivity.
    - exists ("id" +:+ Config.appstoreAppId cfg). split; [| reflexivity].
      apply uniq_In. rewrite Hs. apply in_or_app. right. apply in_or_app. right.
      left. reflexivity. }
  assert (BrandFilter.nonEmpty (BrandFilter.normalized (BrandFilter.getBrandAnchors cfg))
          = true) as Hne.
  { apply (nonEmpty_In _ (JsString.toLowerCase a)). apply normalized_In.
    split; [rewrite truthy_toLowerCase; exact Hta | apply in_map, Ha]. }
  unfold BrandFilter.matchesBrand. destruct text as [t |]; [| reflexivity].
  destruct (negb (JsString.truthy t)); [reflexivity |]. cbv zeta.
  change (BrandFilter.getBrandAnchors (Config.mk terms _ _ _ _ _ _))
    with (BrandFilter.getBrandAnchors cfg).
  change (BrandFilter.getStrongBrandAnchors (Config.mk terms _ _ _ _ _ _))
    with (BrandFilter.getStrongBrandAnchors cfg).
  cbn [Config.brandStrict]. rewrite Hne.
  destruct (Config.brandStrict cfg); [| reflexivity].
  destruct (BrandFilter.nonEmpty _); reflexivity.
Qed.

Lemma search_terms_unused_with_app_id_witness :
  BrandFilter.matchesBrand
    (Config.mk ["anything"] ["matiks.in"] false true ["matiks"] "com.matiks.app"
               "123456789")
    (Some "i love matiks")
  = BrandFilter.matchesBrand Config.default (Some "i love matiks")
  /\ BrandFilter.matchesBrand Config.default (Some "i love matiks") = false.
Proof.
  split; [| vm_compute; reflexivity].
  apply (search_terms_unused_with_app_id Config.default ["anything"]
           (Some "i love matiks")).
  left. reflexivity.
Defined.

(** ** The search plans of the Reddit scraper *)

(** X15.  The search plans of the Reddit scraper (the terms of phase
    1, the comment terms of phase 3, the brand anchors behind phases 4
    and 5, the brand subreddits of phase 0) never hold the same term
    twice and never an empty one, whatever the configuration; the
    plain term matiks is always among the search and comment terms. *)
Theorem search_plans_distinct_and_nonempty (cfg : Config.t) :
  Forall (fun plan => NoDup plan /\ Forall (fun term => JsString.truthy term = true) plan)
         [ Reddit.searchTerms cfg; Reddit.commentTerms cfg;
           BrandFilter.getBrandAnchors cfg; Reddit.brandSubreddits cfg ]
  /\ In "matiks" (Reddit.searchTerms cfg)
  /\ In "matiks" (Reddit.commentTerms cfg).
Proof.
  assert (forall l, Forall (fun term => JsString.truthy term = true)
                      (BrandFilter.uniq (List.filter (fun x => JsString.truthy x) l)))
    as Hfilter.
  { intros l. apply Forall_forall. intros x Hx. apply list_elem_of_In in Hx. apply -> uniq_In in Hx.
    apply filter_In in Hx. tauto. }
  split; [| split].
  - repeat constructor; try apply uniq_NoDup; try apply Hfilter.
    unfold BrandFilter.getBrandAnchors. apply Forall_forall. intros x Hx.
    apply list_elem_of_In in Hx. apply -> uniq_In in Hx.
    apply in_app_or in Hx as [Hx | Hx]; [apply filter_In in Hx; tauto |].
    apply in_app_or in Hx as [Hx | Hx].
    + destruct (JsString.truthy (Config.playstoreAppId cfg)) eqn:E; [| destruct Hx].
      destruct Hx as [<- | [<- | []]]; [exact E | reflexivity].
    + destruct (JsString.truthy (Config.appstoreAppId cfg)) eqn:E; [| destruct Hx].
      destruct Hx as [<- | [<- | []]]; reflexivity.
  - unfold Reddit.searchTerms. apply uniq_In, filter_In. split; [| reflexivity].
    apply in_or_app. right. apply in_or_app. right. simpl. tauto.
  - unfold Reddit.commentTerms. apply uniq_In, filter_In. split; [| reflexivity].
    apply in_or_app. right. simpl. tauto.
Qed.

(** ** Sentiment: label, score and confidence *)

Section SentimentFacts.
Import Sentiment.

Lemma toFixed3_nonneg x :
  (0 <= x)%Q -> toFixed3 x = (inject_Z (Qfloor (Qabs x * 1000 + (1 # 2))) / 1000)%Q.
Proof.
  intros H. unfold toFixed3.
  destruct (Qle_bool 0 x) eqn:E; [reflexivity |].
  apply Qle_bool_iff in H. congruence.
Qed.

Lemma toFixed3_neg x :
  (x < 0)%Q -> toFixed3 x = (- (inject_Z (Qfloor (Qabs x * 1000 + (1 # 2))) / 1000))%Q.
Proof.
  intros H. unfold toFixed3.
  destruct (Qle_bool 0 x) eqn:E; [| reflexivity].
  apply Qle_bool_iff in E. lra.
Qed.

(** Rounding to three decimals does not cross a multiple of 1/1000:
    [k / 1000 <= |x|] gives [k / 1000 <= round |x|], and likewise
    from above. *)
Lemma rounded_ge (y : Q) (k : Z) :
  (inject_Z k <= y * 1000)%Q ->
  (inject_Z k / 1000 <= inject_Z (Qfloor (y * 1000 + (1 # 2))) / 1000)%Q.
Proof.
  intros H.
  assert (k <= Qfloor (y * 1000 + (1 # 2)))%Z as Hk.
  { rewrite <- (Qfloor_Z k). apply Qfloor_resp_le. lra. }
  rewrite Zle_Qle in Hk. unfold Qdiv. apply Qmult_le_compat_r; [exact Hk |].
  vm_compute. discriminate.
Qed.

Lemma rounded_le (y : Q) (k : Z) :
  (y * 1000 <= inject_Z k)%Q ->
  (inject_Z (Qfloor (y * 1000 + (1 # 2))) / 1000 <= inject_Z k / 1000)%Q.
Proof.
  intros H.
  assert (Qfloor (y * 1000 + (1 # 2)) <= k)%Z as Hk.
  { assert (Qfloor (y * 1000 + (1 # 2)) < k + 1)%Z; [| lia].
    rewrite Zlt_Qlt. eapply Qle_lt_trans; [apply Qfloor_le |].
    rewrite inject_Z_plus. change (inject_Z 1) with 1%Q. lra. }
  rewrite Zle_Qle in Hk. unfold Qdiv. apply Qmult_le_compat_r; [exact Hk |].
  vm_compute. discriminate.
Qed.

Lemma toFixed3_ge (x : Q) (k : Z) :
  (0 <= k)%Z -> (inject_Z k / 1000 <= x)%Q -> (inject_Z k / 1000 <= toFixed3 x)%Q.
Proof.
  intros Hk H.
  assert (0 <= inject_Z k)%Q as Hk' by (change 0%Q with (inject_Z 0); rewrite <- Zle_Qle; lia).
  assert (inject_Z k / 1000 == inject_Z k * (1 # 1000))%Q as E by (unfold Qdiv; reflexivity).
  assert (0 <= x)%Q as Hx by (rewrite E in H; lra).
  rewrite toFixed3_nonneg by exact Hx.
  rewrite (Qabs_pos x Hx). apply rounded_ge. rewrite E in H. lra.
Qed.

Lemma toFixed3_le (x : Q) (k : Z) :
  (0 <= k)%Z -> (x <= inject_Z k / 1000)%Q -> (toFixed3 x <= inject_Z k / 1000)%Q.
Proof.
  intros Hk H.
  assert (0 <= inject_Z k)%Q as Hk' by (change 0%Q with (inject_Z 0); rewrite <- Zle_Qle; lia).
  assert (inject_Z k / 1000 == inject_Z k * (1 # 1000))%Q as E by (unfold Qdiv; reflexivity).
  destruct (Qlt_le_dec x 0) as [Hneg | Hx].
  - rewrite toFixed3_neg by exact Hneg.
    assert (0 <= inject_Z (Qfloor (Qabs x * 1000 + (1 # 2))) / 1000)%Q.
    { pose proof (rounded_ge (Qabs x) 0) as H0.
      unfold Qdiv in H0 at 1. rewrite Qmult_0_l in H0. apply H0.
      pose proof (Qabs_nonneg x). change (inject_Z 0) with 0%Q. lra. }
    rewrite E. lra.
  - rewrite toFixed3_nonneg by exact Hx.
    rewrite (Qabs_pos x Hx). apply rounded_le. rewrite E in H. lra.
Qed.

Lemma toFixed3_opp x : (toFixed3 (- x) == - toFixed3 x)%Q.
Proof.
  destruct (Qlt_le_dec 0 x) as [Hpos | Hle].
  - rewrite (toFixed3_neg (- x)) by lra. rewrite (toFixed3_nonneg x) by lra.
    rewrite Qabs_opp. reflexivity.
  - destruct (Qlt_le_dec x 0) as [Hneg | Hge].
    + rewrite (toFixed3_nonneg (- x)) by lra. rewrite (toFixed3_neg x) by lra.
      rewrite Qabs_opp. ring.
    + assert (x == 0)%Q as Hz by lra.
      rewrite (toFixed3_nonneg (- x)) by lra. rewrite (toFixed3_nonneg x) by lra.
      rewrite Qabs_opp.
      assert (Qfloor (Qabs x * 1000 + (1 # 2)) = 0%Z) as ->.
      { rewrite Hz. reflexivity. }
      reflexivity.
Qed.

End SentimentFacts.

Section AnalyzeFacts.
Import Sentiment SentimentScore.

Lemma trim_nonblank t :
  JsString.allWhiteSpace t = false -> JsString.trim t <> EmptyString.
Proof.
  unfold JsString.trim. induction t as [| c t IH]; simpl; [discriminate |].
  destruct (JsString.isWhiteSpace c) eqn:Ec; simpl.
  - exact IH.
  - intros _. destruct (JsString.trimEnd t); rewrite ?Ec; discriminate.
Qed.

(** A text that is not blank reaches the analyzer. *)
Lemma nonblank_is_analyzed t :
  blank (Some t) = false ->
  negb (JsString.truthy t) || (String.length (JsString.trim t) =? 0)%nat = false.
Proof.
  intros Hb. simpl in Hb.
  assert (JsString.truthy t = true) as -> by (destruct t; [discriminate Hb | reflexivity]).
  pose proof (trim_nonblank t Hb) as Hne.
  destruct (JsString.trim t); [congruence | reflexivity].
Qed.

Lemma analyzeSentiment_nonblank analyze t :
  blank (Some t) = false ->
  let n := normalizedOf (analyze t) in
  analyzeSentiment analyze (Some t)
  = mkSentiment (toFixed3 n)
      (if Qle_bool (1 # 10) n then positive
       else if Qle_bool n (- (1 # 10)) then negative else neutral)
      (Qmin 1 (Qabs n + inject_Z (Z.of_nat (length (a_tokens (analyze t)))) * (5 # 100))).
Proof.
  intros Hb n. unfold analyzeSentiment, analyzeSentimentM.
  rewrite (nonblank_is_analyzed t Hb). reflexivity.
Qed.

Lemma analyzeSentiment_blank analyze text :
  blank text = true -> analyzeSentiment analyze text = neutral0.
Proof.
  intros Hb. destruct text as [t |]; [| reflexivity].
  unfold analyzeSentiment, analyzeSentimentM. simpl in Hb.
  rewrite (trim_allWhiteSpace t Hb). simpl. rewrite orb_true_r. reflexivity.
Qed.

Lemma tenth : (inject_Z 100 / 1000 == 1 # 10)%Q.
Proof. reflexivity. Qed.

Lemma label_score_normalized (n : Q) :
  match (if Qle_bool (1 # 10) n then positive
         else if Qle_bool n (- (1 # 10)) then negative else neutral) with
  | positive => (1 # 10 <= toFixed3 n)%Q
  | negative => (toFixed3 n <= - (1 # 10))%Q
  | neutral => (- (1 # 10) <= toFixed3 n)%Q /\ (toFixed3 n <= 1 # 10)%Q
  end.
Proof.
  destruct (Qle_bool (1 # 10) n) eqn:E1.
  - apply Qle_bool_iff in E1. rewrite <- tenth.
    apply toFixed3_ge; [lia | rewrite tenth; exact E1].
  - assert (n < 1 # 10)%Q as H1.
    { apply Qnot_le_lt. intros H. apply Qle_bool_iff in H. congruence. }
    destruct (Qle_bool n (- (1 # 10))) eqn:E2.
    + apply Qle_bool_iff in E2.
      assert (1 # 10 <= toFixed3 (- n))%Q as H.
      { rewrite <- tenth. apply toFixed3_ge; [lia | rewrite tenth; lra]. }
      rewrite toFixed3_opp in H. lra.
    + assert (- (1 # 10) < n)%Q as H2.
      { apply Qnot_le_lt. intros H. apply Qle_bool_iff in H. congruence. }
      split.
      * assert (toFixed3 (- n) <= 1 # 10)%Q as H.
        { rewrite <- tenth. apply toFixed3_le; [lia | rewrite tenth; lra]. }
        rewrite toFixed3_opp in H. lra.
      * rewrite <- tenth. apply toFixed3_le; [lia | rewrite tenth; lra].
Qed.

End AnalyzeFacts.

(** X16.  The label and the score of a result agree, although the
    label is decided before the score is rounded to three decimals: a
    positive label comes with a score of at least 0.1, a negative one
    with a score of at most -0.1, a neutral one with a score between
    -0.1 and 0.1; so a score above 0.1 is labelled positive and a
    score below -0.1 negative.  For every text and every analyzer. *)
Theorem label_agrees_with_score
    (analyze : string -> Sentiment.Analysis) (text : option string) :
  let r := Sentiment.analyzeSentiment analyze text in
  match Sentiment.label r with
  | Sentiment.positive => (1 # 10 <= Sentiment.score r)%Q
  | Sentiment.negative => (Sentiment.score r <= - (1 # 10))%Q
  | Sentiment.neutral =>
      (- (1 # 10) <= Sentiment.score r)%Q /\ (Sentiment.score r <= 1 # 10)%Q
  end
  /\ ((1 # 10 < Sentiment.score r)%Q -> Sentiment.label r = Sentiment.positive)
  /\ ((Sentiment.score r < - (1 # 10))%Q -> Sentiment.label r = Sentiment.negative).
Proof.
  intros r.
  assert (match Sentiment.label r with
          | Sentiment.positive => (1 # 10 <= Sentiment.score r)%Q
          | Sentiment.negative => (Sentiment.score r <= - (1 # 10))%Q
          | Sentiment.neutral =>
              (- (1 # 10) <= Sentiment.score r)%Q /\ (Sentiment.score r <= 1 # 10)%Q
          end) as H.
  { subst r. destruct (Sentiment.blank text) eqn:Hb.
    - rewrite (analyzeSentiment_blank analyze text Hb). simpl. split; lra.
    - destruct text as [t |]; [| discriminate Hb].
      rewrite (analyzeSentiment_nonblank analyze t Hb). cbv zeta.
      cbn [Sentiment.label Sentiment.score]. apply label_score_normalized. }
  split; [exact H |]. split; intros Hs.
  - destruct (Sentiment.label r); [reflexivity | destruct H; lra | lra].
  - destruct (Sentiment.label r); [lra | destruct H; lra | reflexivity].
Qed.

(** X17.  The confidence of a result is always within [0, 1].  A
    text that is analyzed with a raw score above 5 (below -5) gets
    score 1 (-1), the positive (negative) label, and confidence 1,
    whatever its length. *)
Theorem confidence_within_unit_interval
    (analyze : string -> Sentiment.Analysis) (text : option string) :
  let r := Sentiment.analyzeSentiment analyze text in
  (0 <= Sentiment.confidence r)%Q /\ (Sentiment.confidence r <= 1)%Q
  /\ (forall t,
        text = Some t -> Sentiment.blank text = false ->
        ((5 < Sentiment.a_score (analyze t))%Q ->
         (Sentiment.score r == 1)%Q /\ Sentiment.label r = Sentiment.positive
         /\ (Sentiment.confidence r == 1)%Q)
        /\ ((Sentiment.a_score (analyze t) < -5)%Q ->
            (Sentiment.score r == -1)%Q /\ Sentiment.label r = Sentiment.negative
            /\ (Sentiment.confidence r == 1)%Q)).
Proof.
  intros r. subst r.
  assert (forall n k, (0 <= Qmin 1 (Qabs n + inject_Z (Z.of_nat k) * (5 # 100)))%Q
                      /\ (Qmin 1 (Qabs n + inject_Z (Z.of_nat k) * (5 # 100)) <= 1)%Q
                      /\ ((1 <= Qabs n)%Q ->
                          (Qmin 1 (Qabs n + inject_Z (Z.of_nat k) * (5 # 100)) == 1)%Q))
    as Hconf.
  { intros n k. pose proof (Qabs_nonneg n) as Hn.
    assert (0 <= inject_Z (Z.of_nat k))%Q as Hk
      by (change 0%Q with (inject_Z 0); rewrite <- Zle_Qle; lia).
    split; [apply Q.min_glb; lra |]. split; [apply Q.le_min_l |].
    intros H1. apply Q.min_l. lra. }
  destruct (Sentiment.blank text) eqn:Hb.
  - rewrite (analyzeSentiment_blank analyze text Hb). simpl.
    split; [lra |]. split; [lra |]. intros t _ H. discriminate H.
  - destruct text as [t |]; [| discriminate Hb].
    rewrite (analyzeSentiment_nonblank analyze t Hb). cbv zeta.
    cbn [Sentiment.label Sentiment.score Sentiment.confidence].
    destruct (Hconf (SentimentScore.normalizedOf (analyze t)) (length (Sentiment.a_tokens (analyze t))))
      as (H0 & H1 & Hone).
    split; [exact H0 |]. split; [exact H1 |].
    intros t' Ht _. injection Ht as <-. unfold SentimentScore.normalizedOf in *.
    split; intros Hs.
    + destruct (Qlt_le_dec 5 (Sentiment.a_score (analyze t))) as [_ | Hle]; [| lra].
      split; [vm_compute; reflexivity |]. split; [reflexivity |].
      apply Hone. vm_compute. discriminate.
    + destruct (Qlt_le_dec 5 (Sentiment.a_score (analyze t))) as [Hgt | _]; [lra |].
      destruct (Qlt_le_dec (Sentiment.a_score (analyze t)) (-5)) as [_ | Hge]; [| lra].
      split; [vm_compute; reflexivity |]. split; [reflexivity |].
      apply Hone. vm_compute. discriminate.
Qed.

(** ** The books of a Reddit run *)

Section RedditBookFacts.
Import Queries Reddit RedditSteps.

Variable cfg : Config.t.
Variable analyze : string -> Sentiment.Analysis.
Variable http : nat -> Request -> HttpResult * nat.
Variable archive : nat -> Request -> ArchiveResult * nat.
Variable browserLaunches : bool.
Variable browse : nat -> Request -> option (list RedditPost) * nat.

Local Abbreviation reaches := (RedditSteps.reaches cfg analyze).
Local Abbreviation steps := (RedditSteps.steps cfg analyze).
Local Abbreviation step := (RedditSteps.step cfg analyze).

Lemma step_kept w w' : step w w' -> kept w -> kept w'.
Proof.
  intros Hs Hk. destruct Hs as [post w | comment w | w | l w | t w | w | w | r w];
    try exact Hk.
  - destruct (addPost_cases cfg post w) as [(Hb & Hi & Hd & _) | (p & _ & Hb & Hi & Hd & _)];
      intros id Hid; rewrite Hb, Hd.
    + rewrite Hi in Hid. apply Hk, Hid.
    + rewrite Hi in Hid. apply elem_of_union in Hid as [Hid | Hid].
      * apply elem_of_singleton in Hid. subst id. left.
        exists (transformPost p (clock w)). split; [| split; reflexivity].
        apply in_or_app. right. left. reflexivity.
      * destruct (Hk id Hid) as [(m & Hm & Hp & Hx) | Hin]; [left | right; exact Hin].
        exists m. split; [apply in_or_app; left; exact Hm | split; assumption].
  - destruct (addComment_cases cfg comment w)
      as [(Hb & Hi & Hd & _) | (c & _ & Hb & Hi & Hd & _)];
      intros id Hid; rewrite Hb, Hd.
    + rewrite Hi in Hid. apply Hk, Hid.
    + rewrite Hi in Hid. apply elem_of_union in Hid as [Hid | Hid].
      * apply elem_of_singleton in Hid. subst id. left.
        exists (transformComment c (clock w)). split; [| split; reflexivity].
        apply in_or_app. right. left. reflexivity.
      * destruct (Hk id Hid) as [(m & Hm & Hp & Hx) | Hin]; [left | right; exact Hin].
        exists m. split; [apply in_or_app; left; exact Hm | split; assumption].
  - destruct (flushBuffer_spec analyze w) as (_ & Hi & Hd & _).
    intros id Hid. right. rewrite Hd. rewrite Hi in Hid.
    destruct (Hk id Hid) as [(m & Hm & Hp & Hx) | Hin].
    + pose proof (insertMentionsInto_is_Some (map (withSentiment analyze) (buffer w)) 0
                    (mentions (db w)) (withSentiment analyze m)
                    (in_map _ _ _ Hm)) as H.
      unfold Rows.mentionKey in H. simpl in H. rewrite Hp, Hx in H. exact H.
    + destruct (insertMentionsInto_count (map (withSentiment analyze) (buffer w)) 0
                  (mentions (db w))) as (_ & _ & Hkeep).
      apply Hkeep, Hin.
Qed.

Lemma step_accounted d0 w w' : step w w' -> accounted d0 w -> accounted d0 w'.
Proof.
  intros Hs (Hsize & Hpos & Hfound & Hkeep & Hrev).
  destruct Hs as [post w | comment w | w | l w | t w | w | w | r w];
    try (repeat split; assumption).
  - destruct (addPost_cases cfg post w)
      as [(Hb & _ & Hd & Hsv & Hf) | (p & _ & Hb & _ & Hd & Hsv & Hf)];
      unfold accounted; rewrite Hb, Hd, Hsv, Hf; repeat split; try assumption.
    rewrite length_app. simpl. lia.
  - destruct (addComment_cases cfg comment w)
      as [(Hb & _ & Hd & Hsv & Hf) | (c & _ & Hb & _ & Hd & Hsv & Hf)];
      unfold accounted; rewrite Hb, Hd, Hsv, Hf; repeat split; try assumption.
    rewrite length_app. simpl. lia.
  - destruct (flushBuffer_spec analyze w) as (Hb & _ & Hd & Hr & Hsv & Hf).
    destruct (insertMentionsInto_count (map (withSentiment analyze) (buffer w)) 0
                (mentions (db w))) as (Hs' & Hn & Hk').
    rewrite length_map in Hn.
    unfold accounted. rewrite Hb, Hd, Hr, Hsv, Hf. simpl length.
    repeat split; try assumption; try lia.
    intros k Hk0. apply Hk', Hkeep, Hk0.
Qed.

(** The run, cut at the end of its phases: [w1] is the world the
    phases leave, by returning or by throwing; the run then flushes
    and writes to the cursor and the log only. *)
Lemma run_shape w :
  exists w1 r wf,
    reaches (snd (start w)) w1
    /\ run cfg analyze http archive browserLaunches browse w = Returned r wf
    /\ items r = [] /\ newItems r = saved (stats wf)
    /\ (length (errors r) <= 1)%nat
    /\ buffer wf = [] /\ seenIds wf = seenIds w1
    /\ stats wf = stats (flushBuffer analyze w1)
    /\ mentions (db wf) = mentions (db (flushBuffer analyze w1))
    /\ reviews (db wf) = reviews (db (flushBuffer analyze w1)).
Proof.
  unfold run. destruct (start w) as [[cursor logId] w0] eqn:Es. simpl snd.
  pose proof (steps_phases cfg analyze http archive browserLaunches browse
                (match cursor with Some _ => true | None => false end) w0)
    as Hreach.
  destruct (flushBuffer_spec analyze
              (worldOf (phases cfg analyze http archive browserLaunches browse
                          (match cursor with Some _ => true | None => false end) w0)))
    as (Hb & Hi & _).
  unfold tryCatch, tryBlock. unfold bind at 1.
  destruct (phases cfg analyze http archive browserLaunches browse _ w0)
    as [[] w1 | e w1] eqn:Ep; simpl in Hreach, Hb, Hi.
  - exists w1. eexists. eexists. split; [exact Hreach |].
    split; [reflexivity |]. simpl.
    destruct (_ || _); simpl; repeat split; auto.
  - exists w1. eexists. eexists. split; [exact Hreach |].
    split; [reflexivity |]. simpl. repeat split; auto.
Qed.

Lemma start_kept w : kept (snd (start w)).
Proof. intros id Hid. unfold start in Hid. simpl in Hid. set_solver. Qed.

Lemma start_accounted w : accounted (db w) (snd (start w)).
Proof. unfold accounted, start, found. simpl. repeat split; auto; lia. Qed.

Lemma run_kept w :
  let wf := worldOf (run cfg analyze http archive browserLaunches browse w) in
  buffer wf = [] /\ kept wf.
Proof.
  destruct (run_shape w) as (w1 & r & wf & Hreach & -> & _ & _ & _ & Hb & Hi & _ & Hm & _).
  simpl. split; [exact Hb |].
  pose proof (reaches_inv cfg analyze kept step_kept _ _ Hreach (start_kept w)) as H1.
  pose proof (step_kept _ _ (step_flush cfg analyze w1) H1) as H2.
  intros id Hid. rewrite Hi in Hid.
  destruct (flushBuffer_spec analyze w1) as (Hb' & Hi' & _).
  rewrite <- Hi' in Hid. destruct (H2 id Hid) as [(m & Hin & _) | Hs].
  - rewrite Hb' in Hin. destruct Hin.
  - right. rewrite Hm. exact Hs.
Qed.

Lemma run_accounted w :
  let wf := worldOf (run cfg analyze http archive browserLaunches browse w) in
  accounted (db w) wf.
Proof.
  destruct (run_shape w) as (w1 & r & wf & Hreach & -> & _ & _ & _ & Hb & _ & Hst & Hm & Hr).
  simpl.
  pose proof (reaches_inv cfg analyze (accounted (db w)) (step_accounted (db w)) _ _ Hreach
                (start_accounted w)) as H1.
  pose proof (step_accounted (db w) _ _ (step_flush cfg analyze w1) H1)
    as (Hsize & Hpos & Hfound & Hkeep & Hrev).
  destruct (flushBuffer_spec analyze w1) as (Hb' & _).
  unfold accounted, found in *. rewrite Hb, Hst, Hm, Hr.
  rewrite Hb' in Hfound. repeat split; assumption.
Qed.

(** The row that the run opened in the log is closed with what the
    run counted. *)
Lemma run_log w :
  exists r wf log,
    run cfg analyze http archive browserLaunches browse w = Returned r wf
    /\ scrape_logs (db wf) !! length (scrape_logs (db w)) = Some log
    /\ length (scrape_logs (db wf)) = S (length (scrape_logs (db w)))
    /\ l_platform log = "reddit"
    /\ l_status log = match errors r with [] => success | _ => failed end
    /\ l_items_found log = found wf
    /\ l_items_new log = newItems r
    /\ l_started_at log = clock w
    /\ l_completed_at log = Some (clock wf).
Proof.
  destruct (start_spec w) as (w0 & Hstart & Hlogs0 & _).
  unfold run. rewrite Hstart.
  set (cursor := getScrapeCursor "reddit" (db w)) in *.
  pose proof (keepsLogs_phases cfg analyze http archive browserLaunches browse
                (match cursor with Some _ => true | None => false end) w0) as Hkeep.
  unfold tryCatch, tryBlock. unfold bind at 1.
  destruct (phases cfg analyze http archive browserLaunches browse _ w0)
    as [[] w1 | e w1] eqn:Ep; simpl in Hkeep;
    pose proof (flushBuffer_logs analyze w1) as Hfl;
    set (wfl := flushBuffer analyze w1) in *;
    assert (scrape_logs (db wfl) !! length (scrape_logs (db w))
            = Some (mkLog "reddit" running 0 0 None (clock w) None)) as Hl
      by (rewrite Hfl, Hkeep, Hlogs0; rewrite lookup_app_r by lia;
          rewrite Nat.sub_diag; reflexivity);
    assert (length (scrape_logs (db wfl)) = S (length (scrape_logs (db w)))) as Hlen
      by (rewrite Hfl, Hkeep, Hlogs0, length_app; simpl; lia).
  - unfold bind, modify, get, ret. fold wfl.
    destruct (_ || _); eexists; eexists; eexists; (split; [reflexivity |]);
      simpl; rewrite Hl; rewrite list_lookup_insert_eq by lia;
      (split; [reflexivity |]); rewrite length_insert; repeat split; exact Hlen.
  - unfold catchBlock, bind, modify, get, ret. fold wfl.
    eexists; eexists; eexists; (split; [reflexivity |]);
      simpl; rewrite Hl; rewrite list_lookup_insert_eq by lia;
      (split; [reflexivity |]); rewrite length_insert; repeat split; exact Hlen.
Qed.

End RedditBookFacts.


(** X19.  The [newItems] of a Reddit run is the number of rows the run
    added to the mentions table: the table grows by exactly that
    many rows and loses none, the reviews table is untouched, and
    [newItems] is between 0 and the number of posts and comments the
    run counted as found.  The run closes the log row it opened with
    these two numbers, the status success when it reports no error
    and failed otherwise, and adds no other row to the log. *)
Theorem newItems_is_rows_added
    (cfg : Config.t) (analyze : string -> Sentiment.Analysis)
    (http : nat -> Reddit.Request -> Reddit.HttpResult * nat)
    (archive : nat -> Reddit.Request -> Reddit.ArchiveResult * nat)
    (browserLaunches : bool)
    (browse : nat -> Reddit.Request -> option (list Reddit.RedditPost) * nat)
    (w : Reddit.World) :
  let o := Reddit.run cfg analyze http archive browserLaunches browse w in
  let wf := Reddit.worldOf o in
  exists r log,
    Reddit.returned o = Some r
    /\ (Reddit.newItems r
        = Z.of_nat (size (Queries.mentions (Reddit.db wf)))
          - Z.of_nat (size (Queries.mentions (Reddit.db w))))%Z
    /\ (0 <= Reddit.newItems r <= Reddit.found wf)%Z
    /\ (forall k, is_Some (Queries.mentions (Reddit.db w) !! k) ->
                  is_Some (Queries.mentions (Reddit.db wf) !! k))
    /\ Queries.reviews (Reddit.db wf) = Queries.reviews (Reddit.db w)
    /\ Queries.scrape_logs (Reddit.db wf) !! length (Queries.scrape_logs (Reddit.db w))
       = Some log
    /\ length (Queries.scrape_logs (Reddit.db wf))
       = S (length (Queries.scrape_logs (Reddit.db w)))
    /\ Queries.l_status log
       = match Reddit.errors r with [] => Queries.success | _ => Queries.failed end
    /\ Queries.l_items_found log = Reddit.found wf
    /\ Queries.l_items_new log = Reddit.newItems r.
Proof.
  intros o wf.
  destruct (run_log cfg analyze http archive browserLaunches browse w)
    as (r & wf0 & log & Hrun & Hlog & Hlen & _ & Hst & Hf & Hn & _).
  pose proof (run_accounted cfg analyze http archive browserLaunches browse w)
    as (Hsize & Hpos & Hfound & Hkeep & Hrev).
  destruct (run_shape cfg analyze http archive browserLaunches browse w)
    as (w1 & r' & wf' & _ & Hrun' & _ & Hnew & _ & Hb & _).
  rewrite Hrun in Hrun'. injection Hrun' as <- <-.
  subst wf o. rewrite Hrun in *. simpl in *.
  rewrite Hb in Hfound. simpl in Hfound.
  exists r, log. rewrite Hnew.
  repeat split; try assumption; try lia.
Qed.

(** ** [fetchWithRetry] *)

Section FetchFacts.
Import Queries Reddit RedditAttempts.

Variable http : nat -> Request -> HttpResult * nat.
Variable req : Request.

Local Abbreviation sent := (RedditAttempts.sent req).

Lemma count_shift (f : nat -> bool) n b :
  length (List.filter f (seq (S b) n))
  = length (List.filter (fun i => f (S i)) (seq b n)).
Proof.
  revert b. induction n as [| n IH]; intros b; [reflexivity |].
  simpl. destruct (f (S b)); simpl; rewrite IH; reflexivity.
Qed.

Lemma attempt_sent (k : HttpResult -> M (option Listing)) w :
  exists w1,
    (acquire ;;; modify bumpApiCalls ;;; r <- ask http req ;; k r) w
    = k (answer http req w 0) w1
    /\ sent w w1 false.
Proof.
  unfold bind, acquire, modify, ask, answer, sent. rewrite Nat.add_0_r.
  match goal with |- context [Qlt_le_dec ?a ?b] => destruct (Qlt_le_dec a b) end;
    cbn [requests setClock setLimiter bumpApiCalls setStats addRequest];
    destruct (http (length (requests w)) req) as [r ms];
    eexists; (split; [reflexivity |]); simpl; repeat split; lia.
Qed.

Lemma sent_clock w w1 hit t : sent w w1 hit -> sent w (setClock t w1) hit.
Proof. intros H. exact H. Qed.

Lemma sent_limiter w w1 hit l : sent w w1 hit -> sent w (setLimiter l w1) hit.
Proof. intros H. exact H. Qed.

Lemma sent_hit w w1 : sent w w1 false -> sent w (bumpRateLimitHits w1) true.
Proof.
  intros (Hq & Ha & Hh & Hrest). unfold sent. simpl.
  split; [exact Hq |]. split; [exact Ha |]. split; [lia | exact Hrest].
Qed.

(** One sending, and its answer ends the attempts. *)
Lemma attempted_one w w1 r :
  sent w w1 (is429 (answer http req w 0)) ->
  (forall body, answer http req w 0 = OkJson body -> r = body) ->
  (isOk (answer http req w 0) = false -> r = None) ->
  attempted http req w 1 r w1.
Proof.
  intros (Hq & Ha & Hh & Hb & Hd & Hi & Hc) Hbody Hnone. unfold attempted.
  split; [exact Hq |]. split; [rewrite Ha; lia |].
  split; [rewrite Hh; simpl; destruct (is429 _); simpl; lia |].
  split; [intros; lia |].
  split; [intros body _; apply Hbody |].
  split; [exact Hnone |]. repeat split; assumption.
Qed.

Lemma answer_shift w w1 hit i :
  sent w w1 hit -> answer http req w1 i = answer http req w (S i).
Proof.
  intros (Hq & _). unfold answer. rewrite Hq, length_app. simpl.
  f_equal. f_equal. lia.
Qed.

(** One sending that was not answered OK, and the attempts that
    follow it. *)
Lemma attempted_more w w1 n r w' :
  sent w w1 (is429 (answer http req w 0)) ->
  isOk (answer http req w 0) = false ->
  (n = O -> r = None) ->
  attempted http req w1 n r w' ->
  attempted http req w (S n) r w'.
Proof.
  intros Hsent Hno Hzero (Hq' & Ha' & Hh' & Hearly & Hfin & Hnone & Hb' & Hd' & Hi' & Hc').
  pose proof Hsent as (Hq & Ha & Hh & Hb & Hd & Hi & Hc).
  unfold attempted.
  split; [rewrite Hq', Hq, <- app_assoc; reflexivity |].
  split; [rewrite Ha', Ha; lia |].
  split.
  { rewrite Hh', Hh.
    rewrite (filter_ext _ (fun i => is429 (answer http req w (S i))))
      by (intros i; rewrite (answer_shift _ _ _ _ Hsent); reflexivity).
    rewrite <- (count_shift (fun i => is429 (answer http req w i))).
    cbn [seq List.filter].
    destruct (is429 (answer http req w 0)); simpl length; lia. }
  split.
  { intros i Hlt. destruct i as [| i]; [exact Hno |].
    rewrite <- (answer_shift _ _ _ _ Hsent). apply Hearly. lia. }
  split.
  { intros body _ Hans. simpl in Hans. rewrite Nat.sub_0_r in Hans.
    destruct n as [| n].
    - rewrite Hans in Hno. discriminate Hno.
    - apply Hfin; [lia |]. rewrite (answer_shift _ _ _ _ Hsent).
      simpl. rewrite Nat.sub_0_r. exact Hans. }
  split.
  { intros Hlast. simpl in Hlast. rewrite Nat.sub_0_r in Hlast.
    destruct n as [| n]; [apply Hzero; reflexivity |].
    apply Hnone. rewrite (answer_shift _ _ _ _ Hsent).
    simpl. rewrite Nat.sub_0_r. exact Hlast. }
  repeat split; congruence.
Qed.

Lemma fetchAttempts_spec left : forall w,
  exists n r w',
    fetchAttempts http left req w = Returned r w'
    /\ (n <= left)%nat /\ ((0 < left)%nat -> (0 < n)%nat)
    /\ (n = O -> r = None)
    /\ (isOk (answer http req w (n - 1)) = false -> n = left)
    /\ attempted http req w n r w'.
Proof.
  induction left as [| left' IH]; intros w.
  - exists O, None, w. simpl. split; [reflexivity |].
    split; [lia |]. split; [lia |]. split; [reflexivity |]. split; [reflexivity |].
    unfold attempted. simpl. rewrite app_nil_r.
    repeat split; try lia.
  - cbn [fetchAttempts].
    assert (forall w2,
      sent w w2 (is429 (answer http req w 0)) ->
      isOk (answer http req w 0) = false ->
      exists n r w',
        fetchAttempts http left' req w2 = Returned r w'
        /\ (n <= S left')%nat /\ ((0 < S left')%nat -> (0 < n)%nat)
        /\ (n = O -> r = None)
        /\ (isOk (answer http req w (n - 1)) = false -> n = S left')
        /\ attempted http req w n r w') as Hmore.
    { intros w2 Hsent Hno.
      destruct (IH w2) as (n & r & w' & Hrun & Hle & Hpos & Hzero & Hfull & Hatt).
      exists (S n), r, w'. split; [exact Hrun |].
      split; [lia |]. split; [lia |]. split; [lia |].
      split; [| apply (attempted_more w w2); assumption].
      intros Hlast. simpl in Hlast. rewrite Nat.sub_0_r in Hlast.
      destruct n as [| n]; [destruct left'; [reflexivity | lia] |].
      f_equal. apply Hfull. rewrite (answer_shift _ _ _ _ Hsent).
      simpl. rewrite Nat.sub_0_r. exact Hlast. }
    assert (forall w1 r,
      sent w w1 (is429 (answer http req w 0)) ->
      (forall body, answer http req w 0 = OkJson body -> r = body) ->
      (isOk (answer http req w 0) = false -> r = None /\ left' = O) ->
      exists n r' w',
        Returned r w1 = Returned r' w'
        /\ (n <= S left')%nat /\ ((0 < S left')%nat -> (0 < n)%nat)
        /\ (n = O -> r' = None)
        /\ (isOk (answer http req w (n - 1)) = false -> n = S left')
        /\ attempted http req w n r' w') as Hone.
    { intros w1 r Hsent Hbody Hnone.
      exists 1%nat, r, w1. split; [reflexivity |].
      split; [lia |]. split; [lia |]. split; [lia |].
      split; [intros Hlast; destruct (Hnone Hlast) as [_ ->]; reflexivity |].
      apply attempted_one; [exact Hsent | exact Hbody | intros H; apply Hnone, H]. }
    match goal with
    | |- context [bind (ask http req) ?k] =>
        destruct (attempt_sent k w) as (w1 & Hrun & Hsent)
    end.
    cbv beta in Hrun. rewrite Hrun. clear Hrun.
    destruct (answer http req w 0) as [| | | | body] eqn:Hans.
    + destruct left' as [| left''].
      * apply Hone; [exact Hsent | intros ?; discriminate | intros _; split; reflexivity].
      * apply (Hmore (setClock (clock w1 + 2000) w1)); [exact Hsent | reflexivity].
    + apply (Hmore (setClock
                      (clock w1 + ProductionRateLimiter.getBackoffTime
                                    (ProductionRateLimiter.onRateLimit (rateLimiter w1)))
                      (setLimiter (ProductionRateLimiter.onRateLimit (rateLimiter w1))
                         (bumpRateLimitHits w1)))); [| reflexivity].
      apply sent_clock, sent_limiter, sent_hit, Hsent.
    + apply (Hmore (setClock (clock w1 + 1000) w1)); [exact Hsent | reflexivity].
    + destruct left' as [| left''].
      * apply (Hone (setLimiter (ProductionRateLimiter.onSuccess (rateLimiter w1)) w1));
          [exact Hsent | intros ?; discriminate | intros _; split; reflexivity].
      * apply (Hmore (setClock (clock w1 + 2000)
                        (setLimiter (ProductionRateLimiter.onSuccess (rateLimiter w1)) w1)));
          [exact Hsent | reflexivity].
    + apply (Hone (setLimiter (ProductionRateLimiter.onSuccess (rateLimiter w1)) w1));
        [exact Hsent | intros b [= ->]; reflexivity | intros H; discriminate H].
Qed.

End FetchFacts.

(** X20.  [fetchWithRetry] never throws.  It sends its request
    between one and three times and counts each sending in
    [apiCalls] and each answer 429 in [rateLimitHits]; only the last
    sending can have been answered OK with JSON, and the result is
    then the body of that answer; when the last answer is not such a
    one, all three attempts were used and the result is null.  The
    buffer, the database and the two seen sets are left as they
    were. *)
Theorem fetchWithRetry_sends_one_to_three_requests
    (http : nat -> Reddit.Request -> Reddit.HttpResult * nat)
    (req : Reddit.Request) (w : Reddit.World) :
  exists n r w',
    Reddit.fetchWithRetry http req w = Reddit.Returned r w'
    /\ (1 <= n <= 3)%nat
    /\ Reddit.requests w' = Reddit.requests w ++ repeat req n
    /\ Reddit.apiCalls (Reddit.stats w')
       = (Reddit.apiCalls (Reddit.stats w) + Z.of_nat n)%Z
    /\ Reddit.rateLimitHits (Reddit.stats w')
       = (Reddit.rateLimitHits (Reddit.stats w)
          + Z.of_nat (length (List.filter
                                (fun i => RedditAttempts.is429
                                            (RedditAttempts.answer http req w i))
                                (seq 0 n))))%Z
    /\ (forall i, (S i < n)%nat ->
          RedditAttempts.isOk (RedditAttempts.answer http req w i) = false)
    /\ (forall body, RedditAttempts.answer http req w (n - 1) = Reddit.OkJson body ->
          r = body)
    /\ (RedditAttempts.isOk (RedditAttempts.answer http req w (n - 1)) = false ->
        r = None /\ n = 3%nat)
    /\ Reddit.buffer w' = Reddit.buffer w /\ Reddit.db w' = Reddit.db w
    /\ Reddit.seenIds w' = Reddit.seenIds w
    /\ Reddit.seenContent w' = Reddit.seenContent w.
Proof.
  unfold Reddit.fetchWithRetry.
  destruct (fetchAttempts_spec http req 3 w)
    as (n & r & w' & Hrun & Hle & Hpos & _ & Hfull
        & Hq & Ha & Hh & Hearly & Hfin & Hnone & Hrest).
  exists n, r, w'. split; [exact Hrun |].
  assert (0 < n)%nat as Hn by (apply Hpos; lia).
  split; [lia |]. split; [exact Hq |]. split; [exact Ha |]. split; [exact Hh |].
  split; [exact Hearly |]. split; [intros body; apply Hfin, Hn |].
  split; [intros H; split; [apply Hnone, H | apply Hfull, H] | exact Hrest].
Qed.

(** ** The maps of the store scrapers *)

Section JsMapKeys.
Variable V : Type.

Lemma JsMap_has_In (k : string) (m : JsMap.t V) :
  JsMap.has k m = true <-> In k (map fst m).
Proof.
  unfold JsMap.has. rewrite existsb_exists, in_map_iff. split.
  - intros (kv & Hin & E). apply String.eqb_eq in E. eauto.
  - intros (kv & E & Hin). exists kv. split; [exact Hin |]. apply String.eqb_eq, E.
Qed.

Lemma JsMap_set_keys (k : string) (v : V) (m : JsMap.t V) :
  map fst (JsMap.set k v m)
  = if JsMap.has k m then map fst m else map fst m ++ [k].
Proof.
  unfold JsMap.set. destruct (JsMap.has k m).
  - rewrite map_map. apply map_ext_in. intros kv _.
    destruct (String.eqb (fst kv) k) eqn:E; [| reflexivity].
    apply String.eqb_eq in E. simpl. congruence.
  - rewrite map_app. reflexivity.
Qed.

Lemma JsMap_set_In_key (k k' : string) (v : V) (m : JsMap.t V) :
  In k' (map fst (JsMap.set k v m)) -> k' = k \/ In k' (map fst m).
Proof.
  rewrite JsMap_set_keys. destruct (JsMap.has k m); [tauto |].
  intros H. apply in_app_or in H as [H | [<- | []]]; [right; exact H | left; reflexivity].
Qed.

End JsMapKeys.

Section KeyedFacts.
Import Keyed.
Variable V : Type.
Variable idOf : V -> string.

Lemma keyed_nil : keyed idOf [].
Proof. split; constructor. Qed.

Lemma keyed_set (k : string) (v : V) (m : JsMap.t V) :
  idOf v = k -> keyed idOf m -> keyed idOf (JsMap.set k v m).
Proof.
  intros Hid [Hnd Hall]. split.
  - rewrite JsMap_set_keys. destruct (JsMap.has k m) eqn:E; [exact Hnd |].
    apply NoDup_app. split; [exact Hnd |]. split; [| apply NoDup_singleton].
    intros x Hx Hk. apply list_elem_of_In in Hx. apply list_elem_of_In in Hk.
    destruct Hk as [<- | []]. apply JsMap_has_In in Hx. congruence.
  - rewrite List.Forall_forall in Hall. apply List.Forall_forall.
    unfold JsMap.set. intros kv Hin. destruct (JsMap.has k m).
    + apply in_map_iff in Hin as (kv0 & <- & Hin0).
      destruct (String.eqb (fst kv0) k); [exact Hid | apply Hall, Hin0].
    + apply in_app_or in Hin as [Hin | [<- | []]]; [apply Hall, Hin | exact Hid].
Qed.

Lemma keyed_values (m : JsMap.t V) :
  keyed idOf m -> map idOf (JsMap.values m) = map fst m /\ NoDup (map idOf (JsMap.values m)).
Proof.
  intros [Hnd Hall].
  assert (map idOf (JsMap.values m) = map fst m) as E.
  { unfold JsMap.values. rewrite map_map. apply map_ext_in.
    intros kv Hin. rewrite List.Forall_forall in Hall. apply Hall, Hin. }
  split; [exact E | rewrite E; exact Hnd].
Qed.

End KeyedFacts.

Lemma fold_left_inv A B (P : B -> Prop) (f : B -> A -> B) (l : list A) : forall b,
  (forall b x, In x l -> P b -> P (f b x)) -> P b -> P (fold_left f l b).
Proof.
  induction l as [| x l IH]; intros b Hf Hb; [exact Hb |].
  simpl. apply IH.
  - intros b' y Hy. apply Hf. right. exact Hy.
  - apply Hf; [left; reflexivity | exact Hb].
Qed.

Section AppStoreKeys.
Import Queries JsDate AppStore Keyed.

Lemma addIfAbsent_keyed m r :
  keyed AppStore.id m -> keyed AppStore.id (addIfAbsent m r).
Proof.
  intros H. unfold addIfAbsent. destruct (JsMap.has (id r) m); [exact H |].
  apply keyed_set; [reflexivity | exact H].
Qed.

Lemma fetchFromRSSFeeds_keyed feed now fresh cutoffDate :
  keyed AppStore.id (fetchFromRSSFeeds feed now fresh cutoffDate).
Proof.
  unfold fetchFromRSSFeeds. apply fold_left_inv; [| apply keyed_nil].
  intros m country _ Hm. apply fold_left_inv; [| exact Hm].
  intros m' r _. apply addIfAbsent_keyed.
Qed.

Lemma scrollLoop_keyed scrolls cutoffDate left : forall i noNew prev m,
  keyed AppStore.id m ->
  keyed AppStore.id (scrollLoop scrolls cutoffDate left i noNew prev m).
Proof.
  induction left as [| left IH]; intros i noNew prev m Hm; [exact Hm |].
  cbn [scrollLoop]. destruct (scrolls i) as [reviews |]; [| exact Hm].
  match goal with
  | |- context [fold_left ?f reviews (m, O)] =>
      assert (keyed AppStore.id (fst (fold_left f reviews (m, O)))) as Hk
  end.
  { apply (fold_left_inv _ _ (fun acc => keyed AppStore.id (fst acc))); [| exact Hm].
    intros [m' n] review _ Hm'. simpl in Hm'.
    destruct cutoffDate as [c |].
    - destruct (notAfter (updated review) c); [exact Hm' |].
      destruct (JsMap.has (id review) m'); [exact Hm' |].
      simpl. apply keyed_set; [reflexivity | exact Hm'].
    - destruct (JsMap.has (id review) m'); [exact Hm' |].
      simpl. apply keyed_set; [reflexivity | exact Hm']. }
  match goal with
  | |- context [fold_left ?f reviews (m, O)] =>
      destruct (fold_left f reviews (m, O)) as [m1 n1]
  end.
  simpl in Hk.
  destruct ((n1 =? 0)%nat || (JsMap.size m1 =? prev)%nat).
  - destruct (3 <=? S noNew)%nat; [exact Hk | apply IH, Hk].
  - apply IH, Hk.
Qed.

Lemma visitCountry_keyed cutoffDate v m :
  keyed AppStore.id m -> keyed AppStore.id (visitCountry cutoffDate v m).
Proof.
  intros Hm. unfold visitCountry. destruct v as [v |]; [| exact Hm].
  apply fold_left_inv.
  - intros m' review _ Hm'. destruct (JsMap.has (id review) m'); [exact Hm' |].
    apply keyed_set; [reflexivity | exact Hm'].
  - destruct (v_seeAll v); [apply scrollLoop_keyed, Hm | exact Hm].
Qed.

Lemma fetchViaBrowser_keyed browser cutoffDate :
  keyed AppStore.id (AppStore.fetchViaBrowser browser cutoffDate).
Proof.
  unfold AppStore.fetchViaBrowser. destruct browser as [visit |]; [| apply keyed_nil].
  apply fold_left_inv; [| apply keyed_nil].
  intros m country _. apply visitCountry_keyed.
Qed.

Lemma gather_keyed feed browser fresh fetched cursor :
  keyed AppStore.id (AppStore.gather feed browser fresh fetched cursor).
Proof.
  unfold AppStore.gather. cbv zeta.
  match goal with |- context [if ?b then _ else _] => destruct b end;
    [| apply fetchFromRSSFeeds_keyed].
  pose proof (fetchViaBrowser_keyed browser (cutoffOf cursor)) as [_ Hb].
  rewrite List.Forall_forall in Hb.
  apply fold_left_inv; [| apply fetchFromRSSFeeds_keyed].
  intros m kv Hin Hm. destruct (JsMap.has (fst kv) m); [exact Hm |].
  apply keyed_set; [apply Hb, Hin | exact Hm].
Qed.

End AppStoreKeys.

Section InsertDistinct.
Import Queries Rows.

(** A batch of rows with different keys, none of them in the table,
    is counted in full. *)
Lemma insertReviewsInto_all_new items : forall n tbl,
  NoDup (map reviewKey items) ->
  (forall x, In x items -> tbl !! reviewKey x = None) ->
  fst (insertReviewsInto items n tbl) = (n + Z.of_nat (length items))%Z.
Proof.
  induction items as [| r items IH]; intros n tbl Hnd Hnew; [simpl; lia |].
  cbn [insertReviewsInto]. inversion Hnd as [| ? ? Hnotin Hnd']; subst.
  pose proof (Hnew r (or_introl eq_refl)) as Hr. unfold reviewKey in Hr.
  rewrite Hr. rewrite IH; [simpl length; lia | exact Hnd' |].
  intros x Hx. rewrite upsertReview_lookup_ne; [apply Hnew; right; exact Hx |].
  intros E. apply Hnotin. fold (reviewKey r) in E. rewrite <- E.
  apply list_elem_of_In, in_map, Hx.
Qed.

End InsertDistinct.

(** ** The App Store run *)

Section StoreRunFacts.
Import Queries Rows.

(** What a batch of reviews of one platform with different ids comes
    to when it is inserted. *)
Lemma insertReviews_distinct (p : Z) (batch : list Review) (tbl : gmap (Z * string) Review) :
  Forall (fun x => r_platform_id x = p) batch ->
  NoDup (map r_external_id batch) ->
  let r := insertReviewsInto batch 0 tbl in
  (0 <= fst r <= Z.of_nat (length batch))%Z
  /\ (Z.of_nat (size (snd r)) = Z.of_nat (size tbl) + fst r)%Z
  /\ (forall k, is_Some (tbl !! k) -> is_Some (snd r !! k))
  /\ (forall x, In x batch -> is_Some (snd r !! (p, r_external_id x)))
  /\ ((forall x, In x batch -> tbl !! (p, r_external_id x) = None) ->
      fst r = Z.of_nat (length batch)).
Proof.
  intros Hp Hnd r. rewrite List.Forall_forall in Hp.
  destruct (insertReviewsInto_count batch 0 tbl) as (Hsize & Hn & Hkeep).
  fold r in Hsize, Hn, Hkeep.
  split; [lia |]. split; [lia |]. split; [exact Hkeep |]. split.
  - intros x Hx. pose proof (insertReviewsInto_is_Some batch 0 tbl x Hx) as H.
    unfold reviewKey in H. rewrite (Hp x Hx) in H. exact H.
  - intros Hnew. subst r. rewrite insertReviewsInto_all_new; [lia | |].
    + assert (map reviewKey batch = map (pair p) (map r_external_id batch)) as ->.
      { rewrite map_map. apply map_ext_in. intros x Hx. unfold reviewKey.
        rewrite (Hp x Hx). reflexivity. }
      assert (Inj eq eq (pair (B:=string) p)) by (intros a b E; congruence).
      apply (NoDup_fmap_2 (pair p)). exact Hnd.
    + intros x Hx. unfold reviewKey. rewrite (Hp x Hx). apply Hnew, Hx.
Qed.

End StoreRunFacts.

Section AppStoreRunFacts.
Import Queries JsDate AppStore Keyed.

Variable analyze : string -> Sentiment.Analysis.
Variable now : Z.

Lemma toReview_batch (all : JsMap.t AppStoreReview) :
  keyed AppStore.id all ->
  let batch := map (toReview analyze now) (JsMap.values all) in
  Forall (fun x => r_platform_id x = 5%Z) batch
  /\ NoDup (map r_external_id batch).
Proof.
  intros Hk batch. split.
  - apply List.Forall_forall. intros x Hx. apply in_map_iff in Hx as (y & <- & _).
    reflexivity.
  - subst batch. rewrite map_map. simpl.
    apply (keyed_values _ AppStore.id all Hk).
Qed.

(** The end of the run, in terms of the batch it inserts. *)
Lemma finish_spec logId cursor cutoffDate all d :
  let batch := map (toReview analyze now) (JsMap.values all) in
  let out := finish analyze now logId cursor cutoffDate all d in
  Permutation (items (fst out)) batch
  /\ newItems (fst out) = fst (insertReviewsInto batch 0 (reviews d))
  /\ errors (fst out) = []
  /\ reviews (snd out) = snd (insertReviewsInto batch 0 (reviews d))
  /\ mentions (snd out) = mentions d.
Proof.
  intros batch out. subst out. unfold finish. fold batch.
  unfold insertReviews.
  destruct (insertReviewsInto batch 0 (reviews d)) as [n tbl].
  pose proof (sortBy_perm _ r_review_date batch) as Hperm. simpl in Hperm.
  destruct (newestOf (map r_review_date batch)) as [newest |].
  - destruct (match cutoffDate with None => true | Some c => (c <? newest)%Z end);
      simpl; repeat split; auto.
  - destruct cursor, batch; simpl; repeat split; auto.
Qed.

End AppStoreRunFacts.

(** X21.  The items an App Store run returns have pairwise different
    ids, all of platform 5, and each is a row of the reviews table
    when the run ends; [newItems] is the number of rows the table
    grew by, between 0 and the number of items, and equal to the
    number of items when none of their ids was in the table; no row
    is lost and the mentions table is untouched.  A run that reports
    an error returns no item and adds no row. *)
Theorem appstore_run_items_distinct_and_stored
    (analyze : string -> Sentiment.Analysis) (configured : bool)
    (feed : string -> nat -> AppStore.PageResult)
    (browser : option (string -> option AppStore.Visit)) (fresh : string)
    (started fetched now : Z) (db : Queries.Db) :
  let out := AppStore.run analyze configured feed browser fresh started fetched now db in
  let r := fst out in
  let db' := snd out in
  NoDup (map Queries.r_external_id (AppStore.items r))
  /\ (forall x, In x (AppStore.items r) ->
        Queries.r_platform_id x = 5%Z
        /\ is_Some (Queries.reviews db' !! (5%Z, Queries.r_external_id x)))
  /\ (0 <= AppStore.newItems r <= Z.of_nat (length (AppStore.items r)))%Z
  /\ (Z.of_nat (size (Queries.reviews db'))
      = Z.of_nat (size (Queries.reviews db)) + AppStore.newItems r)%Z
  /\ ((forall x, In x (AppStore.items r) ->
         Queries.reviews db !! (5%Z, Queries.r_external_id x) = None) ->
      AppStore.newItems r = Z.of_nat (length (AppStore.items r)))
  /\ (forall k, is_Some (Queries.reviews db !! k) -> is_Some (Queries.reviews db' !! k))
  /\ Queries.mentions db' = Queries.mentions db
  /\ (AppStore.errors r <> [] ->
      AppStore.items r = [] /\ AppStore.newItems r = 0%Z
      /\ Queries.reviews db' = Queries.reviews db).
Proof.
  intros out r db'. subst r db' out. unfold AppStore.run.
  destruct (Queries.logScrapeStart "appstore" started db) as [logId db0] eqn:Estart.
  assert (Queries.reviews db0 = Queries.reviews db
          /\ Queries.mentions db0 = Queries.mentions db) as [Hr0 Hm0].
  { change db0 with (snd (logId, db0)). rewrite <- Estart. split; reflexivity. }
  destruct configured; simpl negb; cbv iota.
  - set (cursor := Queries.getScrapeCursor "appstore" db).
    set (all := AppStore.gather feed browser fresh fetched cursor).
    destruct (finish_spec analyze now logId cursor (AppStore.cutoffOf cursor) all db0)
      as (Hperm & Hnew & Herr & Hrev & Hmen).
    destruct (toReview_batch analyze now all
                (gather_keyed feed browser fresh fetched cursor)) as [Hp Hnd].
    destruct (insertReviews_distinct 5 _ (Queries.reviews db0) Hp Hnd)
      as (Hn & Hsize & Hkeep & Hin & Hall).
    set (out := AppStore.finish analyze now logId cursor (AppStore.cutoffOf cursor) all db0)
      in *.
    rewrite Hr0 in *. rewrite <- Hnew, <- Hrev in *.
    rewrite List.Forall_forall in Hp.
    pose proof (Permutation_length Hperm) as Hlen.
    split.
    { apply (NoDup_Permutation_proper _ _ (Permutation_map Queries.r_external_id Hperm)).
      exact Hnd. }
    split.
    { intros x Hx. apply (Permutation_in _ Hperm) in Hx. split; [apply Hp, Hx | apply Hin, Hx]. }
    split; [rewrite Hlen; lia |]. split; [exact Hsize |].
    split.
    { intros Hnone. rewrite Hlen. apply Hall. intros x Hx. apply Hnone.
      apply (Permutation_in _ (Permutation_sym Hperm)), Hx. }
    split; [exact Hkeep |]. split; [congruence |].
    intros Hne. rewrite Herr in Hne. congruence.
  - simpl. rewrite Hr0, Hm0.
    split; [constructor |]. split; [intros x [] |]. split; [lia |]. split; [lia |].
    split; [reflexivity |]. split; [auto |]. split; [reflexivity |].
    intros _. repeat split.
Qed.

(** ** The Play Store run *)

Section PlayStoreKeys.
Import Queries JsDate PlayStore Keyed Unknown.

Variable knownIds : gset string.

Local Abbreviation clean := (Unknown.clean knownIds).

Lemma clean_nil : clean [].
Proof. split; [apply keyed_nil | intros k []]. Qed.

Lemma clean_set k v m :
  PlayStore.id v = k -> k ∉ knownIds -> clean m -> clean (JsMap.set k v m).
Proof.
  intros Hid Hk [Hm Hu]. split; [apply keyed_set; assumption |].
  intros k' Hin. destruct (JsMap_set_In_key _ _ _ _ _ Hin) as [-> | Hin'];
    [exact Hk | apply Hu, Hin'].
Qed.

Lemma collect_clean st review :
  clean (fst (fst st)) -> clean (fst (fst (collect knownIds st review))).
Proof.
  destruct st as [[m n] c]. simpl. intros Hm.
  destruct (negb (JsString.truthy (id review))); [exact Hm |].
  destruct (bool_decide (id review ∈ knownIds)) eqn:E; [exact Hm |].
  apply bool_decide_eq_false in E.
  destruct (negb (JsMap.has (id review) m)); [| exact Hm].
  simpl. apply clean_set; [reflexivity | exact E | exact Hm].
Qed.

Lemma fetchSort_clean api sort left : forall token c m,
  clean m -> clean (fetchSort api knownIds sort left token c m).
Proof.
  induction left as [| left IH]; intros token c m Hm; [exact Hm |].
  cbn [fetchSort]. destruct (api sort token) as [| reviewsData next]; [exact Hm |].
  destruct reviewsData as [| r0 rs]; [exact Hm |].
  assert (clean (fst (fst (fold_left (collect knownIds) (r0 :: rs) (m, O, c))))) as Hk.
  { apply (fold_left_inv _ _ (fun st => clean (fst (fst st)))); [| exact Hm].
    intros st review _. apply collect_clean. }
  destruct (fold_left (collect knownIds) (r0 :: rs) (m, O, c)) as [[m1 n1] c1].
  simpl in Hk.
  destruct (isNewest sort && (20 <? c1)%nat); [exact Hk |].
  destruct next as [tok |]; [| exact Hk].
  destruct (JsString.truthy tok); [apply IH, Hk | exact Hk].
Qed.

Lemma fetchViaAPI_clean api : clean (fetchViaAPI api knownIds).
Proof.
  unfold fetchViaAPI. apply fold_left_inv; [| apply clean_nil].
  intros m sort _. apply fetchSort_clean.
Qed.

Lemma scrollLoop_clean scrolls left : forall i noNew m,
  clean m -> clean (scrollLoop knownIds scrolls left i noNew m).
Proof.
  induction left as [| left IH]; intros i noNew m Hm; [exact Hm |].
  cbn [scrollLoop]. destruct (scrolls i) as [reviews |]; [| exact Hm].
  match goal with
  | |- context [fold_left ?f reviews (m, O)] =>
      assert (clean (fst (fold_left f reviews (m, O)))) as Hk;
      [| destruct (fold_left f reviews (m, O)) as [m1 n1] ]
  end.
  { apply (fold_left_inv _ _ (fun acc => clean (fst acc))); [| exact Hm].
    intros [m' n] review _ Hm'. simpl in Hm'.
    destruct (JsString.truthy (id review)); [| exact Hm']. simpl.
    destruct (bool_decide (id review ∈ knownIds)) eqn:E; [exact Hm' |].
    apply bool_decide_eq_false in E. simpl.
    destruct (JsMap.has (id review) m'); [exact Hm' |].
    simpl. apply clean_set; [reflexivity | exact E | exact Hm']. }
  simpl in Hk.
  destruct (n1 =? 0)%nat.
  - destruct (3 <=? S noNew)%nat; [exact Hk | apply IH, Hk].
  - apply IH, Hk.
Qed.

Lemma fetchViaBrowser_clean browser isIncremental :
  clean (PlayStore.fetchViaBrowser browser knownIds isIncremental).
Proof.
  unfold PlayStore.fetchViaBrowser. destruct browser; [| apply clean_nil].
  apply scrollLoop_clean, clean_nil.
Qed.

Lemma merge_clean (from into : JsMap.t PlayStoreReviewData) :
  clean from -> clean into ->
  clean (fold_left (fun m kv => JsMap.set (fst kv) (snd kv) m) from into).
Proof.
  intros [[_ Hid] Hu] Hinto. rewrite List.Forall_forall in Hid.
  apply fold_left_inv; [| exact Hinto].
  intros m kv Hin Hm. apply clean_set; [apply Hid, Hin | | exact Hm].
  apply Hu, in_map, Hin.
Qed.

Lemma gather_clean api browser fetched cursor :
  clean (PlayStore.gather api browser fetched cursor knownIds).
Proof.
  unfold PlayStore.gather. cbv zeta.
  apply merge_clean; [apply fetchViaAPI_clean |].
  apply merge_clean; [| apply clean_nil].
  match goal with |- context [if ?b then _ else _] => destruct b end;
    [apply fetchViaBrowser_clean | apply clean_nil].
Qed.

End PlayStoreKeys.

Section PlayStoreRunFacts.
Import Queries JsDate PlayStore Keyed Unknown.

Variable analyze : string -> Sentiment.Analysis.
Variable now : Z.

Lemma convert_Some l : forall batch,
  convert analyze now l = Some batch ->
  map r_external_id batch = map PlayStore.id l
  /\ Forall (fun x => r_platform_id x = 4%Z) batch
  /\ Forall (fun review => date review <> DateOf None) l.
Proof.
  induction l as [| review l IH]; intros batch H; simpl in H.
  - injection H as <-. repeat split; constructor.
  - destruct (toReview analyze now review) as [x |] eqn:Ex; [| discriminate H].
    destruct (convert analyze now l) as [rs |]; [| discriminate H].
    injection H as <-. destruct (IH rs eq_refl) as (Hids & Hp & Hd).
    unfold toReview in Ex.
    destruct (date review) as [| [t |]] eqn:Ed; try discriminate Ex;
      injection Ex as <-; simpl; rewrite Hids;
      (split; [reflexivity |]); (split; [constructor; [reflexivity | exact Hp] |]);
      (constructor; [congruence | exact Hd]).
Qed.

Lemma convert_None l :
  convert analyze now l = None ->
  exists review, In review l /\ date review = DateOf None.
Proof.
  induction l as [| review l IH]; simpl; [discriminate |].
  unfold toReview at 1.
  destruct (date review) as [| [t |]] eqn:Ed.
  - destruct (convert analyze now l); [discriminate |].
    intros _. destruct (IH eq_refl) as (x & Hx & Hd). eauto.
  - destruct (convert analyze now l); [discriminate |].
    intros _. destruct (IH eq_refl) as (x & Hx & Hd). eauto.
  - intros _. exists review. split; [left; reflexivity | exact Ed].
Qed.

(** The end of the run, in terms of the batch it inserts. *)
Lemma playstore_finish_spec logId cursor all d :
  let out := PlayStore.finish analyze now logId cursor all d in
  match convert analyze now (JsMap.values all) with
  | Some batch =>
      Permutation (items (fst out)) batch
      /\ newItems (fst out) = fst (insertReviewsInto batch 0 (reviews d))
      /\ errors (fst out) = []
      /\ reviews (snd out) = snd (insertReviewsInto batch 0 (reviews d))
      /\ mentions (snd out) = mentions d
      /\ exists d2, snd out = logScrapeEnd logId success (Z.of_nat (length (items (fst out))))
                                (newItems (fst out)) None now d2
                    /\ scrape_logs d2 = scrape_logs d
  | None =>
      fst out = mkResult [] 0 [invalidTime]
      /\ snd out = logScrapeEnd logId failed 0 0 (Some invalidTime) now d
  end.
Proof.
  intros out. subst out. unfold finish.
  destruct (convert analyze now (JsMap.values all)) as [batch |]; [| split; reflexivity].
  destruct batch as [| x batch].
  - destruct cursor; simpl; (repeat split; try reflexivity);
      eexists; split; reflexivity.
  - unfold insertReviews.
    pose proof (sortBy_perm _ r_review_date (x :: batch)) as Hperm. cbv zeta in Hperm.
    destruct (insertReviewsInto (x :: batch) 0 (reviews d)) as [n tbl].
    simpl fst. simpl snd. repeat split; try reflexivity; try exact Hperm.
    eexists. split; reflexivity.
Qed.

End PlayStoreRunFacts.

Lemma logScrapeEnd_closes logs row status found new error now d :
  Queries.scrape_logs d = logs ++ [row] ->
  Queries.scrape_logs (Queries.logScrapeEnd (S (length logs)) status found new error now d)
  = logs ++ [Queries.mkLog (Queries.l_platform row) status found new
               (Queries.errorOrNull error) (Queries.l_started_at row) (Some now)].
Proof.
  intros H. unfold Queries.logScrapeEnd. simpl. rewrite H.
  rewrite lookup_app_r by lia. rewrite Nat.sub_diag. simpl.
  rewrite insert_app_r_alt by lia. rewrite Nat.sub_diag. reflexivity.
Qed.

(** What a Play Store run returns and stores. *)
Lemma playstore_run_items
    (analyze : string -> Sentiment.Analysis) (configured : bool)
    (api : PlayStore.Sort -> option string -> PlayStore.ApiResult)
    (browser : option (nat -> option (list PlayStore.PlayStoreReviewData)))
    (started fetched now : Z) (db : Queries.Db) :
  let out := PlayStore.run analyze configured api browser started fetched now db in
  let r := fst out in
  let db' := snd out in
  NoDup (map Queries.r_external_id (PlayStore.items r))
  /\ (forall x, In x (PlayStore.items r) ->
        Queries.r_platform_id x = 4%Z
        /\ is_Some (Queries.reviews db' !! (4%Z, Queries.r_external_id x))
        /\ ~ In (Queries.r_external_id x)
                (Queries.getRecentExternalIds "playstore" 1000 db))
  /\ (0 <= PlayStore.newItems r <= Z.of_nat (length (PlayStore.items r)))%Z
  /\ (Z.of_nat (size (Queries.reviews db'))
      = Z.of_nat (size (Queries.reviews db)) + PlayStore.newItems r)%Z
  /\ ((forall x, In x (PlayStore.items r) ->
         Queries.reviews db !! (4%Z, Queries.r_external_id x) = None) ->
      PlayStore.newItems r = Z.of_nat (length (PlayStore.items r)))
  /\ (forall k, is_Some (Queries.reviews db !! k) -> is_Some (Queries.reviews db' !! k))
  /\ Queries.mentions db' = Queries.mentions db
  /\ (PlayStore.errors r <> [] ->
      PlayStore.items r = [] /\ PlayStore.newItems r = 0%Z
      /\ Queries.reviews db' = Queries.reviews db
      /\ Queries.scrape_cursors db' = Queries.scrape_cursors db).
Proof.
  intros out r db'. subst r db' out. unfold PlayStore.run.
  destruct (Queries.logScrapeStart "playstore" started db) as [logId db0] eqn:Estart.
  assert (Queries.reviews db0 = Queries.reviews db
          /\ Queries.mentions db0 = Queries.mentions db
          /\ Queries.scrape_cursors db0 = Queries.scrape_cursors db) as (Hr0 & Hm0 & Hc0).
  { change db0 with (snd (logId, db0)). rewrite <- Estart. repeat split. }
  destruct configured; simpl negb; cbv iota.
  - set (cursor := Queries.getScrapeCursor "playstore" db).
    set (knownIds := list_to_set (Queries.getRecentExternalIds "playstore" 1000 db)
                     : gset string).
    set (all := PlayStore.gather api browser fetched cursor knownIds).
    pose proof (playstore_finish_spec analyze now logId cursor all db0) as Hfin.
    cbv zeta in Hfin.
    destruct (gather_clean knownIds api browser fetched cursor) as [Hkeyed Hunknown].
    fold all in Hkeyed, Hunknown.
    destruct (keyed_values _ _ _ Hkeyed) as [Hkeys Hnd0].
    set (out := PlayStore.finish analyze now logId cursor all db0) in *.
    destruct (PlayStore.convert analyze now (JsMap.values all)) as [batch |] eqn:Econv.
    + destruct Hfin as (Hperm & Hnew & Herr & Hrev & Hmen & _).
      destruct (convert_Some analyze now _ _ Econv) as (Hids & Hp & _).
      assert (NoDup (map Queries.r_external_id batch)) as Hnd by (rewrite Hids; exact Hnd0).
      destruct (insertReviews_distinct 4 _ (Queries.reviews db0) Hp Hnd)
        as (Hn & Hsize & Hkeep & Hin & Hall).
      rewrite Hr0 in *. rewrite <- Hnew, <- Hrev in *.
      rewrite List.Forall_forall in Hp.
      pose proof (Permutation_length Hperm) as Hlen.
      split.
      { apply (NoDup_Permutation_proper _ _ (Permutation_map Queries.r_external_id Hperm)).
        exact Hnd. }
      split.
      { intros x Hx. apply (Permutation_in _ Hperm) in Hx.
        split; [apply Hp, Hx |]. split; [apply Hin, Hx |].
        intros Hknown.
        apply (Hunknown (Queries.r_external_id x)).
        - rewrite <- Hkeys, <- Hids. apply in_map, Hx.
        - apply elem_of_list_to_set, list_elem_of_In, Hknown. }
      split; [rewrite Hlen; lia |]. split; [exact Hsize |].
      split.
      { intros Hnone. rewrite Hlen. apply Hall. intros x Hx. apply Hnone.
        apply (Permutation_in _ (Permutation_sym Hperm)), Hx. }
      split; [exact Hkeep |]. split; [congruence |].
      intros Hne. rewrite Herr in Hne. congruence.
    + destruct Hfin as [-> ->]. simpl. rewrite Hr0, Hm0, Hc0.
      split; [constructor |]. split; [intros x [] |]. split; [lia |]. split; [lia |].
      split; [reflexivity |]. split; [auto |]. split; [reflexivity |].
      intros _. repeat split.
  - simpl. rewrite Hr0, Hm0, Hc0.
    split; [constructor |]. split; [intros x [] |]. split; [lia |]. split; [lia |].
    split; [reflexivity |]. split; [auto |]. split; [reflexivity |].
    intros _. repeat split.
Qed.

(** X22.  The items a Play Store run returns have pairwise different
    ids, none of them among the recent ids the run loaded when it
    started, all of platform 4, and each is a row of the reviews table
    when the run ends; [newItems] is the number of rows the table
    grew by, between 0 and the number of items, and equal to the
    number of items when none of their ids was in the table; no row
    is lost and the mentions table is untouched.  A run that reports
    an error returns no item, adds no row and leaves the cursors as
    they were. *)
Theorem playstore_run_items_unknown_distinct_and_stored
    (analyze : string -> Sentiment.Analysis) (configured : bool)
    (api : PlayStore.Sort -> option string -> PlayStore.ApiResult)
    (browser : option (nat -> option (list PlayStore.PlayStoreReviewData)))
    (started fetched now : Z) (db : Queries.Db) :
  let out := PlayStore.run analyze configured api browser started fetched now db in
  let r := fst out in
  let db' := snd out in
  NoDup (map Queries.r_external_id (PlayStore.items r))
  /\ (forall x, In x (PlayStore.items r) ->
        Queries.r_platform_id x = 4%Z
        /\ is_Some (Queries.reviews db' !! (4%Z, Queries.r_external_id x))
        /\ ~ In (Queries.r_external_id x)
                (Queries.getRecentExternalIds "playstore" 1000 db))
  /\ (0 <= PlayStore.newItems r <= Z.of_nat (length (PlayStore.items r)))%Z
  /\ (Z.of_nat (size (Queries.reviews db'))
      = Z.of_nat (size (Queries.reviews db)) + PlayStore.newItems r)%Z
  /\ ((forall x, In x (PlayStore.items r) ->
         Queries.reviews db !! (4%Z, Queries.r_external_id x) = None) ->
      PlayStore.newItems r = Z.of_nat (length (PlayStore.items r)))
  /\ (forall k, is_Some (Queries.reviews db !! k) -> is_Some (Queries.reviews db' !! k))
  /\ Queries.mentions db' = Queries.mentions db
  /\ (PlayStore.errors r <> [] ->
      PlayStore.items r = [] /\ PlayStore.newItems r = 0%Z
      /\ Queries.reviews db' = Queries.reviews db
      /\ Queries.scrape_cursors db' = Queries.scrape_cursors db).
Proof.
  intros out r db'.
  exact (playstore_run_items analyze configured api browser started fetched now db).
Qed.

(** X23.  A Play Store run fails in two ways only: with the message
    that the app id is not configured, exactly when it is not; and
    with "Invalid time value", exactly when it is configured and one
    of the gathered reviews has a date text that does not parse, in
    which case the reviews gathered with it are not stored either.
    In every case the run adds one row to the log, closed with the
    status failed and the message when it reports an error and with
    success otherwise, the number of items it returns and its
    [newItems]. *)
Theorem playstore_run_fails_on_unparsable_date
    (analyze : string -> Sentiment.Analysis) (configured : bool)
    (api : PlayStore.Sort -> option string -> PlayStore.ApiResult)
    (browser : option (nat -> option (list PlayStore.PlayStoreReviewData)))
    (started fetched now : Z) (db : Queries.Db) :
  let cursor := Queries.getScrapeCursor "playstore" db in
  let knownIds : gset string :=
    list_to_set (Queries.getRecentExternalIds "playstore" 1000 db) in
  let gathered := JsMap.values (PlayStore.gather api browser fetched cursor knownIds) in
  let out := PlayStore.run analyze configured api browser started fetched now db in
  let r := fst out in
  let db' := snd out in
  (PlayStore.errors r = [PlayStore.notConfigured] <-> configured = false)
  /\ (PlayStore.errors r = [PlayStore.invalidTime] <->
      configured = true
      /\ exists review, In review gathered
                        /\ PlayStore.date review = PlayStore.DateOf None)
  /\ (PlayStore.errors r = [] <->
      configured = true
      /\ forall review, In review gathered ->
                        PlayStore.date review <> PlayStore.DateOf None)
  /\ exists log,
       Queries.scrape_logs db' = Queries.scrape_logs db ++ [log]
       /\ Queries.l_platform log = "playstore"
       /\ Queries.l_started_at log = started
       /\ Queries.l_completed_at log = Some now
       /\ Queries.l_status log
          = match PlayStore.errors r with [] => Queries.success | _ => Queries.failed end
       /\ Queries.l_error log = head (PlayStore.errors r)
       /\ Queries.l_items_found log = Z.of_nat (length (PlayStore.items r))
       /\ Queries.l_items_new log = PlayStore.newItems r.
Proof.
  intros cursor knownIds gathered out r db'. subst r db' out. unfold PlayStore.run.
  fold cursor knownIds.
  destruct (Queries.logScrapeStart "playstore" started db) as [logId db0] eqn:Estart.
  assert (logId = S (length (Queries.scrape_logs db))
          /\ Queries.scrape_logs db0
             = Queries.scrape_logs db
               ++ [Queries.mkLog "playstore" Queries.running 0 0 None started None])
    as [-> Hlogs0].
  { unfold Queries.logScrapeStart in Estart. injection Estart as <- <-.
    split; reflexivity. }
  destruct configured; simpl negb; cbv iota.
  - set (all := PlayStore.gather api browser fetched cursor knownIds) in *.
    pose proof (playstore_finish_spec analyze now (S (length (Queries.scrape_logs db)))
                  cursor all db0) as Hfin.
    cbv zeta in Hfin.
    set (out := PlayStore.finish analyze now (S (length (Queries.scrape_logs db)))
                  cursor all db0) in *.
    destruct (PlayStore.convert analyze now (JsMap.values all)) as [batch |] eqn:Econv.
    + destruct Hfin as (_ & _ & Herr & _ & _ & d2 & Hout & Hlogs2).
      destruct (convert_Some analyze now _ _ Econv) as (_ & _ & Hdates).
      rewrite List.Forall_forall in Hdates. fold gathered in Hdates.
      rewrite Herr.
      split; [split; [discriminate | discriminate] |].
      split.
      { split; [discriminate |]. intros (_ & review & Hin & Hd).
        exfalso. exact (Hdates review Hin Hd). }
      split; [split; [intros _; split; [reflexivity | exact Hdates] | reflexivity] |].
      rewrite Hout. rewrite Hlogs0 in Hlogs2.
      eexists. split; [apply logScrapeEnd_closes, Hlogs2 |]. repeat split.
    + destruct Hfin as [-> ->].
      destruct (convert_None analyze now _ Econv) as (review & Hin & Hd).
      cbn [fst snd PlayStore.errors PlayStore.items PlayStore.newItems].
      split; [split; [discriminate | discriminate] |].
      split; [split; [intros _; split; [reflexivity | exists review; split; assumption]
                     | reflexivity] |].
      split.
      { split; [discriminate |]. intros [_ Hall]. exfalso. exact (Hall review Hin Hd). }
      eexists. split; [apply logScrapeEnd_closes, Hlogs0 |]. repeat split.
  - cbn [fst snd PlayStore.errors PlayStore.items PlayStore.newItems].
    split; [split; reflexivity |].
    split; [split; [discriminate | intros [H _]; discriminate H] |].
    split; [split; [discriminate | intros [H _]; discriminate H] |].
    eexists. split; [apply logScrapeEnd_closes, Hlogs0 |]. repeat split.
Qed.

Section TableFacts.
Import Queries Rows Tables.

Lemma upsertReview_keyed r tbl : reviewsKeyed tbl -> reviewsKeyed (upsertReview r tbl).
Proof.
  intros Hk k x. unfold upsertReview.
  destruct (tbl !! (r_platform_id r, r_external_id r)) as [old |] eqn:E.
  - destruct (decide (k = (r_platform_id r, r_external_id r))) as [-> | Hne].
    + rewrite lookup_insert_eq. intros [= <-]. reflexivity.
    + rewrite lookup_insert_ne by congruence. apply Hk.
  - destruct (decide (k = (r_platform_id r, r_external_id r))) as [-> | Hne].
    + rewrite lookup_insert_eq. intros [= <-]. reflexivity.
    + rewrite lookup_insert_ne by congruence. apply Hk.
Qed.

Lemma insertReviewsInto_keyed items : forall n tbl,
  reviewsKeyed tbl -> reviewsKeyed (snd (insertReviewsInto items n tbl)).
Proof.
  induction items as [| r items IH]; intros n tbl Hk; [exact Hk |].
  cbn [insertReviewsInto]. apply IH, upsertReview_keyed, Hk.
Qed.

(** With no more rows of the platform than the limit, every id of
    the platform is a recent id. *)
Lemma recent_ids_cover (limit : nat) (db : Db) (x : string) :
  reviewsKeyed (reviews db) ->
  (length (reviewsOf 4 db) <= limit)%nat ->
  is_Some (reviews db !! (4%Z, x)) ->
  In x (getRecentExternalIds "playstore" limit db).
Proof.
  intros Hk Hlen [row Hrow].
  pose proof (Hk _ _ Hrow) as Hkey. injection Hkey as Hp Hx.
  unfold getRecentExternalIds. simpl.
  fold (reviewsOf 4 db).
  set (cmp := fun a b : Review => (r_review_date b - r_review_date a)%Z).
  pose proof (sortBy_perm _ r_review_date (reviewsOf 4 db)) as Hperm.
  cbv zeta in Hperm. fold cmp in Hperm.
  rewrite firstn_all2 by (rewrite (Permutation_length Hperm); exact Hlen).
  rewrite Hx. apply in_map.
  apply (Permutation_in _ (Permutation_sym Hperm)).
  unfold reviewsOf. apply filter_In. split.
  - apply in_map_iff. exists ((4%Z, x), row). split; [reflexivity |].
    apply list_elem_of_In, elem_of_map_to_list, Hrow.
  - rewrite <- Hp. apply Z.eqb_refl.
Qed.

End TableFacts.

(** X24.  While the reviews table holds no more than 1000 Play Store
    rows, each under the key of its own columns, the ids loaded at
    the start of a run cover every stored Play Store review: every
    item the run returns is then a row the run added, [newItems] is
    the number of items, and the table is again keyed by the rows'
    columns afterwards. *)
Theorem playstore_items_all_new_below_limit
    (analyze : string -> Sentiment.Analysis) (configured : bool)
    (api : PlayStore.Sort -> option string -> PlayStore.ApiResult)
    (browser : option (nat -> option (list PlayStore.PlayStoreReviewData)))
    (started fetched now : Z) (db : Queries.Db) :
  Tables.reviewsKeyed (Queries.reviews db) ->
  (length (Tables.reviewsOf 4 db) <= 1000)%nat ->
  let out := PlayStore.run analyze configured api browser started fetched now db in
  (forall x, In x (PlayStore.items (fst out)) ->
     Queries.reviews db !! (4%Z, Queries.r_external_id x) = None)
  /\ PlayStore.newItems (fst out) = Z.of_nat (length (PlayStore.items (fst out)))
  /\ Tables.reviewsKeyed (Queries.reviews (snd out)).
Proof.
  intros Hk Hlen out.
  destruct (playstore_run_items analyze configured api browser
              started fetched now db)
    as (_ & Hitems & _ & _ & Hall & _).
  fold out in Hitems, Hall.
  assert (forall x, In x (PlayStore.items (fst out)) ->
            Queries.reviews db !! (4%Z, Queries.r_external_id x) = None) as Hnew.
  { intros x Hx. destruct (Hitems x Hx) as (_ & _ & Hunknown).
    destruct (Queries.reviews db !! (4%Z, Queries.r_external_id x)) eqn:E; [| reflexivity].
    exfalso. apply Hunknown. apply recent_ids_cover; [exact Hk | exact Hlen |].
    rewrite E. eauto. }
  split; [exact Hnew |]. split; [apply Hall, Hnew |].
  subst out. unfold PlayStore.run.
  destruct (Queries.logScrapeStart "playstore" started db) as [logId db0] eqn:Estart.
  assert (Queries.reviews db0 = Queries.reviews db) as Hr0.
  { unfold Queries.logScrapeStart in Estart. injection Estart as _ <-. reflexivity. }
  destruct configured; simpl negb; cbv iota; [| simpl; rewrite Hr0; exact Hk].
  match goal with
  | |- context [PlayStore.finish analyze now logId ?c ?all db0] =>
      pose proof (playstore_finish_spec analyze now logId c all db0) as Hfin;
      cbv zeta in Hfin;
      destruct (PlayStore.convert analyze now (JsMap.values all)) as [batch |]
  end.
  - destruct Hfin as (_ & _ & _ & -> & _). rewrite Hr0.
    apply insertReviewsInto_keyed, Hk.
  - destruct Hfin as [_ ->]. simpl. rewrite Hr0. exact Hk.
Qed.

Lemma playstore_items_all_new_below_limit_witness :
  let row := Queries.mkReview 4 "gp:1" None 5 None None None 0 None None None 900 in
  let db := Queries.mkDb ∅ {[ (4%Z, "gp:1") := row ]} [] ∅ in
  let review1 := PlayStore.mkReviewData "gp:1" "bob" None PlayStore.NoDate 5
                   "great app" 0 None None None in
  let review2 := PlayStore.mkReviewData "gp:2" "eve" None PlayStore.NoDate 4
                   "fun" 0 None None None in
  let api := fun (sort : PlayStore.Sort) (token : option string) =>
               PlayStore.ApiPage [review1; review2] None in
  let out := PlayStore.run Sample.analyze true api None 5000 5000 6000 db in
  Tables.reviewsKeyed (Queries.reviews db)
  /\ (length (Tables.reviewsOf 4 db) <= 1000)%nat
  /\ map Queries.r_external_id (PlayStore.items (fst out)) = ["gp:2"]
  /\ PlayStore.newItems (fst out) = 1%Z.
Proof.
  intros row db review1 review2 api out.
  assert (Tables.reviewsKeyed (Queries.reviews db)) as Hk.
  { intros k r. simpl. intros H. apply lookup_singleton_Some in H as [<- <-]. reflexivity. }
  assert (length (Tables.reviewsOf 4 db) <= 1000)%nat as Hlen.
  { unfold Tables.reviewsOf. simpl. rewrite map_to_list_singleton. simpl. lia. }
  assert (map Queries.r_external_id (PlayStore.items (fst out)) = ["gp:2"]) as Hids.
  { subst out. unfold PlayStore.run, Queries.getRecentExternalIds. simpl Queries.PLATFORMS.
    cbv iota. simpl orb. cbv iota. simpl Queries.reviews.
    rewrite map_to_list_singleton. vm_compute. reflexivity. }
  destruct (playstore_items_all_new_below_limit Sample.analyze true api None
              5000 5000 6000 db Hk Hlen) as (_ & Hnew & _).
  fold out in Hnew. split; [exact Hk |]. split; [exact Hlen |]. split; [exact Hids |].
  rewrite Hnew. rewrite <- (length_map Queries.r_external_id), Hids. reflexivity.
Defined.

(** ** The pages of an App Store feed *)

Section FeedPagesFacts.
Import AppStore FeedPages.

Variable feed : string -> nat -> PageResult.
Variable now : Z.
Variable fresh : string.
Variable country : string.
Variable cutoffDate : option Z.

Local Abbreviation scan := (FeedPages.scan feed now fresh country cutoffDate).

Lemma fetchPagesFrom_pages left : forall page,
  exists n,
    (n <= left)%nat /\ ((0 < left)%nat -> (0 < n)%nat)
    /\ snd (fetchPagesFrom feed now fresh country cutoffDate left page) = seq page n
    /\ fst (fetchPagesFrom feed now fresh country cutoffDate left page)
       = concat (map (fun p => fst (fst (scan p))) (seq page n))
    /\ (forall p, (page <= p)%nat -> (S p < page + n)%nat -> snd (fst (scan p)) <> O)
    /\ ((n < left)%nat -> snd (fst (scan (page + n - 1))) = O).
Proof.
  induction left as [| left IH]; intros page.
  - exists O. simpl. repeat split; try lia.
  - cbn [fetchPagesFrom].
    assert (snd (fst (scan page)) = O ->
            fst (fst (scan page)) = fst (fetchPagesFrom feed now fresh country cutoffDate
                                           (S left) page) ->
            snd (fetchPagesFrom feed now fresh country cutoffDate (S left) page) = [page] ->
            exists n,
              (n <= S left)%nat /\ ((0 < S left)%nat -> (0 < n)%nat)
              /\ snd (fetchPagesFrom feed now fresh country cutoffDate (S left) page)
                 = seq page n
              /\ fst (fetchPagesFrom feed now fresh country cutoffDate (S left) page)
                 = concat (map (fun p => fst (fst (scan p))) (seq page n))
              /\ (forall p, (page <= p)%nat -> (S p < page + n)%nat ->
                            snd (fst (scan p)) <> O)
              /\ ((n < S left)%nat -> snd (fst (scan (page + n - 1))) = O)) as Hstop.
    { intros Hz Hrs Hpages. exists 1%nat.
      split; [lia |]. split; [lia |]. split; [exact Hpages |].
      split; [simpl; rewrite app_nil_r; symmetry; exact Hrs |].
      split; [intros; lia |].
      intros _. replace (page + 1 - 1)%nat with page by lia. exact Hz. }
    cbn [fetchPagesFrom] in Hstop. unfold FeedPages.scan in *.
    destruct (feed country page) as [| | | entries] eqn:Ef;
      try (apply Hstop; reflexivity).
    destruct (scanEntries country cutoffDate now fresh entries) as [[rs cnt] skip] eqn:Es.
    destruct cnt as [| cnt]; [apply Hstop; reflexivity |].
    clear Hstop.
    destruct (IH (S page)) as (n & Hle & Hpos & Hpages & Hrs & Hearly & Hlast).
    destruct (fetchPagesFrom feed now fresh country cutoffDate left (S page))
      as [more pages].
    simpl in Hpages, Hrs. exists (S n).
    split; [lia |]. split; [lia |].
    split; [simpl; rewrite Hpages; reflexivity |].
    split.
    { cbn [fst seq map concat]. rewrite Ef, Es. simpl. rewrite Hrs. reflexivity. }
    split.
    { intros p Hp Hlt. destruct (Nat.eq_dec p page) as [-> | Hne].
      - rewrite Ef, Es. simpl. discriminate.
      - apply Hearly; lia. }
    intros Hlt.
    destruct n as [| n].
    + destruct left as [| left']; [lia |]. exfalso. specialize (Hpos ltac:(lia)). lia.
    + replace (page + S (S n) - 1)%nat with (S page + S n - 1)%nat by lia.
      apply Hlast. lia.
Qed.

End FeedPagesFacts.


(** ** [replaceRows] *)

Section SheetFacts.
Import GoogleSheets.
Variable Row : Type.

Lemma addBatches_spec (rows : list Row) fuel : forall i s,
  (length rows - i <= fuel)%nat ->
  exists batches,
    headerRow (addBatches fuel i rows s) = headerRow s
    /\ sheetRows (addBatches fuel i rows s) = sheetRows s ++ skipn i rows
    /\ addRowsCalls (addBatches fuel i rows s) = addRowsCalls s ++ batches
    /\ concat batches = skipn i rows
    /\ Forall (fun b => (1 <= length b <= 500)%nat) batches
    /\ length batches = ((length rows - i + 499) / 500)%nat.
Proof.
  induction fuel as [| fuel IH]; intros i s Hfuel.
  - exists []. simpl. rewrite skipn_all2 by lia. rewrite !app_nil_r.
    replace (length rows - i)%nat with O by lia.
    repeat split; constructor.
  - cbn [addBatches]. destruct (i <? length rows)%nat eqn:E.
    + apply Nat.ltb_lt in E. unfold batchSize, slice.
      replace (i + 500 - i)%nat with 500%nat by lia.
      set (batch := firstn 500 (skipn i rows)).
      destruct (IH (i + 500)%nat (addRows batch s) ltac:(lia))
        as (batches & Hh & Hr & Hc & Hcat & Hall & Hlen).
      assert (skipn i rows = batch ++ skipn (i + 500) rows) as Hsplit.
      { subst batch. rewrite Nat.add_comm, <- skipn_skipn.
        symmetry. apply firstn_skipn. }
      assert (length batch = Nat.min 500 (length rows - i)) as Hb.
      { subst batch. rewrite length_firstn, length_skipn. reflexivity. }
      exists (batch :: batches).
      split; [rewrite Hh; reflexivity |].
      split; [rewrite Hr; simpl; rewrite <- app_assoc, <- Hsplit; reflexivity |].
      split; [rewrite Hc; simpl; rewrite <- app_assoc; reflexivity |].
      split; [simpl; rewrite Hcat; symmetry; exact Hsplit |].
      split; [constructor; [lia | exact Hall] |].
      simpl length. rewrite Hlen.
      destruct (le_lt_dec (length rows - i) 500) as [Hsmall | Hbig].
      * replace (length rows - (i + 500))%nat with O by lia.
        assert ((length rows - i + 499) / 500 = 1)%nat as ->; [| reflexivity].
        symmetry. apply (Nat.div_unique _ 500 1 (length rows - i - 1)); lia.
      * replace (length rows - i + 499)%nat
          with ((length rows - (i + 500) + 499) + 1 * 500)%nat by lia.
        rewrite Nat.div_add by lia. lia.
    + apply Nat.ltb_ge in E. exists []. simpl.
      rewrite skipn_all2 by lia. rewrite !app_nil_r.
      replace (length rows - i)%nat with O by lia.
      repeat split; constructor.
Qed.

End SheetFacts.

(** X26.  [replaceRows] leaves the sheet with exactly the given
    headers and the given rows in their order, whatever it held
    before.  It hands the rows to [addRows] in consecutive batches:
    none empty, none above 500 rows, the number of batches the row
    count divided by 500 and rounded up; without rows [addRows] is not
    called. *)
Theorem replaceRows_replaces_in_batches
    (Row : Type) (headers : list string) (rows : list Row)
    (s : GoogleSheets.Sheet Row) :
  let s' := GoogleSheets.replaceRows headers rows s in
  GoogleSheets.headerRow s' = headers
  /\ GoogleSheets.sheetRows s' = rows
  /\ exists batches,
       GoogleSheets.addRowsCalls s' = GoogleSheets.addRowsCalls s ++ batches
       /\ concat batches = rows
       /\ Forall (fun b => (1 <= length b <= 500)%nat) batches
       /\ length batches = ((length rows + 499) / 500)%nat.
Proof.
  intros s'. subst s'. unfold GoogleSheets.replaceRows.
  destruct rows as [| r rows].
  - simpl. split; [reflexivity |]. split; [reflexivity |].
    exists []. rewrite app_nil_r. repeat split; constructor.
  - set (all := r :: rows).
    destruct (addBatches_spec Row all (length all) 0
                (GoogleSheets.setHeaderRow Row headers (GoogleSheets.clear Row s))
                ltac:(lia))
      as (batches & Hh & Hr & Hc & Hcat & Hall & Hlen).
    rewrite Nat.sub_0_r in Hlen.
    split; [exact Hh |]. split; [exact Hr |].
    exists batches. repeat split; assumption.
Qed.

(** ** The csv helper of config.ts *)

Section CsvFacts.
Import JsString ConfigCsv.

Lemma trimEnd_cons c s :
  trimEnd (String c s)
  = match trimEnd s with
    | EmptyString => if isWhiteSpace c then EmptyString else String c EmptyString
    | t => String c t
    end.
Proof. reflexivity. Qed.

Lemma trimEnd_idem s : trimEnd (trimEnd s) = trimEnd s.
Proof.
  induction s as [| c s IH]; [reflexivity |].
  rewrite trimEnd_cons. destruct (trimEnd s) as [| d t] eqn:E.
  - destruct (isWhiteSpace c) eqn:Ec; [reflexivity |].
    rewrite trimEnd_cons. simpl. rewrite Ec. reflexivity.
  - rewrite trimEnd_cons, IH. reflexivity.
Qed.

Lemma trimStart_headed s : headed (trimStart s).
Proof.
  induction s as [| c s IH]; [exact I |].
  cbn [trimStart]. destruct (isWhiteSpace c) eqn:Ec; [exact IH | exact Ec].
Qed.

Lemma trimStart_fix s : headed s -> trimStart s = s.
Proof. destruct s as [| c s]; [reflexivity |]. simpl. intros ->. reflexivity. Qed.

Lemma trimEnd_headed s : headed s -> headed (trimEnd s).
Proof.
  destruct s as [| c s]; [intros _; exact I |].
  cbn [headed trimEnd]. intros Hc.
  destruct (trimEnd s); [rewrite Hc |]; exact Hc.
Qed.

Lemma trim_idem s : trim (trim s) = trim s.
Proof.
  unfold trim.
  rewrite (trimStart_fix (trimEnd (trimStart s)))
    by apply trimEnd_headed, trimStart_headed.
  apply trimEnd_idem.
Qed.

Lemma occurs_trimStart c s : occurs c s = false -> occurs c (trimStart s) = false.
Proof.
  induction s as [| d s IH]; [reflexivity |].
  cbn [trimStart]. destruct (isWhiteSpace d); [| auto].
  cbn [occurs]. intros H. apply orb_false_iff in H as [_ H]. apply IH, H.
Qed.

Lemma occurs_trimEnd c s : occurs c s = false -> occurs c (trimEnd s) = false.
Proof.
  induction s as [| d s IH]; [reflexivity |].
  cbn [occurs trimEnd]. intros H. apply orb_false_iff in H as [Hd H].
  specialize (IH H). destruct (trimEnd s) as [| e t].
  - destruct (isWhiteSpace d); [reflexivity |]. simpl. rewrite Hd. reflexivity.
  - cbn [occurs] in *. rewrite Hd. exact IH.
Qed.

Lemma split_nonempty s : split s <> [].
Proof.
  destruct s as [| c s]; [discriminate |]. cbn [split].
  destruct (Ascii.eqb c comma); [discriminate |]. destruct (split s); discriminate.
Qed.

Lemma split_no_comma s : Forall (fun piece => occurs comma piece = false) (split s).
Proof.
  induction s as [| c s IH]; [repeat constructor |].
  cbn [split]. destruct (Ascii.eqb c comma) eqn:Ec.
  - constructor; [reflexivity | exact IH].
  - destruct (split s) as [| piece pieces]; [repeat constructor; simpl; rewrite Ec; reflexivity |].
    inversion IH as [| ? ? Hp Hps]; subst.
    constructor; [simpl; rewrite Ec; exact Hp | exact Hps].
Qed.

(** A piece without a comma comes back from the split as it is. *)
Lemma split_piece x rest :
  occurs comma x = false ->
  split (x +:+ String comma rest) = x :: split rest.
Proof.
  induction x as [| c x IH]; intros H.
  - simpl. reflexivity.
  - cbn [occurs] in H. apply orb_false_iff in H as [Hc H].
    change (String c x +:+ String comma rest) with (String c (x +:+ String comma rest)).
    cbn [split]. rewrite Hc, (IH H). reflexivity.
Qed.

Lemma split_last x : occurs comma x = false -> split x = [x].
Proof.
  induction x as [| c x IH]; intros H; [reflexivity |].
  cbn [occurs] in H. apply orb_false_iff in H as [Hc H].
  cbn [split]. rewrite Hc, (IH H). reflexivity.
Qed.

Lemma split_join l :
  l <> [] -> Forall (fun x => occurs comma x = false) l -> split (join l) = l.
Proof.
  induction l as [| x l IH]; intros Hne Hall; [congruence |].
  inversion Hall as [| ? ? Hx Hl]; subst.
  destruct l as [| y l'].
  - simpl. apply split_last, Hx.
  - change (join (x :: y :: l')) with (x +:+ String comma (join (y :: l'))).
    rewrite split_piece by exact Hx. rewrite IH; [reflexivity | discriminate | exact Hl].
Qed.

Lemma join_truthy l :
  l <> [] -> Forall (fun x => truthy x = true) l -> truthy (join l) = true.
Proof.
  intros Hne Hall. destruct l as [| x l]; [congruence |].
  inversion Hall as [| ? ? Hx _]; subst.
  destruct x as [| c x]; [discriminate Hx |].
  destruct l; reflexivity.
Qed.

End CsvFacts.

(** X27.  Every term the configuration helper [csv] yields is
    non-empty, has no white space at either end and holds no comma,
    whatever the environment variable holds; an empty value yields no
    term, and a variable that is not set yields the terms of the
    default.  A list of such terms joined with commas is read back
    as the same list. *)
Theorem csv_terms_are_trimmed_and_nonempty (defaultValue : string) (env : option string) :
  Forall ConfigCsv.term (ConfigCsv.csv defaultValue env)
  /\ ConfigCsv.csv defaultValue (Some EmptyString) = []
  /\ ConfigCsv.csv defaultValue None = ConfigCsv.csv defaultValue (Some defaultValue)
  /\ (forall l, Forall ConfigCsv.term l ->
        ConfigCsv.csv defaultValue (Some (ConfigCsv.join l)) = l).
Proof.
  split; [| split; [reflexivity | split; [reflexivity |]]].
  - unfold ConfigCsv.csv. cbv zeta.
    destruct (JsString.truthy _); [| constructor].
    apply List.Forall_forall. intros t Ht.
    apply filter_In in Ht as [Hin Htruthy].
    apply in_map_iff in Hin as (piece & <- & Hpiece).
    split; [exact Htruthy |]. split; [apply trim_idem |].
    pose proof (split_no_comma
                  match env with Some v => v | None => defaultValue end) as Hall.
    rewrite List.Forall_forall in Hall.
    apply occurs_trimEnd, occurs_trimStart, Hall, Hpiece.
  - intros l Hall. unfold ConfigCsv.csv. cbv zeta.
    destruct l as [| x l]; [reflexivity |].
    assert (Forall (fun x => JsString.truthy x = true) (x :: l)) as Htruthy
      by (eapply List.Forall_impl; [| exact Hall]; intros a (H & _); exact H).
    assert (Forall (fun x => ConfigCsv.occurs ConfigCsv.comma x = false) (x :: l)) as Hcomma
      by (eapply List.Forall_impl; [| exact Hall]; intros a (_ & _ & H); exact H).
    rewrite join_truthy by (try discriminate; exact Htruthy).
    rewrite split_join by (try discriminate; exact Hcomma).
    assert (map JsString.trim (x :: l) = x :: l) as ->.
    { rewrite <- (map_id (x :: l)) at 2. apply map_ext_in. intros a Ha.
      rewrite List.Forall_forall in Hall. destruct (Hall a Ha) as (_ & H & _). exact H. }
    apply forallb_filter_id. apply forallb_forall.
    rewrite List.Forall_forall in Htruthy. exact Htruthy.
Qed.

(** ** The mouse path *)

Section HumanizeFacts.
Import Humanize.
Local Open Scope Q_scope.

Lemma steps_range r : 0 <= r -> r < 1 -> (10 <= steps r <= 24)%Z.
Proof.
  intros H0 H1. unfold steps.
  assert (0 <= Qfloor (r * 15))%Z.
  { change 0%Z with (Qfloor 0). apply Qfloor_resp_le. lra. }
  assert (Qfloor (r * 15) < 15)%Z.
  { rewrite Zlt_Qlt. eapply Qle_lt_trans; [apply Qfloor_le |]. 
    change (inject_Z 15) with 15%Q. lra. }
  lia.
Qed.

(** The share of the way that the curve has gone at [t]. *)
Lemma bezier_share target r t :
  bezier (control target r) target t
  == target * (2 * (1 - t) * t * ((3 # 10) + r * (4 # 10)) + t * t).
Proof. unfold bezier, control. ring. Qed.

Lemma share_range r t :
  0 <= r -> r < 1 -> 0 <= t -> t <= 1 ->
  0 <= 2 * (1 - t) * t * ((3 # 10) + r * (4 # 10)) + t * t <= 1.
Proof.
  intros Hr0 Hr1 Ht0 Ht1. set (k := (3 # 10) + r * (4 # 10)).
  assert (3 # 10 <= k) by (unfold k; lra).
  assert (k < 7 # 10) by (unfold k; lra).
  split.
  - assert (0 <= (1 - t) * t) by (apply Qmult_le_0_compat; lra).
    assert (0 <= (1 - t) * t * k) by (apply Qmult_le_0_compat; lra).
    assert (0 <= t * t) by (apply Qmult_le_0_compat; lra).
    lra.
  - assert (0 <= t * ((7 # 10) - k)) by (apply Qmult_le_0_compat; lra).
    assert (0 <= (1 - t) * (1 + t * (1 - 2 * k))).
    { apply Qmult_le_0_compat; [lra |].
      assert (t * (1 - 2 * k) == 2 * (t * ((7 # 10) - k)) - (4 # 10) * t) as -> by ring.
      lra. }
    assert (1 - (2 * (1 - t) * t * k + t * t) == (1 - t) * (1 + t * (1 - 2 * k))) as E
      by ring.
    lra.
Qed.

Lemma bezier_between target r t :
  0 <= r -> r < 1 -> 0 <= t -> t <= 1 ->
  between target (bezier (control target r) target t).
Proof.
  intros Hr0 Hr1 Ht0 Ht1. unfold between. rewrite bezier_share.
  destruct (share_range r t Hr0 Hr1 Ht0 Ht1) as [Hg0 Hg1].
  set (g := 2 * (1 - t) * t * ((3 # 10) + r * (4 # 10)) + t * t) in *.
  destruct (Qlt_le_dec target 0) as [Hneg | Hpos].
  - right.
    assert (0 <= (- target) * g) by (apply Qmult_le_0_compat; lra).
    assert (0 <= (- target) * (1 - g)) by (apply Qmult_le_0_compat; lra).
    assert (- target * g == - (target * g)) as E1 by ring.
    assert (- target * (1 - g) == target * g - target) as E2 by ring.
    lra.
  - left.
    assert (0 <= target * g) by (apply Qmult_le_0_compat; lra).
    assert (0 <= target * (1 - g)) by (apply Qmult_le_0_compat; lra).
    assert (target * (1 - g) == target - target * g) as E2 by ring.
    lra.
Qed.

Lemma fraction_range (i : nat) (n : Z) :
  (0 < n)%Z -> (Z.of_nat i <= n)%Z ->
  0 <= inject_Z (Z.of_nat i) / inject_Z n /\ inject_Z (Z.of_nat i) / inject_Z n <= 1.
Proof.
  intros Hn Hi.
  assert (0 < inject_Z n) by (change 0 with (inject_Z 0); rewrite <- Zlt_Qlt; exact Hn).
  assert (0 <= inject_Z (Z.of_nat i))
    by (change 0 with (inject_Z 0); rewrite <- Zle_Qle; lia).
  assert (inject_Z (Z.of_nat i) <= inject_Z n) by (rewrite <- Zle_Qle; exact Hi).
  split.
  - apply Qle_shift_div_l; [assumption | lra].
  - apply Qle_shift_div_r; [assumption | lra].
Qed.

End HumanizeFacts.

(** X28.  With each value of [Math.random()] in [0, 1), over exact
    arithmetic: [humanMouseMove] moves the pointer between 11 and 25
    times; the first position is the origin, the last is the target
    itself, and every position in between lies, in each coordinate,
    between the origin and the target: the path never leaves the
    rectangle they span. *)
Theorem mouse_path_stays_between_origin_and_target (r0 r1 r2 x y : Q) :
  (0 <= r0)%Q -> (r0 < 1)%Q -> (0 <= r1)%Q -> (r1 < 1)%Q -> (0 <= r2)%Q -> (r2 < 1)%Q ->
  let path := Humanize.humanMouseMove r0 r1 r2 x y in
  (11 <= length path <= 25)%nat
  /\ (exists p, head path = Some p /\ (fst p == 0)%Q /\ (snd p == 0)%Q)
  /\ (exists p, last path = Some p /\ (fst p == x)%Q /\ (snd p == y)%Q)
  /\ Forall (fun p => Humanize.between x (fst p) /\ Humanize.between y (snd p)) path.
Proof.
  intros H00 H01 H10 H11 H20 H21 path. subst path. unfold Humanize.humanMouseMove.
  cbv zeta. pose proof (steps_range r0 H00 H01) as Hn.
  set (n := Humanize.steps r0) in *.
  split; [rewrite length_map, length_seq; lia |].
  split.
  { eexists. split; [reflexivity |]. cbn [fst snd].
    assert (inject_Z (Z.of_nat 0) / inject_Z n == 0)%Q as E
      by (unfold Qdiv; change (inject_Z (Z.of_nat 0)) with 0%Q; ring).
    unfold Humanize.bezier. cbv zeta. rewrite E. split; ring. }
  split.
  { rewrite seq_S, map_app. cbn [map]. rewrite last_snoc.
    eexists. split; [reflexivity |]. cbn [fst snd]. rewrite Nat.add_0_l.
    assert (inject_Z (Z.of_nat (Z.to_nat n)) / inject_Z n == 1)%Q as E.
    { rewrite Z2Nat.id by lia. apply Qmult_inv_r.
      intros H. unfold Qeq in H. simpl in H. lia. }
    unfold Humanize.bezier. cbv zeta. rewrite E. split; ring. }
  apply List.Forall_forall. intros p Hp.
  apply in_map_iff in Hp as (i & <- & Hi). apply in_seq in Hi. cbn [fst snd].
  destruct (fraction_range i n) as [Ht0 Ht1]; [lia | lia |].
  split; apply bezier_between; assumption.
Qed.

Lemma mouse_path_stays_between_origin_and_target_witness :
  let path := Humanize.humanMouseMove (1 # 2) (1 # 4) (3 # 4) 300 (-120) in
  length path = 18%nat
  /\ Forall (fun p => Humanize.between 300 (fst p) /\ Humanize.between (-120) (snd p))
            path.
Proof.
  intros path.
  destruct (mouse_path_stays_between_origin_and_target (1 # 2) (1 # 4) (3 # 4) 300 (-120))
    as (_ & _ & _ & Hall); try (vm_compute; congruence); try reflexivity.
  split; [reflexivity | exact Hall].
Defined.
